(* ===== verification/_CoqProject ===== *)
-Q . S2P
Prelude.v
Errors.v
Config.v
CryptoLib.v
Codec.v
Concrete.v
Mdb.v
MemDb.v
Packets.v
Text.v
TxBase.v
TxUser.v
TxSystem.v
Block.v
TxTypes.v
Float.v
Fees.v
Address.v
Program.v
Containers.v
Upnp.v
Console.v
Colors.v
Lmdb.v
LmdbTyped.v
Storage.v
Chain.v
Staking.v
Forms.v
Json.v
JsonTypes.v
JsonNet.v
Http.v
Aes.v
Signals.v
Validator.v
Lifecycle.v
Ledger.v
Peers.v
Process.v
ProcessSpecs.v
Restart.v
Zmq.v
Threads.v
Node.v
NodeSpecs.v
Network.v
PeerRestart.v
SeedNode.v
Printers.v
Cli.v
SeedMain.v
SelfTests.v
Services.v
