(* ===== verification/Prelude.v ===== *)
(** * TurtleCoin v2: verification of the core library

    This library models the part of TurtleCoin v2 that decides what is a valid
    transaction, a valid block and a valid chain, how the chain is stored, and
    how a node talks to its peers: a shallow embedding of the C++ sources under [src/include] and [src/src],
    with the theorems that make each part correct.  The root file also holds
    what all files share: machine integers, containers in iteration order, the
    option reader monad, and the automation.

    ** The program and the files

    - [Errors.v] - [src/errors/errors.h], [errors.cpp]: [ErrorCode] and the class
      [Error].  Errors compare by their code, so elsewhere a returned [Error] is
      its code.
    - [Config.v] - [include/config.h]: the constants, in the source's namespaces.
    - [CryptoLib.v] - the cryptography and the byte serializer come from the
      submodule [external/crypto], which is not in the tree.  They are the class
      [CryptoLib], an argument of every definition; the documented behaviour
      that some theorems need is in [CodecLaws] (reading back what was written),
      [DedupeLaws], [SignatureLaws], [KeyOrderLaws] and [Base58Laws].
    - [Codec.v] - [include/serializable.h]: the interface [ISerializable], its
      promise [RoundTrip] and the tactic [codec] that proves a structure's round
      trip from those of its parts.
    - [Concrete.v] - [toy_crypto], an executable instance that satisfies all
      these laws, for the witnesses only.
    - [TxBase.v] - [include/blockchain/base_types.h]: the parts transactions
      inherit from.  [TxUser.v] - [transaction_normal.h], [transaction_stake.h],
      [transaction_recall_stake.h], each in its uncommitted and committed form,
      with mining.  [TxSystem.v] - [transaction_genesis.h],
      [transaction_staker.h], [transaction_stake_refund.h].  [Block.v] -
      [block.h]: signing and validation included.  [TxTypes.v] - [include/types.h]:
      the variants and the visits on them.
    - [Float.v], [Fees.v] - [src/common/network_fees.cpp], with the roundings of
      [double] and [float].  [Address.v] - [src/common/address.cpp].
    - [Program.v] - programs on a state with exceptions, undefined behaviour and
      loops with fuel, and the assertion [runs] that excludes the last two.
    - [Mdb.v] - the C library LMDB as the class [MDB], with its documented
      behaviour as [MDBLaws] and [MDBCursorLaws].  [MemDb.v] - an instance of
      all three for the witnesses.  [Lmdb.v] - [src/database/db_lmdb.h],
      [db_lmdb.cpp]: the wrapper, with its growing map and its retries.
      [LmdbTyped.v] - the overloads of the header for structures and integers,
      and cursors.
    - [Process.v], [ProcessSpecs.v] - how these objects come to be: the registries
      called [instances], [LMDB::instance], [open_database] and the constructors
      of the storage, the staking engine and the peer database.
    - [Storage.v] - [src/core/blockchain_storage.cpp]; [Chain.v] - its states as a
      state machine.  [Staking.v] -
      [include/staking/candidate.h], [stake.h], [src/core/staking_engine.cpp].
      [Validator.v] - [src/core/transaction_validator.cpp].  [Lifecycle.v] - the
      validator, the fees and the storage along the life of a transaction;
      [Ledger.v] - the validator and the storage over every history of blocks;
      [Restart.v] - the storage and the process across a restart.
    - [Json.v] - JSON documents as sequences of calls on a writer, the macros of
      [json_helper.h] (submodule) as the class [JsonLib], and the logic of parts
      that the round trips are proved with.  [JsonTypes.v] - the JSON forms of
      transactions, blocks and staking records.  [JsonNet.v] - those of the
      network structures and of errors.  [Http.v] -
      [src/networking/http_server.cpp], [http_client.cpp] over cpp-httplib.
    - [Forms.v] - the constructors from bytes and digits, [to_string], the
      interface [IStorable] and the comparisons.  [Aes.v] -
      [src/utilities/aes_helper.cpp].  [Signals.v] - [include/tools/signal_handler.h].
    - [Packets.v] - [include/network]: IP addresses, peer entries, the packets
      and the envelope; the address parser (submodule [external/ipv6-parse]) is
      the class [IPParser].  [Text.v] - [src/utilities/utilities.cpp]: strings
      and host names.  [Console.v] - [src/utilities/console.cpp], the tables and
      the log levels.  [Colors.v] - [src/utilities/colors.cpp], the colors of a
      Windows console.
    - [Containers.v] - [include/tools/thread_safe_queue.h] and its siblings.
    - [Upnp.v] - [src/networking/upnp.cpp] over miniupnpc, the class [MiniUPnP].
      [Zmq.v] - [src/networking/zmq_shared.cpp], [zmq_server.cpp],
      [zmq_client.cpp], [zmq_publisher.cpp], [zmq_subscriber.cpp] over ZeroMQ,
      the class [ZmqLib]; [ZmqRouting] is what a router socket promises.
      [Threads.v] - the two threads of the server with their locks, interleaved.
    - [Peers.v] - [src/p2p/peer_database.cpp] over the wrapper.  [Node.v] -
      [src/p2p/p2p_node.cpp]: handlers, poller, connection manager, start and
      stop, over all of these.  [NodeSpecs.v] - the lemmas and theorems on it.
      [Network.v] - two nodes at the ends of a connection.  [PeerRestart.v] - the
      node and its peer database across a restart.
    - [SeedNode.v] - [src/src/seed_node/node.cpp]: the console commands of a node.
      [Printers.v] - the stream operators of all structures.
      [Cli.v] - [src/utilities/cli_helper.cpp], [include/ascii.h] and the logger.
      [SeedMain.v] - the seed node from its command line to its end.  [SelfTests.v] -
      the tests of structures, addresses and the cipher in [src/src/tests], and
      [Services.v] - the threads of the ZeroMQ programs there.
    A transaction comes from a wallet in its uncommitted form.  The validator
    checks it ([TxUser.v], [Fees.v]) and asks the storage for its ring and its
    key images; a block collects committed transactions by hash, is signed by a
    producer and validators, and goes with its transactions to the storage, which
    writes six databases in one LMDB transaction through the wrapper.  The node
    takes messages from the queues of its ZeroMQ server and clients, reads a
    packet from each, updates the peer database and its set of completed
    handshakes, and answers through the server; what the threads of the node do
    is a sequence of the actions of [node_step].

    ** State and operations

    A structure is a record with the source's members; inheritance is a
    coercion to the part.  A [std::set] or [std::map] whose order is serialized
    is a list in iteration order ([sorted_insert] below).  A method that only
    computes is a function, and [None] is an exception.  A method that uses the
    database is a program: [env_prog] on the environment object, [txn_prog] on it
    together with an open transaction; [scoped] opens one, runs a body and
    destroys it at the end of the scope, whichever way the body ends.  A jump
    back to [try_again] is a [None] of the body and the loop [try_again].  A
    local variable that the source leaves uninitialized is the argument
    [indeterminate], for every value of which the theorems hold.

    ** What the theorems show

    - Consensus safety ([Validator.v], [Storage.v]): once a block is stored no
      transaction with one of its key images validates again; [validate] and
      [check] succeed exactly when their conditions hold, without undefined
      behaviour.  Over every sequence of calls of [validate] and [put_block] that
      stores what was found valid, no two blocks spend the same key image
      ([Ledger.v]); two transactions of one block can, since neither call looks
      at that ([block_spends_twice]).
    - Atomicity and refinement ([Lmdb.v], [Storage.v], [Staking.v]): whatever the
      engine answers to each call, a put, a deletion, a stored or deleted block
      and a registration end, and either perform one abstract update of the
      committed contents (a finite map) or leave it alone, with no transaction
      open.  The predicate [at_rest] is the environment between operations.
    - The chain as a state machine ([Chain.v]): in every state that storing, deleting
      and rewinding can reach, the tables of indexes and timestamps name stored
      blocks that have them.
    - Function of the queries: existence, lookups by hash, index and time, and
      counting, against the same abstract contents.
    - Blocks ([Block.v]): signing then validating succeeds; validation accepts
      exactly the well-signed blocks; digests do not depend on later signatures
      or on the order in which hashes were appended.
    - Transactions: the construction checks as equivalences, the identity of the
      two forms, mining, and round trips of all serialized structures, in bytes
      and in JSON.
    - Typed databases ([LmdbTyped.v]): a database used at one type of keys and one
      of values refines a partial function, and what it holds is well typed.
    - Forms ([Forms.v]): blocks and transactions are read back from their printed
      digits; the comparisons of outputs are total orders on their hashes.
    - Opening ([ProcessSpecs.v]): the constructors keep every registered environment
      open with its databases under handles of their own, and a storage that was
      just opened satisfies the hypotheses of the theorems of [Storage.v]; when LMDB
      refuses the file the code is undefined ([storage_refused]).
    - The parts together: a transaction that was validated from a wallet is valid
      in its committed form, known once it is stored, and refused from then on
      ([Lifecycle.v]); a stored block is found, and its key images are spent, in
      the next process that opens the file ([Restart.v]); the next node has the
      identity of the last and knows its peers ([PeerRestart.v]); two nodes that
      meet learn each other and exchange data ([Network.v]).
    - The command line ([Cli.v], [SeedMain.v]): which ones end the program and how,
      and that these touch no file; a start with [--reset] knows no peers.  Sample
      runs evaluate the whole program in the kernel.  The structures test
      passes ([SelfTests.v]).
    - Printing ([Printers.v]): structures that print the same text are the same,
      but for the numbers that the operator of a candidate leaves out; on Windows
      every character gets the colors chosen last ([Colors.v]).
    - Fees and addresses: bounds, monotonicity, exact values, round trips.
    - The peer database refines a finite map, also when pruning is cut short
      ([Peers.v]); packets are read back as they were written ([Packets.v]); the
      containers refine their abstract types ([Containers.v]).
    - Messaging ([Zmq.v]): what is queued is sent, to whom it is for and in
      order; what is received is queued once; an echo server sends everything
      back to its sender only ([Services.v]).  The two threads of a server, step by
      step ([Threads.v]), never pop an empty queue and have the socket one at a
      time, but can wait for each other for ever: [server_threads_deadlock] says
      exactly when.  The node ([NodeSpecs.v]): in every
      reachable state data comes from peers with a completed handshake; handling
      ends without an exception for every message; the poller hands every waiting
      message to its handler ([polled] records the runs); a handshake adds the
      sender and the peers it names ([fed] records the runs of [add]); the
      connection manager stays within its bound.
    - The console runs the first command registered under the word that was typed,
      prints aligned tables, and in a seed node leaves the sockets and queues
      alone ([Console.v], [SeedNode.v]).
    - Behaviour that differs from what the comments ask for is stated as it is:
      [stored_records_misread], [rewind_fails_on_chain],
      [uncommitted_stake_always_refused], [block_json_loses_validators].

    ** Fuel and bounds

    [try_again] takes fuel.  A jump back needs an expansion that succeeded, so
    the map has grown by at least a byte, and a map is never larger than the
    address space ([mapsize_limit]); [mapsize_limit - B < fuel], for a map of at
    least [B] bytes, is therefore enough, and is the hypothesis of the
    theorems.  Their growth factor is between 1 and [2 ^ 20] mebibytes, so that
    the additions on [size_t] do not wrap.
    [count], and every other walk over a database or a queue ([walk] in
    [Peers.v] and [Node.v]), needs one step more than there are keys or messages;
    [settles] states that for the node.
    [mine] has its own measure, the nonces up to [UINT64_MAX].  Integers are [Z]
    with [uintw w] where the width matters and [wrap64] where the source may wrap.

    ** What is not modelled

    What is written to the log; the branches for Windows but for the colors; of
    the test programs, the benchmark and the main functions of the services that
    are driven by hand.  The operations of an open storage, staking
    engine or peer database are programs on its environment alone.  But for the server's
    ([Threads.v]), threads are modelled by the turns of their loops, which follow
    each other in any order; how long they sleep, and two turns that run at the
    same time, are not.  A method that holds a mutex is one
    step.  The template members that do not
    compile when they are used are left out.
*)

From Stdlib Require Export ZArith Lia String Sorting.Sorted.
From stdpp Require Export base gmap sets list strings.

#[global] Open Scope Z_scope.

Declare Scope turtle_scope.
Delimit Scope turtle_scope with turtle.

(** ** Byte strings and machine integers *)

Notation bytes := (list Z).

Definition UINT64_MAX : Z := 2 ^ 64 - 1.

(** [uintw w n]: the integer [n] fits an unsigned [w]-bit variable. *)
Definition uintw (w n : Z) : Prop := 0 <= n < 2 ^ w.
Notation u64 := (uintw 64).
Notation u16 := (uintw 16).

(** [size_ok l]: the length of a vector fits [size_t]; every vector of a
    running program satisfies it. *)
Definition size_ok {A} (l : list A) : Prop := u64 (Z.of_nat (List.length l)).

(** [vsize l] is [l.size()]. *)
Notation vsize l := (Z.of_nat (List.length l)).

(** Unsigned 64-bit wrap-around. *)
Definition wrap64 (n : Z) : Z := n mod 2 ^ 64.

#[global] Instance uintw_dec w n : Decision (uintw w n).
Proof. unfold uintw. apply _. Defined.

#[global] Instance size_ok_dec {A} (l : list A) : Decision (size_ok l).
Proof. unfold size_ok. apply _. Defined.

Lemma wrap64_id n : u64 n -> wrap64 n = n.
Proof. unfold uintw, wrap64. intros. apply Z.mod_small. lia. Qed.

Lemma wrap64_range n : u64 (wrap64 n).
Proof. unfold uintw, wrap64. apply Z.mod_pos_bound. lia. Qed.

Lemma size_ok_u64 {A} (l : list A) : size_ok l -> u64 (vsize l).
Proof. done. Qed.

Lemma to_nat_vsize {A} (l : list A) : Z.to_nat (vsize l) = List.length l.
Proof. apply Nat2Z.id. Qed.

(** ** Strictly sorted lists: the iteration order of [std::set] and [std::map] *)

Section SortedInsert.
Context {A B : Type} (ltb : B -> B -> bool) (key : A -> B).

(** Insertion of an element whose key is absent; an element whose key is
    present leaves the container as it is ([std::set::insert] and
    [std::map::insert] do nothing then). *)
Fixpoint sorted_insert (x : A) (l : list A) : list A :=
  match l with
  | [] => [x]
  | y :: l' =>
      if ltb (key x) (key y) then x :: l
      else if ltb (key y) (key x) then y :: sorted_insert x l'
      else l
  end.

(** [find] of the container: two keys are the same when neither is below
    the other. *)
Definition same_key (a b : B) : bool := negb (ltb a b) && negb (ltb b a).

Definition sorted_find (k : B) (l : list A) : option A :=
  List.find (fun y => same_key k (key y)) l.

Definition strictly_sorted (l : list A) : Prop :=
  StronglySorted (fun x y => ltb (key x) (key y) = true) l.

(** What the code relies on for the ordering of its keys. *)
Record strict_order_ok : Prop := {
  order_irrefl : forall a, ltb a a = false;
  order_trans : forall a b c, ltb a b = true -> ltb b c = true -> ltb a c = true;
  order_total : forall a b, ltb a b = false -> ltb b a = false -> a = b
}.

Hypothesis Hord : strict_order_ok.

Lemma same_key_spec a b : same_key a b = true <-> a = b.
Proof using Hord.
  unfold same_key. rewrite andb_true_iff, !negb_true_iff. split.
  - intros [H1 H2]. by apply (order_total Hord).
  - intros ->. by rewrite (order_irrefl Hord).
Qed.

Lemma sorted_insert_Forall (P : A -> Prop) x l :
  P x -> Forall P l -> Forall P (sorted_insert x l).
Proof using.
  intros Hx Hl. induction Hl as [|y l Hy Hl IH]; simpl; [by constructor|].
  repeat case_match; repeat constructor; auto.
Qed.

Lemma sorted_insert_sorted x l :
  strictly_sorted l -> strictly_sorted (sorted_insert x l).
Proof using Hord.
  unfold strictly_sorted.
  induction 1 as [|y l Hl IH Hy]; simpl; [by repeat constructor|].
  destruct (ltb (key x) (key y)) eqn:E1; [|destruct (ltb (key y) (key x)) eqn:E2].
  - constructor; [by constructor|]. constructor; [done|].
    eapply Forall_impl; [exact Hy|]. simpl. intros z Hz.
    by eapply (order_trans Hord).
  - constructor; [done|]. by apply sorted_insert_Forall.
  - by constructor.
Qed.

Lemma elem_of_sorted_insert x y l :
  y ∈ sorted_insert x l -> y = x \/ y ∈ l.
Proof using.
  induction l as [|z l IH]; simpl.
  - rewrite list_elem_of_singleton. auto.
  - repeat case_match; rewrite ?elem_of_cons; intuition auto.
Qed.

Lemma sorted_insert_keeps x y l : y ∈ l -> y ∈ sorted_insert x l.
Proof using.
  induction l as [|z l IH]; simpl; [by intros ?%elem_of_nil|].
  repeat case_match; rewrite ?elem_of_cons; intuition auto.
Qed.

Lemma sorted_insert_has x l :
  exists y, y ∈ sorted_insert x l /\ key y = key x.
Proof using Hord.
  induction l as [|z l IH]; simpl.
  - exists x. by rewrite list_elem_of_singleton.
  - destruct (ltb (key x) (key z)) eqn:E1; [|destruct (ltb (key z) (key x)) eqn:E2].
    + exists x. rewrite elem_of_cons. auto.
    + destruct IH as (y & ? & ?). exists y. rewrite elem_of_cons. auto.
    + exists z. rewrite elem_of_cons. split; [auto|]. symmetry. by apply (order_total Hord).
Qed.

Lemma sorted_find_Some k l y :
  sorted_find k l = Some y -> y ∈ l /\ key y = k.
Proof using Hord.
  unfold sorted_find. intros [Hin Hk]%find_some.
  apply same_key_spec in Hk. rewrite list_elem_of_In. auto.
Qed.

Lemma sorted_find_None k l :
  sorted_find k l = None <-> (forall y, y ∈ l -> key y <> k).
Proof using Hord.
  unfold sorted_find. split.
  - intros Hf y Hy%list_elem_of_In. eapply find_none in Hf; [|exact Hy].
    simpl in Hf. intros <-. by rewrite (proj2 (same_key_spec _ _) eq_refl) in Hf.
  - intros Hall. destruct (List.find _ l) as [y|] eqn:E; [|done].
    apply find_some in E as [Hin Hk]. apply same_key_spec in Hk.
    exfalso. apply (Hall y); [by apply list_elem_of_In|done].
Qed.

(** Inserting a key above all the others appends it, so re-inserting a
    container's elements in their order rebuilds it. *)
Lemma sorted_insert_last x l :
  Forall (fun y => ltb (key y) (key x) = true) l -> sorted_insert x l = l ++ [x].
Proof using Hord.
  induction 1 as [|y l Hy Hl IH]; simpl; [done|].
  destruct (ltb (key x) (key y)) eqn:E.
  - pose proof (order_trans Hord _ _ _ Hy E) as Hc.
    by rewrite (order_irrefl Hord) in Hc.
  - by rewrite Hy, IH.
Qed.

(** Inserting a key that is present changes nothing. *)
Lemma sorted_insert_present x y l :
  strictly_sorted l -> y ∈ l -> key y = key x -> sorted_insert x l = l.
Proof using Hord.
  induction 1 as [|z l Hs IH Hz]; intros Hin Hk; [by apply elem_of_nil in Hin|].
  simpl. apply elem_of_cons in Hin as [->|Hin].
  - by rewrite Hk, (order_irrefl Hord).
  - rewrite Forall_forall in Hz. specialize (Hz _ Hin). rewrite Hk in Hz.
    destruct (ltb (key x) (key z)) eqn:E.
    + pose proof (order_trans Hord _ _ _ E Hz) as Hc. by rewrite (order_irrefl Hord) in Hc.
    + by rewrite Hz, IH.
Qed.

Lemma fold_sorted_insert l acc :
  strictly_sorted (acc ++ l) ->
  fold_left (fun c x => sorted_insert x c) l acc = acc ++ l.
Proof using Hord.
  revert acc. induction l as [|x l IH]; intros acc Hs; simpl; [by rewrite app_nil_r|].
  rewrite sorted_insert_last.
  - rewrite IH; rewrite <- app_assoc; done.
  - clear IH. unfold strictly_sorted in Hs. apply Forall_forall. intros y Hy.
    induction acc as [|z acc IH]; [by apply elem_of_nil in Hy|].
    inversion Hs as [|? ? Hs' Hall]; subst. apply elem_of_cons in Hy as [->|Hy]; [|auto].
    rewrite Forall_forall in Hall. apply Hall. apply elem_of_app. right. by left.
Qed.

Lemma fold_sorted_insert_sorted l acc :
  strictly_sorted acc -> strictly_sorted (fold_left (fun c x => sorted_insert x c) l acc).
Proof using Hord.
  revert acc. induction l as [|x l IH]; intros acc Hs; simpl; [done|].
  by apply IH, sorted_insert_sorted.
Qed.

(** A strictly sorted list is determined by its elements. *)
Lemma strictly_sorted_ext l1 l2 :
  strictly_sorted l1 -> strictly_sorted l2 ->
  (forall x, x ∈ l1 <-> x ∈ l2) -> l1 = l2.
Proof using Hord.
  unfold strictly_sorted. intros H1. revert l2.
  induction H1 as [|x l1 Hs1 IH Hx]; intros l2 H2 Hext.
  - destruct l2 as [|y l2]; [done|]. exfalso.
    apply (not_elem_of_nil y). apply Hext. by left.
  - destruct H2 as [|y l2 Hs2 Hy].
    + exfalso. apply (not_elem_of_nil x). apply Hext. by left.
    + rewrite Forall_forall in Hx. rewrite Forall_forall in Hy.
      assert (x = y) as ->.
      { assert (x ∈ y :: l2) as [->|Hin]%elem_of_cons by (apply Hext; by left); [done|].
        assert (y ∈ x :: l1) as [->|Hin']%elem_of_cons by (apply Hext; by left); [done|].
        exfalso. specialize (Hx _ Hin'). specialize (Hy _ Hin).
        pose proof (order_trans Hord _ _ _ Hx Hy) as Hc.
        by rewrite (order_irrefl Hord) in Hc. }
      f_equal. apply IH; [done|]. intros z. split; intros Hz.
      * assert (z ∈ y :: l2) as [->|]%elem_of_cons by (apply Hext; by right); [|done].
        specialize (Hx _ Hz). by rewrite (order_irrefl Hord) in Hx.
      * assert (z ∈ y :: l1) as [->|]%elem_of_cons by (apply Hext; by right); [|done].
        specialize (Hy _ Hz). by rewrite (order_irrefl Hord) in Hy.
Qed.
End SortedInsert.

(** With the identity key (a [std::set]) insertion adds exactly the element. *)
Section SortedSet.
Context {A : Type} (ltb : A -> A -> bool) (Hord : strict_order_ok ltb).

Lemma elem_of_set_insert x y l : y ∈ sorted_insert ltb id x l <-> y = x \/ y ∈ l.
Proof using Hord.
  split; [apply elem_of_sorted_insert|]. intros [->|?]; [|by apply sorted_insert_keeps].
  destruct (sorted_insert_has ltb id Hord x l) as (z & Hz & Hk). unfold id in Hk. by subst.
Qed.

Lemma elem_of_set_inserts y l acc :
  y ∈ fold_left (fun c x => sorted_insert ltb id x c) l acc <-> y ∈ l \/ y ∈ acc.
Proof using Hord.
  revert acc. induction l as [|x l IH]; intros acc; simpl.
  - rewrite elem_of_nil. tauto.
  - rewrite IH, elem_of_set_insert, elem_of_cons. tauto.
Qed.
End SortedSet.
