(* ===== verification/Errors.v ===== *)
(** * Error codes and the [Error] class

    [src/src/errors/errors.h] and [errors.cpp].  The enumeration keeps the
    source's constructors; [static_cast<ErrorCode>] of an [int] that is not an
    enumerator (LMDB returns system [errno] values too) is [UNNAMED].  Errors
    are compared by their numeric code only, so everywhere else in the
    development a returned [Error] is its [ErrorCode]. *)

From S2P Require Import Prelude.

Inductive ErrorCode : Set :=
  | SUCCESS | JSON_PARSE_ERROR | UPNP_FAILURE | UPNP_NOT_SUPPORTED | ZMQ_CONNECT_ERROR
  | ZMQ_BIND_ERROR | ZMQ_GENERIC_ERROR | P2P_SEED_CONNECT | P2P_DUPE_CONNECT
  | HTTP_BODY_REQUIRED_BUT_NOT_FOUND | PEERLIST_ADD_FAILURE | BASE58_DECODE
  | ADDRESS_PREFIX_MISMATCH | ADDRESS_DECODE | DB_EMPTY | DB_BLOCK_NOT_FOUND
  | DB_TRANSACTION_NOT_FOUND | DB_TRANSACTION_OUTPUT_NOT_FOUND | BLOCK_TXN_ORDER
  | BLOCK_TXN_MISMATCH | UNKNOWN_TRANSACTION_TYPE | TX_NOT_FOUND | TX_INVALID_VERSION
  | TX_KEY_IMAGE_ALREADY_EXISTS | TX_DUPLICATE_KEY_IMAGE | TX_INVALID_KEY_IMAGE
  | TX_MINIMUM_POW | TX_LOW_FEE | TX_MISSING_FEE | TX_EXTRA_TOO_LARGE | TX_KEYPAIR_MISMATCH
  | TX_PUBLIC_KEY | TX_SECRET_KEY | TX_STAKE_NO_AMOUNT | TX_STAKER_ID
  | TX_RECALL_VIEW_SIGNATURE | TX_RECALL_SPEND_SIGNATURE | TX_RECALL_STAKE_TX_HASH
  | TX_OUTPUT_PUBLIC_EPHEMERAL | TX_OUTPUT_AMOUNT | TX_OUTPUT_COMMITMENT | TX_OUTPUT_LOCKED
  | TX_STAKER_REWARD_AMOUNT | TX_STAKER_REWARD_ID | TX_INVALID_RANGE_PROOF
  | TX_SIG_SIZE_MISMATCH | TX_INVALID_SIGNATURE | TX_INVALID_OUTPUT_COUNT
  | TX_INVALID_INPUT_COUNT | TX_PUBLIC_VIEW_KEY_NOT_FOUND | TX_PUBLIC_SPEND_KEY_NOT_FOUND
  | TX_INVALID_PSEUDO_COMMITMENT_COUNT | TX_COMMITMENTS_DO_NOT_BALANCE
  | TX_INVALID_RING_SIGNATURE | TX_GENESIS_ALREADY_EXISTS | TX_STAKING_PUBLIC_KEYS_REUSE
  | STAKING_CANDIDATE_ALREADY_EXISTS | STAKING_CANDIDATE_NOT_FOUND
  | STAKING_CANDIDATE_AMOUNT_INVALID | STAKING_STAKER_NOT_FOUND | STAKING_STAKE_AMOUNT
  | AES_WRONG_PASSWORD | AES_DECRYPTION_ERROR | LMDB_ERROR | LMDB_EMPTY | LMDB_KEYEXIST
  | LMDB_NOTFOUND | LMDB_PAGE_NOTFOUND | LMDB_CORRUPTED | LMDB_PANIC
  | LMDB_VERSION_MISMATCH | LMDB_INVALID | LMDB_MAP_FULL | LMDB_DBS_FULL
  | LMDB_READERS_FULL | LMDB_TLS_FULL | LMDB_TXN_FULL | LMDB_CURSOR_FULL | LMDB_PAGE_FULL
  | LMDB_MAP_RESIZED | LMDB_INCOMPATIBLE | LMDB_BAD_RSLOT | LMDB_BAD_TXN | LMDB_BAD_VALSIZE
  | LMDB_BAD_DBI
  | UNNAMED (code : Z).

(** The enumerators' values: implicit ones count up from [SUCCESS = 0], the
    LMDB ones are written out. *)
Definition int_of_code (c : ErrorCode) : Z :=
  match c with
  | SUCCESS => 0 | JSON_PARSE_ERROR => 1 | UPNP_FAILURE => 2 | UPNP_NOT_SUPPORTED => 3
  | ZMQ_CONNECT_ERROR => 4 | ZMQ_BIND_ERROR => 5 | ZMQ_GENERIC_ERROR => 6
  | P2P_SEED_CONNECT => 7 | P2P_DUPE_CONNECT => 8 | HTTP_BODY_REQUIRED_BUT_NOT_FOUND => 9
  | PEERLIST_ADD_FAILURE => 10 | BASE58_DECODE => 11 | ADDRESS_PREFIX_MISMATCH => 12
  | ADDRESS_DECODE => 13 | DB_EMPTY => 14 | DB_BLOCK_NOT_FOUND => 15
  | DB_TRANSACTION_NOT_FOUND => 16 | DB_TRANSACTION_OUTPUT_NOT_FOUND => 17
  | BLOCK_TXN_ORDER => 18 | BLOCK_TXN_MISMATCH => 19 | UNKNOWN_TRANSACTION_TYPE => 20
  | TX_NOT_FOUND => 21 | TX_INVALID_VERSION => 22 | TX_KEY_IMAGE_ALREADY_EXISTS => 23
  | TX_DUPLICATE_KEY_IMAGE => 24 | TX_INVALID_KEY_IMAGE => 25 | TX_MINIMUM_POW => 26
  | TX_LOW_FEE => 27 | TX_MISSING_FEE => 28 | TX_EXTRA_TOO_LARGE => 29
  | TX_KEYPAIR_MISMATCH => 30 | TX_PUBLIC_KEY => 31 | TX_SECRET_KEY => 32
  | TX_STAKE_NO_AMOUNT => 33 | TX_STAKER_ID => 34 | TX_RECALL_VIEW_SIGNATURE => 35
  | TX_RECALL_SPEND_SIGNATURE => 36 | TX_RECALL_STAKE_TX_HASH => 37
  | TX_OUTPUT_PUBLIC_EPHEMERAL => 38 | TX_OUTPUT_AMOUNT => 39 | TX_OUTPUT_COMMITMENT => 40
  | TX_OUTPUT_LOCKED => 41 | TX_STAKER_REWARD_AMOUNT => 42 | TX_STAKER_REWARD_ID => 43
  | TX_INVALID_RANGE_PROOF => 44 | TX_SIG_SIZE_MISMATCH => 45 | TX_INVALID_SIGNATURE => 46
  | TX_INVALID_OUTPUT_COUNT => 47 | TX_INVALID_INPUT_COUNT => 48
  | TX_PUBLIC_VIEW_KEY_NOT_FOUND => 49 | TX_PUBLIC_SPEND_KEY_NOT_FOUND => 50
  | TX_INVALID_PSEUDO_COMMITMENT_COUNT => 51 | TX_COMMITMENTS_DO_NOT_BALANCE => 52
  | TX_INVALID_RING_SIGNATURE => 53 | TX_GENESIS_ALREADY_EXISTS => 54
  | TX_STAKING_PUBLIC_KEYS_REUSE => 55 | STAKING_CANDIDATE_ALREADY_EXISTS => 56
  | STAKING_CANDIDATE_NOT_FOUND => 57 | STAKING_CANDIDATE_AMOUNT_INVALID => 58
  | STAKING_STAKER_NOT_FOUND => 59 | STAKING_STAKE_AMOUNT => 60 | AES_WRONG_PASSWORD => 61
  | AES_DECRYPTION_ERROR => 62 | LMDB_ERROR => -40000 | LMDB_EMPTY => -39999
  | LMDB_KEYEXIST => -30799 | LMDB_NOTFOUND => -30798 | LMDB_PAGE_NOTFOUND => -30797
  | LMDB_CORRUPTED => -30796 | LMDB_PANIC => -30795 | LMDB_VERSION_MISMATCH => -30794
  | LMDB_INVALID => -30793 | LMDB_MAP_FULL => -30792 | LMDB_DBS_FULL => -30791
  | LMDB_READERS_FULL => -30790 | LMDB_TLS_FULL => -30789 | LMDB_TXN_FULL => -30788
  | LMDB_CURSOR_FULL => -30787 | LMDB_PAGE_FULL => -30786 | LMDB_MAP_RESIZED => -30785
  | LMDB_INCOMPATIBLE => -30784 | LMDB_BAD_RSLOT => -30783 | LMDB_BAD_TXN => -30782
  | LMDB_BAD_VALSIZE => -30781 | LMDB_BAD_DBI => -30780
  | UNNAMED z => z
  end.

(** [static_cast<ErrorCode>(code)]. *)
Definition code_of_int (z : Z) : ErrorCode :=
  match z with
  | 0 => SUCCESS | 1 => JSON_PARSE_ERROR | 2 => UPNP_FAILURE | 3 => UPNP_NOT_SUPPORTED
  | 4 => ZMQ_CONNECT_ERROR | 5 => ZMQ_BIND_ERROR | 6 => ZMQ_GENERIC_ERROR
  | 7 => P2P_SEED_CONNECT | 8 => P2P_DUPE_CONNECT | 9 => HTTP_BODY_REQUIRED_BUT_NOT_FOUND
  | 10 => PEERLIST_ADD_FAILURE | 11 => BASE58_DECODE | 12 => ADDRESS_PREFIX_MISMATCH
  | 13 => ADDRESS_DECODE | 14 => DB_EMPTY | 15 => DB_BLOCK_NOT_FOUND
  | 16 => DB_TRANSACTION_NOT_FOUND | 17 => DB_TRANSACTION_OUTPUT_NOT_FOUND
  | 18 => BLOCK_TXN_ORDER | 19 => BLOCK_TXN_MISMATCH | 20 => UNKNOWN_TRANSACTION_TYPE
  | 21 => TX_NOT_FOUND | 22 => TX_INVALID_VERSION | 23 => TX_KEY_IMAGE_ALREADY_EXISTS
  | 24 => TX_DUPLICATE_KEY_IMAGE | 25 => TX_INVALID_KEY_IMAGE | 26 => TX_MINIMUM_POW
  | 27 => TX_LOW_FEE | 28 => TX_MISSING_FEE | 29 => TX_EXTRA_TOO_LARGE
  | 30 => TX_KEYPAIR_MISMATCH | 31 => TX_PUBLIC_KEY | 32 => TX_SECRET_KEY
  | 33 => TX_STAKE_NO_AMOUNT | 34 => TX_STAKER_ID | 35 => TX_RECALL_VIEW_SIGNATURE
  | 36 => TX_RECALL_SPEND_SIGNATURE | 37 => TX_RECALL_STAKE_TX_HASH
  | 38 => TX_OUTPUT_PUBLIC_EPHEMERAL | 39 => TX_OUTPUT_AMOUNT | 40 => TX_OUTPUT_COMMITMENT
  | 41 => TX_OUTPUT_LOCKED | 42 => TX_STAKER_REWARD_AMOUNT | 43 => TX_STAKER_REWARD_ID
  | 44 => TX_INVALID_RANGE_PROOF | 45 => TX_SIG_SIZE_MISMATCH | 46 => TX_INVALID_SIGNATURE
  | 47 => TX_INVALID_OUTPUT_COUNT | 48 => TX_INVALID_INPUT_COUNT
  | 49 => TX_PUBLIC_VIEW_KEY_NOT_FOUND | 50 => TX_PUBLIC_SPEND_KEY_NOT_FOUND
  | 51 => TX_INVALID_PSEUDO_COMMITMENT_COUNT | 52 => TX_COMMITMENTS_DO_NOT_BALANCE
  | 53 => TX_INVALID_RING_SIGNATURE | 54 => TX_GENESIS_ALREADY_EXISTS
  | 55 => TX_STAKING_PUBLIC_KEYS_REUSE | 56 => STAKING_CANDIDATE_ALREADY_EXISTS
  | 57 => STAKING_CANDIDATE_NOT_FOUND | 58 => STAKING_CANDIDATE_AMOUNT_INVALID
  | 59 => STAKING_STAKER_NOT_FOUND | 60 => STAKING_STAKE_AMOUNT | 61 => AES_WRONG_PASSWORD
  | 62 => AES_DECRYPTION_ERROR | -40000 => LMDB_ERROR | -39999 => LMDB_EMPTY
  | -30799 => LMDB_KEYEXIST | -30798 => LMDB_NOTFOUND | -30797 => LMDB_PAGE_NOTFOUND
  | -30796 => LMDB_CORRUPTED | -30795 => LMDB_PANIC | -30794 => LMDB_VERSION_MISMATCH
  | -30793 => LMDB_INVALID | -30792 => LMDB_MAP_FULL | -30791 => LMDB_DBS_FULL
  | -30790 => LMDB_READERS_FULL | -30789 => LMDB_TLS_FULL | -30788 => LMDB_TXN_FULL
  | -30787 => LMDB_CURSOR_FULL | -30786 => LMDB_PAGE_FULL | -30785 => LMDB_MAP_RESIZED
  | -30784 => LMDB_INCOMPATIBLE | -30783 => LMDB_BAD_RSLOT | -30782 => LMDB_BAD_TXN
  | -30781 => LMDB_BAD_VALSIZE | -30780 => LMDB_BAD_DBI
  | z => UNNAMED z
  end.

#[global] Instance ErrorCode_eq_dec : EqDecision ErrorCode.
Proof. solve_decision. Defined.

(** ** The [Error] class *)

Record Error : Type := mkError {
  m_error_code : ErrorCode;
  m_line_number : Z;
  m_file_name : string;
  m_custom_error_message : string
}.

(** [Error(code, line_number, file_name)] and the form with a message. *)
Definition make_error (code : ErrorCode) (line : Z) (file : string) : Error :=
  mkError code line file "".

Definition make_error_msg (code : ErrorCode) (msg : string) (line : Z) (file : string) : Error :=
  mkError code line file msg.

(** The forms that take an [int]: LMDB's return codes. *)
Definition make_error_int (code : Z) (line : Z) (file : string) : Error :=
  mkError (code_of_int code) line file "".

Definition make_error_int_msg (code : Z) (msg : string) (line : Z) (file : string) : Error :=
  mkError (code_of_int code) line file msg.

(** [operator==] with a code and with an error; [!=] is its negation. *)
Definition Error_eq_code (e : Error) (code : ErrorCode) : bool :=
  (int_of_code code =? int_of_code (m_error_code e)).

Definition Error_eq (e other : Error) : bool :=
  (int_of_code (m_error_code other) =? int_of_code (m_error_code e)).

Definition Error_neq_code (e : Error) (code : ErrorCode) : bool := negb (Error_eq_code e code).

Definition Error_neq (e other : Error) : bool := negb (Error_eq e other).

(** [explicit operator bool]: an error is anything but [SUCCESS]. *)
Definition is_error (c : ErrorCode) : bool := negb (int_of_code c =? int_of_code SUCCESS).

Definition Error_bool (e : Error) : bool := is_error (m_error_code e).

Definition default_message : string :=
  "The error code supplied does not have a default message. Please create one.".

Definition Error_to_string (e : Error) : string :=
  if negb (String.eqb (m_custom_error_message e) "") then m_custom_error_message e
  else
    match m_error_code e with
    | SUCCESS => "The operation completed successfully."
    | DB_EMPTY => "The database is empty"
    | BASE58_DECODE => "Could not decode Base58 string."
    | ADDRESS_PREFIX_MISMATCH => "The address prefix did not match the expected result."
    | LMDB_ERROR =>
        "The LMDB operation failed. Please report this error as this default text should be replaced by more detailed information."
    | LMDB_EMPTY =>
        "The LMDB database appears to be empty. The database may be legitimately empty or an underlying issue persists in the database."
    | UNKNOWN_TRANSACTION_TYPE =>
        "The transaction type encountered is of an unknown type and cannot be handled."
    | BLOCK_TXN_ORDER =>
        "The transactions supplied for the DB are not in the same order as specified in the block."
    | STAKING_CANDIDATE_NOT_FOUND => "The staking candidate was not found in the database."
    | STAKING_STAKER_NOT_FOUND => "The staker was not found in the database."
    | _ => default_message
    end.

(** ** Lemmas *)

Lemma int_of_code_of_int z : int_of_code (code_of_int z) = z.
Proof. unfold code_of_int. by repeat case_match; subst. Qed.

Lemma code_of_int_inj z1 z2 : code_of_int z1 = code_of_int z2 -> z1 = z2.
Proof.
  intros H. rewrite <- (int_of_code_of_int z1), <- (int_of_code_of_int z2).
  by rewrite H.
Qed.

Lemma is_error_code_of_int z : is_error (code_of_int z) = negb (z =? 0).
Proof. unfold is_error. by rewrite int_of_code_of_int. Qed.

Lemma is_error_false_int z : is_error (code_of_int z) = false <-> z = 0.
Proof. rewrite is_error_code_of_int, negb_false_iff. apply Z.eqb_eq. Qed.

Lemma is_error_success : is_error SUCCESS = false.
Proof. done. Qed.

(** An error code that came out of [code_of_int] or is an enumerator other
    than [SUCCESS] tests as an error. *)
Lemma code_of_int_success z : code_of_int z = SUCCESS <-> z = 0.
Proof.
  split; [|by intros ->]. intros H.
  rewrite <- (int_of_code_of_int z), H. done.
Qed.

(** ** Properties *)

(** An [Error] made from a database result code keeps the code, also one
    that has no enumerator: converting it back gives the same integer, it tests
    as an error exactly when the code is not 0, two errors are equal exactly
    when their codes are, and a message that was given is the message shown. *)
Theorem result_codes_kept code code' msg msg' line line' file file' :
  int_of_code (m_error_code (make_error_int_msg code msg line file)) = code /\
  (Error_bool (make_error_int_msg code msg line file) = false <-> code = 0) /\
  (Error_eq (make_error_int_msg code msg line file)
     (make_error_int_msg code' msg' line' file') = true <-> code = code') /\
  (msg <> EmptyString -> Error_to_string (make_error_int_msg code msg line file) = msg).
Proof.
  split; [apply int_of_code_of_int|]. split; [apply is_error_false_int|]. split.
  - unfold Error_eq. cbn. rewrite !int_of_code_of_int, Z.eqb_eq. split; congruence.
  - intros Hm. unfold Error_to_string. cbn. by rewrite (proj2 (String.eqb_neq _ _) Hm).
Qed.

(** ** Witness *)

Lemma result_codes_kept_witness :
  Error_to_string (make_error_int_msg (-30792) "MDB_MAP_FULL" 12 "db_lmdb.cpp") = "MDB_MAP_FULL"%string.
Proof. apply (result_codes_kept (-30792) 0 "MDB_MAP_FULL" "" 12 0 "db_lmdb.cpp" ""). discriminate. Defined.
