(* ===== verification/Config.v ===== *)
(** * Configuration constants

    [src/include/config.h], the constants the modelled code reads.  The nested
    modules are the source's namespaces; amounts and counts are [uint64_t] or
    [size_t] values, kept as [Z]. *)

From S2P Require Import Prelude.

Module Configuration.

Definition PUBLIC_ADDRESS_PREFIX : Z := 0x6bb3b1d.

Module Version.
Definition PROJECT_NAME : string := "TurtleCoin".
Definition COPYRIGHT : string := "Copyright (c) 2021 The TurtleCoin Developers".
Definition LICENSE_URL : string := "https://github.com/turtlecoin/turtlecoin-v2/blob/master/LICENSE".
Definition MAJOR : Z := 2.
Definition MINOR : Z := 0.
Definition PATCH : Z := 0.
Definition BUILD : Z := 1.
End Version.

(** In milliseconds. *)
Definition DEFAULT_CONNECTION_TIMEOUT : Z := 2000.

(** One of the numbers 0 to 6. *)
Definition DEFAULT_LOG_LEVEL : Z := 4.

Definition DEFAULT_DATA_DIR : string := ("." ++ Version.PROJECT_NAME)%string.

Module ZMQ.
Definition SERVER_SECRET_KEY : string := "!EGQIc+DG97q$Y4DOY}.[8l!%dVf*-W{S.^.Gy&z".
End ZMQ.

Module P2P.
Definition VERSION : Z := 1.
Definition MINIMUM_VERSION : Z := 1.
Definition MAXIMUM_PEERS_EXCHANGED : Z := 250.
Definition PEER_PRUNE_TIME : Z := 86400.
Definition P2P_DEFAULT_BIND_PORT : Z := 12897.
Definition SEED_NODES : list (string * Z) :=
  [("161.35.102.211", 12897); ("128.199.32.206", 12897); ("139.59.120.178", 12897)]%string.
Definition DEFAULT_CONNECTION_COUNT : Z := vsize SEED_NODES + 8.
End P2P.

Module Consensus.
Definition REQUIRED_CANDIDACY_AMOUNT : Z := 100000.
Definition MINIMUM_STAKE_AMOUNT : Z := 100.
Definition ELECTOR_TARGET_COUNT : Z := 10.
Definition VALIDATOR_THRESHOLD : Z := 60.
End Consensus.

Module Staking.
Definition CANDIDATE_RECORD_VERSION : Z := 1.
Definition STAKER_RECORD_VERSION : Z := 1.
Definition STAKE_RECORD_VERSION : Z := 1.
End Staking.

Module Wallet.
Definition PBKDF2_ITERS : Z := 500000.
End Wallet.

Module Transaction.
Definition RING_SIZE : Z := 512.
Definition MAXIMUM_INPUTS : Z := 8.
Definition MINIMUM_OUTPUTS : Z := 2.
Definition MAXIMUM_OUTPUTS : Z := 8.
Definition MAXIMUM_EXTRA_SIZE : Z := 1024.

Module Genesis.
Definition TIMESTAMP : Z := 1633492800.
Definition AMOUNT : Z := 125506560.
Definition OUTPUT_AMOUNT : Z := AMOUNT / (RING_SIZE * 2).
Definition TX_PRIVATE_KEY_HEX : string :=
  "069a225e30af016280a14136ae94af095c269243e56d429496ba70c4f3d9440a".
Definition DESTINATION_WALLET : string :=
  "TRTL268SaKHPD4cWQLh6UTjcLdkQiGu3zbZnshsfC8ikT3q2Y4jGJRoKTUQe5wBo3rNfNSSby7zQqXTWDEZczxTYXKfGcuLW6gM".
End Genesis.

Module Fees.
Definition MINIMUM_FEE : Z := 1.
Definition CHUNK_SIZE : Z := 32.
Definition BASE_CHUNK_SIZE : Z := CHUNK_SIZE * 10.
Definition CHUNK_FEE : Z := 1.
Definition MINIMUM_POW_ZEROS : Z := 1.
Definition MAXIMUM_POW_ZEROS : Z := 16.
(** A [float]; its value is an integer. *)
Definition POW_ZERO_DISCOUNT_MULTIPLIER : Z := 2.
End Fees.

Module ProofOfWork.
Definition ITERATIONS : Z := 2048.
Definition MEMORY : Z := 1024.
Definition THREADS : Z := 1.
End ProofOfWork.
End Transaction.

End Configuration.

(** The [static_assert] of the genesis amounts. *)
Lemma genesis_amounts :
  Configuration.Transaction.Genesis.OUTPUT_AMOUNT * (Configuration.Transaction.RING_SIZE * 2) =
  Configuration.Transaction.Genesis.AMOUNT.
Proof. reflexivity. Qed.
