(* ===== verification/CryptoLib.v ===== *)
(** * The external cryptography and serialization library

    The repository takes its key types, hashes, signatures, proofs and its
    byte-level [serializer_t] / [deserializer_t] from the [external/crypto]
    submodule, whose directory is empty in the tree.  Everything of it that
    the code calls is a field of the classes below, so every definition of the
    development takes it as an argument.  The classes that end in [Laws] state
    the documented behaviour that some theorems rely on; a concrete library
    that satisfies all of them is in [Concrete.v].

    A reader is a function on the unread bytes; [None] is a C++ exception. *)

From S2P Require Import Prelude.

(** ** Readers *)

Definition reader (A : Type) : Type := bytes -> option (A * bytes).

#[global] Instance reader_ret : MRet reader := fun A a s => Some (a, s).

#[global] Instance reader_bind : MBind reader := fun A B f m s =>
  match m s with
  | Some (a, s') => f a s'
  | None => None
  end.

(** An exception thrown by the code that reads. *)
Definition reader_throw {A} : reader A := fun _ => None.

(** A [for (i = 0; i < n; ++i)] loop that reads one element per turn. *)
Fixpoint read_n {A} (n : nat) (rd : reader A) : reader (list A) :=
  match n with
  | O => mret []
  | S n' => x ← rd; l ← read_n n' rd; mret (x :: l)
  end.

(** ** Key types

    [crypto_hash_t], [crypto_public_key_t] and the other fixed-size types:
    default construction, [.empty()], [operator<], and the serializer's
    [key] and vector [key] with the reader's [key<T>] and [keyV<T>]. *)
Class Key (K : Type) : Type := {
  key_eq_dec :: EqDecision K;
  key_countable :: Countable K;
  key_default : K;
  key_empty : K -> bool;
  key_ltb : K -> K -> bool;
  put_key : K -> bytes;
  get_key : reader K;
  put_keyV : list K -> bytes;
  get_keyV : reader (list K)
}.

Class KeyLaws (K : Type) `{Key K} : Prop := {
  get_put_key : forall k r, get_key (put_key k ++ r) = Some (k, r);
  get_put_keyV : forall ks r, size_ok ks -> get_keyV (put_keyV ks ++ r) = Some (ks, r);
  key_order : strict_order_ok (key_ltb (K := K))
}.

(** ** The serializer's scalars

    [put_varint] is [serializer_t::varint]; [get_varint w] is
    [deserializer_t::varint<uintW_t>()] and [peek_varint] its peeking form for
    [uint64_t]; [put_uint64] is [uint64(v, true)], the big-endian form used for
    database keys; [get_bytes n] is [bytes(n)]. *)
Class Serializer : Type := {
  put_varint : Z -> bytes;
  get_varint : Z -> reader Z;
  peek_varint : bytes -> option Z;
  put_uint64 : Z -> bytes;
  get_uint64 : reader Z;
  put_boolean : bool -> bytes;
  get_boolean : reader bool;
  get_bytes : Z -> reader bytes
}.

Class SerializerLaws `{Serializer} : Prop := {
  get_put_varint : forall w n r,
    (w = 64 \/ w = 32 \/ w = 16) -> uintw w n -> get_varint w (put_varint n ++ r) = Some (n, r);
  get_varint_range : forall w s n r, get_varint w s = Some (n, r) -> uintw w n;
  peek_put_varint : forall n r, u64 n -> peek_varint (put_varint n ++ r) = Some n;
  get_put_uint64 : forall n r, u64 n -> get_uint64 (put_uint64 n ++ r) = Some (n, r);
  get_put_boolean : forall b r, get_boolean (put_boolean b ++ r) = Some (b, r);
  get_put_bytes : forall (bs r : bytes), size_ok bs -> get_bytes (vsize bs) (bs ++ r) = Some (bs, r)
}.

(** ** Types and operations of the cryptography *)
Class CryptoLib : Type := {
  crypto_serializer :: Serializer;
  crypto_hash_t : Type;
  crypto_public_key_t : Type;
  crypto_secret_key_t : Type;
  crypto_key_image_t : Type;
  crypto_pedersen_commitment_t : Type;
  crypto_signature_t : Type;
  crypto_hash_key :: Key crypto_hash_t;
  crypto_public_key_key :: Key crypto_public_key_t;
  crypto_secret_key_key :: Key crypto_secret_key_t;
  crypto_key_image_key :: Key crypto_key_image_t;
  crypto_pedersen_commitment_key :: Key crypto_pedersen_commitment_t;
  crypto_signature_key :: Key crypto_signature_t;
  (* the ring signature and the range proof are structures of the library *)
  crypto_clsag_signature_t : Type;
  put_clsag : crypto_clsag_signature_t -> bytes;
  get_clsag : reader crypto_clsag_signature_t;
  clsag_check_construction : crypto_clsag_signature_t -> Z -> bool;
  crypto_bulletproof_plus_t : Type;
  put_bulletproof : crypto_bulletproof_plus_t -> bytes;
  get_bulletproof : reader crypto_bulletproof_plus_t;
  bulletproof_hash : crypto_bulletproof_plus_t -> crypto_hash_t;
  bulletproof_check_construction : crypto_bulletproof_plus_t -> bool;
  (* Crypto::Hashing *)
  sha3 : bytes -> crypto_hash_t;
  sha3_hashes : list crypto_hash_t -> crypto_hash_t;
  argon2id : crypto_hash_t -> Z -> Z -> Z -> crypto_hash_t;
  leading_zeros : crypto_hash_t -> Z;
  (* points and keys *)
  crypto_Z : crypto_public_key_t;
  check_subgroup : crypto_key_image_t -> bool;
  dedupe_sort : list crypto_key_image_t -> list crypto_key_image_t;
  secret_key_to_public_key : crypto_secret_key_t -> crypto_public_key_t;
  secret_key_of_hex : string -> crypto_secret_key_t;
  hash_of_hex : string -> crypto_hash_t;
  hash_to_string : crypto_hash_t -> string;
  (* the bytes of a hash, and a hash of a vector of bytes *)
  hash_data : crypto_hash_t -> bytes;
  hash_of_bytes : bytes -> option crypto_hash_t;
  (* Crypto::Signature *)
  generate_signature : crypto_hash_t -> crypto_secret_key_t -> crypto_signature_t;
  check_signature : crypto_hash_t -> crypto_public_key_t -> crypto_signature_t -> bool;
  (* Crypto::RingCT, RangeProofs and RingSignature *)
  check_commitments_parity :
    list crypto_pedersen_commitment_t -> list crypto_pedersen_commitment_t -> Z -> bool;
  bulletproofs_plus_verify :
    crypto_bulletproof_plus_t -> list crypto_pedersen_commitment_t -> bool;
  check_ring_signature :
    crypto_hash_t -> crypto_key_image_t -> list crypto_public_key_t ->
    crypto_clsag_signature_t -> list crypto_pedersen_commitment_t -> bool;
  (* stealth addresses *)
  crypto_key_derivation_t : Type;
  crypto_scalar_t : Type;
  generate_key_derivation :
    crypto_public_key_t -> crypto_secret_key_t -> crypto_key_derivation_t;
  derivation_to_scalar : crypto_key_derivation_t -> Z -> crypto_scalar_t;
  generate_commitment_blinding_factor : crypto_scalar_t -> crypto_scalar_t;
  generate_amount_mask : crypto_scalar_t -> crypto_scalar_t;
  derive_public_key : crypto_scalar_t -> crypto_public_key_t -> crypto_public_key_t;
  toggle_masked_amount : crypto_scalar_t -> Z -> Z;
  generate_pedersen_commitment : crypto_scalar_t -> Z -> crypto_pedersen_commitment_t;
  (* CryptoNote Base58 with a checksum *)
  base58_encode_check : bytes -> string;
  base58_decode_check : string -> option bytes
}.

(** Byte formats: reading back what was written. *)
Class CodecLaws (CL : CryptoLib) : Prop := {
  serializer_laws :: SerializerLaws;
  hash_key_laws :: KeyLaws crypto_hash_t;
  public_key_laws :: KeyLaws crypto_public_key_t;
  secret_key_laws :: KeyLaws crypto_secret_key_t;
  key_image_laws :: KeyLaws crypto_key_image_t;
  pedersen_laws :: KeyLaws crypto_pedersen_commitment_t;
  signature_laws :: KeyLaws crypto_signature_t;
  get_put_clsag : forall s r, get_clsag (put_clsag s ++ r) = Some (s, r);
  get_put_bulletproof : forall p r, get_bulletproof (put_bulletproof p ++ r) = Some (p, r);
  hash_size : forall h : crypto_hash_t, List.length (put_key h) = 32%nat
}.

(** [crypto_point_vector_t::dedupe_sort] keeps one copy of each element. *)
Class DedupeLaws (CL : CryptoLib) : Prop := {
  dedupe_sort_NoDup : forall l, NoDup (dedupe_sort l);
  dedupe_sort_elem : forall l k, k ∈ dedupe_sort l <-> k ∈ l
}.

(** A signature made with a secret key checks under its public key, and is not
    the empty signature; a public key of a secret key is not the neutral point,
    secret keys being nonzero scalars, as the library generates them. *)
Class SignatureLaws (CL : CryptoLib) : Prop := {
  check_generate : forall digest sk,
    check_signature digest (secret_key_to_public_key sk) (generate_signature digest sk) = true;
  generate_nonempty : forall digest sk, key_empty (generate_signature digest sk) = false;
  public_key_not_Z : forall sk, secret_key_to_public_key sk <> crypto_Z
}.

(** A default hash is the empty one. *)
Class EmptyHashLaws (CL : CryptoLib) : Prop := {
  default_hash_empty : key_empty (key_default : crypto_hash_t) = true
}.

(** A hash is read back from its bytes. *)
Class HashDataLaws (CL : CryptoLib) : Prop := {
  hash_of_data : forall h, hash_of_bytes (hash_data h) = Some h
}.

(** A hash is read back from its hexadecimal form. *)
Class HashStringLaws (CL : CryptoLib) : Prop := {
  hash_of_to_string : forall h, hash_of_hex (hash_to_string h) = h
}.

(** Base58: decoding what was encoded. *)
Class Base58Laws (CL : CryptoLib) : Prop := {
  base58_decode_encode : forall bs, base58_decode_check (base58_encode_check bs) = Some bs
}.
