(* ===== verification/Codec.v ===== *)
(** * The serialization interface and its automation

    [ISerializable] is the interface every stored structure implements
    ([src/include/serializable.h]): [serialize] is what the structure appends to
    the writer, [deserialize] reads it back.  [RoundTrip] is what an
    implementation promises to its clients; the client structures' round trips
    are proved from their parts' instances with the [codec] tactic. *)

From S2P Require Import Prelude CryptoLib.

Class ISerializable (T : Type) : Type := {
  serialize : T -> bytes;
  deserialize : reader T
}.

Class RoundTrip (T : Type) `{ISerializable T} (wf : T -> Prop) : Prop :=
  deserialize_serialize : forall x r, wf x -> deserialize (serialize x ++ r) = Some (x, r).

(** A loop that serializes every element of a vector. *)
Definition write_all {A} (w : A -> bytes) (l : list A) : bytes := flat_map w l.

(** A vector of structures: [writer.varint(v.size())] followed by its
    elements, and the loop that reads them back. *)
Definition put_vector `{Serializer} `{ISerializable A} (l : list A) : bytes :=
  put_varint (vsize l) ++ write_all serialize l.

Definition get_vector `{Serializer} `{ISerializable A} : reader (list A) :=
  count ← get_varint 64; read_n (Z.to_nat count) deserialize.

Lemma bind_step {A B} (m : reader A) (f : A -> reader B) s a s' :
  m s = Some (a, s') -> (m ≫= f) s = f a s'.
Proof. unfold mbind, reader_bind. by intros ->. Qed.

Lemma bind_fail {A B} (m : reader A) (f : A -> reader B) s :
  m s = None -> (m ≫= f) s = None.
Proof. unfold mbind, reader_bind. by intros ->. Qed.

Lemma get_put_varint64 `{SerializerLaws} n r :
  u64 n -> get_varint 64 (put_varint n ++ r) = Some (n, r).
Proof. intros. apply get_put_varint; auto. Qed.

Lemma get_put_varint32 `{SerializerLaws} n r :
  uintw 32 n -> get_varint 32 (put_varint n ++ r) = Some (n, r).
Proof. intros. apply get_put_varint; auto. Qed.

Lemma get_put_varint16 `{SerializerLaws} n r :
  u16 n -> get_varint 16 (put_varint n ++ r) = Some (n, r).
Proof. intros. apply get_put_varint; auto. Qed.

Lemma read_n_write_all {A} (rd : reader A) (w : A -> bytes) (P : A -> Prop) l r :
  (forall x r, P x -> rd (w x ++ r) = Some (x, r)) ->
  Forall P l ->
  read_n (List.length l) rd (write_all w l ++ r) = Some (l, r).
Proof.
  intros Hrd Hl. induction Hl as [|x l Hx Hl IH]; [done|]. cbn [List.length read_n write_all flat_map].
  rewrite <- app_assoc. erewrite bind_step by (by apply Hrd).
  erewrite bind_step by (exact IH). done.
Qed.

Lemma get_put_vector `{SerializerLaws} `{RoundTrip A wf} (l : list A) r :
  size_ok l -> Forall wf l -> get_vector (put_vector l ++ r) = Some (l, r).
Proof.
  intros Hs Hl. unfold get_vector, put_vector. rewrite <- app_assoc.
  erewrite bind_step by (by apply get_put_varint64).
  rewrite to_nat_vsize. eapply read_n_write_all; [|exact Hl].
  intros. by apply deserialize_serialize.
Qed.

(** What a loop of reads gives. *)
Lemma bind_read {A B} (m : reader A) (f : A -> reader B) s b r :
  (m ≫= f) s = Some (b, r) -> exists a s', m s = Some (a, s') /\ f a s' = Some (b, r).
Proof. unfold mbind, reader_bind. destruct (m s) as [[a s']|]; [|done]. by exists a, s'. Qed.

Lemma read_n_all {A} (rd : reader A) (P : A -> Prop) n s l r :
  (forall s x r, rd s = Some (x, r) -> P x) ->
  read_n n rd s = Some (l, r) -> List.length l = n /\ Forall P l.
Proof.
  intros Hrd. revert s l r. induction n as [|n IH]; intros s l r; cbn [read_n].
  - intros [= <- _]. done.
  - intros (x & s1 & Hx & (l' & s2 & Hl & [= <- _])%bind_read)%bind_read.
    destruct (IH _ _ _ Hl) as [<- ?]. split; [done|]. constructor; eauto.
Qed.

Lemma get_vector_all `{Serializer} `{ISerializable A} (P : A -> Prop) s (l : list A) r :
  (forall s x r, deserialize s = Some (x, r) -> P x) -> get_vector s = Some (l, r) -> Forall P l.
Proof. intros HP (n & s1 & _ & Hl)%bind_read. by eapply read_n_all in Hl as [_ ?]. Qed.

Lemma Forall_anything {A} (l : list A) : Forall (fun _ => True) l.
Proof. by apply Forall_forall. Qed.

Create HintDb codec.
#[export] Hint Resolve get_put_varint64 get_put_varint32 get_put_varint16 get_put_key get_put_keyV
  get_put_boolean get_put_bytes get_put_clsag get_put_bulletproof get_put_vector
  size_ok_u64 Forall_anything : codec.
#[export] Hint Extern 0 (SerializerLaws) => (apply _) : codec.
#[export] Hint Extern 0 (KeyLaws _) => (apply _) : codec.
#[export] Hint Extern 0 (CodecLaws _) => (apply _) : codec.
#[export] Hint Extern 0 (RoundTrip _ _) => (apply _) : codec.
#[export] Hint Extern 1 (deserialize (serialize _ ++ _) = _) =>
  (eapply deserialize_serialize) : codec.

(** One read of a straight-line [deserialize]. *)
Ltac codec_step :=
  rewrite <- ?app_assoc; erewrite bind_step by (eauto with codec).

Ltac head_of t := lazymatch t with ?f _ => head_of f | _ => t end.

(** Unfold the reader and the writer of a round trip. *)
Ltac codec_unfold :=
  lazymatch goal with
  | |- ?d (?s ++ _) = _ =>
      let fd := head_of d in let fs := head_of s in unfold fd, fs
  end.

(** The round trip of a structure whose [deserialize] reads its members in the
    order [serialize] writes them. *)
Ltac codec :=
  let x := fresh "x" in let r := fresh "r" in let Hwf := fresh "Hwf" in
  intros x r; try intros Hwf; codec_unfold; destruct x;
  try (red in Hwf; cbn in Hwf); destruct_and?; cbn; repeat codec_step; try reflexivity.
