(* ===== verification/Concrete.v ===== *)
(** * A concrete library for the witnesses

    A small executable instance of the classes of [CryptoLib.v], on which the
    theorems' hypotheses are checked and the definitions evaluated.  It is not
    the [external/crypto] submodule: keys are one byte padded to 32, the hash
    is a polynomial in the bytes, a signature is a function of the digest and
    the public key.  Varints are LEB128.  The instances are local to this file,
    so that no definition of the development picks them up: a witness names
    [toy_crypto] itself. *)

From S2P Require Import Prelude CryptoLib.
From Stdlib Require Import Strings.Byte Strings.Ascii.

(** ** One-byte keys *)

Definition byte_val (b : byte) : Z := Z.of_N (Byte.to_N b).
Definition byte_of (n : Z) : byte := default x00 (Byte.of_N (Z.to_N (n mod 256))).

Lemma byte_val_range b : 0 <= byte_val b < 256.
Proof. unfold byte_val. pose proof (Byte.to_N_bounded b). lia. Qed.

Lemma byte_of_val b : byte_of (byte_val b) = b.
Proof.
  unfold byte_of. rewrite Z.mod_small by apply byte_val_range.
  unfold byte_val. by rewrite N2Z.id, Byte.of_to_N.
Qed.

Lemma byte_val_inj a b : byte_val a = byte_val b -> a = b.
Proof. intros H. by rewrite <- (byte_of_val a), <- (byte_of_val b), H. Qed.

#[global] Instance byte_eq_decision : EqDecision byte := Byte.byte_eq_dec.
#[global] Program Instance byte_countable : Countable byte :=
  inj_countable byte_val (fun z => Some (byte_of z)) _.
Next Obligation. intros b. cbn. f_equal. apply byte_of_val. Qed.

Definition toy_put_key (b : byte) : bytes := repeat 0 31 ++ [byte_val b].
Definition toy_get_key : reader byte := fun s =>
  match nth_error s 31 with
  | Some z => Some (byte_of z, skipn 32 s)
  | None => None
  end.

Lemma toy_get_put_key b r : toy_get_key (toy_put_key b ++ r) = Some (b, r).
Proof. unfold toy_get_key, toy_put_key. cbn. by rewrite byte_of_val. Qed.

(** ** LEB128 *)

Fixpoint leb_enc (fuel : nat) (n : Z) : bytes :=
  match fuel with
  | O => []
  | S f => if n <? 128 then [n] else (n mod 128 + 128) :: leb_enc f (n / 128)
  end.

Fixpoint leb_dec (fuel : nat) (s : bytes) : option (Z * bytes) :=
  match fuel, s with
  | S f, b :: s' =>
      if b <? 128 then Some (b, s')
      else match leb_dec f s' with
           | Some (n, s'') => Some (b - 128 + 128 * n, s'')
           | None => None
           end
  | _, _ => None
  end.

Lemma leb_dec_enc fuel n r :
  0 <= n < 128 ^ Z.of_nat (S fuel) -> leb_dec (S fuel) (leb_enc (S fuel) n ++ r) = Some (n, r).
Proof.
  revert n. induction fuel as [|f IH]; intros n Hn.
  - cbn in Hn. cbn. destruct (Z.ltb_spec n 128); [|lia]. cbn.
    destruct (Z.ltb_spec n 128); [done|lia].
  - change (leb_enc (S (S f)) n) with
      (if n <? 128 then [n] else (n mod 128 + 128) :: leb_enc (S f) (n / 128)).
    destruct (Z.ltb_spec n 128) as [H|H].
    + cbn. destruct (Z.ltb_spec n 128); [done|lia].
    + pose proof (Z.mod_pos_bound n 128). pose proof (Z.div_mod n 128).
      change (leb_dec (S (S f)) (((n mod 128 + 128) :: leb_enc (S f) (n / 128)) ++ r)) with
        (if n mod 128 + 128 <? 128 then Some (n mod 128 + 128, leb_enc (S f) (n / 128) ++ r)
         else match leb_dec (S f) (leb_enc (S f) (n / 128) ++ r) with
              | Some (n', s'') => Some (n mod 128 + 128 - 128 + 128 * n', s'')
              | None => None end).
      destruct (Z.ltb_spec (n mod 128 + 128) 128); [lia|].
      rewrite IH; [do 2 f_equal; lia|].
      rewrite (Nat2Z.inj_succ (S f)), Z.pow_succ_r in Hn by lia.
      split; [apply Z.div_pos; lia|apply Z.div_lt_upper_bound; lia].
Qed.

Definition toy_put_varint (n : Z) : bytes := leb_enc 10 n.
Definition toy_get_varint (w : Z) : reader Z := fun s =>
  match leb_dec 10 s with
  | Some (n, s') => if (0 <=? n) && (n <? 2 ^ w) then Some (n, s') else None
  | None => None
  end.

Lemma toy_get_put_varint w n r :
  w = 64 \/ w = 32 \/ w = 16 -> uintw w n -> toy_get_varint w (toy_put_varint n ++ r) = Some (n, r).
Proof.
  intros Hw [? Hn]. unfold toy_get_varint, toy_put_varint.
  assert (2 ^ w <= 2 ^ 64) by (destruct Hw as [-> |[-> | ->]]; vm_compute; done).
  assert (2 ^ 64 < 128 ^ Z.of_nat 10) by (vm_compute; done).
  rewrite (leb_dec_enc 9) by lia.
  destruct (Z.leb_spec 0 n), (Z.ltb_spec n (2 ^ w)); try lia. done.
Qed.

(** ** Big-endian 64-bit integers, booleans and raw bytes *)

Fixpoint be_enc (k : nat) (n : Z) : bytes :=
  match k with
  | O => []
  | S k' => be_enc k' (n / 256) ++ [n mod 256]
  end.

Definition be_val (l : bytes) : Z := fold_left (fun acc b => acc * 256 + b) l 0.

Lemma be_enc_length k n : List.length (be_enc k n) = k.
Proof. revert n. induction k; intros; cbn; [done|]. rewrite length_app, IHk. cbn. lia. Qed.

Lemma be_val_enc k n : 0 <= n < 256 ^ Z.of_nat k -> be_val (be_enc k n) = n.
Proof.
  unfold be_val. revert n. induction k as [|k IH]; intros n Hn; [cbn in *; lia|].
  rewrite Nat2Z.inj_succ, Z.pow_succ_r in Hn by lia. cbn [be_enc].
  pose proof (Z.mod_pos_bound n 256). pose proof (Z.div_mod n 256).
  rewrite fold_left_app, IH; [cbn; lia|].
  split; [apply Z.div_pos; lia|apply Z.div_lt_upper_bound; lia].
Qed.

Definition toy_get_bytes (n : Z) : reader bytes := fun s =>
  if vsize s <? n then None else Some (firstn (Z.to_nat n) s, skipn (Z.to_nat n) s).

Definition toy_get_uint64 : reader Z := fun s =>
  match toy_get_bytes 8 s with Some (l, s') => Some (be_val l, s') | None => None end.

Lemma toy_get_put_bytes (bs r : bytes) : toy_get_bytes (vsize bs) (bs ++ r) = Some (bs, r).
Proof.
  unfold toy_get_bytes. rewrite length_app, Nat2Z.id.
  destruct (Z.ltb_spec (Z.of_nat (length bs + length r)) (vsize bs)); [lia|].
  by rewrite firstn_app, firstn_all, Nat.sub_diag, firstn_O, app_nil_r,
    skipn_app, skipn_all, Nat.sub_diag.
Qed.

#[local] Instance toy_serializer : Serializer := {|
  put_varint := toy_put_varint;
  get_varint := toy_get_varint;
  peek_varint s := option_map fst (toy_get_varint 64 s);
  put_uint64 := be_enc 8;
  get_uint64 := toy_get_uint64;
  put_boolean b := [if b then 1 else 0];
  get_boolean s := match s with b :: s' => Some (negb (b =? 0), s') | [] => None end;
  get_bytes := toy_get_bytes
|}.

#[local] Instance toy_serializer_laws : SerializerLaws.
Proof.
  split.
  - intros. by apply toy_get_put_varint.
  - intros w s n r. cbn. unfold toy_get_varint. destruct (leb_dec 10 s) as [[n' r']|]; [|done].
    destruct (Z.leb_spec 0 n'), (Z.ltb_spec n' (2 ^ w)); cbn; try done. intros [= <- <-]. done.
  - intros n r Hn.
    change (option_map fst (toy_get_varint 64 (toy_put_varint n ++ r)) = Some n).
    by rewrite toy_get_put_varint by auto.
  - intros n r Hn. change (toy_get_uint64 (be_enc 8 n ++ r) = Some (n, r)).
    unfold toy_get_uint64. replace 8 with (vsize (be_enc 8 n)) by by rewrite be_enc_length.
    rewrite toy_get_put_bytes, be_val_enc; [done|]. unfold uintw in Hn. cbn. lia.
  - by intros [] r.
  - intros. apply toy_get_put_bytes.
Qed.

#[local] Instance toy_key : Key byte := {|
  key_eq_dec := byte_eq_decision;
  key_countable := byte_countable;
  key_default := x00;
  key_empty b := (byte_val b =? 0);
  key_ltb a b := (byte_val a <? byte_val b);
  put_key := toy_put_key;
  get_key := toy_get_key;
  put_keyV l := toy_put_varint (vsize l) ++ flat_map toy_put_key l;
  get_keyV := n ← toy_get_varint 64; read_n (Z.to_nat n) toy_get_key
|}.

#[local] Instance toy_key_laws : KeyLaws byte.
Proof.
  split.
  - apply toy_get_put_key.
  - intros ks r Hs. cbn [get_keyV put_keyV toy_key].
    unfold mbind, reader_bind. rewrite <- app_assoc.
    rewrite toy_get_put_varint by auto. rewrite to_nat_vsize.
    clear Hs. induction ks as [|k ks IH]; [done|]. cbn [length read_n flat_map].
    unfold mbind, reader_bind. rewrite <- app_assoc, toy_get_put_key.
    unfold mbind, reader_bind in IH. by rewrite IH.
  - split; cbn.
    + intros. lia.
    + intros. lia.
    + intros a b ? ?. apply byte_val_inj. lia.
Qed.

(** ** Hashes, signatures and the rest *)

Definition toy_sha3 (bs : bytes) : byte :=
  byte_of (fold_left (fun acc b => (acc * 31 + b + 7) mod 65521) bs 11 mod 255 + 1).

(** The leading zero bits of the one significant byte. *)
Definition toy_leading_zeros (h : byte) : Z :=
  if byte_val h =? 0 then 8 else 7 - Z.log2 (byte_val h).

Definition toy_sign (digest pk : byte) : byte :=
  byte_of ((byte_val digest * 3 + byte_val pk) mod 255 + 1).

Definition toy_public (sk : byte) : byte := if byte_val sk =? 1 then x02 else sk.

Definition toy_sum (l : list byte) : Z := fold_left (fun acc b => acc + byte_val b) l 0.

Fixpoint toy_string_of_pos (p : positive) : string :=
  match p with
  | xH => EmptyString
  | xO p' => String "0"%char (toy_string_of_pos p')
  | xI p' => String "1"%char (toy_string_of_pos p')
  end.

Fixpoint toy_pos_of_string (s : string) : positive :=
  match s with
  | EmptyString => xH
  | String c s' => if bool_decide (c = "0"%char) then xO (toy_pos_of_string s')
                   else xI (toy_pos_of_string s')
  end.

Lemma toy_pos_of_string_of_pos p : toy_pos_of_string (toy_string_of_pos p) = p.
Proof. induction p; cbn; by rewrite ?IHp. Qed.

#[local] Instance toy_crypto : CryptoLib := {|
  crypto_serializer := toy_serializer;
  crypto_hash_t := byte; crypto_public_key_t := byte; crypto_secret_key_t := byte;
  crypto_key_image_t := byte; crypto_pedersen_commitment_t := byte;
  crypto_signature_t := byte;
  crypto_hash_key := toy_key; crypto_public_key_key := toy_key;
  crypto_secret_key_key := toy_key; crypto_key_image_key := toy_key;
  crypto_pedersen_commitment_key := toy_key; crypto_signature_key := toy_key;
  crypto_clsag_signature_t := byte;
  put_clsag := toy_put_key; get_clsag := toy_get_key;
  clsag_check_construction s _ := negb (byte_val s =? 0);
  crypto_bulletproof_plus_t := byte;
  put_bulletproof := toy_put_key; get_bulletproof := toy_get_key;
  bulletproof_hash p := toy_sha3 [byte_val p];
  bulletproof_check_construction p := negb (byte_val p =? 0);
  sha3 := toy_sha3;
  sha3_hashes l := toy_sha3 (byte_val <$> l);
  argon2id h _ _ _ := h;
  leading_zeros := toy_leading_zeros;
  crypto_Z := x01;
  check_subgroup k := negb (byte_val k =? 0);
  dedupe_sort l := elements (list_to_set (C := gset byte) l);
  secret_key_to_public_key := toy_public;
  secret_key_of_hex s := toy_sha3 [Z.of_nat (String.length s)];
  hash_of_hex s := match s with
                   | String c EmptyString => byte_of_ascii c
                   | _ => toy_sha3 [Z.of_nat (String.length s)]
                   end;
  hash_to_string h := String (ascii_of_byte h) EmptyString;
  hash_data := toy_put_key;
  hash_of_bytes bs := fst <$> toy_get_key bs;
  generate_signature d sk := toy_sign d (toy_public sk);
  check_signature d pk s := bool_decide (s = toy_sign d pk);
  check_commitments_parity ps outs fee :=
    ((toy_sum ps - toy_sum outs - fee) mod 256 =? 0);
  bulletproofs_plus_verify p _ := negb (byte_val p =? 0);
  check_ring_signature _ _ pks s _ := negb (byte_val s =? 0) && negb (Nat.eqb (length pks) 0);
  crypto_key_derivation_t := Z;
  crypto_scalar_t := Z;
  generate_key_derivation pk sk := byte_val pk + byte_val sk;
  derivation_to_scalar d i := d + i;
  generate_commitment_blinding_factor s := s + 1;
  generate_amount_mask s := s + 2;
  derive_public_key s pk := byte_of (s + byte_val pk);
  toggle_masked_amount m a := Z.lxor m a;
  generate_pedersen_commitment s a := byte_of (s + a);
  base58_encode_check bs := toy_string_of_pos (encode bs);
  base58_decode_check s := decode (toy_pos_of_string s)
|}.

#[global] Instance toy_codec_laws : CodecLaws toy_crypto.
Proof.
  split; try exact _; try (apply toy_get_put_key).
  intros h. reflexivity.
Qed.

#[global] Instance toy_dedupe_laws : DedupeLaws toy_crypto.
Proof.
  split; cbn; intros; [apply NoDup_elements|].
  by rewrite elem_of_elements, elem_of_list_to_set.
Qed.

Lemma toy_sign_nonzero d pk : byte_val (toy_sign d pk) <> 0.
Proof.
  unfold toy_sign, byte_of. pose proof (Z.mod_pos_bound (byte_val d * 3 + byte_val pk) 255).
  set (m := (byte_val d * 3 + byte_val pk) mod 255) in *.
  rewrite (Z.mod_small (m + 1)) by lia.
  destruct (Byte.of_N (Z.to_N (m + 1))) as [b|] eqn:E; cbn.
  - apply Byte.to_of_N in E. unfold byte_val. rewrite E. lia.
  - apply Byte.of_N_None_iff in E. lia.
Qed.

#[global] Instance toy_signature_laws : SignatureLaws toy_crypto.
Proof.
  split; cbn; intros.
  - by apply bool_decide_eq_true.
  - apply Z.eqb_neq, toy_sign_nonzero.
  - unfold toy_public. destruct (Z.eqb_spec (byte_val sk) 1) as [|Hn]; [done|].
    intros ->. by apply Hn.
Qed.

#[global] Instance toy_empty_hash_laws : EmptyHashLaws toy_crypto.
Proof. by split. Qed.

#[global] Instance toy_hash_data_laws : HashDataLaws toy_crypto.
Proof.
  split. intros h. cbn [hash_of_bytes hash_data toy_crypto].
  by rewrite <- (app_nil_r (toy_put_key h)), toy_get_put_key.
Qed.

#[global] Instance toy_hash_string_laws : HashStringLaws toy_crypto.
Proof. split. intros h. apply byte_of_ascii_of_byte. Qed.

#[global] Instance toy_base58_laws : Base58Laws toy_crypto.
Proof. split. intros. cbn. by rewrite toy_pos_of_string_of_pos, decode_encode. Qed.
