(* ===== verification/Mdb.v ===== *)
(** * The LMDB library

    The database engine is the C library LMDB, whose source is not in the tree.
    [MDB] lists the functions of its API that the code calls, with an abstract
    environment, transaction and cursor: a call returns its result code and the
    new state of the handle.  [MDBLaws] states their documented behaviour on
    databases without duplicate keys, through the contents that an environment
    has committed and that a transaction sees. *)

From S2P Require Import Prelude.

(** ** Constants of [lmdb.h] *)

Definition MDB_SUCCESS : Z := 0.
Definition MDB_NOTFOUND : Z := -30798.
Definition MDB_MAP_FULL : Z := -30792.
Definition MDB_MAP_RESIZED : Z := -30785.
Definition MDB_RDONLY : Z := 0x20000.

Inductive MDB_cursor_op : Set :=
  | MDB_FIRST | MDB_NEXT | MDB_NEXT_DUP | MDB_SET | MDB_SET_RANGE.

(** ** The calls *)

Class MDB : Type := {
  mdb_env : Type;
  mdb_txn : Type;
  mdb_cursor : Type;
  (* environments *)
  mdb_env_set_mapsize : mdb_env -> Z -> Z * mdb_env;
  mdb_env_info : mdb_env -> Z * Z;
  mdb_env_stat : mdb_env -> Z * Z;
  mdb_env_sync : mdb_env -> bool -> Z * mdb_env;
  mdb_env_get_flags : mdb_env -> Z * Z;
  mdb_env_set_flags : mdb_env -> Z -> bool -> Z * mdb_env;
  mdb_env_get_maxkeysize : mdb_env -> Z;
  mdb_env_get_maxreaders : mdb_env -> Z * Z;
  (* transactions *)
  mdb_txn_begin : mdb_env -> Z -> Z * mdb_env * mdb_txn;
  mdb_txn_commit : mdb_env -> mdb_txn -> Z * mdb_env;
  mdb_txn_abort : mdb_env -> mdb_txn -> mdb_env;
  mdb_txn_renew : mdb_txn -> Z * mdb_txn;
  mdb_txn_id : mdb_txn -> Z;
  mdb_put : mdb_txn -> Z -> bytes -> bytes -> Z -> Z * mdb_txn;
  mdb_get : mdb_txn -> Z -> bytes -> Z * bytes;
  mdb_del : mdb_txn -> Z -> bytes -> option bytes -> Z * mdb_txn;
  mdb_drop : mdb_txn -> Z -> bool -> Z * mdb_txn;
  (* cursors *)
  mdb_cursor_open : mdb_txn -> Z -> Z * mdb_cursor;
  mdb_cursor_get : mdb_cursor -> bytes -> MDB_cursor_op -> Z * bytes * bytes * mdb_cursor
}.

(** ** Documented behaviour *)

Notation contents := (gmap (Z * bytes) bytes).

(** [memcmp] order of keys. *)
Fixpoint bytes_lt (a b : bytes) : bool :=
  match a, b with
  | _, [] => false
  | [], _ :: _ => true
  | x :: a', y :: b' => (x <? y) || ((x =? y) && bytes_lt a' b')
  end.

Definition bytes_le (a b : bytes) : bool := negb (bytes_lt b a).

Class MDBLaws (M : MDB) : Type := {
  (* what is committed, what a transaction sees, the size of the map *)
  env_contents : mdb_env -> contents;
  txn_contents : mdb_txn -> contents;
  env_mapsize : mdb_env -> Z;
  page_size : Z;
  (* no address space is larger *)
  mapsize_limit : Z;
  page_size_range : 1 <= page_size <= 2 ^ 16;
  mapsize_range : forall e, 0 <= env_mapsize e <= mapsize_limit;
  mapsize_limit_range : mapsize_limit <= 2 ^ 62;
  stat_ok : forall e, mdb_env_stat e = (MDB_SUCCESS, page_size);
  info_ok : forall e, mdb_env_info e = (MDB_SUCCESS, env_mapsize e);
  set_mapsize_ok : forall e n r e', mdb_env_set_mapsize e n = (r, e') ->
    env_contents e' = env_contents e /\
    (r = MDB_SUCCESS -> 0 < n -> n <= env_mapsize e') /\
    (r = MDB_SUCCESS -> n = 0 -> env_mapsize e <= env_mapsize e') /\
    (r <> MDB_SUCCESS -> env_mapsize e' = env_mapsize e);
  begin_ok : forall e flags r e' t, mdb_txn_begin e flags = (r, e', t) ->
    env_contents e' = env_contents e /\ env_mapsize e' = env_mapsize e /\
    (r = MDB_SUCCESS -> txn_contents t = env_contents e);
  commit_ok : forall e t r e', mdb_txn_commit e t = (r, e') ->
    env_mapsize e' = env_mapsize e /\
    env_contents e' = if decide (r = MDB_SUCCESS) then txn_contents t else env_contents e;
  abort_ok : forall e t,
    env_contents (mdb_txn_abort e t) = env_contents e /\
    env_mapsize (mdb_txn_abort e t) = env_mapsize e;
  put_ok : forall t d k v t', mdb_put t d k v 0 = (MDB_SUCCESS, t') ->
    txn_contents t' = <[(d, k) := v]> (txn_contents t);
  get_ok : forall t d k,
    match txn_contents t !! (d, k) with
    | Some v => mdb_get t d k = (MDB_SUCCESS, v)
    | None => fst (mdb_get t d k) <> MDB_SUCCESS
    end;
  (* without duplicate keys the data argument is ignored *)
  del_ok : forall t d k data t', mdb_del t d k data = (MDB_SUCCESS, t') ->
    is_Some (txn_contents t !! (d, k)) /\
    txn_contents t' = delete (d, k) (txn_contents t)
}.

(** A cursor walks the pairs of its database in the order of the keys. *)
Class MDBCursorLaws (M : MDB) `{!MDBLaws M} : Type := {
  cursor_items : mdb_cursor -> list (bytes * bytes);
  cursor_next : mdb_cursor -> nat;
  cursor_open_ok : forall t d r c, mdb_cursor_open t d = (r, c) -> r = MDB_SUCCESS ->
    (forall k v, (k, v) ∈ cursor_items c <-> txn_contents t !! (d, k) = Some v) /\
    StronglySorted (fun p q => bytes_lt (fst p) (fst q) = true) (cursor_items c);
  cursor_first_ok : forall c k, exists c',
    cursor_items c' = cursor_items c /\
    match cursor_items c with
    | [] => exists r k' v', mdb_cursor_get c k MDB_FIRST = (r, k', v', c') /\ r <> MDB_SUCCESS
    | p :: _ => mdb_cursor_get c k MDB_FIRST = (MDB_SUCCESS, fst p, snd p, c') /\ cursor_next c' = 1%nat
    end;
  cursor_next_ok : forall c k, exists c',
    cursor_items c' = cursor_items c /\
    match cursor_items c !! cursor_next c with
    | None => exists r k' v', mdb_cursor_get c k MDB_NEXT = (r, k', v', c') /\ r <> MDB_SUCCESS
    | Some p =>
        mdb_cursor_get c k MDB_NEXT = (MDB_SUCCESS, fst p, snd p, c') /\
        cursor_next c' = S (cursor_next c)
    end;
  cursor_set_range_ok : forall c k, exists c',
    cursor_items c' = cursor_items c /\
    match List.find (fun p => bytes_le k (fst p)) (cursor_items c) with
    | None => exists k' v', mdb_cursor_get c k MDB_SET_RANGE = (MDB_NOTFOUND, k', v', c')
    | Some p => mdb_cursor_get c k MDB_SET_RANGE = (MDB_SUCCESS, fst p, snd p, c')
    end
}.

(** ** Key order *)

Lemma bytes_lt_order : strict_order_ok bytes_lt.
Proof.
  split.
  - induction a as [|x a IH]; [done|]. cbn. rewrite IH, Z.ltb_irrefl, andb_false_r. done.
  - induction a as [|x a IH]; intros [|y b] [|z c]; try done. cbn.
    rewrite !orb_true_iff, !andb_true_iff, !Z.ltb_lt, !Z.eqb_eq.
    intros [H1|[-> H1]] [H2|[-> H2]]; [left; lia|left; lia|left; lia|right]. eauto.
  - induction a as [|x a IH]; intros [|y b]; try done. cbn.
    rewrite !orb_false_iff, !andb_false_iff, !Z.ltb_ge, !Z.eqb_neq.
    intros [H1 H2] [H3 H4]. assert (x = y) as -> by lia.
    f_equal. apply IH; [destruct H2|destruct H4]; (lia || done).
Qed.
