(* ===== verification/MemDb.v ===== *)
(** * An in-memory engine for the witnesses

    A small executable instance of [MDB] that satisfies [MDBLaws] and
    [MDBCursorLaws], so that the theorems about the database wrapper and the
    chain storage have witnesses: the map holds one pair per mebibyte, so a
    write to a full map fails with [MDB_MAP_FULL] until the environment is
    expanded.  It is not LMDB. *)

From S2P Require Import Prelude Mdb.

Record mem_env : Type := mk_mem_env { mem_contents : contents; mem_size : Z }.
Record mem_txn : Type := mk_mem_txn { mem_seen : contents; mem_capacity : Z }.
Record mem_cursor : Type := mk_mem_cursor { mem_items : list (bytes * bytes); mem_next : nat }.

Definition mem_limit : Z := 2 ^ 40.
Definition mem_mapsize (e : mem_env) : Z := Z.max 0 (Z.min mem_limit (mem_size e)).

Definition mem_set_mapsize (e : mem_env) (n : Z) : Z * mem_env :=
  if n =? 0 then (MDB_SUCCESS, e)
  else if (n <? 0) || (mem_limit <? n) then (22, e)
  else (MDB_SUCCESS, mk_mem_env (mem_contents e) n).

Definition mem_put (t : mem_txn) (d : Z) (k v : bytes) : Z * mem_txn :=
  if mem_capacity t <=? Z.of_nat (size (mem_seen t)) then (MDB_MAP_FULL, t)
  else (MDB_SUCCESS, mk_mem_txn (<[(d, k) := v]> (mem_seen t)) (mem_capacity t)).

Definition mem_get (t : mem_txn) (d : Z) (k : bytes) : Z * bytes :=
  match mem_seen t !! (d, k) with
  | Some v => (MDB_SUCCESS, v)
  | None => (MDB_NOTFOUND, [])
  end.

Definition mem_del (t : mem_txn) (d : Z) (k : bytes) : Z * mem_txn :=
  match mem_seen t !! (d, k) with
  | Some _ => (MDB_SUCCESS, mk_mem_txn (delete (d, k) (mem_seen t)) (mem_capacity t))
  | None => (MDB_NOTFOUND, t)
  end.

(** The keys of a database in order, then its pairs. *)
Definition mem_keys (m : contents) (d : Z) : list bytes :=
  fold_left (fun s k => sorted_insert bytes_lt id k s)
    (omap (fun p => if fst (fst p) =? d then Some (snd (fst p)) else None) (map_to_list m)) [].

Definition mem_pairs (m : contents) (d : Z) : list (bytes * bytes) :=
  omap (fun k => pair k <$> m !! (d, k)) (mem_keys m d).

Definition mem_cursor_get (c : mem_cursor) (k : bytes) (op : MDB_cursor_op)
  : Z * bytes * bytes * mem_cursor :=
  let at_ n :=
    match mem_items c !! n with
    | Some p => (MDB_SUCCESS, fst p, snd p, mk_mem_cursor (mem_items c) (S n))
    | None => (MDB_NOTFOUND, [], [], c)
    end in
  let search (f : bytes * bytes -> bool) :=
    match List.find f (mem_items c) with
    | Some p => (MDB_SUCCESS, fst p, snd p, c)
    | None => (MDB_NOTFOUND, [], [], c)
    end in
  match op with
  | MDB_FIRST => at_ O
  | MDB_NEXT => at_ (mem_next c)
  | MDB_NEXT_DUP => (MDB_NOTFOUND, [], [], c)
  | MDB_SET => search (fun p => bool_decide (fst p = k))
  | MDB_SET_RANGE => search (fun p => bytes_le k (fst p))
  end.

#[global] Instance memdb : MDB := {|
  mdb_env := mem_env; mdb_txn := mem_txn; mdb_cursor := mem_cursor;
  mdb_env_set_mapsize := mem_set_mapsize;
  mdb_env_info e := (MDB_SUCCESS, mem_mapsize e);
  mdb_env_stat _ := (MDB_SUCCESS, 4096);
  mdb_env_sync e _ := (MDB_SUCCESS, e);
  mdb_env_get_flags _ := (MDB_SUCCESS, 0);
  mdb_env_set_flags e _ _ := (MDB_SUCCESS, e);
  mdb_env_get_maxkeysize _ := 511;
  mdb_env_get_maxreaders _ := (MDB_SUCCESS, 126);
  mdb_txn_begin e _ := (MDB_SUCCESS, e, mk_mem_txn (mem_contents e) (mem_mapsize e / 2 ^ 20));
  mdb_txn_commit e t := (MDB_SUCCESS, mk_mem_env (mem_seen t) (mem_size e));
  mdb_txn_abort e _ := e;
  mdb_txn_renew t := (MDB_SUCCESS, t);
  mdb_txn_id _ := 1;
  mdb_put t d k v _ := mem_put t d k v;
  mdb_get := mem_get;
  mdb_del t d k _ := mem_del t d k;
  mdb_drop t _ _ := (MDB_SUCCESS, t);
  mdb_cursor_open t d := (MDB_SUCCESS, mk_mem_cursor (mem_pairs (mem_seen t) d) 0);
  mdb_cursor_get := mem_cursor_get
|}.

#[global] Instance memdb_laws : MDBLaws memdb.
Proof.
  refine {| env_contents := mem_contents : mdb_env -> contents;
            txn_contents := mem_seen : mdb_txn -> contents;
            env_mapsize := mem_mapsize : mdb_env -> Z;
            page_size := 4096; mapsize_limit := mem_limit |}; cbn.
  - lia.
  - intros e. unfold mem_mapsize, mem_limit. lia.
  - unfold mem_limit. lia.
  - done.
  - done.
  - intros e n r e'. unfold mem_set_mapsize, mem_mapsize.
    destruct (Z.eqb_spec n 0) as [->|Hn].
    { intros [= <- <-]. split; [done|]. split; [lia|]. split; [lia|done]. }
    destruct ((n <? 0) || (mem_limit <? n)) eqn:E; intros [= <- <-]; cbn;
      rewrite ?orb_true_iff, ?orb_false_iff, ?Z.ltb_lt, ?Z.ltb_ge in E;
      (split; [done|]; split; [|split]; intros; unfold MDB_SUCCESS, mem_limit in *; lia || done).
  - intros e flags r e' t [= <- <- <-]. done.
  - intros e t r e' [= <- <-]. unfold MDB_SUCCESS, mem_mapsize. by rewrite decide_True.
  - done.
  - intros t d k v t'. unfold mem_put. case_match; [done|]. by intros [= <-].
  - intros t d k. unfold mem_get. by destruct (mem_seen t !! (d, k)).
  - intros t d k _ t'. unfold mem_del.
    destruct (mem_seen t !! (d, k)) eqn:E; [|done]. intros [= <-]. split; [by eexists|done].
Defined.

Lemma elem_of_mem_keys m d k : k ∈ mem_keys m d <-> is_Some (m !! (d, k)).
Proof.
  unfold mem_keys. rewrite (elem_of_set_inserts _ bytes_lt_order), list_elem_of_omap. split.
  - intros [([[d' k'] v] & Hin & Hk)|H]; [|by apply elem_of_nil in H]. cbn in Hk.
    destruct (Z.eqb_spec d' d) as [->|]; [|done]. injection Hk as ->.
    exists v. by apply elem_of_map_to_list.
  - intros [v Hv]. left. exists (d, k, v). rewrite elem_of_map_to_list. cbn.
    by rewrite Z.eqb_refl.
Qed.

Lemma mem_pairs_spec m d k v : (k, v) ∈ mem_pairs m d <-> m !! (d, k) = Some v.
Proof.
  unfold mem_pairs. rewrite list_elem_of_omap. setoid_rewrite elem_of_mem_keys. split.
  - intros (k' & _ & Hk). destruct (m !! (d, k')) eqn:E; [|done]. by injection Hk as <- <-.
  - intros H. exists k. rewrite H. split; [by eexists|done].
Qed.

Lemma mem_pairs_sorted m d :
  StronglySorted (fun p q => bytes_lt (fst p) (fst q) = true) (mem_pairs m d).
Proof.
  unfold mem_pairs.
  assert (Hs : StronglySorted (fun x y => bytes_lt x y = true) (mem_keys m d)).
  { apply (fold_sorted_insert_sorted _ id bytes_lt_order). constructor. }
  induction Hs as [|k l Hs IH Hk]; cbn; [constructor|].
  destruct (m !! (d, k)); cbn; [|done]. constructor; [done|].
  apply Forall_forall. intros [k' v'] Hin. cbn.
  apply list_elem_of_omap in Hin as (k2 & Hk2 & Heq).
  destruct (m !! (d, k2)); [|done]. injection Heq as -> ->.
  rewrite Forall_forall in Hk. auto.
Qed.

#[global] Instance memdb_cursor_laws : MDBCursorLaws memdb.
Proof.
  refine {| cursor_items := mem_items : mdb_cursor -> _;
            cursor_next := mem_next : mdb_cursor -> _ |}; cbn.
  - intros t d r c [= <- <-] _. split; [|apply mem_pairs_sorted].
    intros k v. apply mem_pairs_spec.
  - intros [[|p l] n] k; cbn; eexists; (split; [|by repeat eexists]); done.
  - intros [l n] k. cbn. destruct (l !! n) as [p|] eqn:E; cbn.
    + by exists (mk_mem_cursor l (S n)).
    + exists (mk_mem_cursor l n). split; [done|]. by repeat eexists.
  - intros [l n] k. exists (mk_mem_cursor l n). split; [done|]. cbn.
    destruct (List.find _ l) as [p|]; [done|]. by repeat eexists.
Defined.
