(* ===== verification/Packets.v ===== *)
(** * Network packets

    [src/include/network/ip_address.h], [base_types.h], [packet_handshake.h],
    [packet_peer_exchange.h], [packet_keepalive.h], [packet_data.h] and the
    envelope of [zmq_message_envelope.h].  The parser of IP addresses is the
    submodule [external/ipv6-parse], which is not in the tree: the class
    [IPParser] has its constants and its functions, and [IPParserLaws] their
    documented values. *)

From S2P Require Import Prelude Errors Config CryptoLib Concrete Codec.
From Stdlib Require Import Strings.Byte.
Import Configuration.

(** ** IP addresses *)

(** The members of the parser's address structure: the components and the flags,
    which are serialized, and the others ([R]), which are not. *)
Record ipv6_address_full_t (R : Type) : Type := mk_ipv6 {
  components : list Z;
  ip_flags : Z;
  ip_rest : R
}.
Arguments mk_ipv6 {R}.
Arguments components {R}.
Arguments ip_flags {R}.
Arguments ip_rest {R}.

Class IPParser : Type := {
  ip_rest_t : Type;
  ip_rest_default : ip_rest_t;
  ip_rest_port : ip_rest_t -> Z;
  IPV6_NUM_COMPONENTS : nat;
  IPV4_NUM_COMPONENTS : nat;
  IPV4_EMBED_INDEX : nat;
  IPV6_FLAG_IPV4_COMPAT : Z;
  IPV6_FLAG_IPV4_EMBED : Z;
  str_to_ip : string -> option (ipv6_address_full_t ip_rest_t);
  ip_to_str : ipv6_address_full_t ip_rest_t -> option string
}.

(** Eight components of 16 bits, of which an embedded IPv4 address has the last
    two and a compatible one the first two; the flags are bits of a 32-bit word. *)
Class IPParserLaws (IP : IPParser) : Prop := {
  num_components : IPV6_NUM_COMPONENTS = 8%nat;
  num_v4_components : IPV4_NUM_COMPONENTS = 2%nat;
  embed_index : IPV4_EMBED_INDEX = 6%nat;
  compat_flag : IPV6_FLAG_IPV4_COMPAT = 2 ^ 3;
  embed_flag : IPV6_FLAG_IPV4_EMBED = 2 ^ 2;
  parsed_address : forall s a, str_to_ip s = Some a ->
    List.length (components a) = 8%nat /\ Forall (uintw 16) (components a) /\
    uintw 32 (ip_flags a)
}.

Section IPAddress.
Context {CL : CryptoLib} {IP : IPParser}.

Definition ip_address_t : Type := ipv6_address_full_t ip_rest_t.

(** [m_address = {}]. *)
Definition ip_default : ip_address_t :=
  mk_ipv6 (repeat 0 IPV6_NUM_COMPONENTS) 0 ip_rest_default.

(** The loop that shifts the components, from index [i] and [k] on. *)
Fixpoint shift_components (n i k : nat) (comp : list Z) : list Z :=
  match n with
  | O => comp
  | S n' => shift_components n' (S i) (S k) (<[ i := 0 ]> (<[ k := comp !!! i ]> comp))
  end.

Definition normalize_v4_embedded (a : ip_address_t) : ip_address_t :=
  if negb (Z.land (ip_flags a) IPV6_FLAG_IPV4_COMPAT =? 0) then
    let flags := Z.lor (ip_flags a) IPV6_FLAG_IPV4_EMBED in
    let flags := Z.land flags (Z.lnot IPV6_FLAG_IPV4_COMPAT) in
    let comp := shift_components IPV4_NUM_COMPONENTS 0 IPV4_EMBED_INDEX (components a) in
    mk_ipv6 (<[ (IPV4_EMBED_INDEX - 1)%nat := 0xffff ]> comp) flags (ip_rest a)
  else a.

(** The constructor from a string. *)
Definition ip_address_of_string (address : string) : option ip_address_t :=
  addr ← str_to_ip address;
  Some (normalize_v4_embedded addr).

Definition is_v4 (a : ip_address_t) : bool :=
  forallb (fun x => x =? 0) (drop 4 (components a)).

Definition is_v6 (a : ip_address_t) : bool := negb (is_v4 a).

Definition ip_port (a : ip_address_t) : Z := ip_rest_port (ip_rest a).

Definition ip_to_string (a : ip_address_t) : string :=
  match ip_to_str a with
  | Some str => ("[" ++ str ++ "]")%string
  | None => EmptyString
  end.

Definition ip_serialize (a : ip_address_t) : bytes :=
  write_all put_varint (components a) ++ put_varint (ip_flags a).

Definition ip_deserialize : reader ip_address_t :=
  comp ← read_n IPV6_NUM_COMPONENTS (get_varint 16);
  flags ← get_varint 32;
  mret (normalize_v4_embedded (mk_ipv6 comp flags ip_rest_default)).

Definition ip_hash (a : ip_address_t) : crypto_hash_t := sha3 (ip_serialize a).

Definition ip_size (a : ip_address_t) : Z := vsize (ip_serialize a).

#[global] Instance ip_ser : ISerializable ip_address_t := {|
  serialize := ip_serialize; deserialize := ip_deserialize |}.

(** A normalized address. *)
Definition ip_normalized (a : ip_address_t) : Prop :=
  List.length (components a) = IPV6_NUM_COMPONENTS /\ Forall (uintw 16) (components a) /\
  uintw 32 (ip_flags a) /\ Z.land (ip_flags a) IPV6_FLAG_IPV4_COMPAT = 0.

(** One that is the whole of what is serialized. *)
Definition ip_wf (a : ip_address_t) : Prop := ip_normalized a /\ ip_rest a = ip_rest_default.

(** ** Peers *)

Record network_peer_t : Type := mk_peer {
  peer_address : ip_address_t;
  peer_id : crypto_hash_t;
  peer_port : Z;
  peer_network_id : crypto_hash_t;
  last_seen : Z
}.

(** The constructors; [last_seen] starts as the current time. *)
Definition default_peer (now : Z) : network_peer_t :=
  mk_peer ip_default key_default 0 key_default now.
Definition new_peer (now : Z) (peer_address : ip_address_t) (peer_id : crypto_hash_t)
  (peer_port : Z) (network_id : crypto_hash_t) : network_peer_t :=
  mk_peer peer_address peer_id peer_port network_id now.

Definition peer_wf (p : network_peer_t) : Prop :=
  ip_wf (peer_address p) /\ u16 (peer_port p) /\ u64 (last_seen p).

Definition peer_serialize (p : network_peer_t) : bytes :=
  ip_serialize (peer_address p) ++ put_varint (peer_port p) ++ put_key (peer_id p) ++
  put_key (peer_network_id p) ++ put_varint (last_seen p).

Definition peer_deserialize : reader network_peer_t :=
  address ← ip_deserialize;
  port ← get_varint 16;
  id ← get_key;
  network_id ← get_key;
  seen ← get_varint 64;
  mret (mk_peer address id port network_id seen).

Definition peer_hash (p : network_peer_t) : crypto_hash_t := sha3 (peer_serialize p).

Definition peer_size (p : network_peer_t) : Z := vsize (peer_serialize p).

#[global] Instance peer_ser : ISerializable network_peer_t := {|
  serialize := peer_serialize; deserialize := peer_deserialize |}.

(** ** The packets *)

Inductive NetworkPacketTypes : Set :=
  | NETWORK_HANDSHAKE | NETWORK_KEEPALIVE | NETWORK_PEER_EXCHANGE | NETWORK_DATA.

Definition packet_type_value (t : NetworkPacketTypes) : Z :=
  match t with
  | NETWORK_HANDSHAKE => 1000
  | NETWORK_KEEPALIVE => 1100
  | NETWORK_PEER_EXCHANGE => 1200
  | NETWORK_DATA => 3000
  end.

Record NetworkPacketBase : Type := mk_packet_base { packet_l_type : Z; packet_version : Z }.

Definition packet_base_wf (b : NetworkPacketBase) : Prop :=
  u16 (packet_l_type b) /\ u16 (packet_version b).

(** What the constructor of a packet of type [t] sets. *)
Definition new_packet_base (t : NetworkPacketTypes) : NetworkPacketBase :=
  mk_packet_base (packet_type_value t) P2P.VERSION.

(** The handshake and the peer exchange have the same members. *)
Record packet_handshake_t : Type := mk_handshake {
  hs_base :> NetworkPacketBase;
  hs_peer_id : crypto_hash_t;
  hs_peer_port : Z;
  hs_network_id : crypto_hash_t;
  hs_peers : list network_peer_t
}.

Definition new_handshake (peer_id : crypto_hash_t) (peer_port : Z) (network_id : crypto_hash_t)
  : packet_handshake_t :=
  mk_handshake (new_packet_base NETWORK_HANDSHAKE) peer_id peer_port network_id [].

Definition handshake_wf (p : packet_handshake_t) : Prop :=
  packet_base_wf p /\ u16 (hs_peer_port p) /\ size_ok (hs_peers p) /\ Forall peer_wf (hs_peers p).

Definition handshake_serialize (p : packet_handshake_t) : bytes :=
  put_varint (packet_l_type p) ++ put_varint (packet_version p) ++ put_key (hs_peer_id p) ++
  put_varint (hs_peer_port p) ++ put_key (hs_network_id p) ++ put_vector (hs_peers p).

Definition handshake_deserialize : reader packet_handshake_t :=
  type ← get_varint 16;
  version ← get_varint 16;
  id ← get_key;
  port ← get_varint 16;
  network_id ← get_key;
  peers ← get_vector;
  mret (mk_handshake (mk_packet_base type version) id port network_id peers).

Definition handshake_hash (p : packet_handshake_t) : crypto_hash_t := sha3 (handshake_serialize p).

Definition handshake_size (p : packet_handshake_t) : Z := vsize (handshake_serialize p).

Record packet_peer_exchange_t : Type := mk_exchange {
  ex_base :> NetworkPacketBase;
  ex_peer_id : crypto_hash_t;
  ex_peer_port : Z;
  ex_network_id : crypto_hash_t;
  ex_peers : list network_peer_t
}.

Definition new_exchange (peer_id : crypto_hash_t) (peer_port : Z) (network_id : crypto_hash_t)
  : packet_peer_exchange_t :=
  mk_exchange (new_packet_base NETWORK_PEER_EXCHANGE) peer_id peer_port network_id [].

Definition exchange_wf (p : packet_peer_exchange_t) : Prop :=
  packet_base_wf p /\ u16 (ex_peer_port p) /\ size_ok (ex_peers p) /\ Forall peer_wf (ex_peers p).

Definition exchange_serialize (p : packet_peer_exchange_t) : bytes :=
  put_varint (packet_l_type p) ++ put_varint (packet_version p) ++ put_key (ex_peer_id p) ++
  put_varint (ex_peer_port p) ++ put_key (ex_network_id p) ++ put_vector (ex_peers p).

Definition exchange_deserialize : reader packet_peer_exchange_t :=
  type ← get_varint 16;
  version ← get_varint 16;
  id ← get_key;
  port ← get_varint 16;
  network_id ← get_key;
  peers ← get_vector;
  mret (mk_exchange (mk_packet_base type version) id port network_id peers).

Definition exchange_hash (p : packet_peer_exchange_t) : crypto_hash_t := sha3 (exchange_serialize p).

Definition exchange_size (p : packet_peer_exchange_t) : Z := vsize (exchange_serialize p).

Record packet_keepalive_t : Type := mk_keepalive {
  ka_base :> NetworkPacketBase;
  ka_peer_id : crypto_hash_t
}.

Definition new_keepalive (peer_id : crypto_hash_t) : packet_keepalive_t :=
  mk_keepalive (new_packet_base NETWORK_KEEPALIVE) peer_id.

Definition keepalive_wf (p : packet_keepalive_t) : Prop := packet_base_wf p.

Definition keepalive_serialize (p : packet_keepalive_t) : bytes :=
  put_varint (packet_l_type p) ++ put_varint (packet_version p) ++ put_key (ka_peer_id p).

Definition keepalive_deserialize : reader packet_keepalive_t :=
  type ← get_varint 16;
  version ← get_varint 16;
  id ← get_key;
  mret (mk_keepalive (mk_packet_base type version) id).

Definition keepalive_hash (p : packet_keepalive_t) : crypto_hash_t := sha3 (keepalive_serialize p).

Definition keepalive_size (p : packet_keepalive_t) : Z := vsize (keepalive_serialize p).

Record packet_data_t : Type := mk_data {
  da_base :> NetworkPacketBase;
  da_network_id : crypto_hash_t;
  da_payload : bytes
}.

Definition new_data : packet_data_t := mk_data (new_packet_base NETWORK_DATA) key_default [].

Definition data_wf (p : packet_data_t) : Prop := packet_base_wf p /\ size_ok (da_payload p).

Definition data_serialize (p : packet_data_t) : bytes :=
  put_varint (packet_l_type p) ++ put_varint (packet_version p) ++ put_key (da_network_id p) ++
  put_varint (vsize (da_payload p)) ++ da_payload p.

Definition data_deserialize : reader packet_data_t :=
  type ← get_varint 16;
  version ← get_varint 16;
  network_id ← get_key;
  payload_bytes ← get_varint 64;
  payload ← get_bytes payload_bytes;
  mret (mk_data (mk_packet_base type version) network_id payload).

Definition data_hash (p : packet_data_t) : crypto_hash_t := sha3 (data_serialize p).

Definition data_size (p : packet_data_t) : Z := vsize (data_serialize p).

#[global] Instance handshake_ser : ISerializable packet_handshake_t := {|
  serialize := handshake_serialize; deserialize := handshake_deserialize |}.
#[global] Instance exchange_ser : ISerializable packet_peer_exchange_t := {|
  serialize := exchange_serialize; deserialize := exchange_deserialize |}.
#[global] Instance keepalive_ser : ISerializable packet_keepalive_t := {|
  serialize := keepalive_serialize; deserialize := keepalive_deserialize |}.
#[global] Instance data_ser : ISerializable packet_data_t := {|
  serialize := data_serialize; deserialize := data_deserialize |}.

(** ** The envelope *)

Record zmq_message_envelope_t : Type := mk_envelope {
  env_to : crypto_hash_t;
  env_from : crypto_hash_t;
  env_subject : crypto_hash_t;
  env_peer_address : string;
  env_payload : bytes
}.

(** The constructors from a destination and a packet, and from a packet. *)
Definition envelope_to `{ISerializable T} (to : crypto_hash_t) (payload : T)
  : zmq_message_envelope_t :=
  mk_envelope to key_default key_default EmptyString (serialize payload).
Definition envelope_of `{ISerializable T} (payload : T) : zmq_message_envelope_t :=
  envelope_to key_default payload.

(** The other constructors, from what they are given. *)
Definition new_envelope : zmq_message_envelope_t :=
  mk_envelope key_default key_default key_default EmptyString [].
Definition envelope_for (to : crypto_hash_t) : zmq_message_envelope_t :=
  mk_envelope to key_default key_default EmptyString [].
Definition envelope_payload (payload : bytes) : zmq_message_envelope_t :=
  mk_envelope key_default key_default key_default EmptyString payload.
Definition envelope_between (to from : crypto_hash_t) : zmq_message_envelope_t :=
  mk_envelope to from key_default EmptyString [].
Definition envelope_for_payload (to : crypto_hash_t) (payload : bytes) : zmq_message_envelope_t :=
  mk_envelope to key_default key_default EmptyString payload.
Definition envelope_between_payload (to from : crypto_hash_t) (payload : bytes)
  : zmq_message_envelope_t :=
  mk_envelope to from key_default EmptyString payload.

(** The parts as the bytes of messages, and the size, without the subject. *)
Definition from_msg (e : zmq_message_envelope_t) : bytes := hash_data (env_from e).
Definition payload_msg (e : zmq_message_envelope_t) : bytes := env_payload e.
Definition subject_msg (e : zmq_message_envelope_t) : bytes := hash_data (env_subject e).
Definition to_msg (e : zmq_message_envelope_t) : bytes := hash_data (env_to e).
Definition envelope_size (e : zmq_message_envelope_t) : Z :=
  vsize (hash_data (env_to e)) + vsize (hash_data (env_from e)) +
  Z.of_nat (String.length (env_peer_address e)) + vsize (env_payload e).
End IPAddress.

(** ** Lemmas *)

Section PacketFacts.
Context {CL : CryptoLib} {IP : IPParser} {IPL : IPParserLaws IP}.

Lemma normalize_keeps_normalized a : ip_normalized a -> normalize_v4_embedded a = a.
Proof. intros (_ & _ & _ & Hc). unfold normalize_v4_embedded. by rewrite Hc. Qed.

(** What normalizing does to a compatible address. *)
Lemma normalize_compat a :
  Z.land (ip_flags a) IPV6_FLAG_IPV4_COMPAT <> 0 -> List.length (components a) = 8%nat ->
  components (normalize_v4_embedded a) =
    [0; 0; components a !!! 2%nat; components a !!! 3%nat; components a !!! 4%nat; 0xffff;
     components a !!! 0%nat; components a !!! 1%nat] /\
  ip_flags (normalize_v4_embedded a) =
    Z.land (Z.lor (ip_flags a) IPV6_FLAG_IPV4_EMBED) (Z.lnot IPV6_FLAG_IPV4_COMPAT) /\
  ip_rest (normalize_v4_embedded a) = ip_rest a.
Proof.
  intros Hc Hl. unfold normalize_v4_embedded.
  rewrite (proj2 (Z.eqb_neq _ _) Hc), num_v4_components, embed_index. cbn [negb].
  destruct a as [comp flags rest]. cbn in *.
  do 9 (destruct comp as [|? comp]; [try done|]); done.
Qed.

Lemma normalize_flags flags :
  uintw 32 flags ->
  let f := Z.land (Z.lor flags (2 ^ 2)) (Z.lnot (2 ^ 3)) in
  uintw 32 f /\ Z.land f (2 ^ 3) = 0 /\ Z.testbit f 2 = true.
Proof.
  intros [H0 H32] f. unfold f. rewrite <- Z.ldiff_land.
  assert (Hn : 0 <= Z.ldiff (Z.lor flags (2 ^ 2)) (2 ^ 3)).
  { apply Z.ldiff_nonneg. left. apply Z.lor_nonneg. lia. }
  split; [|split].
  - enough (Z.ldiff (Z.lor flags (2 ^ 2)) (2 ^ 3) =
            Z.ldiff (Z.lor flags (2 ^ 2)) (2 ^ 3) mod 2 ^ 32) as ->
      by (unfold uintw; apply Z.mod_pos_bound; lia).
    apply Z.bits_inj'. intros i Hi. destruct (Z.lt_ge_cases i 32).
    + by rewrite Z.mod_pow2_bits_low.
    + rewrite Z.mod_pow2_bits_high, Z.ldiff_spec, Z.lor_spec, Z.pow2_bits_false by lia.
      rewrite <- (Z.mod_small flags (2 ^ 32)), Z.mod_pow2_bits_high by lia. done.
  - apply Z.bits_inj'. intros i Hi.
    rewrite Z.land_spec, Z.ldiff_spec, Z.bits_0. by destruct (Z.testbit (2 ^ 3) i); rewrite ?andb_false_r.
  - rewrite Z.ldiff_spec, Z.lor_spec. cbn. by rewrite orb_true_r.
Qed.

(** Normalizing gives a normalized address and keeps the other members. *)
Lemma normalize_normalized a :
  List.length (components a) = 8%nat -> Forall (uintw 16) (components a) -> uintw 32 (ip_flags a) ->
  ip_normalized (normalize_v4_embedded a) /\ ip_rest (normalize_v4_embedded a) = ip_rest a.
Proof.
  intros Hl Hc Hf. destruct (Z.eq_dec (Z.land (ip_flags a) IPV6_FLAG_IPV4_COMPAT) 0) as [E|E].
  - unfold normalize_v4_embedded. rewrite E. cbn. split; [|done].
    unfold ip_normalized. by rewrite num_components.
  - destruct (normalize_compat a E Hl) as (Hcomp & Hflags & Hrest). split; [|done].
    unfold ip_normalized. rewrite Hcomp, Hflags, num_components, embed_flag, compat_flag.
    destruct (normalize_flags (ip_flags a) Hf) as (H1 & H2 & _).
    assert (Hnth : forall i, (i < 8)%nat -> uintw 16 (components a !!! i)).
    { intros i Hi. refine (Forall_lookup_1 _ _ i _ Hc _).
      apply list_lookup_lookup_total_lt. by rewrite Hl. }
    split; [done|]. split; [|done].
    repeat (constructor; [first [apply Hnth; lia|unfold uintw; lia]|]). constructor.
Qed.

Lemma ip_get_put `{!CodecLaws CL} a r :
  ip_wf a -> ip_deserialize (ip_serialize a ++ r) = Some (a, r).
Proof.
  destruct a as [comp flags rest]. intros [(Hl & Hc & Hf & Hn) Hr]. cbn in *. subst rest.
  unfold ip_deserialize, ip_serialize. cbn. rewrite <- app_assoc, <- Hl. erewrite bind_step.
  2: { apply (read_n_write_all _ _ (uintw 16)); [|done]. intros. by apply get_put_varint16. }
  codec_step. unfold mret, reader_ret. do 2 f_equal. by apply normalize_keeps_normalized.
Qed.

#[local] Hint Resolve ip_get_put : codec.

#[global] Instance peer_roundtrip `{!CodecLaws CL} : RoundTrip network_peer_t peer_wf.
Proof. unfold RoundTrip. cbn [deserialize serialize peer_ser]. codec. Qed.

(** The round trip of a packet with its base. *)
Ltac packet_codec :=
  let b := fresh "b" in let r := fresh "r" in let H := fresh "H" in
  intros [b ?] r H; destruct b; unfold packet_base_wf in H; cbn in H; destruct_and?;
  codec_unfold; simpl; codec_unfold; cbn; repeat codec_step; try reflexivity.

Lemma handshake_roundtrip `{!CodecLaws CL} : RoundTrip packet_handshake_t handshake_wf.
Proof. unfold handshake_wf. packet_codec. Qed.

Lemma exchange_roundtrip `{!CodecLaws CL} : RoundTrip packet_peer_exchange_t exchange_wf.
Proof. unfold exchange_wf. packet_codec. Qed.

Lemma keepalive_roundtrip `{!CodecLaws CL} : RoundTrip packet_keepalive_t keepalive_wf.
Proof. unfold keepalive_wf. packet_codec. Qed.

Lemma data_roundtrip `{!CodecLaws CL} : RoundTrip packet_data_t data_wf.
Proof. unfold data_wf. packet_codec. Qed.

(** ** Lemmas: whatever was read is well formed *)

Ltac read_steps H :=
  repeat (let x := fresh "x" in let s := fresh "s" in let Hx := fresh "Hx" in
          apply bind_read in H as (x & s & Hx & H)).

Lemma ip_deserialize_wf `{!CodecLaws CL} s a r : ip_deserialize s = Some (a, r) -> ip_wf a.
Proof.
  unfold ip_deserialize. intros H. read_steps H. injection H as <- _.
  eapply (read_n_all _ (uintw 16)) in Hx as [Hl Hc];
    [|intros ? ? ? Hg; by apply get_varint_range in Hg].
  apply get_varint_range in Hx0. rewrite num_components in Hl.
  destruct (normalize_normalized (mk_ipv6 x x0 ip_rest_default)) as [Hn Hr]; [done..|].
  by split.
Qed.

Lemma peer_deserialize_wf `{!CodecLaws CL} s p r : peer_deserialize s = Some (p, r) -> peer_wf p.
Proof.
  unfold peer_deserialize. intros H. read_steps H. injection H as <- _.
  split; [|split]; cbn; [by eapply ip_deserialize_wf|by eapply get_varint_range..].
Qed.

Lemma handshake_deserialize_wf `{!CodecLaws CL} s p r :
  handshake_deserialize s = Some (p, r) -> u16 (hs_peer_port p) /\ Forall peer_wf (hs_peers p).
Proof.
  unfold handshake_deserialize. intros H. read_steps H. injection H as <- _. cbn. split.
  - by eapply get_varint_range.
  - eapply get_vector_all; [|done]. intros ? ? ?. apply peer_deserialize_wf.
Qed.

Lemma exchange_deserialize_wf `{!CodecLaws CL} s p r :
  exchange_deserialize s = Some (p, r) -> u16 (ex_peer_port p) /\ Forall peer_wf (ex_peers p).
Proof.
  unfold exchange_deserialize. intros H. read_steps H. injection H as <- _. cbn. split.
  - by eapply get_varint_range.
  - eapply get_vector_all; [|done]. intros ? ? ?. apply peer_deserialize_wf.
Qed.
End PacketFacts.

(** ** Properties *)

Section PacketProps.
Context {CL : CryptoLib} {IP : IPParser} {IPL : IPParserLaws IP}.

(** C29: The address, the peer entry and each of the four packets are read back
    by their [deserialize] from what their [serialize] wrote, and every address
    and every list of peers that a node reads from the network is well formed,
    whatever bytes it was sent. *)
Theorem packets_roundtrip `{!CodecLaws CL} :
  (forall a r, ip_wf a -> ip_deserialize (ip_serialize a ++ r) = Some (a, r)) /\
  RoundTrip network_peer_t peer_wf /\
  RoundTrip packet_handshake_t handshake_wf /\
  RoundTrip packet_peer_exchange_t exchange_wf /\
  RoundTrip packet_keepalive_t keepalive_wf /\
  RoundTrip packet_data_t data_wf /\
  (forall s p r, handshake_deserialize s = Some (p, r) -> Forall peer_wf (hs_peers p)) /\
  (forall s p r, exchange_deserialize s = Some (p, r) -> Forall peer_wf (ex_peers p)).
Proof.
  split; [exact ip_get_put|]. split; [exact peer_roundtrip|]. split; [exact handshake_roundtrip|].
  split; [exact exchange_roundtrip|]. split; [exact keepalive_roundtrip|].
  split; [exact data_roundtrip|].
  split; intros s p r H; [apply (handshake_deserialize_wf s p r H)|apply (exchange_deserialize_wf s p r H)].
Qed.

(** An address made from a string is normalized, normalizing again changes
    nothing, and one that the parser reads as a compatible IPv4 address has its
    two components at the end behind [0xffff], with the embedded flag set and
    the compatible flag clear; [is_v4] looks at just these components, so it
    answers [false] for every such address. *)
Theorem address_normalization s addr :
  str_to_ip s = Some addr ->
  let a := normalize_v4_embedded addr in
  ip_address_of_string s = Some a /\ ip_normalized a /\ normalize_v4_embedded a = a /\
  ip_port a = ip_port addr /\
  (Z.land (ip_flags addr) IPV6_FLAG_IPV4_COMPAT <> 0 ->
   drop 5 (components a) = 0xffff :: take 2 (components addr) /\
   Z.testbit (ip_flags a) 2 = true /\ is_v4 a = false /\ is_v6 a = true).
Proof.
  intros Hs a. destruct (parsed_address s addr Hs) as (Hl & Hc & Hf).
  destruct (normalize_normalized addr Hl Hc Hf) as [Hn Hr].
  split; [unfold ip_address_of_string; by rewrite Hs|]. split; [done|].
  split; [by apply normalize_keeps_normalized|]. split; [unfold ip_port, a; by rewrite Hr|].
  intros Hv4. destruct (normalize_compat addr Hv4 Hl) as (Hcomp & Hflags & _).
  unfold is_v6, is_v4. fold a in Hcomp, Hflags. rewrite Hcomp, Hflags, embed_flag, compat_flag.
  split; [|split; [by apply normalize_flags|]].
  - clear -Hl. destruct addr as [comp fl rest]. cbn in *.
    do 9 (destruct comp as [|? comp]; [done|]); done.
  - cbn. by rewrite andb_false_r.
Qed.
End PacketProps.

(** ** Samples and witnesses *)

Module PacketSamples.
(** A parser that knows the loopback address. *)
Definition toy_ip : IPParser := {|
  ip_rest_t := Z; ip_rest_default := 0; ip_rest_port p := p;
  IPV6_NUM_COMPONENTS := 8; IPV4_NUM_COMPONENTS := 2; IPV4_EMBED_INDEX := 6;
  IPV6_FLAG_IPV4_COMPAT := 8; IPV6_FLAG_IPV4_EMBED := 4;
  str_to_ip s := if bool_decide (s = "127.0.0.1"%string)
                 then Some (mk_ipv6 [0x7f00; 1; 0; 0; 0; 0; 0; 0] 8 0) else None;
  ip_to_str _ := Some "127.0.0.1"%string
|}.

Lemma toy_ip_laws : IPParserLaws toy_ip.
Proof.
  split; try done. intros s a. cbn. case_bool_decide; [|done]. intros [= <-]. cbn.
  split; [done|]. split; [|unfold uintw; lia]. repeat (constructor; [unfold uintw; lia|]). constructor.
Qed.

#[local] Existing Instance toy_crypto.
#[local] Existing Instance toy_ip.

Definition loopback : ip_address_t (IP := toy_ip) := mk_ipv6 [0; 0; 0; 0; 0; 0xffff; 0x7f00; 1] 4 0.
Definition parsed : ip_address_t (IP := toy_ip) := mk_ipv6 [0x7f00; 1; 0; 0; 0; 0; 0; 0] 8 0.
Definition peer (id : byte) (seen : Z) : network_peer_t (CL := toy_crypto) (IP := toy_ip) :=
  mk_peer loopback (id : crypto_hash_t) 12897 x20 seen.

Lemma loopback_wf : ip_wf loopback.
Proof.
  split; [|done]. split; [done|]. split; [|split; [unfold uintw; cbn; lia|done]].
  repeat (constructor; [unfold uintw; lia|]). constructor.
Qed.

Lemma peer_sample_wf id seen : u64 seen -> peer_wf (peer id seen).
Proof. split; [exact loopback_wf|]. split; [unfold uintw; cbn; lia|done]. Qed.
End PacketSamples.

#[local] Existing Instance toy_crypto.
#[local] Existing Instance PacketSamples.toy_ip.
#[local] Existing Instance PacketSamples.toy_ip_laws.

Lemma packets_roundtrip_witness :
  deserialize (serialize (PacketSamples.peer x07 1633492800) ++ [9]) =
  Some (PacketSamples.peer x07 1633492800, [9]).
Proof.
  refine (proj1 (proj2 packets_roundtrip) (PacketSamples.peer x07 1633492800) [9] _).
  apply PacketSamples.peer_sample_wf. unfold uintw. lia.
Defined.

Lemma address_normalization_witness :
  str_to_ip "127.0.0.1" = Some PacketSamples.parsed /\
  is_v4 (normalize_v4_embedded PacketSamples.parsed) = false.
Proof.
  split; [reflexivity|].
  destruct (address_normalization "127.0.0.1" PacketSamples.parsed eq_refl)
    as (_ & _ & _ & _ & H).
  apply H. discriminate.
Defined.
