(* ===== verification/Text.v ===== *)
(** * String utilities and host names

    [src/src/utilities/utilities.cpp]: splitting, joining, padding and trimming
    of strings, and the normalization of host names with ports.  A [std::string]
    is the list of its characters; it is a [string] for the address parser. *)

From S2P Require Import Prelude Errors CryptoLib Mdb Concrete Codec Packets.
From Stdlib Require Import Strings.Ascii Strings.Byte.

Notation chars := (list ascii).

Definition to_chars (s : string) : chars := list_ascii_of_string s.
Definition of_chars (l : chars) : string := string_of_list_ascii l.

(** The bytes of a string in the serializer. *)
Definition char_bytes (l : chars) : bytes := (fun c => Z.of_N (N_of_ascii c)) <$> l.

(** ** [std::string] *)

(** [operator<]. *)
Definition string_ltb (a b : string) : bool :=
  bytes_lt (char_bytes (to_chars a)) (char_bytes (to_chars b)).

(** [find] of a character from the start, and from a position on. *)
Fixpoint find_char (ch : ascii) (l : chars) : option nat :=
  match l with
  | [] => None
  | c :: l' => if Ascii.eqb c ch then Some O else S <$> find_char ch l'
  end.

Definition find_at (ch : ascii) (pos : nat) (l : chars) : option nat :=
  Nat.add pos <$> find_char ch (drop pos l).

(** [find] of a string of two characters. *)
Fixpoint find_pair (a b : ascii) (l : chars) : option nat :=
  match l with
  | [] => None
  | c :: l' =>
      if Ascii.eqb c a && match l' with d :: _ => Ascii.eqb d b | [] => false end then Some O
      else S <$> find_pair a b l'
  end.

Definition substr (pos count : nat) (l : chars) : chars := take count (drop pos l).

(** [std::stoi]: leading white space, a sign, at least one decimal digit;
    [None] is the exception, also when the value is no [int]. *)
Definition is_space (c : ascii) : bool :=
  let n := N_of_ascii c in (N.eqb n 32 || (N.leb 9 n && N.leb n 13))%bool.
Definition is_digit (c : ascii) : bool :=
  let n := N_of_ascii c in (N.leb 48 n && N.leb n 57)%bool.
Definition digit_value (c : ascii) : Z := Z.of_N (N_of_ascii c) - 48.

Fixpoint drop_spaces (l : chars) : chars :=
  match l with c :: l' => if is_space c then drop_spaces l' else l | [] => [] end.
Fixpoint leading_digits (l : chars) : chars :=
  match l with c :: l' => if is_digit c then c :: leading_digits l' else [] | [] => [] end.
Definition decimal (l : chars) : Z := fold_left (fun n c => 10 * n + digit_value c) l 0.

Definition stoi (l : chars) : option Z :=
  let l := drop_spaces l in
  let '(sign, l) := match l with
    | c :: l' => if Ascii.eqb c "-" then (-1, l') else if Ascii.eqb c "+" then (1, l') else (1, l)
    | [] => (1, []) end in
  let digits := leading_digits l in
  let value := sign * decimal digits in
  if bool_decide (digits = []) || negb ((- 2 ^ 31 <=? value) && (value <? 2 ^ 31)) then None
  else Some value.

(** ** Splitting, joining, padding, trimming *)

(** The loop of [str_split]; [str_split_reference] shows that the fuel is enough. *)
Fixpoint str_split_loop (fuel : nat) (input : chars) (ch : ascii) (initial_pos : nat)
  (pos : option nat) (result : list chars) : list chars :=
  match pos, fuel with
  | Some p, S fuel' =>
      str_split_loop fuel' input ch (p + 1) (find_at ch (p + 1) input)
        (result ++ [substr initial_pos (p - initial_pos) input])
  | _, _ =>
      (* [pos] is [npos], above every size *)
      result ++ [substr initial_pos (List.length input - initial_pos + 1) input]
  end.

Definition str_split (input : chars) (ch : ascii) : list chars :=
  str_split_loop (List.length input) input ch 0 (find_at ch 0 input) [].

Definition str_join (input : list chars) (ch : ascii) : chars :=
  let result := fold_left (fun r part => r ++ part ++ [ch]) input [] in
  substr 0 (Z.to_nat (wrap64 (vsize result - 1))) result.

Definition str_pad (input : chars) (length : nat) : chars :=
  if (List.length input <? length)%nat
  then input ++ repeat " "%char (length - List.length input) else input.

Definition whitespace : chars := (fun n => ascii_of_N n) <$> [9; 10; 13; 12; 11]%N.

(** [find_last_not_of] and [find_first_not_of], then [std::tolower]. *)
Fixpoint find_first_not_of (set : chars) (l : chars) : option nat :=
  match l with
  | [] => None
  | c :: l' => if existsb (Ascii.eqb c) set then S <$> find_first_not_of set l' else Some O
  end.

Definition find_last_not_of (set : chars) (l : chars) : option nat :=
  (fun i => (List.length l - 1 - i)%nat) <$> find_first_not_of set (reverse l).

Definition tolower (c : ascii) : ascii :=
  let n := N_of_ascii c in
  if (N.leb 65 n && N.leb n 90)%bool then ascii_of_N (n + 32) else c.

Definition str_trim (str : chars) (to_lowercase : bool) : chars :=
  (* [npos + 1] is 0 *)
  let str := take (match find_last_not_of whitespace str with Some i => i + 1 | None => 0 end)%nat str in
  let str := drop (match find_first_not_of whitespace str with
                   | Some i => i | None => List.length str end) str in
  if to_lowercase then tolower <$> str else str.

(** ** Hosts *)

Section Hosts.
Context {CL : CryptoLib} {IP : IPParser}.

Definition host_hash (host : string) (port : Z) : crypto_hash_t :=
  sha3 (char_bytes (to_chars host) ++ put_varint port).

(** The host without what is in front of [//], and the port behind the last
    colon when that part has no dot and starts with a number. *)
Definition split_port (host : chars) : chars * Z :=
  let host := match find_pair "/" "/" host with
              | Some pos => substr (pos + 2) (List.length host) host | None => host end in
  match find_char ":" host with
  | None => (host, 0)
  | Some _ =>
      let parts := str_split host ":" in
      let _port := default [] (last parts) in
      match find_char "." _port, stoi _port with
      | None, Some n => (str_join (removelast parts) ":", n mod 2 ^ 16)
      | _, _ => (str_join parts ":", 0)
      end
  end.

Definition normalize_host_port (host : string) : option (string * Z * crypto_hash_t) :=
  let '(host, port) := split_port (to_chars host) in
  addr ← ip_address_of_string (of_chars host);
  let host := ip_to_string addr in
  Some (host, port, host_hash host port).

(** The overload whose port replaces the one in the host. *)
Definition normalize_host_with_port (host : string) (port : Z) : option (string * Z * crypto_hash_t) :=
  '(_host, _, _) ← normalize_host_port host;
  Some (_host, port, host_hash _host port).
End Hosts.

(** ** Lemmas: strings in their order *)

Lemma char_bytes_inj a b : char_bytes a = char_bytes b -> a = b.
Proof.
  revert b. induction a as [|c a IH]; intros [|d b]; cbn; try done. intros [= Hc Hab].
  apply N2Z.inj in Hc. f_equal; [|by apply IH].
  by rewrite <- (ascii_N_embedding c), Hc, ascii_N_embedding.
Qed.

Lemma string_order : strict_order_ok string_ltb.
Proof.
  destruct bytes_lt_order as [Hirr Htr Htot]. split; unfold string_ltb; [auto|eauto|].
  intros a b H1 H2. specialize (Htot _ _ H1 H2). apply char_bytes_inj in Htot.
  unfold to_chars in Htot.
  by rewrite <- (string_of_list_ascii_of_string a), Htot, string_of_list_ascii_of_string.
Qed.

(** ** Lemmas: splitting and joining *)

(** The reference: the parts between the separators. *)
Fixpoint parts_of (ch : ascii) (l : chars) : list chars :=
  match l with
  | [] => [[]]
  | c :: l' =>
      if Ascii.eqb c ch then [] :: parts_of ch l'
      else match parts_of ch l' with p :: ps => (c :: p) :: ps | [] => [[c]] end
  end.

Lemma parts_of_not_nil ch l : parts_of ch l <> [].
Proof. destruct l as [|c l]; cbn; [done|]. destruct (Ascii.eqb c ch); [done|]. by destruct (parts_of ch l). Qed.

Lemma parts_of_none ch l : find_char ch l = None -> parts_of ch l = [l].
Proof.
  induction l as [|c l IH]; cbn; [done|]. destruct (Ascii.eqb c ch); [done|].
  destruct (find_char ch l); [done|]. intros _. by rewrite IH.
Qed.

Lemma parts_of_some ch l k :
  find_char ch l = Some k -> (k < List.length l)%nat /\ parts_of ch l = take k l :: parts_of ch (drop (S k) l).
Proof.
  revert k. induction l as [|c l IH]; intros k; cbn; [done|]. destruct (Ascii.eqb c ch).
  - intros [= <-]. cbn. rewrite drop_0. split; [lia|done].
  - destruct (find_char ch l) as [j|]; [|done]. intros [= <-].
    destruct (IH j eq_refl) as [Hj E]. cbn. rewrite E. split; [lia|done].
Qed.

Lemma str_split_loop_spec fuel input ch i result :
  (i <= List.length input)%nat -> (List.length input - i <= fuel)%nat ->
  str_split_loop fuel input ch i (find_at ch i input) result = result ++ parts_of ch (drop i input).
Proof.
  revert i result. induction fuel as [|fuel IH]; intros i result Hi Hf; unfold find_at;
    destruct (find_char ch (drop i input)) as [k|] eqn:E; cbn.
  - apply parts_of_some in E as [Hk _]. rewrite length_drop in Hk. lia.
  - rewrite (parts_of_none _ _ E). unfold substr. f_equal. f_equal.
    rewrite take_ge; [done|]. rewrite length_drop. lia.
  - apply parts_of_some in E as [Hk E]. rewrite length_drop in Hk.
    change (Nat.add (i + k + 1) <$> find_char ch (drop (i + k + 1) input))
      with (find_at ch (i + k + 1) input).
    rewrite IH by lia. rewrite E, <- app_assoc. unfold substr.
    rewrite drop_drop. replace (i + k - i)%nat with k by lia.
    by replace (i + S k)%nat with (i + k + 1)%nat by lia.
  - rewrite (parts_of_none _ _ E). unfold substr. f_equal. f_equal.
    rewrite take_ge; [done|]. rewrite length_drop. lia.
Qed.

Lemma str_split_parts input ch : str_split input ch = parts_of ch input.
Proof. unfold str_split. by rewrite str_split_loop_spec by lia. Qed.

Lemma join_fold (ps : list chars) ch r :
  fold_left (fun r part => r ++ part ++ [ch]) ps r = r ++ concat ((fun p => p ++ [ch]) <$> ps).
Proof.
  revert r. induction ps as [|p ps IH]; intros r; cbn; [by rewrite app_nil_r|].
  by rewrite IH, <- app_assoc.
Qed.

Lemma concat_parts ch l : concat ((fun p => p ++ [ch]) <$> parts_of ch l) = l ++ [ch].
Proof.
  induction l as [|c l IH]; cbn; [done|]. destruct (Ascii.eqb_spec c ch) as [->|Hne].
  - cbn. by rewrite IH.
  - pose proof (parts_of_not_nil ch l). destruct (parts_of ch l) as [|p ps]; [done|].
    cbn in *. by rewrite IH.
Qed.

(** Joining drops the separator behind the last part. *)
Lemma str_join_last ps ch l :
  size_ok (l ++ [ch]) -> concat ((fun p => p ++ [ch]) <$> ps) = l ++ [ch] -> str_join ps ch = l.
Proof.
  intros Hs E. unfold str_join. rewrite join_fold, E. cbn [app].
  assert (Hl : vsize (l ++ [ch]) - 1 = vsize l) by (rewrite length_app; cbn; lia).
  rewrite Hl, wrap64_id, Nat2Z.id.
  - unfold substr. by rewrite drop_0, take_app_length.
  - unfold size_ok, uintw in *. lia.
Qed.

Lemma str_join_split l ch : size_ok (l ++ [ch]) -> str_join (str_split l ch) ch = l.
Proof. intros Hs. rewrite str_split_parts. apply str_join_last; [done|]. apply concat_parts. Qed.

Lemma parts_no_separator ch l p : p ∈ parts_of ch l -> ch ∉ p.
Proof.
  revert p. induction l as [|c l IH]; intros p; cbn.
  - intros ->%list_elem_of_singleton. apply not_elem_of_nil.
  - destruct (Ascii.eqb_spec c ch) as [->|Hne].
    + intros [->|Hp]%elem_of_cons; [apply not_elem_of_nil|by apply IH].
    + destruct (parts_of ch l) as [|q qs].
      * intros ->%list_elem_of_singleton. rewrite list_elem_of_singleton. congruence.
      * intros [->|Hp]%elem_of_cons.
        -- rewrite not_elem_of_cons. split; [congruence|]. apply IH. by left.
        -- apply IH. by right.
Qed.

(** ** Lemmas: hosts *)

Lemma find_char_None ch l : find_char ch l = None <-> ch ∉ l.
Proof.
  induction l as [|c l IH]; cbn.
  - split; [intros _; apply not_elem_of_nil|done].
  - rewrite not_elem_of_cons, <- IH. destruct (Ascii.eqb_spec c ch) as [->|Hne].
    + split; [done|]. by intros [? _].
    + destruct (find_char ch l); cbn; split; try done; by intros [_ ?].
Qed.

Lemma find_pair_None a b l : a ∉ l -> find_pair a b l = None.
Proof.
  induction l as [|c l IH]; [done|]. rewrite not_elem_of_cons. intros [Hc Hl]. cbn.
  destruct (Ascii.eqb_spec c a); [congruence|]. cbn. by rewrite IH.
Qed.

Lemma parts_of_app ch l1 l2 :
  ch ∉ l1 -> ch ∉ l2 -> parts_of ch (l1 ++ ch :: l2) = [l1; l2].
Proof.
  intros H1 H2. induction l1 as [|c l1 IH]; cbn.
  - rewrite Ascii.eqb_refl. by rewrite parts_of_none by by apply find_char_None.
  - apply not_elem_of_cons in H1 as [Hc H1]. destruct (Ascii.eqb_spec c ch); [congruence|].
    by rewrite IH.
Qed.

Lemma digit_not_space c : is_digit c = true -> is_space c = false.
Proof. destruct c as [[] [] [] [] [] [] [] []]; vm_compute; congruence. Qed.

Lemma stoi_digits ds :
  ds <> [] -> Forall (fun c => is_digit c = true) ds -> decimal ds < 2 ^ 31 ->
  stoi ds = Some (decimal ds).
Proof.
  intros Hne Hd Hlt. unfold stoi.
  assert (Hpos : forall l n, Forall (fun c => is_digit c = true) l -> 0 <= n ->
    0 <= fold_left (fun n c => 10 * n + digit_value c) l n).
  { induction l as [|c l IH]; intros n Hl Hn; cbn; [done|]. inversion_clear Hl as [|? ? Hc Hl'].
    apply IH; [done|]. assert (0 <= digit_value c); [|lia].
    revert Hc. clear. destruct c as [[] [] [] [] [] [] [] []]; vm_compute; congruence. }
  assert (Hld : leading_digits ds = ds).
  { clear -Hd. induction Hd as [|c l Hc Hl IH]; cbn; [done|]. by rewrite Hc, IH. }
  destruct ds as [|c ds]; [done|]. pose proof Hd as Hd'. inversion_clear Hd' as [|? ? Hc _].
  replace (drop_spaces (c :: ds)) with (c :: ds) by (cbn; by rewrite digit_not_space).
  assert (Hs : (c =? "-")%char = false /\ (c =? "+")%char = false).
  { revert Hc. clear. destruct c as [[] [] [] [] [] [] [] []]; vm_compute; intuition congruence. }
  destruct Hs as [-> ->]. rewrite Hld, Z.mul_1_l, bool_decide_eq_false_2 by done. cbn [orb].
  specialize (Hpos (c :: ds) 0 Hd ltac:(lia)). unfold decimal in *.
  destruct (Z.leb_spec (- 2 ^ 31) (fold_left (fun n c => 10 * n + digit_value c) (c :: ds) 0)); [|lia].
  by rewrite (proj2 (Z.ltb_lt _ _) Hlt).
Qed.

Lemma digits_not c ds : is_digit c = false -> Forall (fun c => is_digit c = true) ds -> c ∉ ds.
Proof. intros Hc Hd Hin. rewrite Forall_forall in Hd. rewrite (Hd _ Hin) in Hc. done. Qed.

Lemma split_port_digits h ds :
  ":"%char ∉ h -> "/"%char ∉ h -> size_ok (h ++ [":"%char]) ->
  ds <> [] -> Forall (fun c => is_digit c = true) ds -> decimal ds < 2 ^ 31 ->
  split_port (h ++ ":"%char :: ds) = (h, decimal ds mod 2 ^ 16).
Proof.
  intros Hcolon Hslash Hsize Hne Hd Hlt. unfold split_port.
  rewrite find_pair_None.
  2: { rewrite not_elem_of_app, not_elem_of_cons. split; [done|]. split; [done|]. by apply digits_not. }
  destruct (find_char ":" (h ++ ":"%char :: ds)) as [k|] eqn:E.
  2: { apply find_char_None in E. destruct E. apply elem_of_app. right. by left. }
  rewrite str_split_parts, parts_of_app by first [done|by apply digits_not]. cbn [last default removelast].
  rewrite (proj2 (find_char_None _ _)) by by apply digits_not.
  rewrite stoi_digits by done. f_equal. apply str_join_last; [done|]. cbn. by rewrite app_nil_r.
Qed.

(** The protocol in front is dropped. *)
Lemma split_port_protocol rest :
  find_pair "/" "/" rest = None -> split_port (to_chars "tcp://" ++ rest) = split_port rest.
Proof.
  intros E. unfold split_port. rewrite E.
  replace (find_pair "/" "/" (to_chars "tcp://" ++ rest)) with (Some 4%nat) by done.
  replace (substr (4 + 2) (List.length (to_chars "tcp://" ++ rest)) (to_chars "tcp://" ++ rest)) with rest;
    [done|].
  unfold substr. cbn [to_chars list_ascii_of_string app Nat.add drop List.length].
  rewrite drop_0, take_ge; [done|]. lia.
Qed.

(** ** Properties *)

(** [str_split] always ends and gives the parts between the separators, none
    of which holds a separator; [str_join] puts them together again. *)
Theorem str_split_join l ch :
  size_ok (l ++ [ch]) ->
  str_split l ch = parts_of ch l /\ str_join (str_split l ch) ch = l /\
  (forall p, p ∈ str_split l ch -> ch ∉ p) /\ str_split l ch <> [].
Proof.
  intros Hs. split; [apply str_split_parts|]. split; [by apply str_join_split|].
  rewrite str_split_parts. split; [apply parts_no_separator|apply parts_of_not_nil].
Qed.

(** A host without colons and slashes that is followed by a colon and a
    port number is normalized to the address that the parser reads it as, with
    that port (modulo [2^16]), also behind [tcp://], and is refused when the
    parser refuses it; the overload with a port of its own ignores the number.
    A bracketed IPv6 host without a port, as [to_string] of an address prints
    it, loses its last group to the port, and the parser gets the rest. *)
Theorem host_port_normalized {CL : CryptoLib} {IP : IPParser} (h ds : chars) protocol port :
  ":"%char ∉ h -> "/"%char ∉ h -> size_ok (h ++ [":"%char]) ->
  ds <> [] -> Forall (fun c => is_digit c = true) ds -> decimal ds < 2 ^ 31 ->
  protocol = ""%string \/ protocol = "tcp://"%string ->
  let host := of_chars (to_chars protocol ++ h ++ ":"%char :: ds) in
  let named p := addr ← ip_address_of_string (of_chars h);
                 Some (ip_to_string addr, p, host_hash (ip_to_string addr) p) in
  normalize_host_port host = named (decimal ds mod 2 ^ 16) /\
  normalize_host_with_port host port = named port /\
  split_port (to_chars "[2001:db8::1]") = (to_chars "[2001:db8:", 1).
Proof.
  intros Hcolon Hslash Hsize Hne Hd Hlt Hproto host named.
  assert (Hsplit : split_port (to_chars host) = (h, decimal ds mod 2 ^ 16)).
  { unfold host, to_chars at 1, of_chars. rewrite list_ascii_of_string_of_list_ascii.
    destruct Hproto as [-> | ->]; [by apply split_port_digits|].
    rewrite split_port_protocol; [by apply split_port_digits|]. apply find_pair_None.
    rewrite not_elem_of_app, not_elem_of_cons. split; [done|]. split; [done|]. by apply digits_not. }
  assert (Hn : normalize_host_port host = named (decimal ds mod 2 ^ 16))
    by (unfold normalize_host_port; by rewrite Hsplit).
  split; [done|]. split; [|reflexivity].
  unfold normalize_host_with_port. rewrite Hn. unfold named.
  by destruct (ip_address_of_string (of_chars h)).
Qed.

(** Spaces are no white space for [str_trim]. *)
Lemma str_trim_keeps_spaces : str_trim (to_chars " help") true = to_chars " help".
Proof. reflexivity. Qed.

(** ** Witnesses *)

Lemma str_split_join_witness : str_join (str_split (to_chars "a:b:") ":") ":" = to_chars "a:b:".
Proof. apply (str_split_join (to_chars "a:b:") ":"). unfold size_ok, uintw. cbn. lia. Defined.

#[local] Existing Instance toy_crypto.
#[local] Existing Instance PacketSamples.toy_ip.

Lemma host_port_normalized_witness :
  exists h, normalize_host_port "tcp://127.0.0.1:12897" = Some ("[127.0.0.1]"%string, 12897, h).
Proof.
  destruct (host_port_normalized (CL := toy_crypto) (IP := PacketSamples.toy_ip)
    (to_chars "127.0.0.1") (to_chars "12897") "tcp://" 0) as [H _].
  - by apply (bool_decide_unpack (":"%char ∉ to_chars "127.0.0.1")).
  - by apply (bool_decide_unpack ("/"%char ∉ to_chars "127.0.0.1")).
  - unfold size_ok, uintw. cbn. lia.
  - done.
  - repeat constructor.
  - reflexivity.
  - by right.
  - eexists. exact H.
Defined.
