(* ===== verification/TxBase.v ===== *)
(** * Transaction building blocks

    [src/include/blockchain/base_types.h]: the header, prefix, outputs, user
    body, data and suffix parts that the transaction structures inherit from.
    Each part has its members as a record, what it appends to the writer, and
    how it is read back; the outputs also have their construction check, hash
    and comparison. *)

From S2P Require Import Prelude Errors CryptoLib Codec.

(** [enum TransactionType]. *)
Inductive TransactionType : Set :=
  | GENESIS | STAKER | NORMAL | STAKE | RECALL_STAKE | STAKE_REFUND.

Definition TransactionType_value (t : TransactionType) : Z :=
  match t with
  | GENESIS => 0 | STAKER => 1 | NORMAL => 2 | STAKE => 3 | RECALL_STAKE => 4
  | STAKE_REFUND => 5
  end.

(** ** [TransactionHeader] *)

Record TransactionHeader : Type := mkTransactionHeader {
  l_type : Z;
  version : Z
}.

(** The default member initialisers [version = 1] and [l_type = 0]; a
    transaction's own constructor sets [l_type]. *)
Definition default_header : TransactionHeader := mkTransactionHeader 0 1.

Definition TransactionHeader_wf (h : TransactionHeader) : Prop :=
  u64 (l_type h) /\ u64 (version h).

Section Base.
Context {CL : CryptoLib}.

Definition serialize_header (h : TransactionHeader) : bytes :=
  put_varint (l_type h) ++ put_varint (version h).

Definition deserialize_header : reader TransactionHeader :=
  l_type ← get_varint 64;
  version ← get_varint 64;
  mret (mkTransactionHeader l_type version).

#[global] Instance TransactionHeader_ser : ISerializable TransactionHeader := {|
  serialize := serialize_header; deserialize := deserialize_header |}.

(** ** [TransactionPrefix] *)

Record TransactionPrefix : Type := mkTransactionPrefix {
  prefix_header :> TransactionHeader;
  unlock_block : Z;
  public_key : crypto_public_key_t
}.

Definition TransactionPrefix_wf (p : TransactionPrefix) : Prop :=
  TransactionHeader_wf (prefix_header p) /\ u64 (unlock_block p).

Definition serialize_prefix (p : TransactionPrefix) : bytes :=
  serialize_header (prefix_header p) ++
  put_varint (unlock_block p) ++
  put_key (public_key p).

Definition deserialize_prefix : reader TransactionPrefix :=
  header ← deserialize_header;
  unlock_block ← get_varint 64;
  public_key ← get_key;
  mret (mkTransactionPrefix header unlock_block public_key).

#[global] Instance TransactionPrefix_ser : ISerializable TransactionPrefix := {|
  serialize := serialize_prefix; deserialize := deserialize_prefix |}.

(** ** [StakerOutput] *)

Record StakerOutput : Type := mkStakerOutput {
  staker_output_id : crypto_hash_t;
  staker_output_amount : Z
}.

Definition StakerOutput_wf (o : StakerOutput) : Prop := u64 (staker_output_amount o).

Definition StakerOutput_serialize (o : StakerOutput) : bytes :=
  put_key (staker_output_id o) ++ put_varint (staker_output_amount o).

Definition StakerOutput_deserialize : reader StakerOutput :=
  staker_id ← get_key;
  amount ← get_varint 64;
  mret (mkStakerOutput staker_id amount).

#[global] Instance StakerOutput_ser : ISerializable StakerOutput := {|
  serialize := StakerOutput_serialize; deserialize := StakerOutput_deserialize |}.

Definition StakerOutput_check_construction (o : StakerOutput) : ErrorCode :=
  if key_empty (staker_output_id o) then TX_STAKER_REWARD_ID
  else if staker_output_amount o =? 0 then TX_STAKER_REWARD_AMOUNT
  else SUCCESS.

Definition StakerOutput_hash (o : StakerOutput) : crypto_hash_t := sha3 (StakerOutput_serialize o).

Definition StakerOutput_size (o : StakerOutput) : Z := vsize (StakerOutput_serialize o).

(** ** [TransactionOutput] *)

Record TransactionOutput : Type := mkTransactionOutput {
  public_ephemeral : crypto_public_key_t;
  amount : Z;
  commitment : crypto_pedersen_commitment_t
}.

Definition TransactionOutput_wf (o : TransactionOutput) : Prop := u64 (amount o).

Definition TransactionOutput_serialize (o : TransactionOutput) : bytes :=
  put_key (public_ephemeral o) ++ put_varint (amount o) ++ put_key (commitment o).

Definition TransactionOutput_deserialize : reader TransactionOutput :=
  public_ephemeral ← get_key;
  amount ← get_varint 64;
  commitment ← get_key;
  mret (mkTransactionOutput public_ephemeral amount commitment).

#[global] Instance TransactionOutput_ser : ISerializable TransactionOutput := {|
  serialize := TransactionOutput_serialize; deserialize := TransactionOutput_deserialize |}.

Definition TransactionOutput_check_construction (o : TransactionOutput) : ErrorCode :=
  if key_empty (public_ephemeral o) then TX_OUTPUT_PUBLIC_EPHEMERAL
  else if amount o =? 0 then TX_OUTPUT_AMOUNT
  else if key_empty (commitment o) then TX_OUTPUT_COMMITMENT
  else SUCCESS.

Definition TransactionOutput_hash (o : TransactionOutput) : crypto_hash_t :=
  sha3 (TransactionOutput_serialize o).

Definition TransactionOutput_size (o : TransactionOutput) : Z :=
  vsize (TransactionOutput_serialize o).

(** [operator==], [<], [<=], [>] and [>=] all compare the hashes. *)
Definition TransactionOutput_eq (o other : TransactionOutput) : bool :=
  bool_decide (TransactionOutput_hash o = TransactionOutput_hash other).

Definition TransactionOutput_lt (o other : TransactionOutput) : bool :=
  key_ltb (TransactionOutput_hash o) (TransactionOutput_hash other).

Definition TransactionOutput_le (o other : TransactionOutput) : bool :=
  TransactionOutput_eq o other || TransactionOutput_lt o other.

Definition TransactionOutput_gt (o other : TransactionOutput) : bool :=
  key_ltb (TransactionOutput_hash other) (TransactionOutput_hash o).

Definition TransactionOutput_ge (o other : TransactionOutput) : bool :=
  TransactionOutput_eq o other || TransactionOutput_gt o other.

(** ** [TransactionUserBody] *)

Record TransactionUserBody : Type := mkTransactionUserBody {
  nonce : Z;
  fee : Z;
  key_images : list crypto_key_image_t;
  outputs : list TransactionOutput
}.

Definition TransactionUserBody_wf (b : TransactionUserBody) : Prop :=
  u64 (nonce b) /\ u64 (fee b) /\ size_ok (key_images b) /\ size_ok (outputs b) /\
  Forall TransactionOutput_wf (outputs b).

Definition serialize_body (b : TransactionUserBody) : bytes :=
  put_varint (nonce b) ++
  put_varint (fee b) ++
  put_keyV (key_images b) ++
  put_vector (outputs b).

Definition deserialize_body : reader TransactionUserBody :=
  nonce ← get_varint 64;
  fee ← get_varint 64;
  key_images ← get_keyV;
  outputs ← get_vector;
  mret (mkTransactionUserBody nonce fee key_images outputs).

#[global] Instance TransactionUserBody_ser : ISerializable TransactionUserBody := {|
  serialize := serialize_body; deserialize := deserialize_body |}.

(** ** [UncommittedTransactionSuffix] *)

#[global] Instance clsag_ser : ISerializable crypto_clsag_signature_t := {|
  serialize := put_clsag; deserialize := get_clsag |}.

Record UncommittedTransactionSuffix : Type := mkUncommittedTransactionSuffix {
  pseudo_commitments : list crypto_pedersen_commitment_t;
  ring_participants : list crypto_hash_t;
  signatures : list crypto_clsag_signature_t;
  range_proof : crypto_bulletproof_plus_t
}.

Definition UncommittedTransactionSuffix_wf (s : UncommittedTransactionSuffix) : Prop :=
  size_ok (pseudo_commitments s) /\ size_ok (ring_participants s) /\ size_ok (signatures s).

Definition serialize_uncommitted_suffix (s : UncommittedTransactionSuffix) : bytes :=
  put_keyV (pseudo_commitments s) ++
  put_keyV (ring_participants s) ++
  put_vector (signatures s) ++
  put_bulletproof (range_proof s).

Definition deserialize_uncommitted_suffix : reader UncommittedTransactionSuffix :=
  pseudo_commitments ← get_keyV;
  ring_participants ← get_keyV;
  signatures ← get_vector;
  range_proof ← get_bulletproof;
  mret (mkUncommittedTransactionSuffix pseudo_commitments ring_participants signatures range_proof).

#[global] Instance UncommittedTransactionSuffix_ser :
  ISerializable UncommittedTransactionSuffix := {|
  serialize := serialize_uncommitted_suffix; deserialize := deserialize_uncommitted_suffix |}.

Definition uncommitted_range_proof_hash (s : UncommittedTransactionSuffix) : crypto_hash_t :=
  bulletproof_hash (range_proof s).

Definition uncommitted_signature_hash (s : UncommittedTransactionSuffix) : crypto_hash_t :=
  sha3 (put_keyV (pseudo_commitments s) ++
        put_keyV (ring_participants s) ++
        put_vector (signatures s)).

(** ** [CommittedTransactionSuffix] *)

Record CommittedTransactionSuffix : Type := mkCommittedTransactionSuffix {
  signature_hash : crypto_hash_t;
  range_proof_hash : crypto_hash_t
}.

Definition serialize_committed_suffix (s : CommittedTransactionSuffix) : bytes :=
  put_key (signature_hash s) ++ put_key (range_proof_hash s).

Definition deserialize_committed_suffix : reader CommittedTransactionSuffix :=
  signature_hash ← get_key;
  range_proof_hash ← get_key;
  mret (mkCommittedTransactionSuffix signature_hash range_proof_hash).

#[global] Instance CommittedTransactionSuffix_ser :
  ISerializable CommittedTransactionSuffix := {|
  serialize := serialize_committed_suffix; deserialize := deserialize_committed_suffix |}.

Definition suffix_hash (s : CommittedTransactionSuffix) : crypto_hash_t :=
  sha3 (serialize_committed_suffix s).

(** ** [NormalTransactionData] *)

Record NormalTransactionData : Type := mkNormalTransactionData { extra : bytes }.

Definition NormalTransactionData_wf (d : NormalTransactionData) : Prop := size_ok (extra d).

Definition serialize_normal_data (d : NormalTransactionData) : bytes :=
  put_varint (vsize (extra d)) ++ extra d.

Definition deserialize_normal_data : reader NormalTransactionData :=
  count ← get_varint 64;
  extra ← get_bytes count;
  mret (mkNormalTransactionData extra).

#[global] Instance NormalTransactionData_ser : ISerializable NormalTransactionData := {|
  serialize := serialize_normal_data; deserialize := deserialize_normal_data |}.

(** ** [StakeTransactionData] *)

Record StakeTransactionData : Type := mkStakeTransactionData {
  stake_amount : Z;
  candidate_public_key : crypto_public_key_t;
  staker_public_view_key : crypto_public_key_t;
  staker_public_spend_key : crypto_public_key_t
}.

Definition StakeTransactionData_wf (d : StakeTransactionData) : Prop := u64 (stake_amount d).

Definition serialize_stake_data (d : StakeTransactionData) : bytes :=
  put_varint (stake_amount d) ++
  put_key (candidate_public_key d) ++
  put_key (staker_public_view_key d) ++
  put_key (staker_public_spend_key d).

Definition deserialize_stake_data : reader StakeTransactionData :=
  stake_amount ← get_varint 64;
  candidate_public_key ← get_key;
  staker_public_view_key ← get_key;
  staker_public_spend_key ← get_key;
  mret (mkStakeTransactionData stake_amount candidate_public_key
          staker_public_view_key staker_public_spend_key).

#[global] Instance StakeTransactionData_ser : ISerializable StakeTransactionData := {|
  serialize := serialize_stake_data; deserialize := deserialize_stake_data |}.

(** ** [RecallStakeTransactionData] *)

Record RecallStakeTransactionData : Type := mkRecallStakeTransactionData {
  recall_stake_amount : Z;
  recall_candidate_public_key : crypto_public_key_t;
  staker_id : crypto_hash_t;
  view_signature : crypto_signature_t;
  spend_signature : crypto_signature_t
}.

Definition RecallStakeTransactionData_wf (d : RecallStakeTransactionData) : Prop :=
  u64 (recall_stake_amount d).

Definition serialize_recall_data (d : RecallStakeTransactionData) : bytes :=
  put_varint (recall_stake_amount d) ++
  put_key (recall_candidate_public_key d) ++
  put_key (staker_id d) ++
  put_key (view_signature d) ++
  put_key (spend_signature d).

Definition deserialize_recall_data : reader RecallStakeTransactionData :=
  stake_amount ← get_varint 64;
  candidate_public_key ← get_key;
  staker_id ← get_key;
  view_signature ← get_key;
  spend_signature ← get_key;
  mret (mkRecallStakeTransactionData stake_amount candidate_public_key
          staker_id view_signature spend_signature).

#[global] Instance RecallStakeTransactionData_ser :
  ISerializable RecallStakeTransactionData := {|
  serialize := serialize_recall_data; deserialize := deserialize_recall_data |}.

(** ** Round trips of the parts *)

Context {CodecOK : CodecLaws CL}.

#[global] Instance clsag_roundtrip : RoundTrip crypto_clsag_signature_t (fun _ => True).
Proof. intros s r _. apply get_put_clsag. Qed.

Lemma header_roundtrip h r :
  TransactionHeader_wf h -> deserialize_header (serialize_header h ++ r) = Some (h, r).
Proof. revert h r. codec. Qed.

Hint Resolve header_roundtrip : codec.

Lemma prefix_roundtrip p r :
  TransactionPrefix_wf p -> deserialize_prefix (serialize_prefix p ++ r) = Some (p, r).
Proof. revert p r. codec. Qed.

#[global] Instance StakerOutput_roundtrip : RoundTrip StakerOutput StakerOutput_wf.
Proof. unfold RoundTrip. cbn [deserialize serialize StakerOutput_ser]. codec. Qed.

#[global] Instance TransactionOutput_roundtrip : RoundTrip TransactionOutput TransactionOutput_wf.
Proof. unfold RoundTrip. cbn [deserialize serialize TransactionOutput_ser]. codec. Qed.

Lemma output_roundtrip o r :
  TransactionOutput_wf o ->
  TransactionOutput_deserialize (TransactionOutput_serialize o ++ r) = Some (o, r).
Proof. apply TransactionOutput_roundtrip. Qed.

Lemma body_roundtrip b r :
  TransactionUserBody_wf b -> deserialize_body (serialize_body b ++ r) = Some (b, r).
Proof. revert b r. codec. Qed.

Lemma uncommitted_suffix_roundtrip s r :
  UncommittedTransactionSuffix_wf s ->
  deserialize_uncommitted_suffix (serialize_uncommitted_suffix s ++ r) = Some (s, r).
Proof.
  revert s r. codec.
Qed.

Lemma committed_suffix_roundtrip s r :
  deserialize_committed_suffix (serialize_committed_suffix s ++ r) = Some (s, r).
Proof. revert s r. codec. Qed.

Lemma normal_data_roundtrip d r :
  NormalTransactionData_wf d ->
  deserialize_normal_data (serialize_normal_data d ++ r) = Some (d, r).
Proof. revert d r. codec. Qed.

Lemma stake_data_roundtrip d r :
  StakeTransactionData_wf d ->
  deserialize_stake_data (serialize_stake_data d ++ r) = Some (d, r).
Proof. revert d r. codec. Qed.

Lemma recall_data_roundtrip d r :
  RecallStakeTransactionData_wf d ->
  deserialize_recall_data (serialize_recall_data d ++ r) = Some (d, r).
Proof. revert d r. codec. Qed.
End Base.

#[export] Hint Resolve header_roundtrip prefix_roundtrip output_roundtrip body_roundtrip
  uncommitted_suffix_roundtrip committed_suffix_roundtrip normal_data_roundtrip
  stake_data_roundtrip recall_data_roundtrip : codec.
