(* ===== verification/TxUser.v ===== *)
(** * User transactions

    The three transaction structures a wallet creates, each in its uncommitted
    form (with ring signatures and a range proof) and in the committed form that
    is stored in the chain (with the hashes of both):
    [src/include/blockchain/transaction_normal.h], [transaction_stake.h] and
    [transaction_recall_stake.h].  The members come from the parts in
    [TxBase.v]; the coercions to the parts are the source's inheritance. *)

From S2P Require Import Prelude Errors Config CryptoLib Concrete Codec TxBase.
From Stdlib Require Import Strings.Byte.
Import Configuration.Transaction.

(** ** Sequences of checks with early returns *)

(** [if (c) return e;] before the rest of the checks. *)
Notation "'fail_if' c 'with' e ';;' k" := (if c then e else k)
  (at level 200, c at level 99, e at level 99, k at level 200, right associativity,
   format "'[v' 'fail_if'  c  'with'  e ';;' '/' k ']'") : turtle_scope.

(** [auto error = c; if (error) return error;] *)
Definition try_check_then (e k : ErrorCode) : ErrorCode := if is_error e then e else k.

Notation "'try_check' c ';;' k" := (try_check_then c k)
  (at level 200, c at level 99, k at level 200, right associativity,
   format "'[v' 'try_check'  c ';;' '/' k ']'") : turtle_scope.
#[local] Open Scope turtle_scope.

(** A loop that returns the first error of a check over a vector. *)
Fixpoint first_error {A} (check : A -> ErrorCode) (l : list A) : ErrorCode :=
  match l with
  | [] => SUCCESS
  | x :: l' => if is_error (check x) then check x else first_error check l'
  end.

Definition is_nil {A} (l : list A) : bool := match l with [] => true | _ => false end.

(** ** The interfaces of [include/serializable.h]

    [IStorable] ([type], [hash], serialization) and [ICheckable]. *)
Class ITransaction `{CL : CryptoLib} (T : Type) : Type := {
  tx_serializable :: ISerializable T;
  check_construction : T -> ErrorCode;
  tx_hash : T -> crypto_hash_t;
  tx_type : T -> Z
}.

(** ** Proof-of-work mining

    The body of every [mine]: keep the transaction when its hash already has
    enough leading zeros, otherwise restart the nonce at 0 and increment it
    until the hash has them or the nonce is [UINT64_MAX]. [None] is a loop that
    was given too little fuel. *)
Section Mine.
Context {CL : CryptoLib} {T : Type}.
Context (pow_hash : T -> crypto_hash_t) (set_nonce : Z -> T -> T)
  (body : T -> TransactionUserBody).

Fixpoint mine_loop (fuel : nat) (zeros : Z) (hash : crypto_hash_t) (tx : T)
  : option (bool * T) :=
  if (leading_zeros hash <? zeros) && negb (nonce (body tx) =? UINT64_MAX) then
    match fuel with
    | O => None
    | S fuel' =>
        let tx' := set_nonce (nonce (body tx) + 1) tx in
        mine_loop fuel' zeros (pow_hash tx') tx'
    end
  else Some (zeros <=? leading_zeros hash, tx).

Definition mine (fuel : nat) (zeros : Z) (tx : T) : option (bool * T) :=
  let hash := pow_hash tx in
  if zeros <=? leading_zeros hash then Some (true, tx)
  else mine_loop fuel zeros hash (set_nonce 0 tx).
End Mine.

Section User.
Context {CL : CryptoLib}.

(** ** Normal transactions *)

(** *** [committed_normal_transaction_t] *)

Record committed_normal_transaction_t : Type := mk_committed_normal {
  committed_normal_prefix :> TransactionPrefix;
  committed_normal_body :> TransactionUserBody;
  committed_normal_data :> NormalTransactionData;
  committed_normal_suffix :> CommittedTransactionSuffix
}.

Definition committed_normal_serialize_digest (tx : committed_normal_transaction_t) : bytes :=
  serialize_prefix tx ++ serialize_body tx ++ serialize_normal_data tx.

Definition committed_normal_serialize (tx : committed_normal_transaction_t) : bytes :=
  serialize_prefix tx ++ serialize_body tx ++ serialize_normal_data tx ++
  serialize_committed_suffix tx.

Definition committed_normal_deserialize : reader committed_normal_transaction_t :=
  prefix ← deserialize_prefix;
  body ← deserialize_body;
  data ← deserialize_normal_data;
  suffix ← deserialize_committed_suffix;
  mret (mk_committed_normal prefix body data suffix).

Definition committed_normal_digest (tx : committed_normal_transaction_t) : crypto_hash_t :=
  sha3 (committed_normal_serialize_digest tx).

Definition committed_normal_hash (tx : committed_normal_transaction_t) : crypto_hash_t :=
  sha3 (put_key (committed_normal_digest tx) ++ put_key (signature_hash tx) ++ put_key (range_proof_hash tx)).

Definition committed_normal_pow_hash (tx : committed_normal_transaction_t) : crypto_hash_t :=
  argon2id (sha3 (committed_normal_serialize_digest tx ++ put_key (range_proof_hash tx)))
    ProofOfWork.ITERATIONS ProofOfWork.MEMORY ProofOfWork.THREADS.

Definition committed_normal_pow_verify (tx : committed_normal_transaction_t) (zeros : Z) : bool :=
  zeros <=? leading_zeros (committed_normal_pow_hash tx).

Definition committed_normal_size (tx : committed_normal_transaction_t) : Z := vsize (committed_normal_serialize tx).

Definition committed_normal_check_construction (tx : committed_normal_transaction_t) : ErrorCode :=
  fail_if (negb (version tx =? 1)) with TX_INVALID_VERSION;;
  fail_if key_empty (public_key tx) with TX_PUBLIC_KEY;;
  fail_if (fee tx =? 0) with TX_MISSING_FEE;;
  fail_if (is_nil (key_images tx) || (MAXIMUM_INPUTS <? vsize (key_images tx)))
    with TX_INVALID_INPUT_COUNT;;
  fail_if existsb (fun key_image => negb (check_subgroup key_image)) (key_images tx)
    with TX_INVALID_KEY_IMAGE;;
  fail_if negb (vsize (dedupe_sort (key_images tx)) =? vsize (key_images tx))
    with TX_DUPLICATE_KEY_IMAGE;;
  fail_if ((vsize (outputs tx) <? MINIMUM_OUTPUTS) || (MAXIMUM_OUTPUTS <? vsize (outputs tx)))
    with TX_INVALID_OUTPUT_COUNT;;
  try_check first_error TransactionOutput_check_construction (outputs tx);;
  fail_if (MAXIMUM_EXTRA_SIZE <? vsize (extra tx)) with TX_EXTRA_TOO_LARGE;;
  SUCCESS.

Definition committed_normal_wf (tx : committed_normal_transaction_t) : Prop :=
  TransactionPrefix_wf tx /\ TransactionUserBody_wf tx /\ NormalTransactionData_wf tx.

#[global] Instance committed_normal_transaction : ITransaction committed_normal_transaction_t := {|
  tx_serializable := {| serialize := committed_normal_serialize; deserialize := committed_normal_deserialize |};
  check_construction := committed_normal_check_construction;
  tx_hash := committed_normal_hash;
  tx_type tx := l_type tx |}.

(** *** [uncommited_normal_transaction_t] *)

Record uncommited_normal_transaction_t : Type := mk_uncommitted_normal {
  uncommitted_normal_prefix :> TransactionPrefix;
  uncommitted_normal_body :> TransactionUserBody;
  uncommitted_normal_data :> NormalTransactionData;
  uncommitted_normal_suffix :> UncommittedTransactionSuffix
}.

Definition uncommitted_normal_serialize_digest (tx : uncommited_normal_transaction_t) : bytes :=
  serialize_prefix tx ++ serialize_body tx ++ serialize_normal_data tx.

Definition uncommitted_normal_serialize (tx : uncommited_normal_transaction_t) : bytes :=
  serialize_prefix tx ++ serialize_body tx ++ serialize_normal_data tx ++
  serialize_uncommitted_suffix tx.

Definition uncommitted_normal_deserialize : reader uncommited_normal_transaction_t :=
  prefix ← deserialize_prefix;
  body ← deserialize_body;
  data ← deserialize_normal_data;
  suffix ← deserialize_uncommitted_suffix;
  mret (mk_uncommitted_normal prefix body data suffix).

Definition uncommitted_normal_digest (tx : uncommited_normal_transaction_t) : crypto_hash_t :=
  sha3 (uncommitted_normal_serialize_digest tx).

Definition uncommitted_normal_hash (tx : uncommited_normal_transaction_t) : crypto_hash_t :=
  sha3 (put_key (uncommitted_normal_digest tx) ++ put_key (uncommitted_signature_hash tx) ++ put_key (uncommitted_range_proof_hash tx)).

Definition uncommitted_normal_pow_hash (tx : uncommited_normal_transaction_t) : crypto_hash_t :=
  argon2id (sha3 (uncommitted_normal_serialize_digest tx ++ put_key (uncommitted_range_proof_hash tx)))
    ProofOfWork.ITERATIONS ProofOfWork.MEMORY ProofOfWork.THREADS.

Definition uncommitted_normal_pow_verify (tx : uncommited_normal_transaction_t) (zeros : Z) : bool :=
  zeros <=? leading_zeros (uncommitted_normal_pow_hash tx).

Definition uncommitted_normal_size (tx : uncommited_normal_transaction_t) : Z := vsize (uncommitted_normal_serialize tx).

Definition uncommitted_normal_check_construction (tx : uncommited_normal_transaction_t) : ErrorCode :=
  fail_if (negb (version tx =? 1)) with TX_INVALID_VERSION;;
  fail_if key_empty (public_key tx) with TX_PUBLIC_KEY;;
  fail_if (fee tx =? 0) with TX_MISSING_FEE;;
  fail_if (is_nil (key_images tx) || (MAXIMUM_INPUTS <? vsize (key_images tx)))
    with TX_INVALID_INPUT_COUNT;;
  fail_if existsb (fun key_image => negb (check_subgroup key_image)) (key_images tx)
    with TX_INVALID_KEY_IMAGE;;
  fail_if negb (vsize (dedupe_sort (key_images tx)) =? vsize (key_images tx))
    with TX_DUPLICATE_KEY_IMAGE;;
  fail_if ((vsize (outputs tx) <? MINIMUM_OUTPUTS) || (MAXIMUM_OUTPUTS <? vsize (outputs tx)))
    with TX_INVALID_OUTPUT_COUNT;;
  try_check first_error TransactionOutput_check_construction (outputs tx);;
  fail_if (MAXIMUM_EXTRA_SIZE <? vsize (extra tx)) with TX_EXTRA_TOO_LARGE;;
  fail_if negb (vsize (key_images tx) =? vsize (pseudo_commitments tx))
    with TX_INVALID_PSEUDO_COMMITMENT_COUNT;;
  fail_if negb (check_commitments_parity (pseudo_commitments tx) (commitment <$> outputs tx) (fee tx))
    with TX_COMMITMENTS_DO_NOT_BALANCE;;
  fail_if negb (bulletproof_check_construction (range_proof tx)) with TX_INVALID_RANGE_PROOF;;
  fail_if negb (vsize (key_images tx) =? vsize (signatures tx)) with TX_SIG_SIZE_MISMATCH;;
  fail_if existsb (fun signature => negb (clsag_check_construction signature RING_SIZE)) (signatures tx)
    with TX_INVALID_SIGNATURE;;
  SUCCESS.

(** The committed size counts the two 32-byte hashes of the committed suffix. *)
Definition uncommitted_normal_committed_size (tx : uncommited_normal_transaction_t) : Z :=
  vsize (uncommitted_normal_serialize_digest tx) + 32 + 32.

Definition uncommitted_normal_to_committed (tx : uncommited_normal_transaction_t) : committed_normal_transaction_t :=
  mk_committed_normal
    (mkTransactionPrefix (mkTransactionHeader (TransactionType_value NORMAL) (version tx))
       (unlock_block tx) (public_key tx))
    (mkTransactionUserBody (nonce tx) (fee tx) (key_images tx) (outputs tx))
    (mkNormalTransactionData (extra tx))
    (mkCommittedTransactionSuffix (uncommitted_signature_hash tx) (uncommitted_range_proof_hash tx)).

Definition uncommitted_normal_set_nonce (n : Z) (tx : uncommited_normal_transaction_t) : uncommited_normal_transaction_t :=
  mk_uncommitted_normal tx (mkTransactionUserBody n (fee tx) (key_images tx) (outputs tx)) tx tx.

Definition uncommitted_normal_mine (fuel : nat) (zeros : Z) (tx : uncommited_normal_transaction_t) : option (bool * uncommited_normal_transaction_t) :=
  mine uncommitted_normal_pow_hash uncommitted_normal_set_nonce uncommitted_normal_body fuel zeros tx.

Definition uncommitted_normal_wf (tx : uncommited_normal_transaction_t) : Prop :=
  TransactionPrefix_wf tx /\ TransactionUserBody_wf tx /\ NormalTransactionData_wf tx /\ UncommittedTransactionSuffix_wf tx.

#[global] Instance uncommitted_normal_transaction : ITransaction uncommited_normal_transaction_t := {|
  tx_serializable := {| serialize := uncommitted_normal_serialize; deserialize := uncommitted_normal_deserialize |};
  check_construction := uncommitted_normal_check_construction;
  tx_hash := uncommitted_normal_hash;
  tx_type tx := l_type tx |}.

(** ** Stake transactions *)

(** *** [committed_stake_transaction_t] *)

Record committed_stake_transaction_t : Type := mk_committed_stake {
  committed_stake_prefix :> TransactionPrefix;
  committed_stake_body :> TransactionUserBody;
  committed_stake_data :> StakeTransactionData;
  committed_stake_suffix :> CommittedTransactionSuffix
}.

Definition committed_stake_serialize_digest (tx : committed_stake_transaction_t) : bytes :=
  serialize_prefix tx ++ serialize_body tx ++ serialize_stake_data tx.

Definition committed_stake_serialize (tx : committed_stake_transaction_t) : bytes :=
  serialize_prefix tx ++ serialize_body tx ++ serialize_stake_data tx ++
  serialize_committed_suffix tx.

Definition committed_stake_deserialize : reader committed_stake_transaction_t :=
  prefix ← deserialize_prefix;
  body ← deserialize_body;
  data ← deserialize_stake_data;
  suffix ← deserialize_committed_suffix;
  mret (mk_committed_stake prefix body data suffix).

Definition committed_stake_digest (tx : committed_stake_transaction_t) : crypto_hash_t :=
  sha3 (committed_stake_serialize_digest tx).

Definition committed_stake_hash (tx : committed_stake_transaction_t) : crypto_hash_t :=
  sha3 (put_key (committed_stake_digest tx) ++ put_key (signature_hash tx) ++ put_key (range_proof_hash tx)).

Definition committed_stake_pow_hash (tx : committed_stake_transaction_t) : crypto_hash_t :=
  argon2id (sha3 (committed_stake_serialize_digest tx ++ put_key (range_proof_hash tx)))
    ProofOfWork.ITERATIONS ProofOfWork.MEMORY ProofOfWork.THREADS.

Definition committed_stake_pow_verify (tx : committed_stake_transaction_t) (zeros : Z) : bool :=
  zeros <=? leading_zeros (committed_stake_pow_hash tx).

Definition committed_stake_size (tx : committed_stake_transaction_t) : Z := vsize (committed_stake_serialize tx).

Definition committed_stake_check_construction (tx : committed_stake_transaction_t) : ErrorCode :=
  fail_if (negb (version tx =? 1) && negb (version tx =? 2)) with TX_INVALID_VERSION;;
  fail_if key_empty (public_key tx) with TX_PUBLIC_KEY;;
  fail_if (fee tx =? 0) with TX_MISSING_FEE;;
  fail_if (is_nil (key_images tx) || (MAXIMUM_INPUTS <? vsize (key_images tx)))
    with TX_INVALID_INPUT_COUNT;;
  fail_if existsb (fun key_image => negb (check_subgroup key_image)) (key_images tx)
    with TX_INVALID_KEY_IMAGE;;
  fail_if negb (vsize (dedupe_sort (key_images tx)) =? vsize (key_images tx))
    with TX_DUPLICATE_KEY_IMAGE;;
  fail_if ((vsize (outputs tx) <? MINIMUM_OUTPUTS) || (MAXIMUM_OUTPUTS <? vsize (outputs tx)))
    with TX_INVALID_OUTPUT_COUNT;;
  try_check first_error TransactionOutput_check_construction (outputs tx);;
  fail_if (stake_amount tx =? 0) with TX_STAKE_NO_AMOUNT;;
  fail_if key_empty (candidate_public_key tx) with STAKING_CANDIDATE_NOT_FOUND;;
  fail_if key_empty (staker_public_view_key tx) with TX_PUBLIC_VIEW_KEY_NOT_FOUND;;
  fail_if key_empty (staker_public_spend_key tx) with TX_PUBLIC_SPEND_KEY_NOT_FOUND;;
  SUCCESS.

Definition committed_stake_wf (tx : committed_stake_transaction_t) : Prop :=
  TransactionPrefix_wf tx /\ TransactionUserBody_wf tx /\ StakeTransactionData_wf tx.

#[global] Instance committed_stake_transaction : ITransaction committed_stake_transaction_t := {|
  tx_serializable := {| serialize := committed_stake_serialize; deserialize := committed_stake_deserialize |};
  check_construction := committed_stake_check_construction;
  tx_hash := committed_stake_hash;
  tx_type tx := l_type tx |}.

(** *** [uncommitted_stake_transaction_t] *)

Record uncommitted_stake_transaction_t : Type := mk_uncommitted_stake {
  uncommitted_stake_prefix :> TransactionPrefix;
  uncommitted_stake_body :> TransactionUserBody;
  uncommitted_stake_data :> StakeTransactionData;
  uncommitted_stake_suffix :> UncommittedTransactionSuffix
}.

Definition uncommitted_stake_serialize_digest (tx : uncommitted_stake_transaction_t) : bytes :=
  serialize_prefix tx ++ serialize_body tx ++ serialize_stake_data tx.

Definition uncommitted_stake_serialize (tx : uncommitted_stake_transaction_t) : bytes :=
  serialize_prefix tx ++ serialize_body tx ++ serialize_stake_data tx ++
  serialize_uncommitted_suffix tx.

Definition uncommitted_stake_deserialize : reader uncommitted_stake_transaction_t :=
  prefix ← deserialize_prefix;
  body ← deserialize_body;
  data ← deserialize_stake_data;
  suffix ← deserialize_uncommitted_suffix;
  mret (mk_uncommitted_stake prefix body data suffix).

Definition uncommitted_stake_digest (tx : uncommitted_stake_transaction_t) : crypto_hash_t :=
  sha3 (uncommitted_stake_serialize_digest tx).

Definition uncommitted_stake_hash (tx : uncommitted_stake_transaction_t) : crypto_hash_t :=
  sha3 (put_key (uncommitted_stake_digest tx) ++ put_key (uncommitted_signature_hash tx) ++ put_key (uncommitted_range_proof_hash tx)).

Definition uncommitted_stake_pow_hash (tx : uncommitted_stake_transaction_t) : crypto_hash_t :=
  argon2id (sha3 (uncommitted_stake_serialize_digest tx ++ put_key (uncommitted_range_proof_hash tx)))
    ProofOfWork.ITERATIONS ProofOfWork.MEMORY ProofOfWork.THREADS.

Definition uncommitted_stake_pow_verify (tx : uncommitted_stake_transaction_t) (zeros : Z) : bool :=
  zeros <=? leading_zeros (uncommitted_stake_pow_hash tx).

Definition uncommitted_stake_size (tx : uncommitted_stake_transaction_t) : Z := vsize (uncommitted_stake_serialize tx).

Definition uncommitted_stake_check_construction (tx : uncommitted_stake_transaction_t) : ErrorCode :=
  fail_if (negb (version tx =? 1) && negb (version tx =? 2)) with TX_INVALID_VERSION;;
  fail_if key_empty (public_key tx) with TX_PUBLIC_KEY;;
  fail_if (fee tx =? 0) with TX_MISSING_FEE;;
  fail_if (is_nil (key_images tx) || (MAXIMUM_INPUTS <? vsize (key_images tx)))
    with TX_INVALID_INPUT_COUNT;;
  fail_if existsb (fun key_image => negb (check_subgroup key_image)) (key_images tx)
    with TX_INVALID_KEY_IMAGE;;
  fail_if negb (vsize (dedupe_sort (key_images tx)) =? vsize (key_images tx))
    with TX_DUPLICATE_KEY_IMAGE;;
  fail_if ((vsize (outputs tx) <? MINIMUM_OUTPUTS) || (MAXIMUM_OUTPUTS <? vsize (outputs tx)))
    with TX_INVALID_OUTPUT_COUNT;;
  try_check first_error TransactionOutput_check_construction (outputs tx);;
  fail_if (stake_amount tx =? 0) with TX_STAKE_NO_AMOUNT;;
  fail_if key_empty (candidate_public_key tx) with STAKING_CANDIDATE_NOT_FOUND;;
  fail_if key_empty (staker_public_view_key tx) with TX_PUBLIC_VIEW_KEY_NOT_FOUND;;
  fail_if key_empty (staker_public_spend_key tx) with TX_PUBLIC_SPEND_KEY_NOT_FOUND;;
  fail_if (bool_decide (candidate_public_key tx = staker_public_view_key tx)
           || bool_decide (candidate_public_key tx = staker_public_spend_key tx)
           || bool_decide (staker_public_view_key tx = staker_public_view_key tx))
    with TX_STAKING_PUBLIC_KEYS_REUSE;;
  fail_if negb (vsize (key_images tx) =? vsize (pseudo_commitments tx))
    with TX_INVALID_PSEUDO_COMMITMENT_COUNT;;
  fail_if negb (check_commitments_parity (pseudo_commitments tx) (commitment <$> outputs tx) (fee tx))
    with TX_COMMITMENTS_DO_NOT_BALANCE;;
  fail_if negb (bulletproof_check_construction (range_proof tx)) with TX_INVALID_RANGE_PROOF;;
  fail_if negb (vsize (key_images tx) =? vsize (signatures tx)) with TX_SIG_SIZE_MISMATCH;;
  fail_if existsb (fun signature => negb (clsag_check_construction signature RING_SIZE)) (signatures tx)
    with TX_INVALID_SIGNATURE;;
  SUCCESS.

(** The committed size counts the two 32-byte hashes of the committed suffix. *)
Definition uncommitted_stake_committed_size (tx : uncommitted_stake_transaction_t) : Z :=
  vsize (uncommitted_stake_serialize_digest tx) + 32 + 32.

Definition uncommitted_stake_to_committed (tx : uncommitted_stake_transaction_t) : committed_stake_transaction_t :=
  mk_committed_stake
    (mkTransactionPrefix (mkTransactionHeader (TransactionType_value STAKE) (version tx))
       (unlock_block tx) (public_key tx))
    (mkTransactionUserBody (nonce tx) (fee tx) (key_images tx) (outputs tx))
    (mkStakeTransactionData (stake_amount tx) (candidate_public_key tx)
       (staker_public_view_key tx) (staker_public_spend_key tx))
    (mkCommittedTransactionSuffix (uncommitted_signature_hash tx) (uncommitted_range_proof_hash tx)).

Definition uncommitted_stake_set_nonce (n : Z) (tx : uncommitted_stake_transaction_t) : uncommitted_stake_transaction_t :=
  mk_uncommitted_stake tx (mkTransactionUserBody n (fee tx) (key_images tx) (outputs tx)) tx tx.

Definition uncommitted_stake_mine (fuel : nat) (zeros : Z) (tx : uncommitted_stake_transaction_t) : option (bool * uncommitted_stake_transaction_t) :=
  mine uncommitted_stake_pow_hash uncommitted_stake_set_nonce uncommitted_stake_body fuel zeros tx.

Definition uncommitted_stake_wf (tx : uncommitted_stake_transaction_t) : Prop :=
  TransactionPrefix_wf tx /\ TransactionUserBody_wf tx /\ StakeTransactionData_wf tx /\ UncommittedTransactionSuffix_wf tx.

#[global] Instance uncommitted_stake_transaction : ITransaction uncommitted_stake_transaction_t := {|
  tx_serializable := {| serialize := uncommitted_stake_serialize; deserialize := uncommitted_stake_deserialize |};
  check_construction := uncommitted_stake_check_construction;
  tx_hash := uncommitted_stake_hash;
  tx_type tx := l_type tx |}.

(** ** Recall stake transactions *)

(** *** [committed_recall_stake_transaction_t] *)

Record committed_recall_stake_transaction_t : Type := mk_committed_recall {
  committed_recall_prefix :> TransactionPrefix;
  committed_recall_body :> TransactionUserBody;
  committed_recall_data :> RecallStakeTransactionData;
  committed_recall_suffix :> CommittedTransactionSuffix
}.

Definition committed_recall_serialize_digest (tx : committed_recall_stake_transaction_t) : bytes :=
  serialize_prefix tx ++ serialize_body tx ++ serialize_recall_data tx.

Definition committed_recall_serialize (tx : committed_recall_stake_transaction_t) : bytes :=
  serialize_prefix tx ++ serialize_body tx ++ serialize_recall_data tx ++
  serialize_committed_suffix tx.

Definition committed_recall_deserialize : reader committed_recall_stake_transaction_t :=
  prefix ← deserialize_prefix;
  body ← deserialize_body;
  data ← deserialize_recall_data;
  suffix ← deserialize_committed_suffix;
  mret (mk_committed_recall prefix body data suffix).

Definition committed_recall_digest (tx : committed_recall_stake_transaction_t) : crypto_hash_t :=
  sha3 (committed_recall_serialize_digest tx).

Definition committed_recall_hash (tx : committed_recall_stake_transaction_t) : crypto_hash_t :=
  sha3 (put_key (committed_recall_digest tx) ++ put_key (signature_hash tx) ++ put_key (range_proof_hash tx)).

Definition committed_recall_pow_hash (tx : committed_recall_stake_transaction_t) : crypto_hash_t :=
  argon2id (sha3 (committed_recall_serialize_digest tx ++ put_key (range_proof_hash tx)))
    ProofOfWork.ITERATIONS ProofOfWork.MEMORY ProofOfWork.THREADS.

Definition committed_recall_pow_verify (tx : committed_recall_stake_transaction_t) (zeros : Z) : bool :=
  zeros <=? leading_zeros (committed_recall_pow_hash tx).

Definition committed_recall_size (tx : committed_recall_stake_transaction_t) : Z := vsize (committed_recall_serialize tx).

Definition committed_recall_check_construction (tx : committed_recall_stake_transaction_t) : ErrorCode :=
  fail_if (negb (version tx =? 1) && negb (version tx =? 2)) with TX_INVALID_VERSION;;
  fail_if key_empty (public_key tx) with TX_PUBLIC_KEY;;
  fail_if (fee tx =? 0) with TX_MISSING_FEE;;
  fail_if (is_nil (key_images tx) || (MAXIMUM_INPUTS <? vsize (key_images tx)))
    with TX_INVALID_INPUT_COUNT;;
  fail_if existsb (fun key_image => negb (check_subgroup key_image)) (key_images tx)
    with TX_INVALID_KEY_IMAGE;;
  fail_if negb (vsize (dedupe_sort (key_images tx)) =? vsize (key_images tx))
    with TX_DUPLICATE_KEY_IMAGE;;
  fail_if ((vsize (outputs tx) <? MINIMUM_OUTPUTS) || (MAXIMUM_OUTPUTS <? vsize (outputs tx)))
    with TX_INVALID_OUTPUT_COUNT;;
  try_check first_error TransactionOutput_check_construction (outputs tx);;
  fail_if (recall_stake_amount tx =? 0) with TX_STAKE_NO_AMOUNT;;
  fail_if key_empty (recall_candidate_public_key tx) with STAKING_CANDIDATE_NOT_FOUND;;
  fail_if key_empty (staker_id tx) with TX_STAKER_ID;;
  fail_if key_empty (view_signature tx) with TX_RECALL_VIEW_SIGNATURE;;
  fail_if key_empty (spend_signature tx) with TX_RECALL_SPEND_SIGNATURE;;
  SUCCESS.

Definition committed_recall_wf (tx : committed_recall_stake_transaction_t) : Prop :=
  TransactionPrefix_wf tx /\ TransactionUserBody_wf tx /\ RecallStakeTransactionData_wf tx.

#[global] Instance committed_recall_transaction : ITransaction committed_recall_stake_transaction_t := {|
  tx_serializable := {| serialize := committed_recall_serialize; deserialize := committed_recall_deserialize |};
  check_construction := committed_recall_check_construction;
  tx_hash := committed_recall_hash;
  tx_type tx := l_type tx |}.

(** *** [uncommitted_recall_stake_transaction_t] *)

Record uncommitted_recall_stake_transaction_t : Type := mk_uncommitted_recall {
  uncommitted_recall_prefix :> TransactionPrefix;
  uncommitted_recall_body :> TransactionUserBody;
  uncommitted_recall_data :> RecallStakeTransactionData;
  uncommitted_recall_suffix :> UncommittedTransactionSuffix
}.

Definition uncommitted_recall_serialize_digest (tx : uncommitted_recall_stake_transaction_t) : bytes :=
  serialize_prefix tx ++ serialize_body tx ++ serialize_recall_data tx.

Definition uncommitted_recall_serialize (tx : uncommitted_recall_stake_transaction_t) : bytes :=
  serialize_prefix tx ++ serialize_body tx ++ serialize_recall_data tx ++
  serialize_uncommitted_suffix tx.

Definition uncommitted_recall_deserialize : reader uncommitted_recall_stake_transaction_t :=
  prefix ← deserialize_prefix;
  body ← deserialize_body;
  data ← deserialize_recall_data;
  suffix ← deserialize_uncommitted_suffix;
  mret (mk_uncommitted_recall prefix body data suffix).

Definition uncommitted_recall_digest (tx : uncommitted_recall_stake_transaction_t) : crypto_hash_t :=
  sha3 (uncommitted_recall_serialize_digest tx).

Definition uncommitted_recall_hash (tx : uncommitted_recall_stake_transaction_t) : crypto_hash_t :=
  sha3 (put_key (uncommitted_recall_digest tx) ++ put_key (uncommitted_signature_hash tx) ++ put_key (uncommitted_range_proof_hash tx)).

Definition uncommitted_recall_pow_hash (tx : uncommitted_recall_stake_transaction_t) : crypto_hash_t :=
  argon2id (sha3 (uncommitted_recall_serialize_digest tx ++ put_key (uncommitted_range_proof_hash tx)))
    ProofOfWork.ITERATIONS ProofOfWork.MEMORY ProofOfWork.THREADS.

Definition uncommitted_recall_pow_verify (tx : uncommitted_recall_stake_transaction_t) (zeros : Z) : bool :=
  zeros <=? leading_zeros (uncommitted_recall_pow_hash tx).

Definition uncommitted_recall_size (tx : uncommitted_recall_stake_transaction_t) : Z := vsize (uncommitted_recall_serialize tx).

Definition uncommitted_recall_check_construction (tx : uncommitted_recall_stake_transaction_t) : ErrorCode :=
  fail_if (negb (version tx =? 1) && negb (version tx =? 2)) with TX_INVALID_VERSION;;
  fail_if key_empty (public_key tx) with TX_PUBLIC_KEY;;
  fail_if (fee tx =? 0) with TX_MISSING_FEE;;
  fail_if (is_nil (key_images tx) || (MAXIMUM_INPUTS <? vsize (key_images tx)))
    with TX_INVALID_INPUT_COUNT;;
  fail_if existsb (fun key_image => negb (check_subgroup key_image)) (key_images tx)
    with TX_INVALID_KEY_IMAGE;;
  fail_if negb (vsize (dedupe_sort (key_images tx)) =? vsize (key_images tx))
    with TX_DUPLICATE_KEY_IMAGE;;
  fail_if ((vsize (outputs tx) <? MINIMUM_OUTPUTS) || (MAXIMUM_OUTPUTS <? vsize (outputs tx)))
    with TX_INVALID_OUTPUT_COUNT;;
  try_check first_error TransactionOutput_check_construction (outputs tx);;
  fail_if (recall_stake_amount tx =? 0) with TX_STAKE_NO_AMOUNT;;
  fail_if key_empty (recall_candidate_public_key tx) with STAKING_CANDIDATE_NOT_FOUND;;
  fail_if key_empty (staker_id tx) with TX_STAKER_ID;;
  fail_if key_empty (view_signature tx) with TX_RECALL_VIEW_SIGNATURE;;
  fail_if key_empty (spend_signature tx) with TX_RECALL_SPEND_SIGNATURE;;
  fail_if negb (vsize (key_images tx) =? vsize (pseudo_commitments tx))
    with TX_INVALID_PSEUDO_COMMITMENT_COUNT;;
  fail_if negb (check_commitments_parity (pseudo_commitments tx) (commitment <$> outputs tx) (fee tx))
    with TX_COMMITMENTS_DO_NOT_BALANCE;;
  fail_if negb (bulletproof_check_construction (range_proof tx)) with TX_INVALID_RANGE_PROOF;;
  fail_if negb (vsize (key_images tx) =? vsize (signatures tx)) with TX_SIG_SIZE_MISMATCH;;
  fail_if existsb (fun signature => negb (clsag_check_construction signature RING_SIZE)) (signatures tx)
    with TX_INVALID_SIGNATURE;;
  SUCCESS.

(** The committed size counts the two 32-byte hashes of the committed suffix. *)
Definition uncommitted_recall_committed_size (tx : uncommitted_recall_stake_transaction_t) : Z :=
  vsize (uncommitted_recall_serialize_digest tx) + 32 + 32.

Definition uncommitted_recall_to_committed (tx : uncommitted_recall_stake_transaction_t) : committed_recall_stake_transaction_t :=
  mk_committed_recall
    (mkTransactionPrefix (mkTransactionHeader (TransactionType_value RECALL_STAKE) (version tx))
       (unlock_block tx) (public_key tx))
    (mkTransactionUserBody (nonce tx) (fee tx) (key_images tx) (outputs tx))
    (mkRecallStakeTransactionData (recall_stake_amount tx) (recall_candidate_public_key tx)
       (staker_id tx) (view_signature tx) (spend_signature tx))
    (mkCommittedTransactionSuffix (uncommitted_signature_hash tx) (uncommitted_range_proof_hash tx)).

Definition uncommitted_recall_set_nonce (n : Z) (tx : uncommitted_recall_stake_transaction_t) : uncommitted_recall_stake_transaction_t :=
  mk_uncommitted_recall tx (mkTransactionUserBody n (fee tx) (key_images tx) (outputs tx)) tx tx.

Definition uncommitted_recall_mine (fuel : nat) (zeros : Z) (tx : uncommitted_recall_stake_transaction_t) : option (bool * uncommitted_recall_stake_transaction_t) :=
  mine uncommitted_recall_pow_hash uncommitted_recall_set_nonce uncommitted_recall_body fuel zeros tx.

Definition uncommitted_recall_wf (tx : uncommitted_recall_stake_transaction_t) : Prop :=
  TransactionPrefix_wf tx /\ TransactionUserBody_wf tx /\ RecallStakeTransactionData_wf tx /\ UncommittedTransactionSuffix_wf tx.

#[global] Instance uncommitted_recall_transaction : ITransaction uncommitted_recall_stake_transaction_t := {|
  tx_serializable := {| serialize := uncommitted_recall_serialize; deserialize := uncommitted_recall_deserialize |};
  check_construction := uncommitted_recall_check_construction;
  tx_hash := uncommitted_recall_hash;
  tx_type tx := l_type tx |}.

End User.
(** ** Lemmas on the checks *)

Lemma fail_if_success (c : bool) e k :
  e <> SUCCESS -> (if c then e else k) = SUCCESS <-> c = false /\ k = SUCCESS.
Proof. destruct c; naive_solver. Qed.

Lemma try_check_success e k :
  (is_error e = true -> e <> SUCCESS) ->
  try_check_then e k = SUCCESS <-> is_error e = false /\ k = SUCCESS.
Proof. unfold try_check_then. destruct (is_error e); naive_solver. Qed.

Lemma is_error_neq e : is_error e = true -> e <> SUCCESS.
Proof. by intros ? ->. Qed.

Lemma first_error_ok {A} (check : A -> ErrorCode) l :
  is_error (first_error check l) = false <-> Forall (fun x => is_error (check x) = false) l.
Proof.
  induction l as [|x l IH]; cbn.
  - split; [by constructor|done].
  - rewrite Forall_cons, <- IH. destruct (is_error (check x)) eqn:E; [|naive_solver].
    rewrite E. naive_solver.
Qed.

(** The first error of a vector is the error of one of its elements. *)
Lemma first_error_in {A} (check : A -> ErrorCode) l :
  is_error (first_error check l) = true -> exists x, x ∈ l /\ first_error check l = check x.
Proof.
  induction l as [|x l IH]; cbn; [done|]. destruct (is_error (check x)).
  - exists x. split; [by left|done].
  - intros (y & ? & ?)%IH. exists y. split; [by right|done].
Qed.

Ltac checks_success :=
  rewrite ?fail_if_success by discriminate;
  rewrite ?try_check_success by (apply is_error_neq);
  rewrite ?fail_if_success by discriminate.

Lemma existsb_negb_false {A} (f : A -> bool) l :
  existsb (fun x => negb (f x)) l = false <-> Forall (fun x => f x = true) l.
Proof.
  rewrite <- not_true_iff_false, existsb_exists, Forall_forall. split.
  - intros Hn x Hx. apply not_false_iff_true. intros Hf. apply Hn.
    exists x. rewrite Hf. split; [by apply list_elem_of_In|done].
  - intros Hall (x & Hin & Hx). rewrite (Hall x) in Hx; [done|by apply list_elem_of_In].
Qed.

Section UserFacts.
Context {CL : CryptoLib}.

(** What [TransactionOutput::check_construction] accepts. *)
Definition output_ok (o : TransactionOutput) : Prop :=
  key_empty (public_ephemeral o) = false /\ amount o <> 0 /\ key_empty (commitment o) = false.

Lemma output_check_ok o :
  is_error (TransactionOutput_check_construction o) = false <-> output_ok o.
Proof.
  unfold TransactionOutput_check_construction, output_ok.
  destruct (key_empty (public_ephemeral o)), (Z.eqb_spec (amount o) 0),
    (key_empty (commitment o)); cbn; intuition congruence.
Qed.

Lemma outputs_check_ok os :
  is_error (first_error TransactionOutput_check_construction os) = false <->
  Forall output_ok os.
Proof.
  rewrite first_error_ok. apply Forall_iff. intros o. apply output_check_ok.
Qed.

(** Removing duplicates keeps the length exactly when there are none. *)
Lemma dedupe_length `{!DedupeLaws CL} (l : list crypto_key_image_t) :
  negb (vsize (dedupe_sort l) =? vsize l) = false <-> NoDup l.
Proof.
  rewrite negb_false_iff, Z.eqb_eq, Nat2Z.inj_iff.
  assert (Hsub : forall k, k ∈ l <-> k ∈ dedupe_sort l)
    by (intros; symmetry; apply dedupe_sort_elem).
  pose proof (dedupe_sort_NoDup l) as Hnd. split.
  - intros Hlen. apply NoDup_ListNoDup. eapply List.NoDup_incl_NoDup.
    + apply NoDup_ListNoDup. exact Hnd.
    + rewrite Hlen. done.
    + intros k. rewrite <- !list_elem_of_In. apply Hsub.
  - intros Hl. apply Permutation_length. by apply NoDup_Permutation.
Qed.

(** The conditions shared by every user transaction's [check_construction]. *)
Record inputs_outputs_ok (p : TransactionPrefix) (b : TransactionUserBody) : Prop := {
  ok_public_key : key_empty (public_key p) = false;
  ok_fee : fee b <> 0;
  ok_inputs : (1 <= vsize (key_images b) <= MAXIMUM_INPUTS);
  ok_subgroup : Forall (fun k => check_subgroup k = true) (key_images b);
  ok_key_images : NoDup (key_images b);
  ok_outputs_count : MINIMUM_OUTPUTS <= vsize (outputs b) <= MAXIMUM_OUTPUTS;
  ok_outputs : Forall output_ok (outputs b)
}.

Record stake_data_ok (d : StakeTransactionData) : Prop := {
  ok_stake_amount : stake_amount d <> 0;
  ok_candidate : key_empty (candidate_public_key d) = false;
  ok_view_key : key_empty (staker_public_view_key d) = false;
  ok_spend_key : key_empty (staker_public_spend_key d) = false
}.

Record recall_data_ok (d : RecallStakeTransactionData) : Prop := {
  ok_recall_amount : recall_stake_amount d <> 0;
  ok_recall_candidate : key_empty (recall_candidate_public_key d) = false;
  ok_staker_id : key_empty (staker_id d) = false;
  ok_view_signature : key_empty (view_signature d) = false;
  ok_spend_signature : key_empty (spend_signature d) = false
}.

(** The balance and signature conditions of the uncommitted forms. *)
Record suffix_ok (b : TransactionUserBody) (s : UncommittedTransactionSuffix) : Prop := {
  ok_pseudo_count : vsize (pseudo_commitments s) = vsize (key_images b);
  ok_balance :
    check_commitments_parity (pseudo_commitments s) (commitment <$> outputs b) (fee b) = true;
  ok_range_proof : bulletproof_check_construction (range_proof s) = true;
  ok_signature_count : vsize (signatures s) = vsize (key_images b);
  ok_signatures : Forall (fun s => clsag_check_construction s RING_SIZE = true) (signatures s)
}.

Lemma inputs_count_ok (l : list crypto_key_image_t) :
  is_nil l || (MAXIMUM_INPUTS <? vsize l) = false <-> 1 <= vsize l <= MAXIMUM_INPUTS.
Proof. destruct l; cbn; rewrite ?Z.ltb_ge; unfold MAXIMUM_INPUTS; split; intros; (lia || done). Qed.

Lemma outputs_count_ok (l : list TransactionOutput) :
  (vsize l <? MINIMUM_OUTPUTS) || (MAXIMUM_OUTPUTS <? vsize l) = false <->
  MINIMUM_OUTPUTS <= vsize l <= MAXIMUM_OUTPUTS.
Proof. rewrite orb_false_iff, !Z.ltb_ge. lia. Qed.

Lemma version1_ok v : negb (v =? 1) = false <-> v = 1.
Proof. rewrite negb_false_iff. apply Z.eqb_eq. Qed.

Lemma version12_ok v : negb (v =? 1) && negb (v =? 2) = false <-> v = 1 \/ v = 2.
Proof. destruct (Z.eqb_spec v 1), (Z.eqb_spec v 2); cbn; intuition congruence. Qed.

Lemma count_eq_ok {A B} (l : list A) (m : list B) :
  negb (vsize l =? vsize m) = false <-> vsize m = vsize l.
Proof. rewrite negb_false_iff, Z.eqb_eq. split; congruence. Qed.

(** Turn the failed guards of a successful check into the conditions. *)
Ltac conditions :=
  rewrite ?version1_ok, ?version12_ok, ?Z.eqb_neq, ?inputs_count_ok, ?existsb_negb_false,
    ?outputs_count_ok, ?outputs_check_ok, ?dedupe_length, ?count_eq_ok, ?Z.ltb_ge,
    ?negb_false_iff.

Context {Dedupe : DedupeLaws CL}.

Ltac check_iff :=
  checks_success; conditions;
  split; [|intros; destruct_and?; repeat match goal with
    | H : inputs_outputs_ok _ _ |- _ => destruct H
    | H : stake_data_ok _ |- _ => destruct H
    | H : recall_data_ok _ |- _ => destruct H
    | H : suffix_ok _ _ |- _ => destruct H
    end];
  intuition (try constructor; auto).

Lemma committed_normal_check_iff tx :
  committed_normal_check_construction tx = SUCCESS <->
  version tx = 1 /\ inputs_outputs_ok tx tx /\ vsize (extra tx) <= MAXIMUM_EXTRA_SIZE.
Proof. unfold committed_normal_check_construction. check_iff. Qed.

Lemma committed_stake_check_iff tx :
  committed_stake_check_construction tx = SUCCESS <->
  (version tx = 1 \/ version tx = 2) /\ inputs_outputs_ok tx tx /\ stake_data_ok tx.
Proof. unfold committed_stake_check_construction. check_iff. Qed.

Lemma committed_recall_check_iff tx :
  committed_recall_check_construction tx = SUCCESS <->
  (version tx = 1 \/ version tx = 2) /\ inputs_outputs_ok tx tx /\ recall_data_ok tx.
Proof. unfold committed_recall_check_construction. check_iff. Qed.

Lemma uncommitted_normal_check_iff tx :
  uncommitted_normal_check_construction tx = SUCCESS <->
  version tx = 1 /\ inputs_outputs_ok tx tx /\ vsize (extra tx) <= MAXIMUM_EXTRA_SIZE /\
  suffix_ok tx tx.
Proof. unfold uncommitted_normal_check_construction. check_iff. Qed.

Lemma uncommitted_recall_check_iff tx :
  uncommitted_recall_check_construction tx = SUCCESS <->
  (version tx = 1 \/ version tx = 2) /\ inputs_outputs_ok tx tx /\ recall_data_ok tx /\
  suffix_ok tx tx.
Proof. unfold uncommitted_recall_check_construction. check_iff. Qed.

(** The key-reuse test compares the view key with itself, so it always fires:
    a stake transaction that passes every earlier check is refused. *)
Lemma uncommitted_stake_check_reuse (tx : uncommitted_stake_transaction_t) :
  (version tx = 1 \/ version tx = 2) -> inputs_outputs_ok tx tx -> stake_data_ok tx ->
  uncommitted_stake_check_construction tx = TX_STAKING_PUBLIC_KEYS_REUSE.
Proof.
  intros Hv [] []. unfold uncommitted_stake_check_construction, try_check_then.
  rewrite (proj2 (version12_ok _)) by done. rewrite ok_public_key0.
  rewrite (proj2 (Z.eqb_neq _ _)) by done.
  rewrite (proj2 (inputs_count_ok _)), (proj2 (existsb_negb_false _ _)),
    (proj2 (dedupe_length _)), (proj2 (outputs_count_ok _)), (proj2 (outputs_check_ok _)) by done.
  rewrite (proj2 (Z.eqb_neq (stake_amount tx) 0)) by done.
  rewrite ok_candidate0, ok_view_key0, ok_spend_key0.
  rewrite (bool_decide_eq_true_2 (staker_public_view_key tx = staker_public_view_key tx)) by done.
  by rewrite orb_true_r.
Qed.

Lemma uncommitted_stake_check_fails tx :
  uncommitted_stake_check_construction tx <> SUCCESS.
Proof.
  unfold uncommitted_stake_check_construction. checks_success.
  intros H. destruct_and?.
  rewrite (bool_decide_eq_true_2 (staker_public_view_key tx = staker_public_view_key tx)) in * by done.
  rewrite orb_true_r in *. discriminate.
Qed.

(** ** Mining *)

Section MineFacts.
Context {T : Type} (pow_hash : T -> crypto_hash_t) (set_nonce : Z -> T -> T)
  (body : T -> TransactionUserBody).
Hypothesis nonce_set : forall n tx, nonce (body (set_nonce n tx)) = n.
Hypothesis set_set : forall n m tx, set_nonce n (set_nonce m tx) = set_nonce n tx.

Definition zeros_at (tx : T) (n : Z) : Z := leading_zeros (pow_hash (set_nonce n tx)).

Lemma mine_loop_spec fuel zeros tx hash n :
  0 <= n <= UINT64_MAX -> UINT64_MAX - n <= Z.of_nat fuel ->
  exists m, n <= m <= UINT64_MAX /\
    mine_loop pow_hash set_nonce body fuel zeros hash (set_nonce n tx) =
      Some (zeros <=? (if m =? n then leading_zeros hash else zeros_at tx m), set_nonce m tx) /\
    (m <> n -> leading_zeros hash < zeros) /\
    (forall k, n < k < m -> zeros_at tx k < zeros) /\
    (m < UINT64_MAX -> zeros <= (if m =? n then leading_zeros hash else zeros_at tx m)).
Proof using nonce_set set_set.
  revert hash n. induction fuel as [|fuel IH]; intros hash n Hn Hf.
  - cbn [mine_loop]. rewrite nonce_set.
    destruct (Z.ltb_spec (leading_zeros hash) zeros), (Z.eqb_spec n UINT64_MAX); try lia; cbn.
    all: exists n; rewrite Z.eqb_refl; repeat split; try done; lia.
  - cbn [mine_loop]. rewrite nonce_set.
    destruct (Z.ltb_spec (leading_zeros hash) zeros) as [Hlt|Hge];
      [destruct (Z.eqb_spec n UINT64_MAX) as [->|Hne]|]; cbn [andb negb].
    + exists UINT64_MAX. rewrite Z.eqb_refl. repeat split; try done; lia.
    + rewrite set_set.
      destruct (IH (pow_hash (set_nonce (n + 1) tx)) (n + 1)) as (m & Hm & Heq & Hh & Hk & Hx);
        [lia|lia|].
      assert (Hz : (if m =? n + 1 then leading_zeros (pow_hash (set_nonce (n + 1) tx))
                    else zeros_at tx m) = zeros_at tx m)
        by (destruct (Z.eqb_spec m (n + 1)) as [->|]; done).
      rewrite Hz in Heq, Hx. exists m.
      destruct (Z.eqb_spec m n) as [->|_]; [lia|].
      split; [lia|]. split; [exact Heq|]. split; [done|]. split; [|done].
      intros k Hkk. destruct (Z.eq_dec k (n + 1)) as [->|]; [|apply Hk; lia].
      apply Hh. lia.
    + exists n. rewrite Z.eqb_refl. repeat split; try done; lia.
Qed.

(** What a mining loop promises: with fuel for every nonce it stops; it keeps
    the transaction when its hash already has the zeros, otherwise it tries the
    nonces from 1 on, answers [true] on the first whose hash has them, and
    [false] when no nonce from 1 to [UINT64_MAX] has. *)
Definition mines_correctly : Prop :=
  forall fuel zeros tx, UINT64_MAX <= Z.of_nat fuel ->
  exists found tx', mine pow_hash set_nonce body fuel zeros tx = Some (found, tx') /\
    (found = true <-> zeros <= leading_zeros (pow_hash tx')) /\
    (zeros <= leading_zeros (pow_hash tx) -> tx' = tx) /\
    (leading_zeros (pow_hash tx) < zeros -> exists n,
       1 <= n <= UINT64_MAX /\ tx' = set_nonce n tx /\
       (forall k, 1 <= k < n -> zeros_at tx k < zeros) /\
       (found = false -> forall k, 1 <= k <= UINT64_MAX -> zeros_at tx k < zeros)).

Lemma mine_correct : mines_correctly.
Proof using nonce_set set_set.
  intros fuel zeros tx Hf. unfold mine.
  destruct (Z.leb_spec zeros (leading_zeros (pow_hash tx))) as [Hle|Hlt].
  - exists true, tx. repeat split; try done; lia.
  - destruct (mine_loop_spec fuel zeros tx (pow_hash tx) 0) as (m & Hm & Heq & Hh & Hk & Hx);
      [unfold UINT64_MAX in *; lia|lia|].
    destruct (Z.eqb_spec m 0) as [->|Hm0]; [specialize (Hx ltac:(unfold UINT64_MAX; lia)); lia|].
    exists (zeros <=? zeros_at tx m), (set_nonce m tx).
    split; [exact Heq|]. split; [by rewrite Z.leb_le|]. split; [lia|]. intros _.
    exists m. split; [lia|]. split; [done|]. split; [intros k ?; apply Hk; lia|].
    rewrite Z.leb_gt. intros Hf' k Hkk.
    destruct (Z.eq_dec m UINT64_MAX) as [->|]; [|specialize (Hx ltac:(lia)); lia].
    destruct (Z.eq_dec k UINT64_MAX) as [->|]; [done|apply Hk; lia].
Qed.
End MineFacts.
End UserFacts.

(** ** Properties *)

Section UserProperties.
Context {CL : CryptoLib}.

Lemma committed_normal_roundtrip `{!CodecLaws CL} tx r :
  committed_normal_wf tx -> committed_normal_deserialize (committed_normal_serialize tx ++ r) = Some (tx, r).
Proof. revert tx r. codec. Qed.

Lemma uncommitted_normal_roundtrip `{!CodecLaws CL} tx r :
  uncommitted_normal_wf tx -> uncommitted_normal_deserialize (uncommitted_normal_serialize tx ++ r) = Some (tx, r).
Proof. revert tx r. codec. Qed.

Lemma committed_stake_roundtrip `{!CodecLaws CL} tx r :
  committed_stake_wf tx -> committed_stake_deserialize (committed_stake_serialize tx ++ r) = Some (tx, r).
Proof. revert tx r. codec. Qed.

Lemma uncommitted_stake_roundtrip `{!CodecLaws CL} tx r :
  uncommitted_stake_wf tx -> uncommitted_stake_deserialize (uncommitted_stake_serialize tx ++ r) = Some (tx, r).
Proof. revert tx r. codec. Qed.

Lemma committed_recall_roundtrip `{!CodecLaws CL} tx r :
  committed_recall_wf tx -> committed_recall_deserialize (committed_recall_serialize tx ++ r) = Some (tx, r).
Proof. revert tx r. codec. Qed.

Lemma uncommitted_recall_roundtrip `{!CodecLaws CL} tx r :
  uncommitted_recall_wf tx -> uncommitted_recall_deserialize (uncommitted_recall_serialize tx ++ r) = Some (tx, r).
Proof. revert tx r. codec. Qed.

(** C31: Every user transaction structure, committed and uncommitted, is read
    back by its [deserialize] from what its [serialize] wrote, leaving the rest
    of the stream unread. *)
Theorem user_transactions_roundtrip `{!CodecLaws CL} :
  RoundTrip committed_normal_transaction_t committed_normal_wf /\
  RoundTrip uncommited_normal_transaction_t uncommitted_normal_wf /\
  RoundTrip committed_stake_transaction_t committed_stake_wf /\
  RoundTrip uncommitted_stake_transaction_t uncommitted_stake_wf /\
  RoundTrip committed_recall_stake_transaction_t committed_recall_wf /\
  RoundTrip uncommitted_recall_stake_transaction_t uncommitted_recall_wf.
Proof.
  repeat split; intros x r Hx.
  - by apply committed_normal_roundtrip.
  - by apply uncommitted_normal_roundtrip.
  - by apply committed_stake_roundtrip.
  - by apply uncommitted_stake_roundtrip.
  - by apply committed_recall_roundtrip.
  - by apply uncommitted_recall_roundtrip.
Qed.

Lemma app_size3 {A B} (l : list A) (h1 h2 : list B) (f : list A -> list B) :
  List.length h1 = 32%nat -> List.length h2 = 32%nat ->
  vsize (f l ++ h1 ++ h2) = vsize (f l) + 32 + 32.
Proof. intros H1 H2. rewrite !length_app, H1, H2. lia. Qed.

(** Committing keeps the members that the digest covers. *)
Lemma to_committed_digests :
  (forall tx : uncommited_normal_transaction_t, l_type tx = TransactionType_value NORMAL ->
    committed_normal_serialize_digest (uncommitted_normal_to_committed tx) =
    uncommitted_normal_serialize_digest tx) /\
  (forall tx : uncommitted_stake_transaction_t, l_type tx = TransactionType_value STAKE ->
    committed_stake_serialize_digest (uncommitted_stake_to_committed tx) =
    uncommitted_stake_serialize_digest tx) /\
  (forall tx : uncommitted_recall_stake_transaction_t,
    l_type tx = TransactionType_value RECALL_STAKE ->
    committed_recall_serialize_digest (uncommitted_recall_to_committed tx) =
    uncommitted_recall_serialize_digest tx).
Proof. by repeat split; intros [[[] ? ?] [] [] []]; cbn; intros ->. Qed.

(** The hash, the proof-of-work hash and the announced committed size of an
    uncommitted transaction are those of the committed transaction
    [to_committed] builds from it, for each of the three kinds (whose type
    field is the one its constructor sets). *)
Theorem to_committed_same_identity `{!CodecLaws CL} :
  (forall tx : uncommited_normal_transaction_t, l_type tx = TransactionType_value NORMAL ->
    committed_normal_hash (uncommitted_normal_to_committed tx) = uncommitted_normal_hash tx /\
    committed_normal_pow_hash (uncommitted_normal_to_committed tx) =
      uncommitted_normal_pow_hash tx /\
    committed_normal_size (uncommitted_normal_to_committed tx) =
      uncommitted_normal_committed_size tx) /\
  (forall tx : uncommitted_stake_transaction_t, l_type tx = TransactionType_value STAKE ->
    committed_stake_hash (uncommitted_stake_to_committed tx) = uncommitted_stake_hash tx /\
    committed_stake_pow_hash (uncommitted_stake_to_committed tx) =
      uncommitted_stake_pow_hash tx /\
    committed_stake_size (uncommitted_stake_to_committed tx) =
      uncommitted_stake_committed_size tx) /\
  (forall tx : uncommitted_recall_stake_transaction_t,
    l_type tx = TransactionType_value RECALL_STAKE ->
    committed_recall_hash (uncommitted_recall_to_committed tx) = uncommitted_recall_hash tx /\
    committed_recall_pow_hash (uncommitted_recall_to_committed tx) =
      uncommitted_recall_pow_hash tx /\
    committed_recall_size (uncommitted_recall_to_committed tx) =
      uncommitted_recall_committed_size tx).
Proof.
  pose proof to_committed_digests as (Hn & Hs & Hr).
  repeat split;
    first
    [ unfold committed_normal_hash, uncommitted_normal_hash, committed_normal_digest,
        committed_normal_pow_hash, uncommitted_normal_pow_hash; rewrite Hn by done; done
    | unfold committed_stake_hash, uncommitted_stake_hash, committed_stake_digest,
        committed_stake_pow_hash, uncommitted_stake_pow_hash; rewrite Hs by done; done
    | unfold committed_recall_hash, uncommitted_recall_hash, committed_recall_digest,
        committed_recall_pow_hash, uncommitted_recall_pow_hash; rewrite Hr by done; done
    | unfold committed_normal_size, uncommitted_normal_committed_size;
      rewrite <- Hn by done; unfold committed_normal_serialize, committed_normal_serialize_digest
    | unfold committed_stake_size, uncommitted_stake_committed_size;
      rewrite <- Hs by done; unfold committed_stake_serialize, committed_stake_serialize_digest
    | unfold committed_recall_size, uncommitted_recall_committed_size;
      rewrite <- Hr by done; unfold committed_recall_serialize, committed_recall_serialize_digest ];
    unfold serialize_committed_suffix; rewrite !length_app, !hash_size; lia.
Qed.

(** C32: [check_construction] of a committed transaction succeeds exactly when
    its version is supported, the fee is set, it has 1 to 8 distinct key images
    all in the prime-order subgroup and 2 to 8 complete outputs, and the data
    of its kind is complete (extra data of at most 1024 bytes; a stake's amount
    and keys; a recall's amount, key, staker and signatures). *)
Theorem committed_check_construction_iff `{!DedupeLaws CL} :
  (forall tx, committed_normal_check_construction tx = SUCCESS <->
    version tx = 1 /\ inputs_outputs_ok tx tx /\ vsize (extra tx) <= MAXIMUM_EXTRA_SIZE) /\
  (forall tx, committed_stake_check_construction tx = SUCCESS <->
    (version tx = 1 \/ version tx = 2) /\ inputs_outputs_ok tx tx /\ stake_data_ok tx) /\
  (forall tx, committed_recall_check_construction tx = SUCCESS <->
    (version tx = 1 \/ version tx = 2) /\ inputs_outputs_ok tx tx /\ recall_data_ok tx).
Proof.
  split; [apply committed_normal_check_iff|].
  split; [apply committed_stake_check_iff|apply committed_recall_check_iff].
Qed.

(** [check_construction] of an uncommitted normal or recall transaction
    succeeds exactly when the committed conditions hold, the pseudo commitments
    balance the outputs and the fee, and there is one well-formed ring
    signature and one pseudo commitment per input. *)
Theorem uncommitted_check_construction_iff `{!DedupeLaws CL} :
  (forall tx, uncommitted_normal_check_construction tx = SUCCESS <->
    version tx = 1 /\ inputs_outputs_ok tx tx /\ vsize (extra tx) <= MAXIMUM_EXTRA_SIZE /\
    suffix_ok tx tx) /\
  (forall tx, uncommitted_recall_check_construction tx = SUCCESS <->
    (version tx = 1 \/ version tx = 2) /\ inputs_outputs_ok tx tx /\ recall_data_ok tx /\
    suffix_ok tx tx).
Proof.
  split; [apply uncommitted_normal_check_iff|apply uncommitted_recall_check_iff].
Qed.

(** No uncommitted stake transaction passes [check_construction]: one that
    passes every check up to the key-reuse test, whatever its three staking
    keys are, is refused by that test. *)
Theorem uncommitted_stake_always_refused `{!DedupeLaws CL} :
  (forall tx, uncommitted_stake_check_construction tx <> SUCCESS) /\
  (forall tx : uncommitted_stake_transaction_t,
    (version tx = 1 \/ version tx = 2) -> inputs_outputs_ok tx tx -> stake_data_ok tx ->
    uncommitted_stake_check_construction tx = TX_STAKING_PUBLIC_KEYS_REUSE).
Proof. split; [apply uncommitted_stake_check_fails|apply uncommitted_stake_check_reuse]. Qed.

(** C33: [mine] of each uncommitted transaction terminates, leaves everything
    but the nonce as it is, answers [true] exactly when the resulting
    proof-of-work hash has the leading zeros, finds the first nonce from 1 on
    that has them, and answers [false] only when no nonce from 1 to
    [UINT64_MAX] has. *)
Theorem mining_correct :
  mines_correctly (CL := CL) uncommitted_normal_pow_hash uncommitted_normal_set_nonce
    uncommitted_normal_body /\
  mines_correctly (CL := CL) uncommitted_stake_pow_hash uncommitted_stake_set_nonce
    uncommitted_stake_body /\
  mines_correctly (CL := CL) uncommitted_recall_pow_hash uncommitted_recall_set_nonce
    uncommitted_recall_body.
Proof. repeat split; by apply mine_correct. Qed.
End UserProperties.

(** ** Samples and witnesses *)

Module UserSamples.
#[local] Existing Instance toy_crypto.
Definition output1 : TransactionOutput (CL := toy_crypto) := mkTransactionOutput x05 10 x06.
Definition output2 : TransactionOutput (CL := toy_crypto) := mkTransactionOutput x07 20 x08.
Definition prefix (type ver : Z) : TransactionPrefix (CL := toy_crypto) :=
  mkTransactionPrefix (mkTransactionHeader type ver) 0 x09.
Definition body : TransactionUserBody (CL := toy_crypto) :=
  mkTransactionUserBody 300 6 [x11; x12] [output1; output2].
(** The pseudo commitments balance: 10 + 10 = 6 + 8 + 6. *)
Definition suffix : UncommittedTransactionSuffix (CL := toy_crypto) :=
  mkUncommittedTransactionSuffix [x0a; x0a] [x21; x22] [x31; x32] x33.
Definition stake_data : StakeTransactionData (CL := toy_crypto) :=
  mkStakeTransactionData 100000 x41 x42 x43.
Definition normal : uncommited_normal_transaction_t (CL := toy_crypto) :=
  mk_uncommitted_normal (prefix 2 1) body (mkNormalTransactionData [1; 2; 3]) suffix.
Definition stake : uncommitted_stake_transaction_t (CL := toy_crypto) :=
  mk_uncommitted_stake (prefix 3 1) body stake_data suffix.

Lemma io_ok type ver : inputs_outputs_ok (prefix type ver) body.
Proof.
  split; cbn; try done.
  - repeat constructor.
  - apply (bool_decide_unpack _). by vm_compute.
  - repeat constructor; done.
Qed.

Lemma suffix_sample_ok : suffix_ok body suffix.
Proof. split; try reflexivity. repeat constructor. Qed.

Lemma normal_wf : uncommitted_normal_wf normal.
Proof. repeat split; cbn; try lia. repeat constructor; cbn; lia. Qed.
End UserSamples.

Lemma user_transactions_roundtrip_witness :
  deserialize (serialize UserSamples.normal ++ [7; 8]) = Some (UserSamples.normal, [7; 8]).
Proof.
  apply (proj1 (proj2 (user_transactions_roundtrip (CL := toy_crypto)))).
  apply UserSamples.normal_wf.
Defined.

Lemma to_committed_same_identity_witness :
  committed_normal_hash (uncommitted_normal_to_committed UserSamples.normal) =
    uncommitted_normal_hash UserSamples.normal /\
  committed_normal_size (uncommitted_normal_to_committed UserSamples.normal) = 302.
Proof.
  destruct (proj1 (to_committed_same_identity (CL := toy_crypto)) UserSamples.normal eq_refl)
    as (H1 & _ & H2).
  split; [exact H1|rewrite H2; reflexivity].
Defined.

Lemma committed_check_construction_iff_witness :
  committed_normal_check_construction (uncommitted_normal_to_committed UserSamples.normal) =
  SUCCESS.
Proof.
  apply (proj1 (committed_check_construction_iff (CL := toy_crypto))).
  split; [reflexivity|]. split; [apply (UserSamples.io_ok 2 1)|vm_compute; done].
Defined.

Lemma uncommitted_check_construction_iff_witness :
  uncommitted_normal_check_construction UserSamples.normal = SUCCESS.
Proof.
  apply (proj1 (uncommitted_check_construction_iff (CL := toy_crypto))).
  split; [reflexivity|]. split; [apply (UserSamples.io_ok 2 1)|].
  split; [vm_compute; done|apply UserSamples.suffix_sample_ok].
Defined.

Lemma uncommitted_stake_always_refused_witness :
  uncommitted_stake_check_construction UserSamples.stake = TX_STAKING_PUBLIC_KEYS_REUSE.
Proof.
  apply (proj2 (uncommitted_stake_always_refused (CL := toy_crypto))).
  - by left.
  - apply (UserSamples.io_ok 3 1).
  - by split.
Defined.
