(* ===== verification/TxSystem.v ===== *)
(** * System transactions

    The transactions the network itself creates:
    [src/include/blockchain/transaction_genesis.h],
    [transaction_staker.h] (the block reward) and
    [transaction_stake_refund.h]. *)

From S2P Require Import Prelude Errors Config CryptoLib Concrete Codec TxBase TxUser.
From Stdlib Require Import Strings.Byte.
Import Configuration.Transaction.
#[local] Open Scope turtle_scope.

Section System.
Context {CL : CryptoLib}.

(** ** [genesis_transaction_t] *)

Record genesis_transaction_t : Type := mk_genesis {
  genesis_prefix :> TransactionPrefix;
  genesis_secret_key : crypto_secret_key_t;
  genesis_outputs : list TransactionOutput
}.

Definition genesis_wf (tx : genesis_transaction_t) : Prop :=
  TransactionPrefix_wf tx /\ size_ok (genesis_outputs tx) /\
  Forall TransactionOutput_wf (genesis_outputs tx).

Definition genesis_serialize (tx : genesis_transaction_t) : bytes :=
  serialize_prefix tx ++ put_key (genesis_secret_key tx) ++ put_vector (genesis_outputs tx).

Definition genesis_deserialize : reader genesis_transaction_t :=
  prefix ← deserialize_prefix;
  secret_key ← get_key;
  outputs ← get_vector;
  mret (mk_genesis prefix secret_key outputs).

Definition genesis_hash (tx : genesis_transaction_t) : crypto_hash_t := sha3 (genesis_serialize tx).

Definition genesis_size (tx : genesis_transaction_t) : Z := vsize (genesis_serialize tx).

Definition genesis_check_construction (tx : genesis_transaction_t) : ErrorCode :=
  fail_if (negb (version tx =? 1)) with TX_INVALID_VERSION;;
  fail_if key_empty (public_key tx) with TX_PUBLIC_KEY;;
  fail_if key_empty (genesis_secret_key tx) with TX_SECRET_KEY;;
  fail_if negb (bool_decide (secret_key_to_public_key (genesis_secret_key tx) = public_key tx))
    with TX_KEYPAIR_MISMATCH;;
  fail_if negb (vsize (genesis_outputs tx) =? RING_SIZE * 2) with TX_INVALID_OUTPUT_COUNT;;
  try_check first_error TransactionOutput_check_construction (genesis_outputs tx);;
  SUCCESS.

#[global] Instance genesis_transaction : ITransaction genesis_transaction_t := {|
  tx_serializable := {| serialize := genesis_serialize; deserialize := genesis_deserialize |};
  check_construction := genesis_check_construction;
  tx_hash := genesis_hash;
  tx_type tx := l_type tx |}.

(** ** [staker_transaction_t] *)

Record staker_transaction_t : Type := mk_staker {
  staker_header :> TransactionHeader;
  staker_outputs : list StakerOutput;
  staker_penalties : list StakerOutput
}.

(** The default constructor: type [STAKER], no outputs. *)
Definition default_staker_transaction : staker_transaction_t :=
  mk_staker (mkTransactionHeader (TransactionType_value STAKER) (version default_header)) [] [].

Definition staker_wf (tx : staker_transaction_t) : Prop :=
  TransactionHeader_wf tx /\
  size_ok (staker_outputs tx) /\ Forall StakerOutput_wf (staker_outputs tx) /\
  size_ok (staker_penalties tx) /\ Forall StakerOutput_wf (staker_penalties tx).

Definition staker_serialize (tx : staker_transaction_t) : bytes :=
  serialize_header tx ++ put_vector (staker_outputs tx) ++ put_vector (staker_penalties tx).

Definition staker_deserialize : reader staker_transaction_t :=
  header ← deserialize_header;
  staker_outputs ← get_vector;
  staker_penalties ← get_vector;
  mret (mk_staker header staker_outputs staker_penalties).

Definition staker_hash (tx : staker_transaction_t) : crypto_hash_t := sha3 (staker_serialize tx).

Definition staker_size (tx : staker_transaction_t) : Z := vsize (staker_serialize tx).

Definition staker_check_construction (tx : staker_transaction_t) : ErrorCode :=
  fail_if (negb (version tx =? 1)) with TX_INVALID_VERSION;;
  try_check first_error StakerOutput_check_construction (staker_outputs tx);;
  try_check first_error StakerOutput_check_construction (staker_penalties tx);;
  SUCCESS.

#[global] Instance staker_transaction : ITransaction staker_transaction_t := {|
  tx_serializable := {| serialize := staker_serialize; deserialize := staker_deserialize |};
  check_construction := staker_check_construction;
  tx_hash := staker_hash;
  tx_type tx := l_type tx |}.

(** ** [stake_refund_transaction_t] *)

Record stake_refund_transaction_t : Type := mk_stake_refund {
  refund_prefix :> TransactionPrefix;
  refund_secret_key : crypto_secret_key_t;
  refund_recall_stake_tx : crypto_hash_t;
  refund_outputs : list TransactionOutput
}.

Definition refund_wf (tx : stake_refund_transaction_t) : Prop :=
  TransactionPrefix_wf tx /\ size_ok (refund_outputs tx) /\
  Forall TransactionOutput_wf (refund_outputs tx).

Definition refund_serialize (tx : stake_refund_transaction_t) : bytes :=
  serialize_prefix tx ++ put_key (refund_secret_key tx) ++ put_key (refund_recall_stake_tx tx) ++
  put_vector (refund_outputs tx).

Definition refund_deserialize : reader stake_refund_transaction_t :=
  prefix ← deserialize_prefix;
  secret_key ← get_key;
  recall_stake_tx ← get_key;
  outputs ← get_vector;
  mret (mk_stake_refund prefix secret_key recall_stake_tx outputs).

Definition refund_hash (tx : stake_refund_transaction_t) : crypto_hash_t :=
  sha3 (refund_serialize tx).

Definition refund_size (tx : stake_refund_transaction_t) : Z := vsize (refund_serialize tx).

Definition refund_check_construction (tx : stake_refund_transaction_t) : ErrorCode :=
  fail_if (negb (version tx =? 1)) with TX_INVALID_VERSION;;
  fail_if key_empty (public_key tx) with TX_PUBLIC_KEY;;
  fail_if key_empty (refund_secret_key tx) with TX_SECRET_KEY;;
  fail_if negb (bool_decide (secret_key_to_public_key (refund_secret_key tx) = public_key tx))
    with TX_KEYPAIR_MISMATCH;;
  fail_if key_empty (refund_recall_stake_tx tx) with TX_RECALL_STAKE_TX_HASH;;
  fail_if negb (vsize (refund_outputs tx) =? 1) with TX_INVALID_OUTPUT_COUNT;;
  try_check first_error TransactionOutput_check_construction (refund_outputs tx);;
  SUCCESS.

#[global] Instance refund_transaction : ITransaction stake_refund_transaction_t := {|
  tx_serializable := {| serialize := refund_serialize; deserialize := refund_deserialize |};
  check_construction := refund_check_construction;
  tx_hash := refund_hash;
  tx_type tx := l_type tx |}.

(** ** Lemmas *)

Lemma genesis_roundtrip `{!CodecLaws CL} tx r :
  genesis_wf tx -> genesis_deserialize (genesis_serialize tx ++ r) = Some (tx, r).
Proof. revert tx r. codec. Qed.

Lemma staker_roundtrip `{!CodecLaws CL} tx r :
  staker_wf tx -> staker_deserialize (staker_serialize tx ++ r) = Some (tx, r).
Proof. revert tx r. codec. Qed.

Lemma refund_roundtrip `{!CodecLaws CL} tx r :
  refund_wf tx -> refund_deserialize (refund_serialize tx ++ r) = Some (tx, r).
Proof. revert tx r. codec. Qed.

(** The serialized form starts with the type, which [peek_varint] reads. *)
Lemma peek_header `{!CodecLaws CL} h r :
  TransactionHeader_wf h -> peek_varint (serialize_header h ++ r) = Some (l_type h).
Proof.
  intros [Ht _]. unfold serialize_header. rewrite <- app_assoc. by apply peek_put_varint.
Qed.

(** What [StakerOutput::check_construction] accepts. *)
Definition staker_output_ok (o : StakerOutput) : Prop :=
  key_empty (staker_output_id o) = false /\ staker_output_amount o <> 0.

Lemma staker_outputs_check_ok os :
  is_error (first_error StakerOutput_check_construction os) = false <->
  Forall staker_output_ok os.
Proof.
  rewrite first_error_ok. apply Forall_iff. intros o.
  unfold StakerOutput_check_construction, staker_output_ok.
  destruct (key_empty (staker_output_id o)), (Z.eqb_spec (staker_output_amount o) 0);
    cbn; intuition congruence.
Qed.

Lemma keypair_ok sk (pk : crypto_public_key_t) :
  negb (bool_decide (secret_key_to_public_key sk = pk)) = false <->
  secret_key_to_public_key sk = pk.
Proof. by rewrite negb_false_iff, bool_decide_eq_true. Qed.

(** The key pair a genesis or refund transaction publishes. *)
Definition keypair_valid (p : TransactionPrefix) (sk : crypto_secret_key_t) : Prop :=
  key_empty (public_key p) = false /\ key_empty sk = false /\
  secret_key_to_public_key sk = public_key p.

(** ** Properties *)

(** The genesis, staker (block reward) and stake refund transactions are
    read back by their [deserialize] from what their [serialize] wrote. *)
Theorem system_transactions_roundtrip `{!CodecLaws CL} :
  RoundTrip genesis_transaction_t genesis_wf /\
  RoundTrip staker_transaction_t staker_wf /\
  RoundTrip stake_refund_transaction_t refund_wf.
Proof.
  split; [exact genesis_roundtrip|]. split; [exact staker_roundtrip|exact refund_roundtrip].
Qed.

(** [check_construction] of a system transaction succeeds exactly when its
    version is 1 and: a genesis transaction publishes a matching key pair and
    has twice the ring size of complete outputs; a staker transaction has only
    complete rewards and penalties; a refund publishes a matching key pair,
    names its recall transaction and has one complete output. *)
Theorem system_check_construction_iff :
  (forall tx, genesis_check_construction tx = SUCCESS <->
    version tx = 1 /\ keypair_valid tx (genesis_secret_key tx) /\
    vsize (genesis_outputs tx) = 1024 /\ Forall output_ok (genesis_outputs tx)) /\
  (forall tx, staker_check_construction tx = SUCCESS <->
    version tx = 1 /\ Forall staker_output_ok (staker_outputs tx) /\
    Forall staker_output_ok (staker_penalties tx)) /\
  (forall tx, refund_check_construction tx = SUCCESS <->
    version tx = 1 /\ keypair_valid tx (refund_secret_key tx) /\
    key_empty (refund_recall_stake_tx tx) = false /\
    exists o, refund_outputs tx = [o] /\ output_ok o).
Proof.
  split; [|split]; intros tx.
  - unfold genesis_check_construction, keypair_valid. checks_success.
    rewrite version1_ok, keypair_ok, outputs_check_ok, negb_false_iff, Z.eqb_eq.
    change (RING_SIZE * 2) with 1024. tauto.
  - unfold staker_check_construction. checks_success.
    rewrite version1_ok, !staker_outputs_check_ok. tauto.
  - unfold refund_check_construction, keypair_valid. checks_success.
    rewrite version1_ok, keypair_ok, outputs_check_ok, negb_false_iff, Z.eqb_eq.
    assert ((vsize (refund_outputs tx) = 1 /\ Forall output_ok (refund_outputs tx)) <->
            (exists o, refund_outputs tx = [o] /\ output_ok o)) as <-; [|tauto].
    destruct (refund_outputs tx) as [|o [|o' l]]; cbn; split; intros H.
    all: try (destruct H as [? ?]; lia).
    all: try (destruct H as (? & ? & ?); congruence).
    + destruct H as [_ Hf]. exists o. by inversion Hf.
    + destruct H as (? & [= <-] & ?). split; [done|]. by apply Forall_singleton.
Qed.
End System.

#[export] Hint Resolve genesis_roundtrip staker_roundtrip refund_roundtrip : codec.

(** ** Samples and witnesses *)

Module SystemSamples.
#[local] Existing Instance toy_crypto.
Definition reward : staker_transaction_t (CL := toy_crypto) :=
  mk_staker (mkTransactionHeader 1 1) [mkStakerOutput x51 25] [mkStakerOutput x52 3].
Definition refund : stake_refund_transaction_t (CL := toy_crypto) :=
  mk_stake_refund (UserSamples.prefix 5 1) x09 x53 [UserSamples.output1].

Lemma refund_sample_wf : refund_wf refund.
Proof. repeat split; cbn; try lia. repeat constructor; cbn; lia. Qed.
Lemma reward_wf : staker_wf reward.
Proof. repeat split; cbn; try lia; repeat constructor; cbn; lia. Qed.
End SystemSamples.

Lemma system_transactions_roundtrip_witness :
  deserialize (serialize SystemSamples.refund ++ [9]) = Some (SystemSamples.refund, [9]).
Proof.
  apply (proj2 (proj2 (system_transactions_roundtrip (CL := toy_crypto)))).
  apply SystemSamples.refund_sample_wf.
Defined.
