(* ===== verification/Block.v ===== *)
(** * Blocks

    [src/include/blockchain/block.h].  The set of transaction hashes and the
    map of validator signatures are lists in the container's iteration order
    (strictly increasing keys), because that order is what the digests cover.
    [None] is a C++ exception. *)

From S2P Require Import Prelude Errors Config CryptoLib Concrete Codec TxBase TxUser TxSystem.
From Stdlib Require Import Strings.Byte.

Inductive block_digest_mode_t : Set :=
  | BLOCK_DIGEST_FULL | BLOCK_DIGEST_PRODUCER | BLOCK_DIGEST_VALIDATOR.

Section Block.
Context {CL : CryptoLib}.

(** [std::variant] of the two reward transactions. *)
Inductive block_transaction_t : Type :=
  | Reward_genesis (tx : genesis_transaction_t)
  | Reward_staker (tx : staker_transaction_t).

Record block_t : Type := mk_block {
  block_version : Z;
  block_timestamp : Z;
  block_index : Z;
  previous_blockhash : crypto_hash_t;
  reward_tx : block_transaction_t;
  block_transactions : list crypto_hash_t;
  producer_public_key : crypto_public_key_t;
  producer_signature : crypto_signature_t;
  validator_signatures : list (crypto_public_key_t * crypto_signature_t)
}.

(** The default member initialisers. *)
Definition default_block : block_t :=
  mk_block 1 0 0 key_default (Reward_staker default_staker_transaction) [] key_default
    key_default [].

(** ** Setters used by the operations *)

Definition set_transactions (txs : list crypto_hash_t) (b : block_t) : block_t :=
  mk_block (block_version b) (block_timestamp b) (block_index b) (previous_blockhash b)
    (reward_tx b) txs (producer_public_key b) (producer_signature b) (validator_signatures b).

Definition set_producer (pk : crypto_public_key_t) (sig : crypto_signature_t) (b : block_t)
  : block_t :=
  mk_block (block_version b) (block_timestamp b) (block_index b) (previous_blockhash b)
    (reward_tx b) (block_transactions b) pk sig (validator_signatures b).

Definition set_validators (vs : list (crypto_public_key_t * crypto_signature_t)) (b : block_t)
  : block_t :=
  mk_block (block_version b) (block_timestamp b) (block_index b) (previous_blockhash b)
    (reward_tx b) (block_transactions b) (producer_public_key b) (producer_signature b) vs.

(** ** Containers *)

Definition tx_set_insert (h : crypto_hash_t) (s : list crypto_hash_t) : list crypto_hash_t :=
  sorted_insert key_ltb id h s.

Definition validators_insert (v : crypto_public_key_t * crypto_signature_t)
  (m : list (crypto_public_key_t * crypto_signature_t))
  : list (crypto_public_key_t * crypto_signature_t) :=
  sorted_insert key_ltb fst v m.

Definition validators_find (pk : crypto_public_key_t)
  (m : list (crypto_public_key_t * crypto_signature_t))
  : option (crypto_public_key_t * crypto_signature_t) :=
  sorted_find key_ltb fst pk m.

(** [transactions.find(hash) == end()], then [insert]. *)
Definition append_transaction_hash (h : crypto_hash_t) (b : block_t) : block_t :=
  match sorted_find key_ltb id h (block_transactions b) with
  | None => set_transactions (tx_set_insert h (block_transactions b)) b
  | Some _ => b
  end.

Definition append_validator_signature (pk : crypto_public_key_t) (sig : crypto_signature_t)
  (b : block_t) : block_t :=
  match validators_find pk (validator_signatures b) with
  | None => set_validators (validators_insert (pk, sig) (validator_signatures b)) b
  | Some _ => b
  end.

(** ** Serialization *)

Definition reward_serialize (r : block_transaction_t) : bytes :=
  match r with
  | Reward_genesis tx => genesis_serialize tx
  | Reward_staker tx => staker_serialize tx
  end.

(** The part every digest covers. *)
Definition block_serialize_head (b : block_t) : bytes :=
  put_varint (block_version b) ++
  put_key (previous_blockhash b) ++
  put_varint (block_timestamp b) ++
  put_varint (block_index b) ++
  reward_serialize (reward_tx b) ++
  put_varint (vsize (block_transactions b)) ++
  write_all put_key (block_transactions b).

Definition has_producer (b : block_t) : bool :=
  negb (bool_decide (producer_public_key b = crypto_Z)) && negb (key_empty (producer_signature b)).

Definition block_serialize_producer (b : block_t) : bytes :=
  put_boolean (has_producer b) ++
  (if has_producer b then put_key (producer_public_key b) ++ put_key (producer_signature b)
   else []).

Definition put_validator (v : crypto_public_key_t * crypto_signature_t) : bytes :=
  put_key (fst v) ++ put_key (snd v).

Definition block_serialize_validators (b : block_t) : bytes :=
  put_varint (vsize (validator_signatures b)) ++ write_all put_validator (validator_signatures b).

Definition block_serialize (mode : block_digest_mode_t) (b : block_t) : option bytes :=
  match mode with
  | BLOCK_DIGEST_PRODUCER => Some (block_serialize_head b)
  | BLOCK_DIGEST_VALIDATOR =>
      if has_producer b then Some (block_serialize_head b ++ block_serialize_producer b)
      else None
  | BLOCK_DIGEST_FULL =>
      Some (block_serialize_head b ++ block_serialize_producer b ++ block_serialize_validators b)
  end.

(** [serialize()] with its default mode, which never throws. *)
Definition block_bytes (b : block_t) : bytes :=
  block_serialize_head b ++ block_serialize_producer b ++ block_serialize_validators b.

Definition block_size (b : block_t) : Z := vsize (block_bytes b).

Definition message_digest (mode : block_digest_mode_t) (b : block_t) : option crypto_hash_t :=
  bytes ← block_serialize mode b; Some (sha3 bytes).

Definition block_hash (b : block_t) : crypto_hash_t := sha3 (block_bytes b).

Definition reward_deserialize : reader block_transaction_t := fun s =>
  match peek_varint s with
  | None => None
  | Some type =>
      if type =? TransactionType_value GENESIS then
        (tx ← genesis_deserialize; mret (Reward_genesis tx)) s
      else if type =? TransactionType_value STAKER then
        (tx ← staker_deserialize; mret (Reward_staker tx)) s
      else None
  end.

(** The producer's key and signature, or the members of a fresh block. *)
Definition producer_deserialize : reader (crypto_public_key_t * crypto_signature_t) :=
  has_producer ← get_boolean;
  if has_producer : bool then
    public_key ← get_key;
    signature ← get_key;
    mret (public_key, signature)
  else mret (key_default, key_default).

Definition get_validator : reader (crypto_public_key_t * crypto_signature_t) :=
  public_key ← get_key;
  signature ← get_key;
  mret (public_key, signature).

(** [deserialize] into a default-constructed block. *)
Definition block_deserialize : reader block_t :=
  version ← get_varint 64;
  previous_blockhash ← get_key;
  timestamp ← get_varint 64;
  block_index ← get_varint 64;
  reward_tx ← reward_deserialize;
  count ← get_varint 64;
  hashes ← read_n (Z.to_nat count) get_key;
  producer ← producer_deserialize;
  vcount ← get_varint 64;
  validators ← read_n (Z.to_nat vcount) get_validator;
  mret (mk_block version timestamp block_index previous_blockhash reward_tx
          (fold_left (fun s h => tx_set_insert h s) hashes [])
          (fst producer) (snd producer)
          (fold_left (fun m v => validators_insert v m) validators [])).

#[global] Instance block_ser : ISerializable block_t := {|
  serialize := block_bytes; deserialize := block_deserialize |}.

(** ** Signing and validation *)

Definition is_genesis (b : block_t) : bool :=
  match reward_tx b with Reward_genesis _ => true | Reward_staker _ => false end.

(** [producer_sign] stores the key first, then the signature of the producer
    digest, and returns both. *)
Definition producer_sign (sk : crypto_secret_key_t) (b : block_t)
  : crypto_public_key_t * crypto_signature_t * block_t :=
  let b1 := set_producer (secret_key_to_public_key sk) (producer_signature b) b in
  let digest := sha3 (block_serialize_head b1) in
  let sig := generate_signature digest sk in
  (producer_public_key b1, sig, set_producer (producer_public_key b1) sig b1).

Definition validator_sign (sk : crypto_secret_key_t) (b : block_t)
  : option (crypto_public_key_t * crypto_signature_t * block_t) :=
  let pk := secret_key_to_public_key sk in
  digest ← message_digest BLOCK_DIGEST_VALIDATOR b;
  let sig := generate_signature digest sk in
  Some (pk, sig, append_validator_signature pk sig b).

Definition validate_producer_signature (b : block_t) : bool :=
  check_signature (sha3 (block_serialize_head b)) (producer_public_key b) (producer_signature b).

Definition validate_validator_signatures (b : block_t) : option bool :=
  match validator_signatures b with
  | [] => Some false
  | _ =>
      digest ← message_digest BLOCK_DIGEST_VALIDATOR b;
      Some (forallb (fun '(pk, sig) => check_signature digest pk sig) (validator_signatures b))
  end.

Definition reward_nonempty (r : block_transaction_t) : bool :=
  match r with
  | Reward_genesis tx => negb (is_nil (genesis_outputs tx))
  | Reward_staker tx => negb (is_nil (staker_outputs tx))
  end.

Definition validate_construction (b : block_t) : option bool :=
  if negb (reward_nonempty (reward_tx b)) then Some false
  else if (match validators_find (producer_public_key b) (validator_signatures b) with
           | Some _ => true | None => false end) then Some false
  else if negb (validate_producer_signature b) then Some false
  else validate_validator_signatures b.

(** ** Well-formed blocks *)

Definition reward_wf (r : block_transaction_t) : Prop :=
  match r with
  | Reward_genesis tx => genesis_wf tx /\ l_type tx = TransactionType_value GENESIS
  | Reward_staker tx => staker_wf tx /\ l_type tx = TransactionType_value STAKER
  end.

Record block_wf (b : block_t) : Prop := {
  wf_block_version : u64 (block_version b);
  wf_block_timestamp : u64 (block_timestamp b);
  wf_block_index : u64 (block_index b);
  wf_reward : reward_wf (reward_tx b);
  wf_transactions_size : size_ok (block_transactions b);
  wf_transactions : strictly_sorted key_ltb id (block_transactions b);
  wf_producer : has_producer b = false ->
    producer_public_key b = key_default /\ producer_signature b = key_default;
  wf_validators_size : size_ok (validator_signatures b);
  wf_validators : strictly_sorted key_ltb fst (validator_signatures b)
}.
End Block.

(** ** Lemmas *)

Section BlockFacts.
Context {CL : CryptoLib}.

Lemma block_serialize_full b : block_serialize BLOCK_DIGEST_FULL b = Some (block_bytes b).
Proof. done. Qed.

Lemma validator_digest b :
  has_producer b = true ->
  message_digest BLOCK_DIGEST_VALIDATOR b =
    Some (sha3 (block_serialize_head b ++ block_serialize_producer b)).
Proof. unfold message_digest, block_serialize. by intros ->. Qed.

(** The head ignores the producer and the validators; the producer part
    ignores the validators. *)
Lemma head_set_producer pk sig b :
  block_serialize_head (set_producer pk sig b) = block_serialize_head b.
Proof. done. Qed.

Lemma head_set_validators vs b :
  block_serialize_head (set_validators vs b) = block_serialize_head b.
Proof. done. Qed.

Lemma producer_set_validators vs b :
  block_serialize_producer (set_validators vs b) = block_serialize_producer b.
Proof. done. Qed.

Lemma append_validator_signature_set pk sig b :
  exists vs, append_validator_signature pk sig b = set_validators vs b.
Proof.
  unfold append_validator_signature. case_match; [|by eexists].
  exists (validator_signatures b). by destruct b.
Qed.

Section Codec.
Context {CodecOK : CodecLaws CL}.

Lemma peek_genesis tx s :
  genesis_wf tx -> peek_varint (genesis_serialize tx ++ s) = Some (l_type tx).
Proof.
  intros [[Hh _] _]. unfold genesis_serialize, serialize_prefix.
  rewrite <- !app_assoc. by apply peek_header.
Qed.

Lemma peek_staker tx s :
  staker_wf tx -> peek_varint (staker_serialize tx ++ s) = Some (l_type tx).
Proof.
  intros [Hh _]. unfold staker_serialize. rewrite <- !app_assoc. by apply peek_header.
Qed.

Lemma reward_roundtrip r s :
  reward_wf r -> reward_deserialize (reward_serialize r ++ s) = Some (r, s).
Proof.
  destruct r as [tx|tx]; intros [Hwf Ht]; unfold reward_deserialize; cbn [reward_serialize].
  - rewrite peek_genesis, Ht by done. cbn [TransactionType_value Z.eqb].
    erewrite bind_step by (by apply genesis_roundtrip). done.
  - rewrite peek_staker, Ht by done. cbn [TransactionType_value Z.eqb].
    erewrite bind_step by (by apply staker_roundtrip). done.
Qed.

Lemma producer_roundtrip b s :
  (has_producer b = false -> producer_public_key b = key_default /\
                             producer_signature b = key_default) ->
  producer_deserialize (block_serialize_producer b ++ s) =
    Some ((producer_public_key b, producer_signature b), s).
Proof.
  intros Hdef. unfold producer_deserialize, block_serialize_producer.
  codec_step. destruct (has_producer b).
  - rewrite <- app_assoc. do 2 codec_step. done.
  - destruct Hdef as [-> ->]; [done|]. done.
Qed.

Lemma validator_roundtrip v s : get_validator (put_validator v ++ s) = Some (v, s).
Proof.
  destruct v as [pk sig]. unfold get_validator, put_validator. cbn [fst snd].
  do 2 codec_step. done.
Qed.

Lemma hashes_roundtrip (hs : list crypto_hash_t) s :
  read_n (List.length hs) get_key (write_all put_key hs ++ s) = Some (hs, s).
Proof.
  apply (read_n_write_all _ _ (fun _ => True)); [|apply Forall_anything].
  intros. apply get_put_key.
Qed.

Lemma validators_roundtrip vs s :
  read_n (List.length vs) get_validator (write_all put_validator vs ++ s) = Some (vs, s).
Proof.
  apply (read_n_write_all _ _ (fun _ => True)); [|apply Forall_anything].
  intros. apply validator_roundtrip.
Qed.

Lemma block_roundtrip b s : block_wf b -> block_deserialize (block_bytes b ++ s) = Some (b, s).
Proof.
  intros []. unfold block_deserialize, block_bytes, block_serialize_head,
    block_serialize_validators.
  do 4 codec_step.
  rewrite <- ?app_assoc. erewrite bind_step by (by apply reward_roundtrip).
  codec_step. rewrite to_nat_vsize.
  rewrite <- ?app_assoc. erewrite bind_step by (apply hashes_roundtrip).
  erewrite bind_step by (by apply producer_roundtrip).
  codec_step. rewrite to_nat_vsize.
  erewrite bind_step by (apply validators_roundtrip).
  unfold tx_set_insert, validators_insert.
  rewrite (fold_sorted_insert _ id key_order) by done.
  rewrite (fold_sorted_insert _ fst key_order) by done.
  cbn. by destruct b.
Qed.

(** The validator map: what [find] sees after an insertion. *)
Lemma validators_find_None pk m :
  validators_find pk m = None <-> forall v, v ∈ m -> fst v <> pk.
Proof. apply (sorted_find_None _ _ key_order). Qed.

Lemma validators_insert_keys (Q : crypto_public_key_t * crypto_signature_t -> Prop) v m :
  Q v -> Forall Q m -> Forall Q (validators_insert v m).
Proof. apply sorted_insert_Forall. Qed.
End Codec.

(** Appending transaction hashes is set insertion. *)
Lemma append_transaction_hash_insert `{!CodecLaws CL} h b :
  strictly_sorted key_ltb id (block_transactions b) ->
  append_transaction_hash h b = set_transactions (tx_set_insert h (block_transactions b)) b.
Proof.
  intros Hs. unfold append_transaction_hash. case_match eqn:E; [|done].
  apply (sorted_find_Some _ _ key_order) in E as [Hin Hk].
  unfold tx_set_insert. erewrite (sorted_insert_present _ _ key_order) by done.
  by destruct b.
Qed.

Lemma append_hashes `{!CodecLaws CL} hs b :
  strictly_sorted key_ltb id (block_transactions b) ->
  fold_left (fun b h => append_transaction_hash h b) hs b =
  set_transactions (fold_left (fun s h => tx_set_insert h s) hs (block_transactions b)) b.
Proof.
  revert b. induction hs as [|h hs IH]; intros b Hs; simpl; [by destruct b|].
  rewrite append_transaction_hash_insert by done. rewrite IH; [done|].
  cbn. by apply (sorted_insert_sorted _ _ key_order).
Qed.

(** ** Signing *)

(** Signing by a list of validators, in order. *)
Fixpoint validators_sign (sks : list crypto_secret_key_t) (b : block_t) : option block_t :=
  match sks with
  | [] => Some b
  | sk :: sks' => '(_, _, b') ← validator_sign sk b; validators_sign sks' b'
  end.

(** Every validator signature of the block checks against the validator
    digest and none is the producer's. *)
Definition validators_valid (b : block_t) (digest : crypto_hash_t) : Prop :=
  Forall (fun v : crypto_public_key_t * crypto_signature_t => fst v <> producer_public_key b /\
    check_signature digest (fst v) (snd v) = true) (validator_signatures b).

Lemma has_producer_set_validators vs b : has_producer (set_validators vs b) = has_producer b.
Proof. done. Qed.

Section Signing.
Context {CodecOK : CodecLaws CL} {SigOK : SignatureLaws CL}.

Lemma producer_sign_has_producer sk b :
  has_producer (snd (producer_sign sk b)) = true.
Proof.
  unfold has_producer. cbn. rewrite generate_nonempty.
  rewrite bool_decide_eq_false_2 by apply public_key_not_Z. done.
Qed.

Lemma producer_sign_valid sk b :
  validate_producer_signature (snd (producer_sign sk b)) = true.
Proof. unfold validate_producer_signature. cbn. apply check_generate. Qed.

Lemma validator_sign_spec sk b :
  has_producer b = true ->
  let digest := sha3 (block_serialize_head b ++ block_serialize_producer b) in
  exists pk sig vs, validator_sign sk b = Some (pk, sig, set_validators vs b) /\
    vs <> [] /\
    (secret_key_to_public_key sk <> producer_public_key b -> validators_valid b digest ->
     validators_valid (set_validators vs b) digest).
Proof.
  intros Hp digest. unfold validator_sign. rewrite validator_digest by done. cbn.
  fold digest. unfold append_validator_signature. case_match eqn:E.
  - do 3 eexists. split; [do 2 f_equal; by instantiate (1 := validator_signatures b); destruct b|].
    split; [|done]. intros Hnil. by rewrite Hnil in E.
  - do 3 eexists. split; [done|]. split.
    + unfold validators_insert. destruct (validator_signatures b); simpl; [done|].
      by repeat case_match.
    + intros Hne Hv. unfold validators_valid. cbn.
      apply validators_insert_keys; [|exact Hv]. split; [done|]. apply check_generate.
Qed.

Lemma validators_sign_spec sks b :
  has_producer b = true ->
  let digest := sha3 (block_serialize_head b ++ block_serialize_producer b) in
  validators_valid b digest ->
  Forall (fun sk => secret_key_to_public_key sk <> producer_public_key b) sks ->
  exists vs, validators_sign sks b = Some (set_validators vs b) /\
    validators_valid (set_validators vs b) digest /\
    (sks <> [] \/ validator_signatures b <> [] -> vs <> []).
Proof.
  revert b. induction sks as [|sk sks IH]; intros b Hp digest Hv Hne; simpl.
  - exists (validator_signatures b). destruct b. split; [done|]. split; [done|].
    intros [?|?]; done.
  - inversion Hne as [|? ? Hsk Hsks]; subst.
    destruct (validator_sign_spec sk b Hp) as (pk & sig & vs & -> & Hnil & Hval).
    destruct (IH (set_validators vs b)) as (vs' & Heq & Hv' & Hn'); [done|by apply Hval|done|].
    exists vs'. cbn. split; [exact Heq|]. split; [exact Hv'|]. intros _. apply Hn'. by right.
Qed.

Lemma validate_validator_signatures_iff b :
  has_producer b = true ->
  let digest := sha3 (block_serialize_head b ++ block_serialize_producer b) in
  validate_validator_signatures b = Some true <->
  validator_signatures b <> [] /\
  Forall (fun v : crypto_public_key_t * crypto_signature_t => check_signature digest (fst v) (snd v) = true) (validator_signatures b).
Proof.
  intros Hp digest. unfold validate_validator_signatures.
  destruct (validator_signatures b) as [|v vs] eqn:E; [by split; [|intros []]|].
  rewrite validator_digest by done. cbn [mbind option_bind]. fold digest.
  assert (Hall : forallb (fun '(pk, sig) => check_signature digest pk sig) (v :: vs) = true <->
          Forall (fun v : crypto_public_key_t * crypto_signature_t => check_signature digest (fst v) (snd v) = true) (v :: vs)).
  { rewrite forallb_forall, Forall_forall. split; intros Ha [pk sig].
    - intros Hin%list_elem_of_In. by apply (Ha (pk, sig)).
    - intros Hin%list_elem_of_In. by apply (Ha (pk, sig)). }
  rewrite <- Hall. split.
  - intros [= H]. split; [done|exact H].
  - intros [_ H]. f_equal. exact H.
Qed.

Lemma validate_construction_iff b :
  has_producer b = true ->
  let digest := sha3 (block_serialize_head b ++ block_serialize_producer b) in
  validate_construction b = Some true <->
  reward_nonempty (reward_tx b) = true /\ validate_producer_signature b = true /\
  validator_signatures b <> [] /\ validators_valid b digest.
Proof.
  intros Hp digest. unfold validate_construction.
  destruct (reward_nonempty (reward_tx b)); cbn; [|naive_solver].
  destruct (validators_find _ _) as [v|] eqn:E.
  - apply (sorted_find_Some _ _ key_order) in E as [Hin Hk].
    split; [done|]. intros (_ & _ & _ & Hv). unfold validators_valid in Hv.
    rewrite Forall_forall in Hv. by destruct (Hv _ Hin).
  - destruct (validate_producer_signature b); cbn; [|naive_solver].
    rewrite validate_validator_signatures_iff by done. fold digest.
    rewrite validators_find_None in E. unfold validators_valid.
    assert (Forall (fun v : crypto_public_key_t * crypto_signature_t => check_signature digest (fst v) (snd v) = true) (validator_signatures b)
       <-> Forall (fun v : crypto_public_key_t * crypto_signature_t => fst v <> producer_public_key b /\
             check_signature digest (fst v) (snd v) = true) (validator_signatures b)) as <-.
    { rewrite !Forall_forall. naive_solver. }
    naive_solver.
Qed.
End Signing.
End BlockFacts.

(** ** Properties *)

Section BlockProperties.
Context {CL : CryptoLib}.

(** C23: A well-formed block (members in range, reward of its own type,
    containers in their order, producer members default when there is no
    producer) is read back by [deserialize] from what [serialize] wrote. *)
Theorem block_serialization_roundtrip `{!CodecLaws CL} : RoundTrip block_t block_wf.
Proof. intros b s. apply block_roundtrip. Qed.

(** C24: Appending transaction hashes to a block gives the same block, hence the
    same digests and the same block hash, whatever the order and the
    repetitions of the hashes, and keeps the set in its sorted order. *)
Theorem append_hashes_order_independent `{!CodecLaws CL} hs1 hs2 b :
  strictly_sorted key_ltb id (block_transactions b) ->
  (forall h, h ∈ hs1 <-> h ∈ hs2) ->
  let append := fold_left (fun b h => append_transaction_hash h b) in
  append hs1 b = append hs2 b /\
  block_hash (append hs1 b) = block_hash (append hs2 b) /\
  strictly_sorted key_ltb id (block_transactions (append hs1 b)) /\
  (forall h, h ∈ block_transactions (append hs1 b) <-> h ∈ hs1 \/ h ∈ block_transactions b).
Proof.
  intros Hs Heq append. unfold append. rewrite !append_hashes by done.
  assert (fold_left (fun s h => tx_set_insert h s) hs1 (block_transactions b) =
          fold_left (fun s h => tx_set_insert h s) hs2 (block_transactions b)) as ->.
  { apply (strictly_sorted_ext _ id key_order);
      try by apply (fold_sorted_insert_sorted _ _ key_order).
    intros h. unfold tx_set_insert. rewrite !(elem_of_set_inserts _ key_order), Heq. done. }
  split; [done|]. split; [done|]. split.
  - cbn. by apply (fold_sorted_insert_sorted _ _ key_order).
  - intros h. cbn. unfold tx_set_insert. rewrite (elem_of_set_inserts _ key_order), Heq. done.
Qed.

(** What the signing digests cover: a validator's signature changes neither
    the producer digest nor the validator digest, so signatures can be gathered
    in any order; the producer's signature does not change the producer digest;
    and the validator digest exists exactly when the producer has signed. *)
Theorem digests_ignore_later_signatures b :
  (forall pk sig,
    message_digest BLOCK_DIGEST_PRODUCER (append_validator_signature pk sig b) =
      message_digest BLOCK_DIGEST_PRODUCER b /\
    message_digest BLOCK_DIGEST_VALIDATOR (append_validator_signature pk sig b) =
      message_digest BLOCK_DIGEST_VALIDATOR b) /\
  (forall sk, message_digest BLOCK_DIGEST_PRODUCER (snd (producer_sign sk b)) =
     message_digest BLOCK_DIGEST_PRODUCER b) /\
  (message_digest BLOCK_DIGEST_VALIDATOR b = None <-> has_producer b = false).
Proof.
  split; [|split].
  - intros pk sig. by destruct (append_validator_signature_set pk sig b) as [vs ->].
  - done.
  - unfold message_digest, block_serialize. destruct (has_producer b); naive_solver.
Qed.

(** C8: A block with a reward that its producer signs and that is then signed
    by one or more validators other than the producer passes
    [validate_construction], and its signed contents are those it started
    with. *)
Theorem signed_block_validates `{!CodecLaws CL} `{!SignatureLaws CL} b sk sks :
  reward_nonempty (reward_tx b) = true ->
  validator_signatures b = [] ->
  sks <> [] ->
  Forall (fun v => secret_key_to_public_key v <> secret_key_to_public_key sk) sks ->
  exists b', validators_sign sks (snd (producer_sign sk b)) = Some b' /\
    validate_construction b' = Some true /\
    block_serialize_head b' = block_serialize_head b.
Proof.
  intros Hr Hv Hne Hsks.
  pose proof (producer_sign_has_producer sk b) as Hp.
  destruct (validators_sign_spec sks _ Hp) as (vs & Heq & Hval & Hnil).
  - unfold validators_valid. cbn. rewrite Hv. constructor.
  - exact Hsks.
  - eexists. split; [exact Heq|]. split; [|done].
    apply validate_construction_iff; [exact Hp|].
    split; [exact Hr|]. split; [apply producer_sign_valid|].
    split; [apply Hnil; by left|exact Hval].
Qed.

(** C9: For a block that its producer has signed, [validate_construction]
    answers [true] exactly when the reward has outputs, the producer's
    signature of the producer digest checks, and there is at least one
    validator, none of them the producer, each with a signature of the
    validator digest that checks. *)
Theorem validate_construction_sound_complete `{!CodecLaws CL} b :
  has_producer b = true ->
  validate_construction b = Some true <->
  reward_nonempty (reward_tx b) = true /\
  check_signature (sha3 (block_serialize_head b)) (producer_public_key b)
    (producer_signature b) = true /\
  validator_signatures b <> [] /\
  Forall (fun v : crypto_public_key_t * crypto_signature_t =>
    fst v <> producer_public_key b /\
    check_signature (sha3 (block_serialize_head b ++ block_serialize_producer b))
      (fst v) (snd v) = true) (validator_signatures b).
Proof. intros Hp. by apply validate_construction_iff. Qed.
End BlockProperties.

(** ** Samples and witnesses *)

Module BlockSamples.
#[local] Existing Instance toy_crypto.
Definition unsigned : block_t :=
  mk_block 1 1633492800 7 x61 (Reward_staker SystemSamples.reward) [x62; x63]
    x00 x00 [].
(** Produced by key 0x0a, validated by 0x0b and 0x0c. *)
Definition signed : block_t :=
  mk_block 1 1633492800 7 x61 (Reward_staker SystemSamples.reward) [x62; x63]
    x0a xf5 [(x0b, x2d); (x0c, x2e)].

Lemma signed_by_keys :
  validators_sign [x0b; x0c] (snd (producer_sign x0a unsigned)) = Some signed.
Proof. reflexivity. Qed.

Lemma signed_wf : block_wf signed.
Proof.
  split; cbn; try lia; try (unfold uintw; lia).
  - split; [apply SystemSamples.reward_wf|done].
  - done.
  - repeat constructor.
  - intros H. discriminate H.
  - done.
  - repeat constructor.
Qed.
Definition append (hs : list crypto_hash_t) : block_t :=
  fold_left (fun b h => append_transaction_hash h b) hs unsigned.
End BlockSamples.

Lemma block_serialization_roundtrip_witness :
  deserialize (serialize BlockSamples.signed ++ [1]) = Some (BlockSamples.signed, [1]).
Proof.
  apply (block_serialization_roundtrip (CL := toy_crypto)). apply BlockSamples.signed_wf.
Defined.

Lemma append_hashes_order_independent_witness :
  block_transactions (BlockSamples.append [x71; x62; x05; x71]) = [x05; x62; x63; x71] /\
  block_hash (BlockSamples.append [x71; x62; x05; x71]) =
  block_hash (BlockSamples.append [x05; x71; x62]).
Proof.
  split; [reflexivity|].
  refine (proj1 (proj2 (append_hashes_order_independent (CL := toy_crypto)
    [x71; x62; x05; x71] [x05; x71; x62] BlockSamples.unsigned _ _))).
  - repeat constructor.
  - intros h. rewrite !elem_of_cons, !elem_of_nil. tauto.
Defined.

Lemma signed_block_validates_witness :
  validate_construction BlockSamples.signed = Some true.
Proof.
  destruct (signed_block_validates (CL := toy_crypto) BlockSamples.unsigned x0a [x0b; x0c])
    as (b & Hb & Hv & _); [reflexivity|reflexivity|done| |].
  - repeat constructor; done.
  - rewrite BlockSamples.signed_by_keys in Hb. injection Hb as <-. exact Hv.
Defined.

Lemma validate_construction_sound_complete_witness :
  validate_construction BlockSamples.signed = Some true.
Proof.
  apply (validate_construction_sound_complete (CL := toy_crypto)); [reflexivity|].
  split; [reflexivity|]. split; [reflexivity|]. split; [done|].
  repeat constructor; done.
Defined.
