(* ===== verification/TxTypes.v ===== *)
(** * The transaction variants

    [src/include/types.h]: [transaction_t] and [uncommitted_transaction_t] with
    the calls that the code makes on whichever structure they hold
    ([std::visit]). *)

From S2P Require Import Prelude Errors CryptoLib Codec TxBase TxUser TxSystem Block.

Section Types.
Context {CL : CryptoLib}.

(** ** [transaction_t] *)

Inductive transaction_t : Type :=
  | Genesis_tx (tx : genesis_transaction_t)
  | Staker_tx (tx : staker_transaction_t)
  | Normal_tx (tx : committed_normal_transaction_t)
  | Recall_tx (tx : committed_recall_stake_transaction_t)
  | Stake_tx (tx : committed_stake_transaction_t)
  | Refund_tx (tx : stake_refund_transaction_t).

(** [{}]: a default-constructed variant holds its first alternative. *)
Definition default_transaction : transaction_t :=
  Genesis_tx (mk_genesis
    (mkTransactionPrefix (mkTransactionHeader (TransactionType_value GENESIS) (version default_header))
       0 key_default) key_default []).

Definition transaction_hash (t : transaction_t) : crypto_hash_t :=
  match t with
  | Genesis_tx tx => genesis_hash tx
  | Staker_tx tx => staker_hash tx
  | Normal_tx tx => committed_normal_hash tx
  | Recall_tx tx => committed_recall_hash tx
  | Stake_tx tx => committed_stake_hash tx
  | Refund_tx tx => refund_hash tx
  end.

Definition transaction_serialize (t : transaction_t) : bytes :=
  match t with
  | Genesis_tx tx => genesis_serialize tx
  | Staker_tx tx => staker_serialize tx
  | Normal_tx tx => committed_normal_serialize tx
  | Recall_tx tx => committed_recall_serialize tx
  | Stake_tx tx => committed_stake_serialize tx
  | Refund_tx tx => refund_serialize tx
  end.

Definition transaction_check_construction (t : transaction_t) : ErrorCode :=
  match t with
  | Genesis_tx tx => genesis_check_construction tx
  | Staker_tx tx => staker_check_construction tx
  | Normal_tx tx => committed_normal_check_construction tx
  | Recall_tx tx => committed_recall_check_construction tx
  | Stake_tx tx => committed_stake_check_construction tx
  | Refund_tx tx => refund_check_construction tx
  end.

(** [COMMITED_USER_TX_VARIANT]: the three committed user transactions, with
    the prefix and body they share. *)
Definition user_parts (t : transaction_t) : option (TransactionPrefix * TransactionUserBody) :=
  match t with
  | Normal_tx tx => Some (tx : TransactionPrefix, tx : TransactionUserBody)
  | Recall_tx tx => Some (tx : TransactionPrefix, tx : TransactionUserBody)
  | Stake_tx tx => Some (tx : TransactionPrefix, tx : TransactionUserBody)
  | Genesis_tx _ | Staker_tx _ | Refund_tx _ => None
  end.

(** The proof-of-work hash and the size of a user transaction. *)
Definition user_pow_size (t : transaction_t) : option (crypto_hash_t * Z) :=
  match t with
  | Normal_tx tx => Some (committed_normal_pow_hash tx, committed_normal_size tx)
  | Recall_tx tx => Some (committed_recall_pow_hash tx, committed_recall_size tx)
  | Stake_tx tx => Some (committed_stake_pow_hash tx, committed_stake_size tx)
  | Genesis_tx _ | Staker_tx _ | Refund_tx _ => None
  end.

(** A block's reward transaction as a [transaction_t]. *)
Definition reward_transaction (r : block_transaction_t) : transaction_t :=
  match r with
  | Reward_genesis tx => Genesis_tx tx
  | Reward_staker tx => Staker_tx tx
  end.

(** A well-formed transaction carries the type of its structure. *)
Definition transaction_wf (t : transaction_t) : Prop :=
  match t with
  | Genesis_tx tx => genesis_wf tx /\ l_type tx = TransactionType_value GENESIS
  | Staker_tx tx => staker_wf tx /\ l_type tx = TransactionType_value STAKER
  | Normal_tx tx => committed_normal_wf tx /\ l_type tx = TransactionType_value NORMAL
  | Recall_tx tx => committed_recall_wf tx /\ l_type tx = TransactionType_value RECALL_STAKE
  | Stake_tx tx => committed_stake_wf tx /\ l_type tx = TransactionType_value STAKE
  | Refund_tx tx => refund_wf tx /\ l_type tx = TransactionType_value STAKE_REFUND
  end.

(** ** [uncommitted_transaction_t] *)

Inductive uncommitted_transaction_t : Type :=
  | U_normal (tx : uncommited_normal_transaction_t)
  | U_stake (tx : uncommitted_stake_transaction_t)
  | U_recall (tx : uncommitted_recall_stake_transaction_t).

Definition uncommitted_check_construction (t : uncommitted_transaction_t) : ErrorCode :=
  match t with
  | U_normal tx => uncommitted_normal_check_construction tx
  | U_stake tx => uncommitted_stake_check_construction tx
  | U_recall tx => uncommitted_recall_check_construction tx
  end.

Definition uncommitted_pow_hash (t : uncommitted_transaction_t) : crypto_hash_t :=
  match t with
  | U_normal tx => uncommitted_normal_pow_hash tx
  | U_stake tx => uncommitted_stake_pow_hash tx
  | U_recall tx => uncommitted_recall_pow_hash tx
  end.

Definition uncommitted_size (t : uncommitted_transaction_t) : Z :=
  match t with
  | U_normal tx => uncommitted_normal_size tx
  | U_stake tx => uncommitted_stake_size tx
  | U_recall tx => uncommitted_recall_size tx
  end.

Definition uncommitted_digest (t : uncommitted_transaction_t) : crypto_hash_t :=
  match t with
  | U_normal tx => uncommitted_normal_digest tx
  | U_stake tx => uncommitted_stake_digest tx
  | U_recall tx => uncommitted_recall_digest tx
  end.

Definition uncommitted_body (t : uncommitted_transaction_t) : TransactionUserBody :=
  match t with
  | U_normal tx => tx
  | U_stake tx => tx
  | U_recall tx => tx
  end.

Definition uncommitted_suffix (t : uncommitted_transaction_t) : UncommittedTransactionSuffix :=
  match t with
  | U_normal tx => tx
  | U_stake tx => tx
  | U_recall tx => tx
  end.

Definition to_committed (t : uncommitted_transaction_t) : transaction_t :=
  match t with
  | U_normal tx => Normal_tx (uncommitted_normal_to_committed tx)
  | U_stake tx => Stake_tx (uncommitted_stake_to_committed tx)
  | U_recall tx => Recall_tx (uncommitted_recall_to_committed tx)
  end.
End Types.
