(* ===== verification/Float.v ===== *)
(** * Floating point arithmetic

    The code converts sizes to [double] and [float] in three places
    ([network_fees.cpp], [db_lmdb.cpp]).  Every operation rounds to nearest,
    ties to even, at 53 or 24 significant bits.  A value [v >= 0] is the integer
    [v * 2^128]: every value that occurs is 0 or lies between [2^-64] and
    [2^65], where this grid is finer than the last bit of the format, so there
    is no overflow, no subnormal and no loss. *)

From S2P Require Import Prelude.

(** ** Rounding *)

Definition GRID : Z := 2 ^ 128.

(** [n / d] to the nearest integer, ties to even. *)
Definition round_half_even (n d : Z) : Z :=
  let q := n / d in
  let r := n mod d in
  if 2 * r <? d then q
  else if d <? 2 * r then q + 1
  else if Z.even q then q else q + 1.

(** The unit in the last place of [x] at [p] significant bits. *)
Definition ulp (p x : Z) : Z := 2 ^ Z.max 0 (Z.log2 x - p + 1).

(** [num / den] rounded to [p] significant bits, on the grid. *)
Definition rnd (p num den : Z) : Z :=
  let u := ulp p (num * GRID / den) in
  round_half_even (num * GRID) (den * u) * u.

(** Conversion of an integer, quotient, product and difference. *)
Definition fl_of (p n : Z) : Z := rnd p n 1.
Definition fl_div (p a b : Z) : Z := rnd p a b.
Definition fl_mul (p a b : Z) : Z := rnd p (a * b) (GRID * GRID).
Definition fl_sub (p a b : Z) : Z := rnd p (a - b) GRID.
Definition fl_floor (a : Z) : Z := a / GRID.
Definition fl_ceil (a : Z) : Z := (a + GRID - 1) / GRID.

Notation DOUBLE := 53.
Notation FLOAT := 24.

(** ** Lemmas: rounding *)

Lemma GRID_pos : 0 < GRID.
Proof. reflexivity. Qed.

Lemma ulp_pos p x : 0 < ulp p x.
Proof. unfold ulp. apply Z.pow_pos_nonneg; lia. Qed.

Lemma ulp_mono p x y : 0 < x <= y -> ulp p x <= ulp p y.
Proof.
  intros H. unfold ulp. apply Z.pow_le_mono_r; [lia|].
  pose proof (Z.log2_le_mono x y). lia.
Qed.

Lemma round_half_even_bound n d :
  0 < d -> 2 * n - d <= 2 * (d * round_half_even n d) <= 2 * n + d.
Proof.
  intros Hd. unfold round_half_even.
  pose proof (Z.div_mod n d). pose proof (Z.mod_pos_bound n d).
  destruct (Z.ltb_spec (2 * (n mod d)) d); [lia|].
  destruct (Z.ltb_spec d (2 * (n mod d))); [lia|].
  destruct (Z.even (n / d)); lia.
Qed.

Lemma round_half_even_exact k d : 0 < d -> round_half_even (k * d) d = k.
Proof.
  intros Hd. unfold round_half_even. rewrite Z.div_mul, Z.mod_mul by lia.
  destruct (Z.ltb_spec (2 * 0) d); [done|lia].
Qed.

Lemma round_half_even_mono n1 n2 d :
  0 < d -> n1 <= n2 -> round_half_even n1 d <= round_half_even n2 d.
Proof.
  intros Hd Hn. unfold round_half_even.
  pose proof (Z.div_mod n1 d). pose proof (Z.mod_pos_bound n1 d).
  pose proof (Z.div_mod n2 d). pose proof (Z.mod_pos_bound n2 d).
  pose proof (Z.div_le_mono n1 n2 d Hd Hn).
  assert (n1 / d = n2 / d \/ n1 / d + 1 <= n2 / d) as [E|E] by lia.
  - rewrite <- E in *. assert (n1 mod d <= n2 mod d) by lia.
    destruct (Z.ltb_spec (2 * (n1 mod d)) d), (Z.ltb_spec (2 * (n2 mod d)) d); try lia;
    destruct (Z.ltb_spec d (2 * (n1 mod d))), (Z.ltb_spec d (2 * (n2 mod d))); try lia;
    destruct (Z.even (n1 / d)); lia.
  - destruct (Z.ltb_spec (2 * (n1 mod d)) d), (Z.ltb_spec (2 * (n2 mod d)) d),
      (Z.ltb_spec d (2 * (n1 mod d))), (Z.ltb_spec d (2 * (n2 mod d))),
      (Z.even (n1 / d)), (Z.even (n2 / d)); lia.
Qed.

Lemma round_half_even_nonneg n d : 0 < d -> 0 <= n -> 0 <= round_half_even n d.
Proof.
  intros Hd Hn. pose proof (round_half_even_mono 0 n d Hd Hn) as H.
  by rewrite (round_half_even_exact 0 d Hd : round_half_even 0 d = 0) in H.
Qed.

Section Rounding.
Context (p : Z) (Hp : 0 < p).

Lemma rnd_nonneg num den : 0 < den -> 0 <= num -> 0 <= rnd p num den.
Proof using Hp.
  intros Hd Hn. unfold rnd. pose proof GRID_pos. pose proof (ulp_pos p (num * GRID / den)).
  apply Z.mul_nonneg_nonneg; [apply round_half_even_nonneg; nia|lia].
Qed.

(** A value that has at most [p] significant bits is not changed. *)
Lemma rnd_exact num den v :
  0 < den -> num * GRID = v * den -> (ulp p v | v) -> rnd p num den = v.
Proof using Hp.
  intros Hd Hv [k Hk]. unfold rnd. rewrite Hv, Z.div_mul by lia.
  pose proof (ulp_pos p v) as Hu.
  replace (v * den) with (k * (den * ulp p v)) by (rewrite Hk at 2; ring).
  by rewrite round_half_even_exact by nia.
Qed.

(** Rounding is off by at most [2^-p] of the value. *)
Lemma rnd_error num den :
  0 < den -> 2 ^ (p - 1) <= num * GRID / den ->
  2 ^ p * Z.abs (den * rnd p num den - num * GRID) <= num * GRID.
Proof using Hp.
  intros Hd Hbig. unfold rnd. set (X := num * GRID / den) in *.
  set (u := ulp p X). pose proof (ulp_pos p X : 0 < u) as Hu.
  pose proof (round_half_even_bound (num * GRID) (den * u)) as Hr.
  assert (0 < 2 ^ (p - 1)) by (apply Z.pow_pos_nonneg; lia).
  assert (Hx : u * 2 ^ (p - 1) <= X).
  { unfold u, ulp. rewrite <- Z.pow_add_r by lia.
    assert (p - 1 <= Z.log2 X) by (apply Z.log2_le_pow2; lia).
    rewrite Z.max_r by lia. replace (Z.log2 X - p + 1 + (p - 1)) with (Z.log2 X) by lia.
    apply Z.log2_spec. lia. }
  assert (Hn : den * X <= num * GRID) by (apply Z.mul_div_le; lia).
  assert (H2 : 2 ^ p = 2 * 2 ^ (p - 1)).
  { rewrite <- Z.pow_succ_r by lia. f_equal. lia. }
  set (R := round_half_even (num * GRID) (den * u)) in *.
  specialize (Hr ltac:(nia)).
  assert (2 * Z.abs (den * (R * u) - num * GRID) <= den * u) by nia.
  rewrite H2. nia.
Qed.

Lemma round_le_pow N den L k :
  0 < den -> 0 <= k <= L -> N <= den * 2 ^ L ->
  round_half_even N (den * 2 ^ k) * 2 ^ k <= 2 ^ L.
Proof using Hp.
  intros Hd Hk HN. assert (0 < 2 ^ k) by (apply Z.pow_pos_nonneg; lia).
  replace (2 ^ L) with (2 ^ (L - k) * 2 ^ k) in * by (rewrite <- Z.pow_add_r by lia; f_equal; lia).
  apply Z.mul_le_mono_nonneg_r; [lia|].
  rewrite <- (round_half_even_exact (2 ^ (L - k)) (den * 2 ^ k)) by nia.
  apply round_half_even_mono; nia.
Qed.

Lemma round_ge_pow N den L k :
  0 < den -> 0 <= k <= L -> den * 2 ^ L <= N ->
  2 ^ L <= round_half_even N (den * 2 ^ k) * 2 ^ k.
Proof using Hp.
  intros Hd Hk HN. assert (0 < 2 ^ k) by (apply Z.pow_pos_nonneg; lia).
  replace (2 ^ L) with (2 ^ (L - k) * 2 ^ k) in * by (rewrite <- Z.pow_add_r by lia; f_equal; lia).
  apply Z.mul_le_mono_nonneg_r; [lia|].
  rewrite <- (round_half_even_exact (2 ^ (L - k)) (den * 2 ^ k)) by nia.
  apply round_half_even_mono; nia.
Qed.

(** Rounding is monotone. *)
Lemma rnd_mono num1 num2 den :
  0 < den -> 0 <= num1 <= num2 -> rnd p num1 den <= rnd p num2 den.
Proof using Hp.
  intros Hd Hn. pose proof GRID_pos. unfold rnd.
  set (N1 := num1 * GRID). set (N2 := num2 * GRID).
  assert (HN : 0 <= N1 <= N2) by (unfold N1, N2; nia).
  set (X1 := N1 / den). set (X2 := N2 / den).
  assert (HX : X1 <= X2) by (apply Z.div_le_mono; lia).
  assert (0 <= X1) by (apply Z.div_pos; lia).
  set (k1 := Z.max 0 (Z.log2 X1 - p + 1)). set (k2 := Z.max 0 (Z.log2 X2 - p + 1)).
  assert (Hlog : Z.log2 X1 <= Z.log2 X2) by by apply Z.log2_le_mono.
  change (ulp p X1) with (2 ^ k1). change (ulp p X2) with (2 ^ k2).
  assert (Hk : k1 = k2 \/ k1 < k2) by lia. destruct Hk as [<-|Hk].
  - assert (0 < 2 ^ k1) by (apply Z.pow_pos_nonneg; lia).
    apply Z.mul_le_mono_nonneg_r; [lia|]. apply round_half_even_mono; nia.
  - assert (Z.log2 X1 + 1 <= Z.log2 X2) by lia.
    pose proof (Z.log2_nonneg X1).
    transitivity (2 ^ (Z.log2 X1 + 1)); [|transitivity (2 ^ Z.log2 X2)].
    + apply round_le_pow; [lia|lia|].
      assert (X1 < 2 ^ (Z.log2 X1 + 1)).
      { destruct (Z.eq_dec X1 0) as [->|]; [reflexivity|]. apply Z.log2_spec. lia. }
      pose proof (Z.mul_succ_div_gt N1 den Hd) as Hgt. fold X1 in Hgt. nia.
    + apply Z.pow_le_mono_r; lia.
    + apply round_ge_pow; [lia|lia|].
      assert (0 < X2).
      { destruct (Z.eq_dec X2 0) as [E|]; [|lia]. rewrite E in *. cbn in *. lia. }
      pose proof (proj1 (Z.log2_spec X2 ltac:(lia))).
      pose proof (Z.mul_div_le N2 den Hd) as Hle. fold X2 in Hle. nia.
Qed.

(** Integers below [2^p] are exact. *)
Lemma fl_of_exact n : p <= 129 -> 0 <= n < 2 ^ p -> fl_of p n = n * GRID.
Proof using Hp.
  intros Hp' Hn. unfold fl_of. apply rnd_exact; [lia|lia|].
  destruct (Z.eq_dec n 0) as [->|]; [apply Z.divide_0_r|].
  apply Z.divide_mul_r. unfold ulp, GRID.
  assert (Hl : Z.log2 (n * 2 ^ 128) = 128 + Z.log2 n).
  { rewrite <- Z.shiftl_mul_pow2 by lia. rewrite Z.log2_shiftl by lia. lia. }
  rewrite Hl. assert (Z.log2 n < p) by (apply Z.log2_lt_pow2; lia).
  exists (2 ^ (128 - Z.max 0 (128 + Z.log2 n - p + 1))). rewrite <- Z.pow_add_r by lia.
  f_equal. lia.
Qed.
End Rounding.
