(* ===== verification/Fees.v ===== *)
(** * Network fees

    [src/src/common/network_fees.cpp].  The code computes with [double] and
    [float], whose roundings are those of [Float.v].  [None] is the
    [std::range_error] the code throws. *)

From S2P Require Import Prelude Errors Config Float.
Import Configuration.Transaction.

(** ** The fee functions *)

Definition calculate_base_transaction_fee (transaction_size : Z) : Z :=
  if transaction_size <=? Fees.BASE_CHUNK_SIZE then Fees.MINIMUM_FEE
  else
    let transaction_size := transaction_size - Fees.BASE_CHUNK_SIZE in
    let chunks :=
      fl_ceil (fl_div DOUBLE (fl_of DOUBLE transaction_size) (fl_of DOUBLE Fees.CHUNK_SIZE)) in
    let chunk_cost := wrap64 (chunks * Fees.CHUNK_FEE) in
    wrap64 (chunk_cost + Fees.MINIMUM_FEE).

Definition POW_ZERO_DISCOUNT_MULTIPLIER_F : Z := fl_of FLOAT Fees.POW_ZERO_DISCOUNT_MULTIPLIER.

Definition calculate_transaction_discount (leading_zeros : Z) : option Z :=
  if (256 <? leading_zeros) || (leading_zeros <? 0) then None
  else if leading_zeros <=? Fees.MINIMUM_POW_ZEROS then Some 0
  else if Fees.MAXIMUM_POW_ZEROS <=? leading_zeros then
    Some (fl_div FLOAT
            (fl_mul FLOAT (fl_of FLOAT (Fees.MAXIMUM_POW_ZEROS - Fees.MINIMUM_POW_ZEROS))
               POW_ZERO_DISCOUNT_MULTIPLIER_F)
            (fl_of FLOAT 100))
  else
    Some (fl_div FLOAT
            (fl_mul FLOAT
               (fl_sub FLOAT (fl_of FLOAT leading_zeros) (fl_of FLOAT Fees.MINIMUM_POW_ZEROS))
               POW_ZERO_DISCOUNT_MULTIPLIER_F)
            (fl_of FLOAT 100)).

Definition calculate_transaction_fee (transaction_size leading_zeros : Z) : option Z :=
  if (256 <? leading_zeros) || (leading_zeros <? 0) then None
  else
    let base_transaction_fee := calculate_base_transaction_fee transaction_size in
    discount_percentage ← calculate_transaction_discount leading_zeros;
    let fee_discount :=
      fl_floor (fl_mul FLOAT (fl_of FLOAT base_transaction_fee) discount_percentage) in
    let discounted_fee := wrap64 (base_transaction_fee - fee_discount) in
    Some (Z.max discounted_fee Fees.MINIMUM_FEE).

(** ** Lemmas: fees *)

(** The chunk count before [ceil]. *)
Definition chunk_quotient (n : Z) : Z := fl_div DOUBLE (fl_of DOUBLE n) (fl_of DOUBLE Fees.CHUNK_SIZE).

Lemma chunk_size_exact : fl_of DOUBLE Fees.CHUNK_SIZE = 32 * GRID.
Proof. apply fl_of_exact; cbn; lia. Qed.

Lemma chunk_quotient_mono n1 n2 : 0 <= n1 <= n2 -> chunk_quotient n1 <= chunk_quotient n2.
Proof.
  intros Hn. unfold chunk_quotient, fl_div. rewrite chunk_size_exact.
  apply rnd_mono; [lia|reflexivity|]. split; [apply rnd_nonneg; lia|].
  apply rnd_mono; lia.
Qed.

Lemma chunk_quotient_exact n : 0 <= n < 2 ^ 53 -> chunk_quotient n = n * 2 ^ 123.
Proof.
  intros Hn. unfold chunk_quotient. rewrite chunk_size_exact, (fl_of_exact 53) by lia.
  unfold fl_div. apply rnd_exact; [lia|reflexivity|unfold GRID; lia|].
  destruct (Z.eq_dec n 0) as [->|]; [apply Z.divide_0_r|].
  apply Z.divide_mul_r. unfold ulp.
  assert (Hl : Z.log2 (n * 2 ^ 123) = 123 + Z.log2 n).
  { rewrite <- Z.shiftl_mul_pow2 by lia. rewrite Z.log2_shiftl by lia. lia. }
  rewrite Hl. assert (Z.log2 n < 53) by (apply Z.log2_lt_pow2; lia).
  exists (2 ^ (123 - Z.max 0 (123 + Z.log2 n - 53 + 1))). rewrite <- Z.pow_add_r by lia.
  f_equal. lia.
Qed.

Lemma fl_ceil_mono a b : a <= b -> fl_ceil a <= fl_ceil b.
Proof. intros. unfold fl_ceil. apply Z.div_le_mono; [reflexivity|lia]. Qed.

Lemma chunks_range n : 0 <= n < 2 ^ 64 -> 0 <= fl_ceil (chunk_quotient n) <= 2 ^ 59.
Proof.
  intros Hn. split.
  - change 0 with (fl_ceil (chunk_quotient 0)). apply fl_ceil_mono, chunk_quotient_mono. lia.
  - change (2 ^ 59) with (fl_ceil (chunk_quotient (2 ^ 64))).
    apply fl_ceil_mono, chunk_quotient_mono. lia.
Qed.

(** No step of the base fee overflows. *)
Lemma base_fee_eq size :
  u64 size -> Fees.BASE_CHUNK_SIZE < size ->
  calculate_base_transaction_fee size = fl_ceil (chunk_quotient (size - Fees.BASE_CHUNK_SIZE)) + 1.
Proof.
  intros Hs Hb. unfold calculate_base_transaction_fee. fold (chunk_quotient (size - Fees.BASE_CHUNK_SIZE)).
  destruct (Z.leb_spec size Fees.BASE_CHUNK_SIZE); [lia|].
  unfold uintw, Fees.BASE_CHUNK_SIZE, Fees.CHUNK_SIZE in *.
  pose proof (chunks_range (size - 32 * 10) ltac:(lia)) as Hc.
  unfold Fees.CHUNK_FEE, Fees.MINIMUM_FEE. rewrite Z.mul_1_r, !wrap64_id; unfold uintw;
    rewrite ?wrap64_id by (unfold uintw; lia); lia.
Qed.

Lemma base_fee_range size :
  u64 size -> 1 <= calculate_base_transaction_fee size <= 2 ^ 59 + 1.
Proof.
  intros Hs. destruct (Z.le_gt_cases size Fees.BASE_CHUNK_SIZE) as [H|H].
  - unfold calculate_base_transaction_fee. by rewrite (proj2 (Z.leb_le _ _) H).
  - rewrite base_fee_eq by done. unfold uintw, Fees.BASE_CHUNK_SIZE, Fees.CHUNK_SIZE in *.
    pose proof (chunks_range (size - 32 * 10) ltac:(lia)). lia.
Qed.

Lemma base_fee_mono size size' :
  u64 size -> u64 size' -> size <= size' ->
  calculate_base_transaction_fee size <= calculate_base_transaction_fee size'.
Proof.
  intros Hs Hs' Hle. pose proof (base_fee_range size' Hs'). unfold uintw in *.
  destruct (Z.le_gt_cases size 320) as [Hc|Hc].
  - unfold calculate_base_transaction_fee at 1.
    rewrite (proj2 (Z.leb_le size Fees.BASE_CHUNK_SIZE)) by done. unfold Fees.MINIMUM_FEE. lia.
  - rewrite !base_fee_eq by (unfold uintw, Fees.BASE_CHUNK_SIZE, Fees.CHUNK_SIZE in *; lia).
    apply Z.add_le_mono_r, fl_ceil_mono, chunk_quotient_mono.
    change Fees.BASE_CHUNK_SIZE with 320. lia.
Qed.

(** The discount of each count of zeros from 1 to 16; every other count has
    the discount of the nearest of them. *)
Definition discount_of (zeros : Z) : Z := default 0 (calculate_transaction_discount zeros).

Definition clamp_zeros (zeros : Z) : Z := Z.max 1 (Z.min 16 zeros).

(** Which branch of the calculation is taken. *)
Lemma discount_low zeros :
  0 <= zeros <= 1 -> calculate_transaction_discount zeros = Some 0.
Proof.
  intros Hz. unfold calculate_transaction_discount, Fees.MINIMUM_POW_ZEROS.
  rewrite (proj2 (Z.ltb_ge 256 zeros)), (proj2 (Z.ltb_ge zeros 0)),
    (proj2 (Z.leb_le zeros 1)) by lia. done.
Qed.

Lemma discount_high zeros :
  16 <= zeros <= 256 -> calculate_transaction_discount zeros = calculate_transaction_discount 16.
Proof.
  intros Hz. unfold calculate_transaction_discount, Fees.MINIMUM_POW_ZEROS, Fees.MAXIMUM_POW_ZEROS.
  rewrite (proj2 (Z.ltb_ge 256 zeros)), (proj2 (Z.ltb_ge zeros 0)),
    (proj2 (Z.leb_gt zeros 1)), (proj2 (Z.leb_le 16 zeros)) by lia.
  rewrite (proj2 (Z.ltb_ge 256 16)), (proj2 (Z.ltb_ge 16 0)),
    (proj2 (Z.leb_gt 16 1)), (proj2 (Z.leb_le 16 16)) by lia. exact eq_refl.
Qed.

Lemma discount_of_Some zeros :
  is_Some (calculate_transaction_discount zeros) ->
  calculate_transaction_discount zeros = Some (discount_of zeros).
Proof. unfold discount_of. by intros [d ->]. Qed.

Lemma discount_defined zeros :
  1 <= zeros <= 16 -> is_Some (calculate_transaction_discount zeros).
Proof.
  intros Hz. unfold calculate_transaction_discount.
  rewrite (proj2 (Z.ltb_ge 256 zeros)), (proj2 (Z.ltb_ge zeros 0)) by lia. cbn [orb].
  destruct (zeros <=? _); [eexists; exact eq_refl|].
  destruct (_ <=? zeros); eexists; exact eq_refl.
Qed.

Lemma discount_clamp zeros :
  0 <= zeros <= 256 ->
  calculate_transaction_discount zeros = Some (discount_of (clamp_zeros zeros)).
Proof.
  intros Hz. unfold clamp_zeros.
  assert (zeros <= 1 \/ 1 < zeros < 16 \/ 16 <= zeros) as [H|[H|H]] by lia.
  - replace (Z.max 1 (Z.min 16 zeros)) with 1 by lia. rewrite discount_low by lia.
    unfold discount_of. by rewrite (discount_low 1) by lia.
  - replace (Z.max 1 (Z.min 16 zeros)) with zeros by lia.
    apply discount_of_Some, discount_defined. lia.
  - replace (Z.max 1 (Z.min 16 zeros)) with 16 by lia. rewrite discount_high by lia.
    apply discount_of_Some, discount_defined. lia.
Qed.

Lemma discounts_sorted :
  forallb (fun n => discount_of (Z.of_nat n) <=? discount_of (Z.of_nat n + 1)) (seq 1 15) = true.
Proof. vm_compute. exact eq_refl. Qed.

Lemma discount_step z : 1 <= z < 16 -> discount_of z <= discount_of (z + 1).
Proof.
  intros Hz. pose proof discounts_sorted as Hs.
  rewrite forallb_forall in Hs.
  specialize (Hs (Z.to_nat z)). rewrite Z2Nat.id in Hs by lia.
  rewrite Z.leb_le in Hs. apply Hs. rewrite in_seq. lia.
Qed.

Lemma discount_mono z1 z2 : 1 <= z1 <= z2 -> z2 <= 16 -> discount_of z1 <= discount_of z2.
Proof.
  intros [H1 H12]. revert z2 H12. apply (Zlt_lower_bound_ind (fun z2 => z2 <= 16 -> _ <= discount_of z2)).
  intros z2 IH Hle Hz2. destruct (Z.eq_dec z1 z2) as [->|]; [lia|].
  transitivity (discount_of (z2 - 1)); [apply IH; lia|].
  pose proof (discount_step (z2 - 1)) as Hs. replace (z2 - 1 + 1) with z2 in Hs by lia. apply Hs. lia.
Qed.

Lemma clamp_range z : 1 <= clamp_zeros z <= 16.
Proof. unfold clamp_zeros. lia. Qed.

Lemma discount_nonneg z : 0 <= discount_of (clamp_zeros z).
Proof.
  pose proof (clamp_range z). change 0 with (discount_of 1). apply discount_mono; lia.
Qed.

(** The discounted part of a base fee. *)
Definition fee_discount (base discount : Z) : Z := fl_floor (fl_mul FLOAT (fl_of FLOAT base) discount).

Lemma fee_discount_mono base d1 d2 :
  0 <= base -> 0 <= d1 <= d2 -> fee_discount base d1 <= fee_discount base d2.
Proof.
  intros Hb Hd. unfold fee_discount, fl_floor, fl_mul. apply Z.div_le_mono; [reflexivity|].
  pose proof (rnd_nonneg FLOAT ltac:(lia) base 1 ltac:(lia) Hb) as HF.
  change (rnd 24 base 1) with (fl_of 24 base) in HF.
  apply rnd_mono; [lia|reflexivity|nia].
Qed.

Lemma fee_discount_nonneg base d : 0 <= base -> 0 <= d -> 0 <= fee_discount base d.
Proof.
  intros Hb Hd. unfold fee_discount, fl_floor, fl_mul. apply Z.div_pos; [|reflexivity].
  apply rnd_nonneg; [lia|reflexivity|].
  apply Z.mul_nonneg_nonneg; [apply rnd_nonneg; lia|lia].
Qed.

(** Even at the maximum the discount is 30%, up to the rounding of [float]. *)
Lemma fee_discount_max base :
  1 <= base -> 10 * 2 ^ 20 * fee_discount base (discount_of 16) <= (3 * 2 ^ 20 + 1) * base.
Proof.
  intros Hb. unfold fee_discount, fl_floor, fl_mul. pose proof GRID_pos as HG.
  set (d := discount_of 16).
  assert (Hd : 10 * d * 2 ^ 24 <= 3 * (2 ^ 24 + 1) * GRID) by (vm_compute; done).
  assert (Hd0 : 2 ^ 120 <= d) by (vm_compute; done).
  pose proof (rnd_error FLOAT ltac:(lia) base 1 ltac:(lia)) as HF.
  rewrite Z.div_1_r, Z.mul_1_l in HF. specialize (HF ltac:(unfold GRID; lia)).
  change (rnd 24 base 1) with (fl_of 24 base) in HF. set (F := fl_of 24 base) in *.
  assert (HF0 : GRID <= F).
  { change GRID with (fl_of 24 1) at 1. apply rnd_mono; lia. }
  pose proof (rnd_error FLOAT ltac:(lia) (F * d) (GRID * GRID) ltac:(nia)) as HV.
  set (V := rnd 24 (F * d) (GRID * GRID)) in *.
  specialize (HV ltac:(apply Z.div_le_lower_bound; unfold GRID in *; nia)).
  assert (HV' : 2 ^ 24 * (GRID * V) <= (2 ^ 24 + 1) * (F * d)).
  { assert (2 ^ 24 * (GRID * GRID * V - F * d * GRID) <= F * d * GRID) by lia. nia. }
  assert (HF' : 2 ^ 24 * F <= (2 ^ 24 + 1) * (base * GRID)) by lia.
  assert (Hq : GRID * (V / GRID) <= V) by (by apply Z.mul_div_le).
  set (q := V / GRID) in *. clearbody V q F d. clear HF HV.
  assert (2 ^ 48 * V <= (2 ^ 24 + 1) ^ 2 * (base * d)) by nia.
  assert (10 * 2 ^ 72 * V <= 3 * (2 ^ 24 + 1) ^ 3 * (base * GRID)) by nia.
  assert (10 * 2 ^ 72 * q <= 3 * (2 ^ 24 + 1) ^ 3 * base) by nia. lia.
Qed.

(** Up to [2^24] units, which [float] holds exactly, a unit more of the base fee
    is at most a unit more of discount. *)
Lemma fee_discount_step base d :
  1 <= base < 2 ^ 24 -> d = 0 \/ 2 ^ 23 <= d -> d <= discount_of 16 ->
  fee_discount (base + 1) d <= fee_discount base d + 1.
Proof.
  intros Hb Hd Hmax. pose proof GRID_pos as HG. unfold fee_discount, fl_floor, fl_mul.
  assert (Hd16 : 10 * discount_of 16 * 2 ^ 24 <= 3 * (2 ^ 24 + 1) * GRID) by (vm_compute; done).
  assert (HF : fl_of FLOAT base = base * GRID) by (apply (fl_of_exact 24); lia).
  assert (HF' : 2 ^ 24 * Z.abs (fl_of FLOAT (base + 1) - (base + 1) * GRID) <= 0).
  { destruct (Z.eq_dec base (2 ^ 24 - 1)) as [->|].
    - by vm_compute.
    - rewrite (fl_of_exact 24) by lia. lia. }
  assert (fl_of FLOAT (base + 1) = (base + 1) * GRID) as -> by lia. rewrite HF.
  destruct Hd as [->|Hd]; [by rewrite !Z.mul_0_r|].
  assert (Herr : forall b, 1 <= b -> 2 ^ 24 * Z.abs (rnd 24 (b * GRID * d) (GRID * GRID) - b * d) <= b * d).
  { intros b Hb1. pose proof (rnd_error FLOAT ltac:(lia) (b * GRID * d) (GRID * GRID) ltac:(nia)) as He.
    replace (b * GRID * d * GRID) with (b * d * (GRID * GRID)) in He by ring.
    rewrite Z.div_mul in He by nia. specialize (He ltac:(nia)).
    set (V := rnd 24 (b * GRID * d) (GRID * GRID)) in *.
    replace (GRID * GRID * V - b * d * (GRID * GRID)) with ((GRID * GRID) * (V - b * d)) in He by ring.
    rewrite Z.abs_mul, (Z.abs_eq (GRID * GRID)) in He by nia. nia. }
  pose proof (Herr base ltac:(lia)) as H1. pose proof (Herr (base + 1) ltac:(lia)) as H2.
  set (V1 := rnd 24 (base * GRID * d) (GRID * GRID)) in *.
  set (V2 := rnd 24 ((base + 1) * GRID * d) (GRID * GRID)) in *.
  assert (V2 <= V1 + 1 * GRID) as HV.
  { assert (base * d <= (2 ^ 24 - 1) * d) by (apply Z.mul_le_mono_nonneg_r; lia). lia. }
  rewrite <- Z.div_add by lia. by apply Z.div_le_mono.
Qed.

Lemma fee_discount_steps base base' d :
  1 <= base <= base' -> base' <= 2 ^ 24 -> d = 0 \/ 2 ^ 23 <= d -> d <= discount_of 16 ->
  base - fee_discount base d <= base' - fee_discount base' d.
Proof.
  intros [Hb Hle] Hm Hd Hmax. revert base' Hle Hm.
  apply (Zlt_lower_bound_ind (fun b => b <= 2 ^ 24 -> base - _ <= b - fee_discount b d)).
  intros b IH Hle Hm. destruct (Z.eq_dec base b) as [->|]; [lia|].
  pose proof (IH (b - 1) ltac:(lia) ltac:(lia)) as Hprev.
  pose proof (fee_discount_step (b - 1) d ltac:(lia) Hd Hmax) as Hs.
  replace (b - 1 + 1) with b in Hs by lia. lia.
Qed.

Lemma discount_zero_or_normal z : 1 <= z <= 16 -> discount_of z = 0 \/ 2 ^ 23 <= discount_of z.
Proof.
  intros Hz. destruct (Z.eq_dec z 1) as [->|]; [by left|]. right.
  transitivity (discount_of 2); [by vm_compute|]. apply discount_mono; lia.
Qed.

(** The fee as a function of the base fee and the clamped zeros. *)
Lemma fee_eq size zeros :
  u64 size -> 0 <= zeros <= 256 ->
  exists q, q = fee_discount (calculate_base_transaction_fee size) (discount_of (clamp_zeros zeros)) /\
    0 <= q /\ 10 * 2 ^ 20 * q <= (3 * 2 ^ 20 + 1) * calculate_base_transaction_fee size /\
    calculate_transaction_fee size zeros =
      Some (Z.max (calculate_base_transaction_fee size - q) 1).
Proof.
  intros Hs Hz. pose proof (base_fee_range size Hs) as Hb.
  set (base := calculate_base_transaction_fee size) in *.
  exists (fee_discount base (discount_of (clamp_zeros zeros))). split; [done|].
  pose proof (discount_nonneg zeros) as Hd. pose proof (clamp_range zeros).
  pose proof (fee_discount_nonneg base _ ltac:(lia) Hd) as H0.
  pose proof (fee_discount_max base ltac:(lia)) as Hmax.
  pose proof (fee_discount_mono base (discount_of (clamp_zeros zeros)) (discount_of 16) ltac:(lia)
    ltac:(split; [done|apply discount_mono; lia])) as Hmono.
  set (q := fee_discount base (discount_of (clamp_zeros zeros))) in *. 
  split; [done|]. split; [lia|].
  unfold calculate_transaction_fee.
  assert ((256 <? zeros) = false) as -> by lia. assert ((zeros <? 0) = false) as -> by lia.
  cbn [orb]. rewrite discount_clamp by done. fold base. cbn [mbind option_bind].
  change (fl_floor (fl_mul FLOAT (fl_of FLOAT base) (discount_of (clamp_zeros zeros)))) with q.
  rewrite wrap64_id by (unfold uintw; lia). done.
Qed.

(** As long as the base fee is one that [float] holds exactly, which it is up
    to half a gigabyte, a larger transaction never costs less. *)
Lemma transaction_fee_grows size size' zeros fee fee' :
  u64 size -> u64 size' -> size <= size' -> 0 <= zeros ->
  calculate_base_transaction_fee size' <= 2 ^ 24 ->
  calculate_transaction_fee size zeros = Some fee ->
  calculate_transaction_fee size' zeros = Some fee' -> fee <= fee'.
Proof.
  intros Hs Hs' Hle Hz Hb E E'.
  assert (zeros <= 256) as Hz2.
  { apply Z.nlt_ge. intros Hc. unfold calculate_transaction_fee in E.
    by rewrite (proj2 (Z.ltb_lt 256 zeros)) in E by lia. }
  destruct (fee_eq size zeros Hs ltac:(lia)) as (q & -> & _ & _ & E1).
  destruct (fee_eq size' zeros Hs' ltac:(lia)) as (q' & -> & _ & _ & E2).
  rewrite E in E1. rewrite E' in E2. injection E1 as ->. injection E2 as ->.
  pose proof (base_fee_range size Hs). pose proof (base_fee_mono size size' Hs Hs' Hle) as Hmono.
  pose proof (clamp_range zeros) as Hc.
  pose proof (fee_discount_steps _ _ (discount_of (clamp_zeros zeros)) (conj (proj1 (base_fee_range size Hs)) Hmono) Hb
    (discount_zero_or_normal _ Hc) ltac:(apply discount_mono; lia)). lia.
Qed.

(** ** Properties *)

(** C17: For every size and every count of leading zeros up to 256 the fee is
    defined, lies between the minimum fee and the base fee, is the base fee
    when there is at most one zero, and is never more than 30% (and the
    rounding of [float]) below the base fee; above 256 zeros the calculation
    throws. *)
Theorem transaction_fee_bounds size zeros :
  u64 size -> 0 <= zeros ->
  match calculate_transaction_fee size zeros with
  | None => 256 < zeros
  | Some fee =>
      zeros <= 256 /\
      Fees.MINIMUM_FEE <= fee <= calculate_base_transaction_fee size /\
      (zeros <= 1 -> fee = calculate_base_transaction_fee size) /\
      (7 * 2 ^ 20 - 1) * calculate_base_transaction_fee size <= 10 * 2 ^ 20 * fee
  end.
Proof.
  intros Hs Hz. destruct (Z.le_gt_cases zeros 256) as [H|H].
  - destruct (fee_eq size zeros Hs ltac:(lia)) as (q & Hq & H0 & Hmax & ->).
    pose proof (base_fee_range size Hs). unfold Fees.MINIMUM_FEE.
    split; [done|]. split; [lia|]. split; [|lia].
    intros Hle. assert (q = 0); [|lia]. subst q.
    replace (clamp_zeros zeros) with 1 by (unfold clamp_zeros; lia).
    change (discount_of 1) with 0. unfold fee_discount, fl_mul. by rewrite Z.mul_0_r.
  - unfold calculate_transaction_fee. by rewrite (proj2 (Z.ltb_lt 256 zeros)) by lia.
Qed.

(** More proof of work never costs more: the fee does not increase with
    the count of leading zeros. *)
Theorem transaction_fee_decreases_with_work size z1 z2 fee1 fee2 :
  u64 size -> 0 <= z1 <= z2 ->
  calculate_transaction_fee size z1 = Some fee1 ->
  calculate_transaction_fee size z2 = Some fee2 ->
  fee2 <= fee1.
Proof.
  intros Hs Hz E1 E2.
  assert (z2 <= 256) as Hz2.
  { apply Z.nlt_ge. intros Hc. unfold calculate_transaction_fee in E2.
    by rewrite (proj2 (Z.ltb_lt 256 z2)) in E2 by lia. }
  destruct (fee_eq size z1 Hs ltac:(lia)) as (q1 & Hq1 & _ & _ & E1').
  destruct (fee_eq size z2 Hs ltac:(lia)) as (q2 & Hq2 & _ & _ & E2').
  rewrite E1 in E1'. rewrite E2 in E2'. injection E1' as ->. injection E2' as ->.
  pose proof (base_fee_range size Hs). pose proof (clamp_range z2).
  assert (q1 <= q2); [|lia]. subst. apply fee_discount_mono; [lia|].
  split; [apply discount_nonneg|apply discount_mono; [|lia]].
  unfold clamp_zeros in *. lia.
Qed.

(** Below [2^53] bytes the base fee is exactly the minimum fee plus one
    unit per started chunk of 32 bytes beyond the first 320, and over the whole
    range of [size_t] it grows with the size and stays below [2^60]. *)
Theorem base_fee_per_chunk size :
  u64 size ->
  (size < 2 ^ 53 ->
   calculate_base_transaction_fee size = 1 + (Z.max 0 (size - 320) + 31) / 32) /\
  (forall size', u64 size' -> size <= size' ->
   calculate_base_transaction_fee size <= calculate_base_transaction_fee size' < 2 ^ 60).
Proof.
  intros Hs. unfold uintw in Hs. split.
  - intros Hlt. destruct (Z.le_gt_cases size 320) as [H|H].
    + unfold calculate_base_transaction_fee. rewrite (proj2 (Z.leb_le size Fees.BASE_CHUNK_SIZE)) by done.
      by replace (Z.max 0 (size - 320)) with 0 by lia.
    + rewrite base_fee_eq by done. change Fees.BASE_CHUNK_SIZE with 320.
      rewrite chunk_quotient_exact by lia. unfold fl_ceil. rewrite Z.add_comm. f_equal.
      replace (Z.max 0 (size - 320)) with (size - 320) by lia.
      replace ((size - 320) * 2 ^ 123 + GRID - 1)
        with ((size - 320 + 31) * 2 ^ 123 + (2 ^ 123 - 1)) by (unfold GRID; lia).
      change GRID with (2 ^ 123 * 32). rewrite <- Z.div_div, Z.div_add_l by lia.
      by rewrite (Z.div_small (2 ^ 123 - 1)), Z.add_0_r by lia.
  - intros size' Hs' Hle. pose proof (base_fee_range size' Hs'). split; [by apply base_fee_mono|lia].
Qed.

(** ** Witnesses *)

Lemma transaction_fee_bounds_witness :
  calculate_transaction_fee 1000 9 = Some 20 /\
  match calculate_transaction_fee 1000 9 with
  | None => 256 < 9
  | Some fee =>
      9 <= 256 /\
      Fees.MINIMUM_FEE <= fee <= calculate_base_transaction_fee 1000 /\
      (9 <= 1 -> fee = calculate_base_transaction_fee 1000) /\
      (7 * 2 ^ 20 - 1) * calculate_base_transaction_fee 1000 <= 10 * 2 ^ 20 * fee
  end.
Proof.
  split; [vm_compute; reflexivity|]. apply transaction_fee_bounds; unfold uintw; lia.
Defined.

Lemma transaction_fee_decreases_with_work_witness : 17 <= 23.
Proof.
  apply (transaction_fee_decreases_with_work 1000 1 16); [unfold uintw; lia|lia| |];
    vm_compute; reflexivity.
Defined.

Lemma base_fee_per_chunk_witness : calculate_base_transaction_fee 1000 = 23.
Proof.
  etransitivity; [apply (proj1 (base_fee_per_chunk 1000 ltac:(unfold uintw; lia)) ltac:(lia))|].
  reflexivity.
Defined.
