(* ===== verification/Address.v ===== *)
(** * Public addresses

    [src/src/common/address.cpp]: an address is the Base58 form, with a
    checksum, of the network prefix followed by the public spend key and the
    public view key. *)

From S2P Require Import Prelude Errors Config CryptoLib Concrete Codec.
From Stdlib Require Import Strings.Byte.

Section Address.
Context {CL : CryptoLib}.

(** The error and the public spend and view keys; [{}] is a default key. *)
Definition decoded_address : Type := ErrorCode * crypto_public_key_t * crypto_public_key_t.

(** The [try] block; [None] is an exception, which the [catch] turns into
    [ADDRESS_DECODE]. *)
Definition decode_keys : reader decoded_address :=
  prefix ← get_varint 64;
  if negb (prefix =? Configuration.PUBLIC_ADDRESS_PREFIX) then
    mret (ADDRESS_PREFIX_MISMATCH, key_default, key_default)
  else
    public_spend ← get_key;
    public_view ← get_key;
    mret (SUCCESS, public_spend, public_view).

Definition decode (address : string) : decoded_address :=
  match base58_decode_check address with
  | None => (BASE58_DECODE, key_default, key_default)
  | Some decoded =>
      match decode_keys decoded with
      | Some (result, _) => result
      | None => (ADDRESS_DECODE, key_default, key_default)
      end
  end.

Definition encode (public_spend public_view : crypto_public_key_t) : string :=
  base58_encode_check
    (put_varint Configuration.PUBLIC_ADDRESS_PREFIX ++ put_key public_spend ++ put_key public_view).

(** A decoding that is no error is [SUCCESS]. *)
Lemma decode_no_error address e s v :
  decode address = (e, s, v) -> is_error e = false -> e = SUCCESS.
Proof.
  unfold decode. destruct (base58_decode_check address) as [bs|]; [|by intros [= <- <- <-]].
  destruct (decode_keys bs) as [[res ?]|] eqn:E; [|by intros [= <- <- <-]].
  intros ->. revert E. unfold decode_keys, mbind, reader_bind, mret, reader_ret.
  destruct (get_varint 64 bs) as [[p r1]|]; [|done].
  destruct (negb (p =? _)); [by intros [= <- <- <- _]|].
  destruct (get_key r1) as [[k1 r2]|]; [|done].
  destruct (get_key r2) as [[k2 r3]|]; [|done]. by intros [= <- _ _ _].
Qed.

Lemma address_decoded `{!CodecLaws CL} `{!Base58Laws CL} s v : decode (encode s v) = (SUCCESS, s, v).
Proof.
  unfold decode, encode. rewrite base58_decode_encode.
  assert (u64 Configuration.PUBLIC_ADDRESS_PREFIX) by (split; done).
  unfold decode_keys. codec_step. rewrite Z.eqb_refl. cbn [negb]. codec_step.
  rewrite <- (app_nil_r (put_key v)). codec_step. done.
Qed.

(** ** Properties *)

(** C36: Decoding an encoded address succeeds and gives back the two keys, so
    different key pairs have different addresses; and a failed decoding hands
    out default keys only, with one of the three documented errors. *)
Theorem address_roundtrip `{!CodecLaws CL} `{!Base58Laws CL} :
  (forall public_spend public_view,
     decode (encode public_spend public_view) = (SUCCESS, public_spend, public_view)) /\
  (forall s1 v1 s2 v2, encode s1 v1 = encode s2 v2 -> s1 = s2 /\ v1 = v2) /\
  (forall address e s v, decode address = (e, s, v) -> e <> SUCCESS ->
     s = key_default /\ v = key_default /\
     (e = BASE58_DECODE \/ e = ADDRESS_PREFIX_MISMATCH \/ e = ADDRESS_DECODE)).
Proof.
  pose proof address_decoded as Hrt. split; [done|]. split.
  - intros s1 v1 s2 v2 He. pose proof (Hrt s1 v1) as H1. rewrite He, Hrt in H1. by injection H1.
  - intros address e s v. unfold decode.
    destruct (base58_decode_check address) as [bs|]; [|intros [= <- <- <-] _; auto].
    destruct (decode_keys bs) as [[res ?]|] eqn:E; [|intros [= <- <- <-] _; auto].
    intros -> Hne. revert E. unfold decode_keys, mbind, reader_bind, mret, reader_ret.
    destruct (get_varint 64 bs) as [[p r1]|]; [|done].
    destruct (negb (p =? _)); [intros [= <- <- <- _]; auto|].
    destruct (get_key r1) as [[k1 r2]|]; [|done].
    destruct (get_key r2) as [[k2 r3]|]; [|done]. intros [= <- _ _ _]. done.
Qed.
End Address.

(** ** Witnesses *)

Module AddressSamples.
#[local] Existing Instance toy_crypto.
Definition spend : crypto_public_key_t (CryptoLib := toy_crypto) := x05.
Definition view : crypto_public_key_t (CryptoLib := toy_crypto) := x07.
End AddressSamples.

Lemma address_roundtrip_witness :
  decode (encode AddressSamples.spend AddressSamples.view) =
    (SUCCESS, AddressSamples.spend, AddressSamples.view).
Proof. apply (proj1 (address_roundtrip (CL := toy_crypto))). Defined.
