(* ===== verification/Program.v ===== *)
(** * Stateful programs

    The database code changes objects, throws C++ exceptions, jumps back to a
    label, and could dereference a null pointer.  [prog S A] is a program on the
    state [S]; its outcome is a value with the new state, an exception with the
    state the unwinding leaves, undefined behaviour, or a loop that was cut off
    because its fuel ran out.  [runs] is the assertion about a program that the
    proofs compose: it excludes undefined behaviour and a lack of fuel. *)

From S2P Require Import Prelude Errors.

Inductive outcome (S A : Type) : Type :=
  | Returned (a : A) (s : S)
  | Thrown (s : S)
  | Undefined
  | OutOfFuel.
Arguments Returned {S A} a s.
Arguments Thrown {S A} s.
Arguments Undefined {S A}.
Arguments OutOfFuel {S A}.

Definition prog (S A : Type) : Type := S -> outcome S A.

#[global] Instance prog_ret {S} : MRet (prog S) := fun A a s => Returned a s.

#[global] Instance prog_bind {S} : MBind (prog S) := fun A B f m s =>
  match m s with
  | Returned a s' => f a s'
  | Thrown s' => Thrown s'
  | Undefined => Undefined
  | OutOfFuel => OutOfFuel
  end.

Definition get_state {S} : prog S S := fun s => Returned s s.
Definition put_state {S} (s : S) : prog S () := fun _ => Returned () s.
Definition throw {S A} : prog S A := fun s => Thrown s.
Definition undefined {S A} : prog S A := fun _ => Undefined.

(** A value that an exception is thrown for when it is absent. *)
Definition or_throw {S A} (o : option A) : prog S A :=
  match o with Some a => mret a | None => throw end.

(** A pointer that is dereferenced. *)
Definition deref {S A} (o : option A) : prog S A :=
  match o with Some a => mret a | None => undefined end.

(** A loop over a vector that stops at the first error. *)
Fixpoint for_each {S A} (f : A -> prog S ErrorCode) (l : list A) : prog S ErrorCode :=
  match l with
  | [] => mret SUCCESS
  | x :: l' => error ← f x; if is_error error then mret error else for_each f l'
  end.

(** [if (error) return error;] before the rest of a function. *)
Definition or_else {S} (m : prog S ErrorCode) (k : prog S ErrorCode) : prog S ErrorCode :=
  error ← m; if is_error error then mret error else k.

(** A program on one member of the state. *)
Definition zoom {S T A} (get : S -> T) (set : T -> S -> S) (m : prog T A) : prog S A := fun s =>
  match m (get s) with
  | Returned a t => Returned a (set t s)
  | Thrown t => Thrown (set t s)
  | Undefined => Undefined
  | OutOfFuel => OutOfFuel
  end.

(** [while (condition) body]. *)
Fixpoint while_loop {S} (fuel : nat) (condition : prog S bool) (body : prog S ()) : prog S () :=
  match fuel with
  | O => fun _ => OutOfFuel
  | Datatypes.S fuel' =>
      go_on ← condition;
      if go_on : bool then body;; while_loop fuel' condition body else mret ()
  end.

(** [catch (const std::exception &e)] around a body without a value. *)
Definition try_catch {S} (m : prog S ()) : prog S () := fun s =>
  match m s with Thrown s' => Returned () s' | r => r end.

(** What is observed of a program's value. *)
Definition observe {S A B} (f : A -> B) (o : outcome S A) : option B :=
  match o with Returned a _ => Some (f a) | _ => None end.

Lemma observe_Some {S A B} (f : A -> B) (o : outcome S A) b :
  observe f o = Some b -> exists a s, o = Returned a s /\ f a = b.
Proof. destruct o as [a s| | |]; cbn; intros [=]. by exists a, s. Qed.

(** ** Assertions *)

Section Runs.
Context {S : Type}.

Definition runs {A} (m : prog S A) (s : S) (Q : A -> S -> Prop) (X : S -> Prop) : Prop :=
  match m s with
  | Returned a s' => Q a s'
  | Thrown s' => X s'
  | Undefined | OutOfFuel => False
  end.

Context {A B : Type}.
Implicit Types (Q : A -> S -> Prop) (X : S -> Prop).

Lemma runs_bind (m : prog S B) (f : B -> prog S A) s Q X :
  runs m s (fun b s' => runs (f b) s' Q X) X -> runs (m ≫= f) s Q X.
Proof. unfold runs, mbind, prog_bind. by destruct (m s). Qed.

Lemma runs_ret a s Q X : Q a s -> runs (mret a) s Q X.
Proof. done. Qed.

Lemma runs_throw s Q X : X s -> runs throw s Q X.
Proof. done. Qed.

Lemma runs_weaken (m : prog S A) s Q Q' X X' :
  runs m s Q X -> (forall a s', Q a s' -> Q' a s') -> (forall s', X s' -> X' s') ->
  runs m s Q' X'.
Proof. unfold runs. destruct (m s); auto. Qed.

(** What is known of an outcome, with the run it comes from. *)
Lemma runs_recorded (m : prog S A) s Q X :
  runs m s Q X ->
  runs m s (fun a s' => m s = Returned a s' /\ Q a s') (fun s' => m s = Thrown s' /\ X s').
Proof. unfold runs. destruct (m s); auto. Qed.

Lemma runs_conseq (m : prog S A) s Q Q' X :
  runs m s Q X -> (forall a s', Q a s' -> Q' a s') -> runs m s Q' X.
Proof. intros H HQ. eapply runs_weaken; eauto. Qed.

Lemma runs_put s s' (Q : () -> S -> Prop) X : Q () s' -> runs (put_state s') s Q X.
Proof. done. Qed.

Lemma runs_get s (Q : S -> S -> Prop) X : Q s s -> runs get_state s Q X.
Proof. done. Qed.
End Runs.

#[global] Arguments runs : simpl never.

Lemma runs_zoom {S T A} (get : S -> T) (set : T -> S -> S) (m : prog T A) s
    (Q : A -> S -> Prop) (X : S -> Prop) :
  runs m (get s) (fun a t => Q a (set t s)) (fun t => X (set t s)) -> runs (zoom get set m) s Q X.
Proof. unfold runs, zoom. by destruct (m (get s)). Qed.

Lemma runs_try {S} (m : prog S ()) s (Q : () -> S -> Prop) (X : S -> Prop) :
  runs m s Q (Q ()) -> runs (try_catch m) s Q X.
Proof. unfold runs, try_catch. by destruct (m s). Qed.

(** A loop over a vector whose steps keep an invariant that records how far
    the loop came; on an error [E] holds. *)
Lemma runs_for_each {S A} (f : A -> prog S ErrorCode) (l : list A)
    (I : list A -> S -> Prop) (E : ErrorCode -> S -> Prop) (X : S -> Prop) s :
  (forall x done_ s, x ∈ l -> I done_ s ->
     runs (f x) s (fun e s' => if is_error e then E e s' else I (done_ ++ [x]) s') X) ->
  I [] s ->
  runs (for_each f l) s (fun e s' => if is_error e then E e s' else I l s') X.
Proof.
  intros Hf. assert (Hg : forall d r s, l = d ++ r -> I d s ->
    runs (for_each f r) s (fun e s' => if is_error e then E e s' else I l s') X);
    [|intros HI; exact (Hg [] l s eq_refl HI)].
  intros d r. revert d. induction r as [|x r IH]; intros d s0 -> Hd; cbn [for_each].
  - rewrite app_nil_r. by apply runs_ret.
  - apply runs_bind. eapply runs_conseq; [apply (Hf x d); [|done]|].
    { apply elem_of_app. right. by left. }
    cbn. intros e s1 H1. destruct (is_error e) eqn:He; [apply runs_ret; by rewrite He|].
    apply (IH (d ++ [x])); [by rewrite <- app_assoc|done].
Qed.

Lemma runs_or_else {S} (m k : prog S ErrorCode) s (Q : ErrorCode -> S -> Prop) (X : S -> Prop) :
  runs m s (fun e s' => if is_error e then Q e s' else runs k s' Q X) X ->
  runs (or_else m k) s Q X.
Proof.
  intros H. apply runs_bind. eapply runs_conseq; [exact H|]. cbn. intros e s' He.
  by destruct (is_error e).
Qed.

(** ** Frames *)

(** A program that keeps what [view] shows of the state, however it ends. *)
Definition keeps {S A V} (view : S -> V) (m : prog S A) : Prop := forall s,
  match m s with Returned _ s' | Thrown s' => view s' = view s | _ => True end.

Section Keeps.
Context {S V : Type} (view : S -> V).

Lemma keeps_ret {A} (a : A) : keeps view (mret a).
Proof. done. Qed.

Lemma keeps_get : keeps view get_state.
Proof. done. Qed.

Lemma keeps_throw {A} : keeps view (throw (A := A)).
Proof. done. Qed.

Lemma keeps_or_throw {A} (o : option A) : keeps view (or_throw o).
Proof. by destruct o. Qed.

Lemma keeps_bind {A B} (m : prog S A) (f : A -> prog S B) :
  keeps view m -> (forall a, keeps view (f a)) -> keeps view (m ≫= f).
Proof.
  intros Hm Hf s. specialize (Hm s). unfold mbind, prog_bind. destruct (m s) as [a s'| | |]; try done.
  specialize (Hf a s'). destruct (f a s'); congruence.
Qed.

Lemma keeps_zoom {T A} (get : S -> T) (set : T -> S -> S) (m : prog T A) :
  (forall t s, view (set t s) = view s) -> keeps view (zoom get set m).
Proof. intros H s. unfold zoom. by destruct (m (get s)). Qed.

Lemma keeps_zoom_in {T W A} (view' : T -> W) (get : S -> T) (set : T -> S -> S) (m : prog T A) :
  keeps view' m -> (forall t s, view' t = view' (get s) -> view (set t s) = view s) ->
  keeps view (zoom get set m).
Proof. intros Hm H s. unfold zoom. specialize (Hm (get s)). destruct (m (get s)); auto. Qed.

Lemma keeps_while fuel (condition : prog S bool) (body : prog S ()) :
  keeps view condition -> keeps view body -> keeps view (while_loop fuel condition body).
Proof.
  intros Hc Hb. induction fuel as [|fuel IH]; [done|]. cbn [while_loop]. apply keeps_bind; [done|].
  intros []; [|apply keeps_ret]. apply keeps_bind; [done|]. by intros _.
Qed.
End Keeps.

Create HintDb keeps.
#[export] Hint Resolve keeps_ret keeps_get keeps_throw keeps_or_throw keeps_bind keeps_while : keeps.
#[export] Hint Extern 1 (keeps _ (zoom _ _ _)) => (apply keeps_zoom; by intros ? []) : keeps.
#[export] Hint Extern 1 (keeps _ (match ?x with _ => _ end)) => destruct x : keeps.

(** ** Partial assertions

    [may] is [runs] without the promise that the program ends: what holds if
    it does.  Invariants that do not depend on the fuel are proved with it and
    joined to what [runs] says. *)
Definition may {S A} (m : prog S A) (s : S) (Q : A -> S -> Prop) (X : S -> Prop) : Prop :=
  match m s with
  | Returned a s' => Q a s'
  | Thrown s' => X s'
  | Undefined | OutOfFuel => True
  end.

Section May.
Context {S : Type}.
Context {A B : Type}.
Implicit Types (Q : A -> S -> Prop) (X : S -> Prop).

Lemma may_bind (m : prog S B) (f : B -> prog S A) s Q X :
  may m s (fun b s' => may (f b) s' Q X) X -> may (m ≫= f) s Q X.
Proof. unfold may, mbind, prog_bind. by destruct (m s). Qed.

Lemma may_ret a s Q X : Q a s -> may (mret a) s Q X.
Proof. done. Qed.

Lemma may_throw s Q X : X s -> may throw s Q X.
Proof. done. Qed.

Lemma may_or_throw (o : option A) s Q X : (forall a, Q a s) -> X s -> may (or_throw o) s Q X.
Proof. intros HQ HX. destruct o; [exact (HQ _)|exact HX]. Qed.

Lemma may_deref (o : option A) s Q X : (forall a, o = Some a -> Q a s) -> may (deref o) s Q X.
Proof. intros H. destruct o; [exact (H _ eq_refl)|exact I]. Qed.

Lemma may_weaken (m : prog S A) s Q Q' X X' :
  may m s Q X -> (forall a s', Q a s' -> Q' a s') -> (forall s', X s' -> X' s') -> may m s Q' X'.
Proof. unfold may. destruct (m s); auto. Qed.

Lemma may_get s (Q : S -> S -> Prop) X : Q s s -> may get_state s Q X.
Proof. done. Qed.

Lemma may_put s s' (Q : () -> S -> Prop) X : Q () s' -> may (put_state s') s Q X.
Proof. done. Qed.

Lemma runs_may (m : prog S A) s Q Q' X X' :
  runs m s Q X -> may m s Q' X' ->
  runs m s (fun a s' => Q a s' /\ Q' a s') (fun s' => X s' /\ X' s').
Proof. unfold runs, may. by destruct (m s). Qed.
End May.

#[global] Arguments may : simpl never.
