(* ===== verification/Containers.v ===== *)
(** * Thread-safe containers

    [src/include/tools/thread_safe_{queue,deque,set,map,priority_queue}.h]: a
    standard container with a mutex.  Every method holds the mutex from its
    first to its last line, so it is one atomic program on the container; what
    several threads do is a sequence of such programs.  [front], [pop] and the
    like on an empty container are undefined behaviour, [at] throws.

    A queue or a deque is the list of its elements from front to back, a set or
    a map is the list in its iteration order, and a priority queue the list
    from the top down (which of several equivalent elements comes first is the
    library's choice). *)

From S2P Require Import Prelude Errors Program.

(** ** [ThreadSafeQueue] *)

Section Queue.
Context {T : Type}.

Definition queue_back : prog (list T) T := fun q =>
  match last q with Some x => Returned x q | None => Undefined end.

Definition queue_clear : prog (list T) () := put_state [].

Definition queue_empty : prog (list T) bool := fun q => Returned (bool_decide (q = [])) q.

Definition queue_front : prog (list T) T := fun q =>
  match q with x :: _ => Returned x q | [] => Undefined end.

Definition queue_pop : prog (list T) T := fun q =>
  match q with x :: q' => Returned x q' | [] => Undefined end.

Definition queue_push (item : T) : prog (list T) () := fun q => Returned () (q ++ [item]).

Fixpoint queue_push_all (items : list T) : prog (list T) () :=
  match items with
  | [] => mret ()
  | item :: items' => queue_push item;; queue_push_all items'
  end.

Definition queue_size : prog (list T) Z := fun q => Returned (vsize q) q.

Definition queue_skip : prog (list T) () := fun q => Returned () (tail q).
End Queue.

(** ** [ThreadSafeDeque] *)

Section Deque.
Context {T : Type}.

Definition deque_index (position : Z) : prog (list T) T := fun d =>
  match d !! Z.to_nat position with Some x => Returned x d | None => Undefined end.

Definition deque_at (position : Z) : prog (list T) T := fun d =>
  match d !! Z.to_nat position with Some x => Returned x d | None => Thrown d end.

Definition deque_back : prog (list T) T := queue_back.

Definition deque_clear : prog (list T) () := put_state [].

(** [each] runs a function with effects of its own over the elements. *)
Fixpoint deque_each {S} (func : T -> prog S ()) (d : list T) : prog S () :=
  match d with
  | [] => mret ()
  | elem :: d' => func elem;; deque_each func d'
  end.

(** [eachref] runs a function that may assign to the element. *)
Definition deque_eachref (func : T -> T) : prog (list T) () := fun d => Returned () (func <$> d).

Definition deque_empty : prog (list T) bool := queue_empty.

Definition deque_front : prog (list T) T := queue_front.

Definition deque_pop_back : prog (list T) T := fun d =>
  match last d with Some x => Returned x (removelast d) | None => Undefined end.

Definition deque_pop_front : prog (list T) T := queue_pop.

Definition deque_push_back (item : T) : prog (list T) () := queue_push item.

Definition deque_push_back_all (items : list T) : prog (list T) () := queue_push_all items.

Definition deque_push_front (item : T) : prog (list T) () := fun d => Returned () (item :: d).

Fixpoint push_front_each (items : list T) : prog (list T) () :=
  match items with
  | [] => mret ()
  | item :: items' => deque_push_front item;; push_front_each items'
  end.

Definition deque_push_front_all (items : list T) (preserve_order : bool) : prog (list T) () :=
  push_front_each (if preserve_order then reverse items else items).

(** [resize]; new elements are default ones. *)
Definition deque_resize (default_item : T) (count : Z) : prog (list T) () := fun d =>
  Returned () (resize (Z.to_nat count) default_item d).

Definition deque_set (position : Z) (item : T) : prog (list T) () := fun d =>
  if position <? vsize d then Returned () (<[ Z.to_nat position := item ]> d) else Undefined.

Definition deque_shrink_to_fit : prog (list T) () := mret ().

Definition deque_size : prog (list T) Z := queue_size.

Definition deque_skip_back : prog (list T) () := fun d => Returned () (removelast d).

Definition deque_skip_front : prog (list T) () := queue_skip.
End Deque.

(** ** [ThreadSafeSet] *)

Section OrderedSet.
Context {T : Type} (ltb : T -> T -> bool).

Definition set_clear : prog (list T) () := put_state [].

Definition set_contains (key : T) : prog (list T) bool := fun s =>
  Returned (match sorted_find ltb id key s with Some _ => true | None => false end) s.

Definition set_each {S} (func : T -> prog S ()) (s : list T) : prog S () := deque_each func s.

Definition set_empty : prog (list T) bool := queue_empty.

Definition set_erase (key : T) : prog (list T) () := fun s =>
  Returned () (List.filter (fun x => negb (same_key ltb key x)) s).

Definition set_insert (key : T) : prog (list T) () := fun s =>
  Returned () (sorted_insert ltb id key s).

Definition set_size : prog (list T) Z := queue_size.
End OrderedSet.

(** ** [ThreadSafeMap] *)

Section OrderedMap.
Context {L R : Type} (ltb : L -> L -> bool).

Definition map_at (key : L) : prog (list (L * R)) R := fun m =>
  match sorted_find ltb fst key m with Some (_, value) => Returned value m | None => Thrown m end.

Definition map_clear : prog (list (L * R)) () := put_state [].

Definition map_contains (key : L) : prog (list (L * R)) bool := fun m =>
  Returned (match sorted_find ltb fst key m with Some _ => true | None => false end) m.

Fixpoint map_each {S} (func : L -> R -> prog S ()) (m : list (L * R)) : prog S () :=
  match m with
  | [] => mret ()
  | (key, value) :: m' => func key value;; map_each func m'
  end.

Definition map_empty : prog (list (L * R)) bool := queue_empty.

Definition map_erase (key : L) : prog (list (L * R)) () := fun m =>
  Returned () (List.filter (fun e => negb (same_key ltb key (fst e))) m).

(** [insert] leaves an element with the same key as it is. *)
Definition map_insert (key : L) (value : R) : prog (list (L * R)) () := fun m =>
  Returned () (sorted_insert ltb fst (key, value) m).

Definition map_insert_or_assign (key : L) (value : R) : prog (list (L * R)) () := fun m =>
  Returned ()
    (match sorted_find ltb fst key m with
     | Some _ => (fun e => if same_key ltb key (fst e) then (fst e, value) else e) <$> m
     | None => sorted_insert ltb fst (key, value) m
     end).

(** The form that takes the key and the value as a tuple. *)
Definition map_insert_or_assign_tuple (kv : L * R) : prog (list (L * R)) () :=
  let '(key, value) := kv in map_insert_or_assign key value.

Definition map_size : prog (list (L * R)) Z := queue_size.
End OrderedMap.

(** ** [ThreadSafePriorityQueue] *)

Section PriorityQueue.
Context {T : Type} (less : T -> T -> bool).

Definition pq_clear : prog (list T) () := put_state [].

Definition pq_empty : prog (list T) bool := queue_empty.

Definition pq_top : prog (list T) T := queue_front.

Definition pq_pop : prog (list T) T := queue_pop.

Fixpoint pq_place (item : T) (l : list T) : list T :=
  match l with
  | [] => [item]
  | x :: l' => if less x item then item :: l else x :: pq_place item l'
  end.

Definition pq_push (item : T) : prog (list T) () := fun l => Returned () (pq_place item l).

Fixpoint pq_push_all (items : list T) : prog (list T) () :=
  match items with
  | [] => mret ()
  | item :: items' => pq_push item;; pq_push_all items'
  end.

Definition pq_size : prog (list T) Z := queue_size.
End PriorityQueue.

(** ** Lemmas: queues *)

Lemma queue_push_all_spec {T} (items q : list T) :
  queue_push_all items q = Returned () (q ++ items).
Proof.
  revert q. induction items as [|x items IH]; intros q; cbn; [by rewrite app_nil_r|].
  unfold mbind, prog_bind, queue_push. by rewrite IH, <- app_assoc.
Qed.

Lemma push_front_each_spec {T} (items d : list T) :
  push_front_each items d = Returned () (reverse items ++ d).
Proof.
  revert d. induction items as [|x items IH]; intros d; cbn [push_front_each]; [done|].
  rewrite reverse_cons, <- app_assoc. apply IH.
Qed.

(** ** Threads on a queue

    Any number of threads push; one thread looks whether the queue is empty and
    pops when it was not, as the loops [while (!messages.empty()) pop()] of the
    servers, the clients and the node do. *)

Section Threads.
Context {T : Type}.

Record threads : Type := mk_threads {
  th_queue : list T;
  (* the consumer saw the queue non-empty and has not popped since *)
  th_seen : bool;
  th_pushed : list T;
  th_popped : list T
}.

Inductive thread_step : threads -> threads -> Prop :=
  | step_push item q seen pushed popped q' :
      queue_push item q = Returned () q' ->
      thread_step (mk_threads q seen pushed popped) (mk_threads q' seen (pushed ++ [item]) popped)
  | step_push_all items q seen pushed popped q' :
      queue_push_all items q = Returned () q' ->
      thread_step (mk_threads q seen pushed popped) (mk_threads q' seen (pushed ++ items) popped)
  | step_look q seen pushed popped e q' :
      queue_empty q = Returned e q' ->
      thread_step (mk_threads q seen pushed popped) (mk_threads q' (negb e) pushed popped)
  | step_pop q pushed popped item q' :
      queue_pop q = Returned item q' ->
      thread_step (mk_threads q true pushed popped) (mk_threads q' false pushed (popped ++ [item])).

Inductive reachable : threads -> Prop :=
  | reach_start : reachable (mk_threads [] false [] [])
  | reach_step s s' : reachable s -> thread_step s s' -> reachable s'.

Definition threads_ok (s : threads) : Prop :=
  th_pushed s = th_popped s ++ th_queue s /\ (th_seen s = true -> th_queue s <> []).

Lemma thread_step_ok s s' : threads_ok s -> thread_step s s' -> threads_ok s'.
Proof.
  unfold threads_ok. intros [Hf Hs] Hstep. destruct Hstep as
    [item q seen pushed popped q' H|items q seen pushed popped q' H|q seen pushed popped e q' H
    |q pushed popped item q' H]; cbn in *.
  - injection H as <-. subst pushed. rewrite <- app_assoc. split; [done|].
    intros _ E. by apply app_eq_nil in E as [_ [=]].
  - rewrite queue_push_all_spec in H. injection H as <-. subst pushed. rewrite <- app_assoc.
    split; [done|]. intros Hseen E. apply app_eq_nil in E as [-> _]. by apply (Hs Hseen).
  - injection H as <- <-. split; [done|]. intros E. apply negb_true_iff, bool_decide_eq_false in E. done.
  - destruct q as [|x q]; [done|]. injection H as <- <-. subst pushed.
    by rewrite <- app_assoc.
Qed.

Lemma reachable_ok s : reachable s -> threads_ok s.
Proof. induction 1 as [|s s' _ IH Hs]; [done|]. by eapply thread_step_ok. Qed.
End Threads.
Arguments threads : clear implicits.

(** ** Lemmas: sets and maps *)

Section MapFacts.
Context {L R : Type} `{Countable L} (ltb : L -> L -> bool).
Hypothesis Hord : strict_order_ok ltb.

(** The finite map that a container holds. *)
Definition map_of (m : list (L * R)) : gmap L R := list_to_map m.

Lemma strictly_sorted_NoDup (m : list (L * R)) :
  strictly_sorted ltb fst m -> NoDup m.*1.
Proof using Hord.
  induction 1 as [|[k v] m Hs IH Hk]; cbn; constructor; [|done].
  intros ([k' v'] & E & Hin)%list_elem_of_fmap. cbn in E. subst k'.
  rewrite Forall_forall in Hk. specialize (Hk _ Hin). cbn in Hk.
  by rewrite (order_irrefl _ Hord) in Hk.
Qed.

Lemma map_of_find (m : list (L * R)) k :
  strictly_sorted ltb fst m -> sorted_find ltb fst k m = (fun v => (k, v)) <$> map_of m !! k.
Proof using Hord.
  intros Hs. unfold map_of. destruct (sorted_find ltb fst k m) as [[k' v]|] eqn:E.
  - apply (sorted_find_Some _ _ Hord) in E as [Hin Hk]. cbn in Hk. subst k'.
    rewrite (elem_of_list_to_map_1 m k v); [done|by apply strictly_sorted_NoDup|done].
  - rewrite (sorted_find_None _ _ Hord) in E. rewrite not_elem_of_list_to_map_1; [done|].
    intros ([k' v] & Hk & Hin)%list_elem_of_fmap. cbn in Hk. by apply (E _ Hin).
Qed.

(** A container is known by the elements of its map. *)
Lemma map_of_eq (m : list (L * R)) (M : gmap L R) :
  strictly_sorted ltb fst m -> (forall k v, (k, v) ∈ m <-> M !! k = Some v) -> map_of m = M.
Proof using Hord.
  intros Hs Hm. apply map_eq. intros k. apply option_eq. intros v.
  rewrite <- Hm. unfold map_of. split.
  - apply elem_of_list_to_map_2.
  - apply elem_of_list_to_map_1. by apply strictly_sorted_NoDup.
Qed.

Lemma map_of_elem (m : list (L * R)) k v :
  strictly_sorted ltb fst m -> (k, v) ∈ m <-> map_of m !! k = Some v.
Proof using Hord.
  intros Hs. split; [|apply elem_of_list_to_map_2].
  apply elem_of_list_to_map_1. by apply strictly_sorted_NoDup.
Qed.

Lemma sorted_filter (P : L * R -> bool) m :
  strictly_sorted ltb fst m -> strictly_sorted ltb fst (List.filter P m).
Proof using.
  induction 1 as [|x m Hs IH Hx]; cbn; [constructor|]. destruct (P x); [|done].
  constructor; [done|]. rewrite Forall_forall in Hx. apply Forall_forall.
  intros y [Hy _]%list_elem_of_In%filter_In. apply Hx. by apply list_elem_of_In.
Qed.

Lemma sorted_fmap_value (f : L * R -> L * R) m :
  (forall e, fst (f e) = fst e) -> strictly_sorted ltb fst m -> strictly_sorted ltb fst (f <$> m).
Proof using.
  intros Hf. induction 1 as [|x m Hs IH Hx]; cbn; constructor; [done|].
  rewrite Forall_forall in Hx. apply Forall_forall. intros y (z & -> & Hz)%list_elem_of_fmap.
  rewrite !Hf. by apply Hx.
Qed.

Lemma map_insert_spec (m : list (L * R)) k v :
  strictly_sorted ltb fst m ->
  let m' := sorted_insert ltb fst (k, v) m in
  strictly_sorted ltb fst m' /\
  map_of m' = if map_of m !! k then map_of m else <[k := v]> (map_of m).
Proof using Hord.
  intros Hs m'. assert (Hs' : strictly_sorted ltb fst m') by by apply sorted_insert_sorted.
  split; [done|]. destruct (map_of m !! k) as [v'|] eqn:E.
  - unfold m'. rewrite (sorted_insert_present ltb fst Hord _ (k, v')); [done|done| |done].
    by apply map_of_elem.
  - apply map_of_eq; [done|]. intros k' w. rewrite lookup_insert_Some.
    rewrite <- map_of_elem by done. split.
    + intros Hin. apply elem_of_sorted_insert in Hin as [[= -> ->]|Hin]; [by left|].
      right. split; [|done]. intros ->. apply map_of_elem in Hin; [|done]. congruence.
    + intros [[<- <-]|[Hne Hin]]; [|by apply sorted_insert_keeps].
      destruct (sorted_insert_has ltb fst Hord (k, v) m) as ([k2 v2] & Hin & Hk). cbn in Hk. subst k2.
      pose proof Hin as Hin'. apply elem_of_sorted_insert in Hin' as [[= ->]|Hin']; [done|].
      apply map_of_elem in Hin'; [|done]. congruence.
Qed.

Lemma map_assign_spec (m : list (L * R)) k v :
  strictly_sorted ltb fst m -> is_Some (map_of m !! k) ->
  let m' := (fun e => if same_key ltb k (fst e) then (fst e, v) else e) <$> m in
  strictly_sorted ltb fst m' /\ map_of m' = <[k := v]> (map_of m).
Proof using Hord.
  intros Hs [v' Hv'] m'. assert (Hs' : strictly_sorted ltb fst m').
  { apply sorted_fmap_value; [|done]. intros e. by case_match. }
  split; [done|]. apply map_of_eq; [done|]. intros k' w. unfold m'.
  rewrite list_elem_of_fmap, lookup_insert_Some. split.
  - intros ([k2 v2] & E & Hin). cbn in E. apply map_of_elem in Hin; [|done].
    destruct (same_key ltb k k2) eqn:Ek.
    + apply (same_key_spec _ Hord) in Ek as ->. injection E as -> ->. by left.
    + injection E as -> ->. right. split; [|done]. intros ->.
      by rewrite (proj2 (same_key_spec _ Hord k2 k2) eq_refl) in Ek.
  - intros [[<- <-]|[Hne Hin]].
    + exists (k, v'). cbn. rewrite (proj2 (same_key_spec _ Hord k k) eq_refl).
      split; [done|]. by apply map_of_elem.
    + exists (k', w). cbn. destruct (same_key ltb k k') eqn:Ek.
      * apply (same_key_spec _ Hord) in Ek. done.
      * split; [done|]. by apply map_of_elem.
Qed.

Lemma map_erase_spec (m : list (L * R)) k :
  strictly_sorted ltb fst m ->
  let m' := List.filter (fun e => negb (same_key ltb k (fst e))) m in
  strictly_sorted ltb fst m' /\ map_of m' = delete k (map_of m).
Proof using Hord.
  intros Hs m'. assert (Hs' : strictly_sorted ltb fst m') by by apply sorted_filter.
  split; [done|]. apply map_of_eq; [done|]. intros k' v. unfold m'.
  rewrite list_elem_of_In, filter_In, <- list_elem_of_In, lookup_delete_Some, map_of_elem by done. cbn.
  rewrite negb_true_iff. split.
  - intros [Hin Hk]. split; [|done]. intros ->.
    by rewrite (proj2 (same_key_spec _ Hord k' k') eq_refl) in Hk.
  - intros [Hne Hin]. split; [done|]. apply not_true_is_false. intros Hk.
    by apply (same_key_spec _ Hord) in Hk.
Qed.
End MapFacts.

(** ** Lemmas: priority queues *)

Section PriorityFacts.
Context {T : Type} (less : T -> T -> bool).
Hypothesis less_trans : forall a b c, less a b = true -> less b c = true -> less a c = true.
Hypothesis less_asym : forall a b, less a b = true -> less b a = false.

(** No element is above one that comes before it. *)
Definition top_down (l : list T) : Prop := StronglySorted (fun x y => less x y = false) l.

Lemma pq_place_perm x l : pq_place less x l ≡ₚ x :: l.
Proof using.
  induction l as [|y l IH]; cbn; [done|]. destruct (less y x); [done|].
  rewrite IH. constructor.
Qed.

Lemma pq_place_top_down x l :
  (forall a b c, less a b = false -> less b c = false -> less a c = false) ->
  top_down l -> top_down (pq_place less x l).
Proof using less_asym.
  intros Htr. induction 1 as [|y l Hl IH Hy]; cbn; [by repeat constructor|].
  destruct (less y x) eqn:E.
  - constructor; [by constructor|]. constructor; [by apply less_asym|].
    eapply Forall_impl; [exact Hy|]. cbn. intros z Hz. eapply Htr; [|exact Hz]. by apply less_asym.
  - constructor; [done|]. apply Forall_forall. intros z Hz.
    rewrite pq_place_perm in Hz. apply elem_of_cons in Hz as [->|Hz]; [done|].
    rewrite Forall_forall in Hy. by apply Hy.
Qed.
End PriorityFacts.

(** ** Properties *)

(** Whatever the interleaving of the threads, a queue hands out what was
    pushed in the order of the pushes, nothing lost and nothing twice; and the
    one consumer that saw the queue non-empty never pops from an empty one:
    its pop gives the oldest element. *)
Theorem queue_fifo {T} (s : threads T) :
  reachable s ->
  th_pushed s = th_popped s ++ th_queue s /\
  (th_seen s = true ->
   exists item rest, queue_pop (th_queue s) = Returned item rest /\
     th_pushed s = th_popped s ++ item :: rest) /\
  (th_queue s <> [] ->
   exists item rest s1 s2, th_queue s = item :: rest /\
     thread_step s s1 /\ thread_step s1 s2 /\ th_popped s2 = th_popped s ++ [item]).
Proof.
  intros Hr. destruct (reachable_ok s Hr) as [Hf Hs].
  split; [done|]. destruct s as [q seen pushed popped]; cbn in *. split.
  - intros Hseen. destruct q as [|x q]; [by destruct (Hs Hseen)|]. by exists x, q.
  - intros Hq. destruct q as [|x q]; [done|]. exists x, q.
    exists (mk_threads (x :: q) true pushed popped), (mk_threads q false pushed (popped ++ [x])).
    split; [done|]. split; [by apply (step_look (x :: q) seen pushed popped false)|].
    split; [|done]. by apply step_pop.
Qed.

(** A thread-safe map refines a finite map: [insert] leaves an element with
    the same key alone, [insert_or_assign] replaces it, [erase] removes it,
    [contains] and [at] look it up ([at] throws when there is none), [size]
    counts, and the iteration order stays sorted without repetitions. *)
Theorem map_refines {L R} `{Countable L} (ltb : L -> L -> bool) (m : list (L * R)) k v :
  strict_order_ok ltb -> strictly_sorted ltb fst m ->
  map_contains ltb k m = Returned (bool_decide (is_Some (map_of m !! k))) m /\
  map_at ltb k m = match map_of m !! k with Some w => Returned w m | None => Thrown m end /\
  map_size m = Returned (Z.of_nat (size (map_of m))) m /\
  exists m1 m2 m3,
    map_insert ltb k v m = Returned () m1 /\ strictly_sorted ltb fst m1 /\
    map_of m1 = (if map_of m !! k then map_of m else <[k := v]> (map_of m)) /\
    map_insert_or_assign ltb k v m = Returned () m2 /\ strictly_sorted ltb fst m2 /\
    map_of m2 = <[k := v]> (map_of m) /\
    map_erase ltb k m = Returned () m3 /\ strictly_sorted ltb fst m3 /\
    map_of m3 = delete k (map_of m).
Proof.
  intros Hord Hs. unfold map_contains, map_at, map_size, queue_size, map_insert_or_assign.
  rewrite (map_of_find ltb Hord m k Hs).
  split; [by destruct (map_of m !! k)|]. split; [by destruct (map_of m !! k)|].
  split.
  { unfold map_of. rewrite <- length_map_to_list, map_to_list_to_map; [done|].
    by apply (strictly_sorted_NoDup ltb). }
  destruct (map_insert_spec ltb Hord m k v Hs) as [Hs1 Hm1].
  destruct (map_erase_spec ltb Hord m k Hs) as [Hs3 Hm3].
  destruct (map_of m !! k) as [w|] eqn:E.
  - destruct (map_assign_spec ltb Hord m k v Hs) as [Hs2 Hm2]; [by rewrite E|].
    do 3 eexists. do 8 (split; [done|]). done.
  - do 3 eexists. do 8 (split; [done|]). done.
Qed.

(** ** Witnesses *)

Lemma queue_fifo_witness :
  exists item rest, queue_pop [1; 2] = Returned item rest.
Proof.
  assert (Hr : reachable (mk_threads [1; 2] true [1; 2] [])).
  { eapply reach_step; [|by apply (step_look [1; 2] false [1; 2] [] false)].
    eapply reach_step; [apply reach_start|]. by apply (step_push_all [1; 2] [] false [] []). }
  destruct (proj1 (proj2 (queue_fifo _ Hr)) eq_refl) as (item & rest & H & _). by exists item, rest.
Defined.

Lemma map_refines_witness :
  map_at Z.ltb 3 [(1, 10); (3, 30)] = Returned 30 [(1, 10); (3, 30)].
Proof.
  destruct (map_refines Z.ltb [(1, 10); (3, 30)] 3 0) as (_ & Hat & _).
  - split; intros; lia.
  - repeat constructor.
  - exact Hat.
Defined.
