(* ===== verification/Upnp.v ===== *)
(** * Port forwarding

    [src/src/networking/upnp.cpp] over miniupnpc, which is not in the tree: the
    class [MiniUPnP] has the calls the code makes on the network's gateway, whose
    state is abstract, and [MiniUPnPLaws] says which port forwards a call makes or
    removes.  Strings that only go to the log are dropped. *)

From S2P Require Import Prelude Errors Program.
From stdpp Require Import pretty.

(** [std::to_string] of an unsigned integer. *)
Definition to_string (n : Z) : string := pretty (Z.to_N n).

Class MiniUPnP : Type := {
  gateway_t : Type;
  (* whether a device list was found, for IPv6 or not, within a timeout *)
  upnpDiscover : Z -> bool -> gateway_t -> bool;
  (* the local address, when there is a valid gateway device *)
  UPNP_GetValidIGD : gateway_t -> option string;
  (* the port, the local address and the service name *)
  UPNP_AddPortMapping : string -> string -> string -> gateway_t -> bool * gateway_t;
  UPNP_DeletePortMapping : string -> gateway_t -> bool * gateway_t;
  UPNP_GetExternalIPAddress : gateway_t -> option string
}.

(** The ports that a gateway forwards. *)
Class MiniUPnPLaws (U : MiniUPnP) : Type := {
  forwarded : gateway_t -> list string;
  forwarded_add : forall p a n g,
    let '(ok, g') := UPNP_AddPortMapping p a n g in
    forall q, q ∈ forwarded g' <-> (ok = true /\ q = p) \/ q ∈ forwarded g;
  forwarded_delete : forall p g,
    let '(ok, g') := UPNP_DeletePortMapping p g in
    forall q, q ∈ forwarded g' <-> ~ (ok = true /\ q = p) /\ q ∈ forwarded g
}.

Section Upnp.
Context {U : MiniUPnP}.

Record UPNP : Type := mk_UPNP {
  m_port : Z;
  m_service_name : string;
  m_lan_address : string;
  m_wan_address : string;
  m_v6 : bool;
  m_active : bool
}.

Notation upnp_prog := (prog gateway_t).

(** A call that the gateway answers with success or not. *)
Definition gateway_call (f : gateway_t -> bool * gateway_t) (failure : ErrorCode)
  : upnp_prog ErrorCode := fun g =>
  let '(ok, g') := f g in Returned (if ok then SUCCESS else failure) g'.

Definition upnp_add (u : UPNP) : upnp_prog ErrorCode :=
  gateway_call (UPNP_AddPortMapping (to_string (m_port u)) (m_lan_address u) (m_service_name u))
    UPNP_FAILURE.

Definition upnp_del (u : UPNP) : upnp_prog ErrorCode :=
  if negb (m_active u) then mret UPNP_NOT_SUPPORTED
  else gateway_call (UPNP_DeletePortMapping (to_string (m_port u))) UPNP_FAILURE.

Definition get_external_address (u : UPNP) : upnp_prog (ErrorCode * string) :=
  if negb (m_active u) then mret (UPNP_NOT_SUPPORTED, EmptyString)
  else
    g ← get_state;
    mret (match UPNP_GetExternalIPAddress g with
          | Some wan_address => (SUCCESS, wan_address)
          | None => (UPNP_FAILURE, EmptyString)
          end).

Definition new_UPNP (port : Z) (service_name : string) (timeout : Z) (v6 : bool) : upnp_prog UPNP :=
  let u := mk_UPNP port service_name EmptyString EmptyString v6 false in
  g ← get_state;
  if negb (upnpDiscover timeout v6 g) then mret u
  else match UPNP_GetValidIGD g with
  | None => mret u
  | Some lan_address =>
      let u := mk_UPNP port service_name lan_address EmptyString v6 false in
      error ← upnp_add u;
      let u := mk_UPNP port service_name lan_address EmptyString v6 (negb (is_error error)) in
      '(error, wan_address) ← get_external_address u;
      mret (if is_error error then u
            else mk_UPNP port service_name lan_address wan_address v6 (m_active u))
  end.

(** The destructor. *)
Definition upnp_destroy (u : UPNP) : upnp_prog () := upnp_del u;; mret ().

Definition active (u : UPNP) : bool := m_active u.
Definition external_address (u : UPNP) : string := m_wan_address u.
Definition local_address (u : UPNP) : string := m_lan_address u.
Definition service_name (u : UPNP) : string := m_service_name u.
Definition upnp_port (u : UPNP) : Z := m_port u.
Definition v6 (u : UPNP) : bool := m_v6 u.
End Upnp.

Section UpnpFacts.
Context {U : MiniUPnP} {UL : MiniUPnPLaws U}.

Lemma upnp_add_spec u g :
  runs (upnp_add u) g
    (fun e g' => forall q, q ∈ forwarded g' <->
       (is_error e = false /\ q = to_string (m_port u)) \/ q ∈ forwarded g) (fun _ => False).
Proof.
  unfold runs, upnp_add, gateway_call.
  pose proof (forwarded_add (to_string (m_port u)) (m_lan_address u) (m_service_name u) g) as H.
  destruct (UPNP_AddPortMapping _ _ _ g) as [[] g']; intros q; rewrite H; cbn; intuition congruence.
Qed.

Lemma upnp_del_spec u g :
  runs (upnp_del u) g
    (fun e g' => (is_error e = false -> m_active u = true) /\ forall q, q ∈ forwarded g' <->
       ~ (is_error e = false /\ q = to_string (m_port u)) /\ q ∈ forwarded g) (fun _ => False).
Proof.
  unfold runs, upnp_del, gateway_call. destruct (m_active u); cbn.
  - pose proof (forwarded_delete (to_string (m_port u)) g) as H.
    destruct (UPNP_DeletePortMapping _ g) as [[] g']; (split; [done|]); intros q; rewrite H; cbn; intuition congruence.
  - split; [done|]. intros q. intuition discriminate.
Qed.

(** What the constructor gives, and what it does to the gateway. *)
Lemma new_UPNP_spec port name timeout ipv6 g :
  runs (new_UPNP port name timeout ipv6) g
    (fun u g' => m_port u = port /\ (m_wan_address u <> EmptyString -> m_active u = true) /\
       forall q, q ∈ forwarded g' <-> (m_active u = true /\ q = to_string port) \/ q ∈ forwarded g)
    (fun _ => False).
Proof.
  assert (Hnone : forall q, q ∈ forwarded g <-> (false = true /\ q = to_string port) \/ q ∈ forwarded g)
    by (intros q; split; [by right|by intros [[? _]|?]]).
  unfold new_UPNP. apply runs_bind, runs_get.
  destruct (negb _); [by apply runs_ret|].
  destruct (UPNP_GetValidIGD g) as [lan|]; [|by apply runs_ret].
  apply runs_bind. eapply runs_conseq; [apply upnp_add_spec|]. cbn. intros e g1 H1.
  assert (Hact : forall q, q ∈ forwarded g1 <->
    (negb (is_error e) = true /\ q = to_string port) \/ q ∈ forwarded g)
    by (intros q; by rewrite H1, negb_true_iff).
  apply runs_bind. unfold get_external_address. cbn [m_active].
  destruct (negb (is_error e)) eqn:Ha; cbn.
  - apply runs_bind, runs_get. destruct (UPNP_GetExternalIPAddress g1); by apply runs_ret, runs_ret.
  - by apply runs_ret, runs_ret.
Qed.

(** A port forward lives as long as its object: while the object is active
    its port is forwarded, it has an external address only then, and after the
    destructor every other port is forwarded exactly when it was before, and its
    own when it was before or the gateway refused to remove it. *)
Theorem upnp_lifetime port name timeout ipv6 g :
  runs (u ← new_UPNP port name timeout ipv6; g1 ← get_state; e ← upnp_del u; mret (u, g1, e)) g
    (fun '(u, g1, e) g2 =>
       (m_active u = true -> to_string port ∈ forwarded g1) /\
       (external_address u <> EmptyString -> m_active u = true) /\
       (forall q, q <> to_string port -> q ∈ forwarded g2 <-> q ∈ forwarded g) /\
       (is_error e = false -> to_string port ∉ forwarded g2) /\
       (m_active u = false -> forall q, q ∈ forwarded g2 <-> q ∈ forwarded g))
    (fun _ => False).
Proof.
  apply runs_bind. eapply runs_conseq; [apply new_UPNP_spec|]. cbn. intros u g1 (Hp & Hw & H1).
  apply runs_bind, runs_get, runs_bind. eapply runs_conseq; [apply upnp_del_spec|]. cbn.
  intros e g2 [Ha H2]. rewrite Hp in H2. apply runs_ret.
  split; [intros Hact; apply H1; by left|]. split; [done|].
  split; [intros q Hq; rewrite H2, H1; naive_solver|]. split; [rewrite H2; tauto|].
  intros Hn q. rewrite H2, H1, Hn. split; [naive_solver|]. intros Hq. split; [|by right].
  intros [He _]. rewrite Hn in Ha. by specialize (Ha He).
Qed.
End UpnpFacts.

(** ** Sample and witness *)

Module UpnpSamples.
(** A gateway that grants everything. *)
Definition toy_upnp : MiniUPnP := {|
  gateway_t := list string;
  upnpDiscover _ _ _ := true;
  UPNP_GetValidIGD _ := Some "192.168.0.2"%string;
  UPNP_AddPortMapping p _ _ g := (true, p :: g);
  UPNP_DeletePortMapping p g := (true, filter (fun q => q <> p) g);
  UPNP_GetExternalIPAddress _ := Some "203.0.113.5"%string
|}.

Definition toy_upnp_laws : MiniUPnPLaws toy_upnp.
Proof.
  refine {| forwarded := (fun g => g) : gateway_t (MiniUPnP := toy_upnp) -> list string |}; cbn.
  - intros p _ _ g q. rewrite elem_of_cons. intuition.
  - intros p g q. rewrite list_elem_of_filter. intuition.
Defined.
End UpnpSamples.

Lemma upnp_lifetime_witness :
  runs
    (u ← new_UPNP (U := UpnpSamples.toy_upnp) 12897 "node" 1000 false; g1 ← get_state;
     e ← upnp_del u; mret (u, g1, e)) ["80"%string]
    (fun '(u, g1, e) g2 => is_error e = false -> "12897"%string ∉ (g2 : list string)) (fun _ => False).
Proof.
  eapply runs_conseq;
    [exact (upnp_lifetime (UL := UpnpSamples.toy_upnp_laws) 12897 "node" 1000 false ["80"%string])|].
  intros [[u g1] e] g2 (_ & _ & _ & H & _). exact H.
Defined.
