(* ===== verification/Console.v ===== *)
(** * The console

    [src/src/utilities/console.cpp], the tables of [utilities.cpp] and
    [colors.h], and the log levels of [src/src/logger/logger.cpp].  What goes to
    [std::cout] is a list of tokens; [render] gives the characters.  linenoise,
    which reads the lines, is environment: a [reading] is what one call of
    [Readline] gives and whether a signal arrives meanwhile.  The state of the
    application that the commands act on is a parameter. *)

From S2P Require Import Prelude Errors CryptoLib Mdb Text Program.
From Stdlib Require Import Strings.Ascii.

(** ** Colors *)

Inductive COLOR : Set :=
  | grey | red | green | yellow | blue | magenta | cyan | white
  | on_grey | on_red | on_green | on_yellow | on_blue | on_magenta | on_cyan | on_white | reset.

Definition color_code (c : COLOR) : nat :=
  match c with
  | grey => 30 | red => 31 | green => 32 | yellow => 33
  | blue => 34 | magenta => 35 | cyan => 36 | white => 37
  | on_grey => 40 | on_red => 41 | on_green => 42 | on_yellow => 43
  | on_blue => 44 | on_magenta => 45 | on_cyan => 46 | on_white => 47 | reset => 48
  end.

Inductive token : Type := Color (c : COLOR) | Str (s : chars) | Endl.

(** The escape sequence of a color, where there is a terminal that knows them. *)
Definition color_text (c : COLOR) : chars :=
  let digit n := ascii_of_nat (48 + n) in
  match c with
  | reset => ascii_of_nat 27 :: to_chars "[m"
  | _ => ascii_of_nat 27 :: to_chars "[" ++
           [digit (color_code c / 10)%nat; digit (color_code c mod 10)%nat] ++ to_chars "m"
  end.

Definition render (out : list token) : chars :=
  flat_map (fun t => match t with
                     | Color c => color_text c
                     | Str s => s
                     | Endl => [ascii_of_nat 10]
                     end) out.

(** ** [print_table]

    [rows.front()] of an empty table with a header is undefined. *)

Definition longest (l : list chars) : nat := fold_left (fun m s => Nat.max m (List.length s)) l 0%nat.

Definition rule (total_width : nat) : list token :=
  [Color white; Str (repeat "="%char total_width); Color reset; Endl].

Definition print_table {R} (row : R -> list token) (total_width : nat) (rows : list R) (has_header : bool)
  : option (list token) :=
  let body rows := flat_map row rows ++ rule total_width ++ [Endl] in
  if has_header then
    match rows with
    | [] => None
    | header :: rows => Some (rule total_width ++ row header ++ rule total_width ++ body rows)
    end
  else Some (rule total_width ++ body rows).

Definition print_table1 (rows : list chars) (has_header : bool) : option (list token) :=
  let long_left := longest rows in
  print_table (fun elem =>
    [Color white; Str (to_chars "| "); Color yellow; Str (str_pad elem long_left);
     Color white; Str (to_chars " |"); Endl]) (long_left + 4) rows has_header.

Definition print_table2 (rows : list (chars * chars)) (has_header : bool) : option (list token) :=
  let long_left := longest rows.*1 in
  let long_right := longest rows.*2 in
  print_table (fun '(l, r) =>
    [Color white; Str (to_chars "| "); Color yellow; Str (str_pad l long_left);
     Color white; Str (to_chars " | "); Color green; Str (str_pad r long_right);
     Color white; Str (to_chars " |"); Endl]) (long_left + long_right + 7) rows has_header.

Definition print_table3 (rows : list (chars * chars * chars)) (has_header : bool)
  : option (list token) :=
  let long_left := longest rows.*1.*1 in
  let long_middle := longest rows.*1.*2 in
  let long_right := longest rows.*2 in
  print_table (fun '(l, m, r) =>
    [Color white; Str (to_chars "| "); Color yellow; Str (str_pad l long_left);
     Color white; Str (to_chars " | "); Color green; Str (str_pad m long_middle);
     Color white; Str (to_chars " | "); Color cyan; Str (str_pad r long_right);
     Color white; Str (to_chars " |"); Endl])
    (long_left + long_middle + long_right + 10) rows has_header.

(** ** Log levels *)

Inductive logging_level : Set := level_off | critical | err | warn | level_info | debug | trace.

Definition get_log_level (level : Z) : option logging_level :=
  if level =? 0 then Some level_off
  else if level =? 1 then Some critical
  else if level =? 2 then Some err
  else if level =? 3 then Some warn
  else if level =? 4 then Some level_info
  else if level =? 5 then Some debug
  else if level =? 6 then Some trace
  else None.

(** The number of [std::stoi], as a [size_t]. *)
Definition get_log_level_of_string (level : chars) : option logging_level :=
  temp ← stoi level;
  get_log_level (wrap64 temp).

(** ** [ConsoleHandler] *)

Section Console.
Context {A : Type}.

(** What a function that a command calls can change: the application, and what
    was printed. *)
Definition app_prog : Type -> Type := prog (A * list token).

(** [std::variant] of the two kinds of functions. *)
Inductive callback_t : Type :=
  | Plain (f : app_prog ())
  | WithArguments (f : list chars -> app_prog ()).

Record console_command_t : Type := mk_command {
  command : chars;
  description : chars;
  callback : callback_t
}.

(** [m_commands] in the order of its keys. *)
Record ConsoleHandler : Type := mk_ConsoleHandler {
  m_commands : list (string * console_command_t);
  m_command_names : list chars;
  m_name : chars;
  m_break : bool;
  m_generate_help : bool
}.

Definition new_ConsoleHandler (application_name : chars) : ConsoleHandler :=
  mk_ConsoleHandler [] [to_chars "exit"; to_chars "help"; to_chars "quit"] application_name false true.

Definition is_exit (c : chars) : bool :=
  bool_decide (c = to_chars "exit") || bool_decide (c = to_chars "quit").

Definition register_command (name descr : chars) (f : callback_t) (h : ConsoleHandler) : ConsoleHandler :=
  let name := str_trim name true in
  if bool_decide (name = []) || is_exit name then h
  else if is_exit name then h
  else
    let generate_help :=
      if bool_decide (name = to_chars "help") then false else m_generate_help h in
    mk_ConsoleHandler
      (sorted_insert string_ltb fst (of_chars name, mk_command name descr f) (m_commands h))
      (m_command_names h ++ [name]) (m_name h) (m_break h) generate_help.

Definition maximum_command_length (h : ConsoleHandler) : nat := longest (m_command_names h).

(** The completions of what was typed so far. *)
Definition completions (input : chars) (h : ConsoleHandler) : list chars :=
  List.filter (fun c => bool_decide (take (List.length input) c = input)) (m_command_names h).

(** ** Running *)

Record console : Type := mk_console {
  c_handler : ConsoleHandler;
  c_app : A;
  c_out : list token;
  c_history : list chars
}.

Definition con_prog : Type -> Type := prog console.

Definition print (ts : list token) : con_prog () := fun s =>
  Returned () (mk_console (c_handler s) (c_app s) (c_out s ++ ts) (c_history s)).

Definition set_break (b : bool) : con_prog () := fun s =>
  let h := c_handler s in
  Returned () (mk_console
    (mk_ConsoleHandler (m_commands h) (m_command_names h) (m_name h) b (m_generate_help h))
    (c_app s) (c_out s) (c_history s)).

Definition add_history (line : chars) : con_prog () := fun s =>
  Returned () (mk_console (c_handler s) (c_app s) (c_out s) (c_history s ++ [line])).

Definition on_app {B} (m : app_prog B) : con_prog B :=
  zoom (fun s => (c_app s, c_out s))
    (fun '(a, out) s => mk_console (c_handler s) a out (c_history s)) m.

Definition graceful_exit : list token :=
  [Endl; Color yellow; Str (to_chars "Attempting graceful exit..."); Color reset; Endl; Endl].

(** The handler that [run] registers for the signals. *)
Definition on_signal : con_prog () :=
  set_break true;;
  print [Endl; Color yellow;
         Str (to_chars "Termination signal caught. Press ENTER to attempt graceful exit.");
         Color reset; Endl; Endl].

Definition display_help : con_prog () :=
  s ← get_state;
  let h := c_handler s in
  let options :=
    (to_chars "Command", to_chars "Description") ::
    ((fun '(command, option) => (to_chars command, description option)) <$> m_commands h) ++
    [(to_chars "exit", to_chars "Exits the program");
     (to_chars "help", to_chars "Displays this help message")] in
  print [Endl; Color white; Str (m_name h); Str (to_chars " Help Menu"); Color reset; Endl];;
  match print_table2 options true with
  | Some ts => print ts
  | None => undefined
  end.

(** One call of [Readline]: whether it ended the input, its line, and whether a
    signal is handled before it returns or later in the turn. *)
Record reading : Type := mk_reading {
  r_quit : bool;
  r_line : chars;
  r_signal : bool;
  r_late_signal : bool
}.

Definition find_command (name : chars) (h : ConsoleHandler) : option console_command_t :=
  snd <$> sorted_find string_ltb fst (of_chars name) (m_commands h).

(** The part of a turn after the line was split. *)
Definition execute (name : chars) (arguments : list chars) : con_prog bool :=
  s ← get_state;
  let h := c_handler s in
  if is_exit name then set_break true;; print graceful_exit;; mret false
  else if bool_decide (name = to_chars "help") && m_generate_help h then display_help;; mret true
  else
    match find_command name h with
    | Some c =>
        add_history name;;
        on_app (match callback c with Plain f => f | WithArguments f => f arguments end);;
        mret true
    | None =>
        print [Color red; Str (to_chars "Command not found. Please check the spelling and try again.");
               Color reset; Endl];;
        mret true
    end.

(** The body of the loop; false when it breaks out. *)
Definition turn (r : reading) : con_prog bool :=
  (if r_signal r then on_signal else mret ());;
  s ← get_state;
  if r_quit r || m_break (c_handler s) then print graceful_exit;; mret false
  else
    match str_split (str_trim (r_line r) true) " " with
    | [] => undefined
    | name :: arguments =>
        if bool_decide (name = []) then mret true
        else
          let name := if bool_decide (name = to_chars "?") then to_chars "help" else name in
          execute name arguments
    end.

(** The loop over the lines there are: true when it waits for another one. *)
Fixpoint run_loop (readings : list reading) : con_prog bool :=
  s ← get_state;
  if m_break (c_handler s) then mret false
  else
    match readings with
    | [] => mret true
    | r :: rest =>
        go_on ← turn r;
        if go_on : bool then
          (if r_late_signal r then on_signal else mret ());;
          run_loop rest
        else mret false
    end.

Definition run (readings : list reading) : con_prog bool :=
  set_break false;; run_loop readings.
End Console.

(** ** Lemmas: tables *)

Definition token_width (t : token) : nat := match t with Str s => List.length s | _ => 0%nat end.

(** How many characters each finished line of an output shows. *)
Fixpoint line_widths (w : nat) (ts : list token) : list nat :=
  match ts with
  | [] => []
  | Endl :: ts => w :: line_widths 0 ts
  | t :: ts => line_widths (w + token_width t) ts
  end.

Lemma longest_ge l s : s ∈ l -> (List.length s <= longest l)%nat.
Proof.
  assert (Hmono : forall (l : list chars) m, (m <= fold_left (fun m s => Nat.max m (List.length s)) l m)%nat).
  { clear. induction l as [|s l IH]; intros m; cbn; [done|]. etrans; [|apply IH]. lia. }
  unfold longest. generalize 0%nat. induction l as [|x l IH]; intros m; [by intros ?%elem_of_nil|].
  cbn. intros [->|H]%elem_of_cons; [|by apply IH]. etrans; [|apply Hmono]. lia.
Qed.

Lemma str_pad_length s n : (List.length s <= n)%nat -> List.length (str_pad s n) = n.
Proof.
  intros H. unfold str_pad. destruct (Nat.ltb_spec (List.length s) n); [|lia].
  rewrite length_app, repeat_length. lia.
Qed.

Lemma pad_longest l s : s ∈ l -> List.length (str_pad s (longest l)) = longest l.
Proof. intros. by apply str_pad_length, longest_ge. Qed.

Lemma rule_lines total k : line_widths 0 (rule total ++ k) = total :: line_widths 0 k.
Proof. cbn. by rewrite repeat_length, Nat.add_0_r. Qed.

(** Rows of one width make a table of that width. *)
Lemma table_lines {R} (row : R -> list token) total rows has_header out :
  (forall r k, r ∈ rows -> line_widths 0 (row r ++ k) = total :: line_widths 0 k) ->
  print_table row total rows has_header = Some out ->
  line_widths 0 out = repeat total (List.length rows + if has_header then 3 else 2) ++ [0%nat].
Proof.
  assert (Hbody : forall rs, (forall r k, r ∈ rs -> line_widths 0 (row r ++ k) = total :: line_widths 0 k) ->
    line_widths 0 (flat_map row rs ++ rule total ++ [Endl]) = repeat total (List.length rs + 1) ++ [0%nat]).
  { induction rs as [|r rs IH]; intros Hrow; [exact (rule_lines total [Endl])|].
    cbn [flat_map]. rewrite <- app_assoc, Hrow by by left. rewrite IH; [done|]. intros r' k Hr. apply Hrow. by right. }
  intros Hrow. unfold print_table. destruct has_header.
  - destruct rows as [|r rs]; [done|]. intros <-%(inj Some). rewrite rule_lines, Hrow, rule_lines, Hbody.
    + replace (List.length (r :: rs) + 3)%nat with (S (S (S (List.length rs + 1)))) by (cbn; lia). done.
    + intros r' k Hr. apply Hrow. by right.
    + by left.
  - intros <-%(inj Some). rewrite rule_lines, Hbody by done.
    by replace (List.length rows + 2)%nat with (S (List.length rows + 1)) by lia.
Qed.

(** ** Lemmas: commands *)

(** The first of some registrations under a name. *)
Fixpoint first_registered {A} (name : chars) (regs : list (chars * chars * callback_t (A := A)))
  : option callback_t :=
  match regs with
  | [] => None
  | (n, _, f) :: rest => if bool_decide (str_trim n true = name) then Some f else first_registered name rest
  end.

Definition registrations {A} (application_name : chars) (regs : list (chars * chars * callback_t (A := A)))
  : ConsoleHandler :=
  fold_left (fun h '(n, d, f) => register_command n d f h) regs (new_ConsoleHandler application_name).

Lemma to_of_chars l : to_chars (of_chars l) = l.
Proof. apply list_ascii_of_string_of_list_ascii. Qed.

(** An element of a sorted container is found under its key. *)
Lemma sorted_find_here {V} (m : list (string * V)) e :
  e ∈ m -> strictly_sorted string_ltb fst m -> sorted_find string_ltb fst e.1 m = Some e.
Proof.
  intros Hin Hs. destruct (sorted_find string_ltb fst e.1 m) as [y|] eqn:E.
  - destruct (sorted_find_Some _ _ string_order _ _ _ E) as [Hy Hk]. f_equal. symmetry.
    revert Hin Hy Hk. clear E. induction Hs as [|x m Hs IH Hx]; [by intros ?%elem_of_nil|].
    rewrite Forall_forall in Hx.
    intros [->|He]%elem_of_cons [->|Hy]%elem_of_cons Hk; [done| | |by apply IH].
    + specialize (Hx _ Hy). by rewrite Hk, (order_irrefl _ string_order) in Hx.
    + specialize (Hx _ He). by rewrite Hk, (order_irrefl _ string_order) in Hx.
  - apply (sorted_find_None _ _ string_order) with (y := e) in E; done.
Qed.

Lemma find_after_insert {V} (m : list (string * V)) k v k' :
  strictly_sorted string_ltb fst m ->
  snd <$> sorted_find string_ltb fst k' (sorted_insert string_ltb fst (k, v) m) =
  match snd <$> sorted_find string_ltb fst k' m with
  | Some w => Some w
  | None => if bool_decide (k = k') then Some v else None
  end.
Proof.
  intros Hs. pose proof (sorted_insert_sorted _ fst string_order (k, v) m Hs) as Hs'.
  destruct (sorted_find _ _ k' m) as [[k2 w]|] eqn:E; cbn.
  - pose proof (sorted_find_Some _ _ string_order _ _ _ E) as [Hin Hk]. cbn in Hk. subst k2.
    pose proof (sorted_find_here _ _ (sorted_insert_keeps _ _ _ _ _ Hin) Hs') as Hf. cbn [fst] in Hf. by rewrite Hf.
  - case_bool_decide as Hk; [subst k'|].
    + destruct (sorted_insert_has string_ltb fst string_order (k, v) m) as (y & Hy & Hky). cbn in Hky.
      assert (y = (k, v)) as ->.
      { apply elem_of_sorted_insert in Hy as [->|Hy]; [done|].
        rewrite (sorted_find_None _ _ string_order) in E. by destruct (E _ Hy). }
      pose proof (sorted_find_here _ _ Hy Hs') as Hf. cbn [fst] in Hf. by rewrite Hf.
    + replace (sorted_find _ _ k' _) with (@None (string * V)); [done|]. symmetry.
      apply (sorted_find_None _ _ string_order). intros y Hy.
      apply elem_of_sorted_insert in Hy as [->|Hy]; [done|].
      rewrite (sorted_find_None _ _ string_order) in E. by apply E.
Qed.

#[local] Arguments str_trim : simpl never.
#[local] Arguments str_split : simpl never.

Section Commands.
Context {A : Type}.
Notation registration := (chars * chars * callback_t (A := A))%type.

Lemma register_sorted n d (f : callback_t (A := A)) h :
  strictly_sorted string_ltb fst (m_commands h) ->
  strictly_sorted string_ltb fst (m_commands (register_command n d f h)).
Proof.
  intros Hs. unfold register_command. set (n' := str_trim n true).
  destruct (_ || _); [done|]. destruct (is_exit n'); [done|].
  apply sorted_insert_sorted; [exact string_order|exact Hs].
Qed.

(** What registering does to the lookup of a name that can be typed. *)
Lemma find_registered n d f (h : ConsoleHandler (A := A)) name :
  strictly_sorted string_ltb fst (m_commands h) -> name <> [] -> is_exit name = false ->
  callback <$> find_command name (register_command n d f h) =
  match callback <$> find_command name h with
  | Some g => Some g
  | None => if bool_decide (str_trim n true = name) then Some f else None
  end.
Proof.
  intros Hs Hne Hexit. unfold register_command. set (n' := str_trim n true).
  destruct (bool_decide (n' = []) || is_exit n') eqn:Hn.
  - rewrite bool_decide_eq_false_2; [by destruct (callback <$> _)|]. intros ->.
    rewrite Hexit, orb_false_r in Hn. by apply bool_decide_eq_true in Hn.
  - apply orb_false_iff in Hn as [_ ->]. unfold find_command. cbn [m_commands].
    rewrite find_after_insert by done. destruct (snd <$> _) as [c|]; [done|].
    case_bool_decide as Heq; case_bool_decide as Heq'; try done; exfalso.
    + apply Heq'. apply (f_equal to_chars) in Heq. by rewrite !to_of_chars in Heq.
    + apply Heq. by subst.
Qed.

Lemma generate_help_registered n d f (h : ConsoleHandler (A := A)) :
  m_generate_help (register_command n d f h) =
  if bool_decide (str_trim n true = to_chars "help") then false else m_generate_help h.
Proof.
  unfold register_command. set (n' := str_trim n true).
  destruct (bool_decide (n' = []) || is_exit n') eqn:Hn.
  - destruct (bool_decide_reflect (n' = to_chars "help")) as [Heq|]; [|done]. rewrite Heq in Hn. vm_compute in Hn. discriminate Hn.
  - apply orb_false_iff in Hn as [_ ->]. done.
Qed.

(** The console knows the first callback of every name, and shows its own help
    unless [help] was registered. *)
Lemma registrations_spec application_name (regs : list registration) name :
  name <> [] -> is_exit name = false ->
  callback <$> find_command name (registrations application_name regs) = first_registered name regs /\
  m_generate_help (registrations application_name regs) =
    bool_decide (first_registered (to_chars "help") regs = None).
Proof.
  intros Hne Hexit. unfold registrations.
  assert (H : forall h, strictly_sorted string_ltb fst (m_commands h) ->
    let h' := fold_left (fun h '(n, d, f) => register_command n d f h) regs h in
    callback <$> find_command name h' =
      match callback <$> find_command name h with Some g => Some g | None => first_registered name regs end /\
    m_generate_help h' = m_generate_help h && bool_decide (first_registered (to_chars "help") regs = None)).
  { induction regs as [|[[n d] f] regs IH]; intros h Hs; cbn [fold_left first_registered].
    - rewrite bool_decide_eq_true_2, andb_true_r by done. by destruct (callback <$> _).
    - destruct (IH (register_command n d f h) (register_sorted n d f h Hs)) as [-> ->].
      rewrite find_registered by done. rewrite generate_help_registered. split.
      + destruct (callback <$> _); [done|]. by destruct (bool_decide (str_trim n true = name)).
      + destruct (bool_decide (str_trim n true = to_chars "help")); [|done]. rewrite (bool_decide_eq_false_2 (Some f = None)) by done. by rewrite andb_false_r. }
  apply (H (new_ConsoleHandler application_name)). constructor.
Qed.

(** Every command comes from a registration. *)
Lemma registrations_from application_name (regs : list registration) (R : callback_t -> Prop) :
  Forall (fun reg => R reg.2) regs ->
  Forall (fun e => R (callback e.2)) (m_commands (registrations application_name regs)).
Proof.
  unfold registrations. intros Hregs.
  assert (H : forall h, Forall (fun e => R (callback e.2)) (m_commands h) ->
    Forall (fun e => R (callback e.2))
      (m_commands (fold_left (fun h '(n, d, f) => register_command n d f h) regs h))).
  { induction Hregs as [|[[n d] f] regs Hf Hregs IH]; intros h Hh; cbn [fold_left]; [done|]. apply IH.
    unfold register_command. set (n' := str_trim n true). destruct (_ || _); [done|].
    destruct (is_exit n'); [done|]. by apply sorted_insert_Forall. }
  apply H. constructor.
Qed.

(** What a line asks for. *)
Definition asked (line : chars) : chars :=
  let name := default [] (head (str_split (str_trim line true) " ")) in
  if bool_decide (name = to_chars "?") then to_chars "help" else name.

Definition arguments_of (line : chars) : list chars := tail (str_split (str_trim line true) " ").

(** A line without a signal, before the loop was told to end. *)
Definition reads (line : chars) (r : reading) (s : console (A := A)) : Prop :=
  r_quit r = false /\ r_signal r = false /\ r_line r = line /\ m_break (c_handler s) = false.

Lemma turn_executes line r s :
  reads line r s -> asked line <> [] ->
  turn r s = execute (asked line) (arguments_of line) s.
Proof.
  intros (Hq & Hsig & Hl & Hb) Hne. unfold turn, mbind, prog_bind, mret, prog_ret, get_state.
  rewrite Hsig. cbn. rewrite Hq, Hb, Hl. cbn. unfold asked, arguments_of in *.
  pose proof (parts_of_not_nil " " (str_trim line true)) as Hparts. rewrite <- str_split_parts in Hparts.
  destruct (str_split (str_trim line true) " ") as [|name args]; [done|]. cbn in *.
  destruct (bool_decide_reflect (name = [])) as [Hn|]; [|done]. exfalso. apply Hne. by subst.
Qed.

(** A space at the start stays. *)
Lemma str_trim_space line : exists l, str_trim (" "%char :: line) true = " "%char :: l.
Proof.
  assert (Hfound : forall l, is_Some (find_first_not_of whitespace (l ++ [" "%char]))).
  { induction l as [|c l [i IH]]; [by eexists|]. cbn [app find_first_not_of].
    destruct (existsb _ _); [rewrite IH|]; by eexists. }
  unfold str_trim, find_last_not_of. rewrite reverse_cons.
  destruct (Hfound (reverse line)) as [i ->]. cbn [fmap option_fmap option_map].
  rewrite Nat.add_1_r. cbn [take]. eexists. done.
Qed.

(** ** Theorems *)

(** A command that was registered runs, whatever the case it is typed in, with
    the other words as its arguments: the first callback of that name, on the
    application and the output.  [exit] and [quit] end the loop, a line without a
    registered name changes nothing but the output. *)
Theorem registered_command_runs application_name (regs : list registration) line r s :
  c_handler s = registrations application_name regs -> reads line r s -> asked line <> [] ->
  is_exit (asked line) = false ->
  match first_registered (asked line) regs with
  | Some f =>
      turn r s =
        match (match f with Plain g => g | WithArguments g => g (arguments_of line) end)
                (c_app s, c_out s) with
        | Returned _ (a, out) => Returned true (mk_console (c_handler s) a out (c_history s ++ [asked line]))
        | Thrown (a, out) => Thrown (mk_console (c_handler s) a out (c_history s ++ [asked line]))
        | Undefined => Undefined
        | OutOfFuel => OutOfFuel
        end
  | None =>
      exists out, turn r s = Returned true (mk_console (c_handler s) (c_app s) (c_out s ++ out) (c_history s))
  end.
Proof.
  intros Hh Hr Hne Hexit. rewrite (turn_executes _ _ _ Hr Hne). unfold execute, mbind, prog_bind, get_state.
  rewrite Hexit. destruct (registrations_spec application_name regs _ Hne Hexit) as [Hfind Hhelp].
  rewrite <- Hh in Hfind, Hhelp. rewrite Hhelp.
  destruct (first_registered (asked line) regs) as [f|] eqn:Hreg.
  - replace (bool_decide _ && bool_decide _) with false.
    2: { symmetry. apply andb_false_iff. destruct (bool_decide_reflect (asked line = to_chars "help")) as [Heq|]; [right|by left].
         rewrite <- Heq, Hreg. by apply bool_decide_eq_false_2. }
    destruct (find_command _ _) as [c|]; [|done]. injection Hfind as <-. unfold on_app, zoom, add_history. cbn.
    by destruct (callback c) as [g|g];
      [destruct (g (c_app s, c_out s)) as [? []|[]| |]|destruct (g (arguments_of line) (c_app s, c_out s)) as [? []|[]| |]].
  - destruct (bool_decide _ && bool_decide _).
    + unfold display_help, mbind, prog_bind, get_state, print. cbn. eexists. by rewrite <- app_assoc.
    + destruct (find_command _ _) as [c|]; [done|]. cbn. by eexists.
Qed.

(** The comment says leading spaces are trimmed, but a line that starts with
    one is ignored, whatever command follows. *)
Theorem leading_space_ignored line r s :
  reads (" "%char :: line) r s -> turn r s = Returned true s.
Proof.
  intros (Hq & Hsig & Hl & Hb). destruct (str_trim_space line) as [l Ht].
  unfold turn, mbind, prog_bind, mret, prog_ret, get_state.
  rewrite Hsig. cbn. by rewrite Hq, Hb, Hl, Ht, str_split_parts.
Qed.

(** Every line of a printed table is as wide as the table. *)
Theorem tables_aligned has_header :
  (forall rows out, print_table1 rows has_header = Some out ->
     line_widths 0 out =
       repeat (longest rows + 4) (List.length rows + if has_header then 3 else 2) ++ [0])%nat /\
  (forall rows out, print_table2 rows has_header = Some out ->
     line_widths 0 out = repeat (longest rows.*1 + longest rows.*2 + 7)
       (List.length rows + if has_header then 3 else 2) ++ [0])%nat /\
  (forall rows out, print_table3 rows has_header = Some out ->
     line_widths 0 out = repeat (longest rows.*1.*1 + longest rows.*1.*2 + longest rows.*2 + 10)
       (List.length rows + if has_header then 3 else 2) ++ [0])%nat.
Proof.
  split; [|split]; intros rows out Hout; eapply table_lines; [|exact Hout| |exact Hout| |exact Hout].
  - intros r k Hr. cbn. rewrite pad_longest by done. f_equal. lia.
  - intros [l r] k Hr. cbn. rewrite !pad_longest; [f_equal; lia|..];
      (apply list_elem_of_fmap; by exists (l, r)).
  - intros [[l m] r] k Hr. cbn. rewrite !pad_longest; [f_equal; lia|..].
    + apply list_elem_of_fmap. by exists (l, m, r).
    + apply list_elem_of_fmap. exists (l, m). split; [done|]. apply list_elem_of_fmap. by exists (l, m, r).
    + apply list_elem_of_fmap. exists (l, m). split; [done|]. apply list_elem_of_fmap. by exists (l, m, r).
Qed.
End Commands.

(** ** What running keeps

    Whatever is typed, the loop changes the application only as the registered
    commands do. *)
Section Keeping.
Context {A V : Type} (view : A -> V) (commands : list (string * console_command_t (A := A))).
Notation shown := (fun s : A * list token => view (fst s)).

Definition callback_keeps (f : callback_t (A := A)) : Prop :=
  match f with
  | Plain f => keeps shown f
  | WithArguments f => forall arguments, keeps shown (f arguments)
  end.

Hypothesis Hcommands : Forall (fun e => callback_keeps (callback e.2)) commands.

Definition kept (s0 s : console (A := A)) : Prop :=
  m_commands (c_handler s) = commands /\ view (c_app s) = view (c_app s0).

Lemma kept_execute name arguments s0 s :
  kept s0 s -> may (execute name arguments) s (fun _ => kept s0) (kept s0).
Proof using Hcommands.
  intros Hk. unfold execute. apply may_bind, may_get. destruct (is_exit name); [exact Hk|].
  destruct (_ && _); [exact Hk|]. unfold find_command. rewrite (proj1 Hk).
  destruct (sorted_find _ _ _ commands) as [[k c]|] eqn:E; [|exact Hk].
  apply (sorted_find_Some _ _ string_order) in E as [Hin _]. rewrite Forall_forall in Hcommands.
  specialize (Hcommands _ Hin). cbn [fmap option_fmap option_map snd] in *. apply may_bind. cbn.
  apply may_bind.
  assert (Hcall : forall m : app_prog (), keeps shown m -> may (on_app m)
    (mk_console (c_handler s) (c_app s) (c_out s) (c_history s ++ [name])) (fun _ => kept s0) (kept s0)).
  { intros m Hm. specialize (Hm (c_app s, c_out s)). unfold may, on_app, zoom. cbn.
    destruct Hk as [H1 H2]. destruct (m (c_app s, c_out s)) as [? [a o]|[a o]| |]; try done;
      split; cbn in *; congruence. }
  unfold callback_keeps in Hcommands. destruct (callback c) as [f|f]; [apply (Hcall f Hcommands)|apply (Hcall _ (Hcommands arguments))].
Qed.

Lemma kept_turn r s0 s : kept s0 s -> may (turn r) s (fun _ => kept s0) (kept s0).
Proof using Hcommands.
  intros Hk. unfold turn. apply may_bind.
  apply (may_weaken _ _ (fun _ => kept s0) _ (kept s0)); [by destruct (r_signal r)| |done].
  clear s Hk. intros _ s Hk. apply may_bind, may_get. destruct (_ || _); [exact Hk|]. destruct (str_split _ _) as [|name arguments]; [exact I|].
  destruct (bool_decide (name = [])); [exact Hk|]. by apply kept_execute.
Qed.

Theorem run_keeps readings s :
  m_commands (c_handler s) = commands ->
  may (run readings) s (fun _ s' => view (c_app s') = view (c_app s)) (fun s' => view (c_app s') = view (c_app s)).
Proof using Hcommands.
  intros Hs. unfold run. apply may_bind.
  apply (may_weaken _ _ (fun _ => kept s) _ (kept s)); [by split| |by intros ? []].
  intros _ s1 Hk1. apply (may_weaken _ _ (fun _ => kept s) _ (kept s)); [|by intros ? ? []|by intros ? []].
  revert s1 Hk1. induction readings as [|r readings IH]; intros s1 Hk1; cbn [run_loop]; apply may_bind, may_get.
  - by destruct (m_break _).
  - destruct (m_break _); [done|]. apply may_bind. eapply may_weaken; [by apply kept_turn| |done].
    cbn. intros [] s2 Hk2; [|done]. apply may_bind.
    apply (may_weaken _ _ (fun _ => kept s) _ (kept s)); [by destruct (r_late_signal r)| |done].
    intros _. apply IH.
Qed.
End Keeping.

(** ** A sample

    A command that counts its calls: it is found in capitals, ignored after a
    space, and the loop ends with [quit]. *)

Definition counting : list (chars * chars * callback_t (A := nat)) :=
  [(to_chars "Status", to_chars "Counts", Plain (fun '(n, out) => Returned () (S n, out)))].

Definition typed (line : string) : reading := mk_reading false (to_chars line) false false.

Definition after_lines (lines : list string) : option (bool * nat * list chars) :=
  match run (typed <$> lines)
          (mk_console (registrations (to_chars "Node") counting) 0%nat [] []) with
  | Returned waits s => Some (waits, c_app s, c_history s)
  | _ => None
  end.

Example status_counted :
  after_lines ["STATUS"; " status"; "status now"; "Quit"; "status"] =
    Some (false, 2%nat, [to_chars "status"; to_chars "status"]).
Proof. vm_compute. reflexivity. Qed.

Example help_shown :
  match run [typed "?"] (mk_console (registrations (to_chars "Node") counting) 0%nat [] []) with
  | Returned waits s => waits = true /\ line_widths 0 (c_out s) = [0; 14; 40; 40; 40; 40; 40; 40; 40; 0]%nat
  | _ => False
  end.
Proof. vm_compute. split; reflexivity. Qed.
