(* ===== verification/Colors.v ===== *)
(** * The colors of a Windows console

    [src/src/utilities/colors.cpp] and the branches for Windows of [colors.h]:
    a color is not text but a call that changes the attributes of the console.
    The constants of [wincon.h] are the class [WinCon]; the console is the state
    that its functions work on.  The enumeration is [COLOR] of [Console.v], whose
    numbers on Windows are never used. *)

From S2P Require Import Prelude Errors CryptoLib Mdb Text Program Console.
From Stdlib Require Import Strings.Ascii.

Class WinCon : Type := {
  FOREGROUND_BLUE : Z; FOREGROUND_GREEN : Z; FOREGROUND_RED : Z; FOREGROUND_INTENSITY : Z;
  BACKGROUND_BLUE : Z; BACKGROUND_GREEN : Z; BACKGROUND_RED : Z; BACKGROUND_INTENSITY : Z
}.

(** The values that are documented for them. *)
Class WinConLaws (W : WinCon) : Prop := {
  foreground_bits : (FOREGROUND_BLUE, FOREGROUND_GREEN, FOREGROUND_RED, FOREGROUND_INTENSITY) = (1, 2, 4, 8);
  background_bits : (BACKGROUND_BLUE, BACKGROUND_GREEN, BACKGROUND_RED, BACKGROUND_INTENSITY) = (16, 32, 64, 128)
}.

#[export] Instance COLOR_eq_decision : EqDecision COLOR.
Proof. solve_decision. Defined.

Section Colors.
Context {W : WinCon}.
Infix "||" := Z.lor.

Definition getColorCode (color : COLOR) : Z :=
  match color with
  | grey => FOREGROUND_BLUE || FOREGROUND_GREEN || FOREGROUND_RED
  | blue => FOREGROUND_BLUE || FOREGROUND_INTENSITY
  | green => FOREGROUND_GREEN || FOREGROUND_INTENSITY
  | cyan => FOREGROUND_BLUE || FOREGROUND_GREEN || FOREGROUND_INTENSITY
  | red => FOREGROUND_RED || FOREGROUND_INTENSITY
  | magenta => FOREGROUND_BLUE || FOREGROUND_RED || FOREGROUND_INTENSITY
  | yellow => FOREGROUND_GREEN || FOREGROUND_RED || FOREGROUND_INTENSITY
  | white => FOREGROUND_BLUE || FOREGROUND_GREEN || FOREGROUND_RED || FOREGROUND_INTENSITY
  | on_blue => BACKGROUND_BLUE
  | on_red => BACKGROUND_RED
  | on_magenta => BACKGROUND_BLUE || BACKGROUND_RED
  | on_grey => BACKGROUND_BLUE || BACKGROUND_GREEN || BACKGROUND_RED
  | on_green => BACKGROUND_GREEN || BACKGROUND_INTENSITY
  | on_cyan => BACKGROUND_BLUE || BACKGROUND_GREEN || BACKGROUND_INTENSITY
  | on_yellow => BACKGROUND_GREEN || BACKGROUND_RED || BACKGROUND_INTENSITY
  | on_white => BACKGROUND_BLUE || BACKGROUND_GREEN || BACKGROUND_RED || BACKGROUND_INTENSITY
  | reset => 0xFF
  end.

(** The console with what it shows, each character in the attributes it was
    written with; what the stream still holds back; and the two static variables
    of the operator. *)
Record win_console : Type := mk_win_console {
  w_attributes : Z;
  w_screen : list (ascii * Z);
  w_buffer : chars;
  w_background : Z;
  w_foreground : Z
}.

Definition initial_attributes : Z := getColorCode grey.

(** At the first use, on a console that has some attributes. *)
Definition new_win_console (attributes : Z) : win_console :=
  mk_win_console attributes [] [] (Z.land initial_attributes 0x00F0) (Z.land initial_attributes 0x000F).

Definition getConsoleTextAttr (c : win_console) : Z := w_attributes c.

Definition setConsoleTextAttr (attr : Z) (c : win_console) : win_console :=
  mk_win_console attr (w_screen c) (w_buffer c) (w_background c) (w_foreground c).

Definition flush_stream (c : win_console) : win_console :=
  mk_win_console (w_attributes c) (w_screen c ++ ((fun ch => (ch, w_attributes c)) <$> w_buffer c)) []
    (w_background c) (w_foreground c).

Definition write_text (s : chars) (c : win_console) : win_console :=
  mk_win_console (w_attributes c) (w_screen c) (w_buffer c ++ s) (w_background c) (w_foreground c).

Definition set_statics (background foreground : Z) (c : win_console) : win_console :=
  mk_win_console (w_attributes c) (w_screen c) (w_buffer c) background foreground.

(** The operator of a color. *)
Definition write_color (color : COLOR) (c : win_console) : win_console :=
  if bool_decide (color = reset) then
    set_statics (Z.land initial_attributes 0x00F0) (Z.land initial_attributes 0x000F)
      (setConsoleTextAttr initial_attributes (flush_stream c))
  else
    let colorCode := getColorCode color in
    let '(background, foreground, set) :=
      if negb (Z.land colorCode 0x00F0 =? 0) then (colorCode, w_foreground c, colorCode || w_foreground c)
      else if negb (Z.land colorCode 0x000F =? 0) then (w_background c, colorCode, w_background c || colorCode)
      else (w_background c, w_foreground c, 0) in
    setConsoleTextAttr set (flush_stream (set_statics background foreground c)).

Definition write_token (c : win_console) (t : token) : win_console :=
  match t with
  | Color color => write_color color c
  | Str s => write_text s c
  | Endl => flush_stream (write_text [ascii_of_nat 10] c)
  end.

Definition write_tokens (ts : list token) (c : win_console) : win_console := fold_left write_token ts c.
End Colors.

(** ** What is shown

    The reference: a color for the characters, and one for what is behind them
    where one was chosen, both kept until the next of the same kind. *)

Definition is_background (color : COLOR) : bool :=
  match color with
  | on_grey | on_red | on_green | on_yellow | on_blue | on_magenta | on_cyan | on_white => true
  | _ => false
  end.

Section Shown.
Context {W : WinCon} {Laws : WinConLaws W}.

Definition shade (front : COLOR) (back : option COLOR) : Z :=
  Z.lor (getColorCode front) (match back with Some color => getColorCode color | None => 0 end).

Definition in_color (attr : Z) (s : chars) : list (ascii * Z) := (fun ch => (ch, attr)) <$> s.

Fixpoint shown_in (attr : Z) (front : COLOR) (back : option COLOR) (ts : list token) : list (ascii * Z) :=
  match ts with
  | [] => []
  | Str s :: ts => in_color attr s ++ shown_in attr front back ts
  | Endl :: ts => in_color attr [ascii_of_nat 10] ++ shown_in attr front back ts
  | Color color :: ts =>
      if bool_decide (color = reset) then shown_in (shade grey None) grey None ts
      else if is_background color then shown_in (shade front (Some color)) front (Some color) ts
      else shown_in (shade color back) color back ts
  end.

(** The two kinds of colors are in separate bits, none is black. *)
Lemma color_bits color : color <> reset ->
  if is_background color
  then Z.land (getColorCode color) 0x00F0 <> 0
  else Z.land (getColorCode color) 0x00F0 = 0 /\ Z.land (getColorCode color) 0x000F <> 0.
Proof using Laws.
  pose proof foreground_bits as [= Hf1 Hf2 Hf3 Hf4]. pose proof background_bits as [= Hb1 Hb2 Hb3 Hb4].
  intros Hne. destruct color; cbn [is_background getColorCode]; rewrite ?Hf1, ?Hf2, ?Hf3, ?Hf4, ?Hb1, ?Hb2, ?Hb3, ?Hb4;
    try done; vm_compute; try split; intros E; discriminate E.
Qed.

Lemma initial_bits :
  Z.land initial_attributes 0x00F0 = 0 /\ Z.land initial_attributes 0x000F = getColorCode grey.
Proof using Laws.
  unfold initial_attributes. cbn [getColorCode]. by pose proof foreground_bits as [= -> -> -> _].
Qed.

Lemma flush_shows ts c front back :
  w_foreground c = getColorCode front -> w_background c = default 0 (getColorCode <$> back) ->
  w_screen (flush_stream (write_tokens ts c)) = w_screen (flush_stream c) ++ shown_in (w_attributes c) front back ts.
Proof using Laws.
  revert c front back. induction ts as [|t ts IH]; intros c front back Hf Hb; [by rewrite app_nil_r|].
  cbn [write_tokens fold_left shown_in]. change (fold_left write_token ts ?x) with (write_tokens ts x).
  destruct t as [color|s|].
  - cbn [write_token]. unfold write_color. case_bool_decide as Hr.
    + destruct initial_bits as [H1 H2]. rewrite (IH _ grey None) by done. cbn. rewrite app_nil_r.
      unfold shade, initial_attributes. by rewrite Z.lor_0_r.
    + pose proof (color_bits color Hr) as Hbits. destruct (is_background color) eqn:Ec.
      * rewrite (proj2 (Z.eqb_neq _ _) Hbits). cbn [negb]. rewrite (IH _ front (Some color)) by done. cbn.
        rewrite app_nil_r, Hf. unfold shade. by rewrite Z.lor_comm.
      * destruct Hbits as [H0 H1]. rewrite H0. cbn [negb Z.eqb]. rewrite (proj2 (Z.eqb_neq _ _) H1). cbn [negb].
        rewrite (IH _ color back) by done. cbn. rewrite app_nil_r, Hb, Z.lor_comm. by destruct back.
  - rewrite (IH _ front back) by done. cbn. unfold in_color. by rewrite fmap_app, !app_assoc.
  - rewrite (IH _ front back) by done. cbn. rewrite app_nil_r, fmap_app, <- !app_assoc. done.
Qed.

Lemma shown_text attr front back ts :
  (shown_in attr front back ts).*1 =
    flat_map (fun t => match t with Color _ => [] | Str s => s | Endl => [ascii_of_nat 10] end) ts.
Proof using.
  assert (H : forall a s, (in_color a s).*1 = s) by (intros a s; unfold in_color; rewrite <- list_fmap_compose; apply list_fmap_id).
  revert attr front back. induction ts as [|[color|s|] ts IH]; intros attr front back; [done|..]; cbn [shown_in flat_map].
  - repeat case_match; apply IH.
  - by rewrite fmap_app, H, IH.
  - by rewrite fmap_app, H, IH.
Qed.

(** On Windows every character is shown in the last color that was chosen for
    characters and on the last that was chosen to be behind them, since the last
    [reset], and the calls for the colors lose none of the text; before the first
    color the console's own attributes stay. *)
Theorem windows_colors attr ts :
  let screen := w_screen (flush_stream (write_tokens ts (new_win_console attr))) in
  screen = shown_in attr grey None ts /\
  screen.*1 = flat_map (fun t => match t with Color _ => [] | Str s => s | Endl => [ascii_of_nat 10] end) ts.
Proof using Laws.
  destruct initial_bits as [H1 H2]. cbv zeta.
  rewrite (flush_shows ts _ grey None) by done. split; [done|apply shown_text].
Qed.
End Shown.

(** ** A sample *)

Definition wincon : WinCon := {|
  FOREGROUND_BLUE := 1; FOREGROUND_GREEN := 2; FOREGROUND_RED := 4; FOREGROUND_INTENSITY := 8;
  BACKGROUND_BLUE := 16; BACKGROUND_GREEN := 32; BACKGROUND_RED := 64; BACKGROUND_INTENSITY := 128
|}.

Lemma wincon_laws : WinConLaws wincon.
Proof. by split. Qed.

(** Yellow on blue, then red on blue, then as at the start. *)
Example colors_shown :
  w_screen (write_tokens (W := wincon)
    [Str (to_chars "a"); Color yellow; Color on_blue; Str (to_chars "b"); Color red; Str (to_chars "c"); Color reset;
     Str (to_chars "d"); Endl] (new_win_console (W := wincon) 15)) =
  [("a", 15); ("b", 30); ("c", 28); ("d", 7); (ascii_of_nat 10, 7)]%char.
Proof. vm_compute. reflexivity. Qed.
