(* ===== verification/Lmdb.v ===== *)
(** * The database wrapper

    [src/src/database/db_lmdb.cpp] and [db_lmdb.h]: the classes [LMDB] (an
    environment), [LMDBDatabase] (a named database), [LMDBTransaction] and
    [LMDBCursor] over the library of [Mdb.v].

    A program on the environment object is a [prog LMDB]; a method of an open
    transaction is a [prog (LMDB * LMDBTransaction)], and [scoped] runs it on a
    fresh transaction and destroys that at the end of its scope.  The mutexes
    guard single calls and are not modelled: a program here is the sequence of
    calls of the one thread that holds them. *)

From S2P Require Import Prelude Errors CryptoLib Codec Concrete Float Mdb MemDb Program.
From Stdlib Require Import Strings.Byte.

(** [LMDB_SPACE_MULTIPLIER]. *)
Definition LMDB_SPACE_MULTIPLIER : Z := 1024 * 1024.

Section Lmdb.
Context {CL : CryptoLib} {M : MDB}.

#[local] Existing Instance key_eq_dec.
#[local] Existing Instance key_countable.

(** ** Objects *)

Record LMDBDatabase : Type := mk_LMDBDatabase {
  db_id : crypto_hash_t;
  m_dbi : Z
}.

(** A null [MDB_env *] after [close] is [None]. *)
Record LMDB : Type := mk_LMDB {
  lmdb_id : crypto_hash_t;
  m_growth_factor : Z;
  m_env : option mdb_env;
  m_databases : gmap crypto_hash_t LMDBDatabase;
  m_open_txns : Z
}.

(** [m_txn] is null once the transaction is committed or aborted; [txn_db] is
    null until a database is chosen. *)
Record LMDBTransaction : Type := mk_LMDBTransaction {
  m_txn : option mdb_txn;
  txn_db : option LMDBDatabase;
  m_readonly : bool
}.

Definition env_prog : Type -> Type := prog LMDB.
Definition txn_prog : Type -> Type := prog (LMDB * LMDBTransaction).

Definition set_env (e : mdb_env) (l : LMDB) : LMDB :=
  mk_LMDB (lmdb_id l) (m_growth_factor l) (Some e) (m_databases l) (m_open_txns l).

Definition set_open_txns (n : Z) (l : LMDB) : LMDB :=
  mk_LMDB (lmdb_id l) (m_growth_factor l) (m_env l) (m_databases l) n.

Definition set_txn (t : option mdb_txn) (x : LMDBTransaction) : LMDBTransaction :=
  mk_LMDBTransaction t (txn_db x) (m_readonly x).

(** ** [LMDB] *)

(** [operator MDB_env *&]. *)
Definition env_handle : env_prog mdb_env := fun l => or_throw (m_env l) l.

Definition open_transactions : env_prog Z := fun l => Returned (m_open_txns l) l.

Definition detect_map_size : env_prog ErrorCode :=
  n ← open_transactions;
  if negb (n =? 0) then mret LMDB_ERROR
  else
    l ← get_state;
    e ← deref (m_env l);
    let '(result, e') := mdb_env_set_mapsize e 0 in
    put_state (set_env e' l);;
    mret (code_of_int result).

(** [info] and [stats] fail on a closed environment; the structure they then
    return is not initialised, hence the parameter. *)
Definition info (indeterminate : Z) : env_prog (ErrorCode * Z) := fun l =>
  match m_env l with
  | None => Returned (LMDB_ERROR, indeterminate) l
  | Some e => let '(result, me_mapsize) := mdb_env_info e in
              Returned (code_of_int result, me_mapsize) l
  end.

Definition stats (indeterminate : Z) : env_prog (ErrorCode * Z) := fun l =>
  match m_env l with
  | None => Returned (LMDB_ERROR, indeterminate) l
  | Some e => let '(result, ms_psize) := mdb_env_stat e in
              Returned (code_of_int result, ms_psize) l
  end.

(** The error of [stats] is not looked at. *)
Definition memory_to_pages (indeterminate memory : Z) : env_prog (ErrorCode * Z) :=
  '(_, ms_psize) ← stats indeterminate;
  mret (SUCCESS, fl_ceil (fl_div DOUBLE (fl_of DOUBLE memory) (fl_of DOUBLE ms_psize))).

Definition expand_pages (indeterminate pages : Z) : env_prog ErrorCode :=
  n ← open_transactions;
  if negb (n =? 0) then mret LMDB_ERROR
  else
    '(info_error, me_mapsize) ← info indeterminate;
    if is_error info_error then mret info_error
    else
      '(stats_error, ms_psize) ← stats indeterminate;
      if is_error stats_error then mret stats_error
      else
        let new_size := wrap64 (wrap64 (ms_psize * pages) + me_mapsize) in
        l ← get_state;
        e ← deref (m_env l);
        let '(result, e') := mdb_env_set_mapsize e new_size in
        put_state (set_env e' l);;
        mret (code_of_int result).

Definition expand (indeterminate : Z) : env_prog ErrorCode :=
  l ← get_state;
  '(error, pages) ← memory_to_pages indeterminate (wrap64 (m_growth_factor l * 1024 * 1024));
  if is_error error then mret error else expand_pages indeterminate pages.

Definition flush (force : bool) : env_prog ErrorCode := fun l =>
  match m_env l with
  | None => Returned LMDB_ERROR l
  | Some e => let '(result, e') := mdb_env_sync e force in
              Returned (code_of_int result) (set_env e' l)
  end.

(** The registry of environments is not part of the state: [close] also
    erases the entry of this one. *)
Definition close : env_prog ErrorCode :=
  error ← flush true;
  if is_error error then mret error
  else
    l ← get_state;
    put_state (mk_LMDB (lmdb_id l) (m_growth_factor l) None (m_databases l) (m_open_txns l));;
    mret SUCCESS.

Definition get_database (id : crypto_hash_t) : env_prog LMDBDatabase := fun l =>
  or_throw (m_databases l !! id) l.

Definition env_get_flags (indeterminate : Z) : env_prog (ErrorCode * Z) := fun l =>
  match m_env l with
  | None => Returned (LMDB_ERROR, 0) l
  | Some e => let '(result, env_flags) := mdb_env_get_flags e in
              Returned (code_of_int result, env_flags) l
  end.

Definition set_flags (flags : Z) (flag_state : bool) : env_prog ErrorCode :=
  l ← get_state;
  e ← deref (m_env l);
  let '(result, e') := mdb_env_set_flags e flags flag_state in
  put_state (set_env e' l);;
  mret (code_of_int result).

Definition growth_factor (l : LMDB) : Z := m_growth_factor l.

Definition max_key_size : env_prog (ErrorCode * Z) := fun l =>
  match m_env l with
  | None => Returned (LMDB_ERROR, 0) l
  | Some e => Returned (SUCCESS, mdb_env_get_maxkeysize e) l
  end.

Definition max_readers : env_prog (ErrorCode * Z) := fun l =>
  match m_env l with
  | None => Returned (LMDB_ERROR, 0) l
  | Some e => let '(result, readers) := mdb_env_get_maxreaders e in
              Returned (code_of_int result, readers) l
  end.

(** [m_open_txns] counts the transactions that can write. *)
Definition transaction_register (readonly : bool) : env_prog () := fun l =>
  if readonly then Returned () l else Returned () (set_open_txns (wrap64 (m_open_txns l + 1)) l).

Definition transaction_unregister (readonly : bool) : env_prog () := fun l =>
  if readonly then Returned () l
  else if 0 <? m_open_txns l then Returned () (set_open_txns (m_open_txns l - 1) l)
  else Returned () l.

(** ** [LMDBTransaction] *)

(** The retry loop of [txn_setup], with the number of turns left; it only ends
    by [break] or [throw]. *)
Fixpoint txn_setup_loop (tries : nat) (readonly : bool) : env_prog mdb_txn :=
  match tries with
  | O => undefined
  | S tries' =>
      e ← env_handle;
      l ← get_state;
      let '(mdb_result, e', result) := mdb_txn_begin e (if readonly then MDB_RDONLY else 0) in
      put_state (set_env e' l);;
      if mdb_result =? MDB_SUCCESS then mret result
      else if (mdb_result =? MDB_MAP_RESIZED) && negb (Nat.eqb tries' 0) then
        detect_map_size;; txn_setup_loop tries' readonly
      else throw
  end.

Definition txn_setup (db : option LMDBDatabase) (readonly : bool) : env_prog LMDBTransaction :=
  result ← txn_setup_loop 3 readonly;
  transaction_register readonly;;
  mret (mk_LMDBTransaction (Some result) db readonly).

(** A method of the environment, called from a transaction's scope. *)
Definition on_env {A} (m : env_prog A) : txn_prog A := fun '(l, x) =>
  match m l with
  | Returned a l' => Returned a (l', x)
  | Thrown l' => Thrown (l', x)
  | Undefined => Undefined
  | OutOfFuel => OutOfFuel
  end.

Definition abort : txn_prog () := fun '(l, x) =>
  match m_txn x with
  | None => Returned () (l, x)
  | Some t =>
      (e ← on_env (deref (m_env l));
       put_state (set_env (mdb_txn_abort e t) l, x);;
       on_env (transaction_unregister (m_readonly x));;
       '(l', x') ← get_state;
       put_state (l', set_txn None x')) (l, x)
  end.

Definition commit : txn_prog ErrorCode := fun '(l, x) =>
  match m_txn x with
  | None => Returned LMDB_ERROR (l, x)
  | Some t =>
      (e ← on_env (deref (m_env l));
       let '(result, e') := mdb_txn_commit e t in
       put_state (set_env e' l, x);;
       on_env (transaction_unregister (m_readonly x));;
       '(l', x') ← get_state;
       put_state (l', set_txn None x');;
       mret (code_of_int result)) (l, x)
  end.

Definition set_database (db : LMDBDatabase) : txn_prog () := fun '(l, x) =>
  Returned () (l, mk_LMDBTransaction (m_txn x) (Some db) (m_readonly x)).

(** [*m_txn] and [*m_db]. *)
Definition txn_handles : txn_prog (mdb_txn * Z) :=
  '(_, x) ← get_state;
  t ← deref (m_txn x);
  db ← deref (txn_db x);
  mret (t, m_dbi db).

(** The transaction's handle after a call that changed it. *)
Definition txn_update (t : mdb_txn) : txn_prog () := fun '(l, x) =>
  Returned () (l, set_txn (Some t) x).

Definition txn_put (key value : bytes) (flags : Z) : txn_prog ErrorCode :=
  '(t, dbi) ← txn_handles;
  let '(result, t') := mdb_put t dbi key value flags in
  txn_update t';;
  mret (code_of_int result).

Definition txn_del (key : bytes) (value : option bytes) : txn_prog ErrorCode :=
  '(t, dbi) ← txn_handles;
  let '(result, t') := mdb_del t dbi key value in
  txn_update t';;
  mret (code_of_int result).

Definition txn_exists (key : bytes) : txn_prog bool :=
  '(t, dbi) ← txn_handles;
  let '(result, _) := mdb_get t dbi key in
  mret (result =? MDB_SUCCESS).

(** The reader is empty when the key was not found. *)
Definition txn_get (key : bytes) : txn_prog (ErrorCode * bytes) :=
  '(t, dbi) ← txn_handles;
  let '(result, value) := mdb_get t dbi key in
  mret (code_of_int result, if result =? MDB_SUCCESS then value else []).

Definition txn_id : txn_prog (ErrorCode * Z) := fun '(l, x) =>
  match m_txn x with
  | None => Returned (LMDB_BAD_TXN, 0) (l, x)
  | Some t => Returned (SUCCESS, mdb_txn_id t) (l, x)
  end.

Definition renew : txn_prog ErrorCode := fun '(l, x) =>
  match m_txn x with
  | Some t =>
      if m_readonly x then
        let '(result, t') := mdb_txn_renew t in
        Returned (code_of_int result) (l, set_txn (Some t') x)
      else Returned LMDB_BAD_TXN (l, x)
  | None => Returned LMDB_BAD_TXN (l, x)
  end.

(** [reset] calls [mdb_txn_renew] too. *)
Definition reset : txn_prog ErrorCode := renew.

(** The block of a transaction: the constructor, the body, and the destructor
    (which aborts what was not committed) however the block is left. *)
Definition scoped {A} (new : env_prog LMDBTransaction) (body : txn_prog A) : env_prog A := fun l =>
  match new l with
  | Returned x l1 =>
      match body (l1, x) with
      | Returned a s =>
          match abort s with
          | Returned _ (l2, _) => Returned a l2
          | Thrown (l2, _) => Thrown l2
          | Undefined => Undefined
          | OutOfFuel => OutOfFuel
          end
      | Thrown s =>
          match abort s with
          | Returned _ (l2, _) | Thrown (l2, _) => Thrown l2
          | Undefined => Undefined
          | OutOfFuel => OutOfFuel
          end
      | Undefined => Undefined
      | OutOfFuel => OutOfFuel
      end
  | Thrown l1 => Thrown l1
  | Undefined => Undefined
  | OutOfFuel => OutOfFuel
  end.

(** ** The retry of a full map *)

(** [MDB_CHECK_TXN_EXPAND]: true when the macro jumps back to the label. *)
Definition MDB_CHECK_TXN_EXPAND (indeterminate : Z) (error : ErrorCode) : txn_prog bool :=
  if bool_decide (error = LMDB_MAP_FULL) || bool_decide (error = LMDB_TXN_FULL) then
    abort;;
    exp_error ← on_env (expand indeterminate);
    mret (negb (is_error exp_error))
  else mret false.

(** A call whose error goes through the macro and is then returned; [None] is
    the jump. *)
Definition checked (indeterminate : Z) (m : txn_prog ErrorCode)
  (k : txn_prog (option ErrorCode)) : txn_prog (option ErrorCode) :=
  error ← m;
  again ← MDB_CHECK_TXN_EXPAND indeterminate error;
  if again : bool then mret None
  else if is_error error then mret (Some error)
  else k.

(** The last lines of every such block: [commit], the macro, [return error]. *)
Definition checked_commit (indeterminate : Z) : txn_prog (option ErrorCode) :=
  error ← commit;
  again ← MDB_CHECK_TXN_EXPAND indeterminate error;
  if again : bool then mret None else mret (Some error).

(** [try_again:] the transaction's block, repeated as long as it jumps back. *)
Fixpoint try_again (fuel : nat) (new : env_prog LMDBTransaction)
  (body : txn_prog (option ErrorCode)) : env_prog ErrorCode :=
  match fuel with
  | O => fun _ => OutOfFuel
  | S fuel' =>
      result ← scoped new body;
      match result with
      | Some error => mret error
      | None => try_again fuel' new body
      end
  end.

(** ** [LMDBDatabase] *)

(** [LMDB::transaction] and [LMDBDatabase::transaction]: the latter looks the
    database up again by its id. *)
Definition env_transaction (readonly : bool) : env_prog LMDBTransaction := txn_setup None readonly.

Definition db_transaction (db : LMDBDatabase) (readonly : bool) : env_prog LMDBTransaction :=
  if m_dbi db =? 0 then throw
  else
    found ← get_database (db_id db);
    txn_setup (Some found) readonly.

Definition db_put (fuel : nat) (indeterminate : Z) (db : LMDBDatabase) (key value : bytes)
  (flags : Z) : env_prog ErrorCode :=
  try_again fuel (db_transaction db false)
    (checked indeterminate (txn_put key value flags) (checked_commit indeterminate)).

Definition db_del (fuel : nat) (indeterminate : Z) (db : LMDBDatabase) (key : bytes)
  (value : option bytes) : env_prog ErrorCode :=
  try_again fuel (db_transaction db false)
    (checked indeterminate (txn_del key value) (checked_commit indeterminate)).

(** [drop] looks at the raw result code, retries whatever [expand] returned,
    and commits after any other result. *)
Definition db_drop (fuel : nat) (indeterminate : Z) (db : LMDBDatabase) (delete_db : bool)
  : env_prog ErrorCode :=
  try_again fuel (txn_setup None false)
    ('(_, x) ← get_state;
     t ← deref (m_txn x);
     let '(result, t') := mdb_drop t (m_dbi db) delete_db in
     txn_update t';;
     if result =? MDB_MAP_FULL then
       abort;; on_env (expand indeterminate);; mret None
     else error ← commit; mret (Some error)).

Definition db_exists (db : LMDBDatabase) (key : bytes) : env_prog bool :=
  scoped (db_transaction db true) (txn_exists key).

Definition db_get (db : LMDBDatabase) (key : bytes) : env_prog (ErrorCode * bytes) :=
  scoped (db_transaction db true) (txn_get key).

(** The forms that deserialize the value they found. *)
Definition db_get_as {V} (rd : reader V) (dflt : V) (db : LMDBDatabase) (key : bytes)
  : env_prog (ErrorCode * V) :=
  '(error, i_value) ← db_get db key;
  if is_error error then mret (error, dflt)
  else
    value ← or_throw (fst <$> rd i_value);
    mret (error, value).

(** ** [LMDBCursor] *)

(** The constructor, on the transaction's handle and database. *)
Definition cursor_new : txn_prog mdb_cursor :=
  '(t, dbi) ← txn_handles;
  let '(result, c) := mdb_cursor_open t dbi in
  if result =? MDB_SUCCESS then mret c else throw.

(** The form that positions the cursor at a key. *)
Definition cursor_get (c : mdb_cursor) (key : bytes) (op : MDB_cursor_op)
  : ErrorCode * bytes * bytes * mdb_cursor :=
  let '(result, i_key, i_value, c') := mdb_cursor_get c key op in
  if result =? MDB_SUCCESS then (code_of_int result, i_key, i_value, c')
  else (code_of_int result, [], [], c').

(** [get] with an integer key; reading the key found back can throw. *)
Definition cursor_get_uint64 (c : mdb_cursor) (key : Z) (op : MDB_cursor_op)
  : txn_prog (ErrorCode * Z * bytes) :=
  let '(error, r_key, r_value, _) := cursor_get c (put_uint64 key) op in
  if is_error error then mret (error, 0, [])
  else
    r ← or_throw (fst <$> get_uint64 r_key);
    mret (error, r, r_value).

(** The loop of [count]: the number of pairs a cursor walks over. *)
Fixpoint count_loop (fuel : nat) (c : mdb_cursor) (count : Z) : txn_prog Z :=
  match fuel with
  | O => fun _ => OutOfFuel
  | S fuel' =>
      let '(result, _, _, c') := mdb_cursor_get c [] (if count =? 0 then MDB_FIRST else MDB_NEXT) in
      if result =? MDB_SUCCESS then count_loop fuel' c' (count + 1) else mret count
  end.

Definition db_count (fuel : nat) (db : LMDBDatabase) : env_prog Z :=
  found ← get_database (db_id db);
  scoped (db_transaction found true) (c ← cursor_new; count_loop fuel c 0).

(** The loop of [list_keys]; [last_key] starts as an empty reader. *)
Fixpoint list_keys_loop (fuel : nat) (ignore_duplicates : bool) (c : mdb_cursor)
  (last_key : bytes) (results : list bytes) : txn_prog (list bytes) :=
  match fuel with
  | O => fun _ => OutOfFuel
  | S fuel' =>
      let '(result, r_key, _, c') :=
        mdb_cursor_get c [] (match results with [] => MDB_FIRST | _ => MDB_NEXT end) in
      if result =? MDB_SUCCESS then
        if ignore_duplicates && bool_decide (r_key = last_key) then
          list_keys_loop fuel' ignore_duplicates c' last_key results
        else list_keys_loop fuel' ignore_duplicates c' r_key (results ++ [r_key])
      else mret results
  end.

Definition list_keys (fuel : nat) (ignore_duplicates : bool) (db : LMDBDatabase)
  : env_prog (list bytes) :=
  scoped (db_transaction db true) (c ← cursor_new; list_keys_loop fuel ignore_duplicates c [] []).

(** [get_all]: the value of every key that can still be read. *)
Fixpoint get_values (db : LMDBDatabase) (keys : list bytes) : env_prog (list bytes) :=
  match keys with
  | [] => mret []
  | key :: keys' =>
      '(error, value) ← db_get db key;
      rest ← get_values db keys';
      mret (if is_error error then rest else value :: rest)
  end.

Definition db_get_all (fuel : nat) (db : LMDBDatabase) : env_prog (list bytes) :=
  keys ← list_keys fuel true db;
  get_values db keys.

(** The forms that deserialize every value and every key. *)
Definition db_get_all_as {V} (rd : reader V) (fuel : nat) (db : LMDBDatabase) : env_prog (list V) :=
  all ← db_get_all fuel db;
  or_throw (mapM (fun v => fst <$> rd v) all).

Definition list_keys_as {K} (rd : reader K) (fuel : nat) (db : LMDBDatabase) : env_prog (list K) :=
  all ← list_keys fuel true db;
  or_throw (mapM (fun v => fst <$> rd v) all).
End Lmdb.

(** ** Lemmas: the environment *)

Lemma pages_range memory psize :
  1 <= memory <= 2 ^ 40 -> 1 <= psize <= 2 ^ 16 ->
  1 <= fl_ceil (fl_div DOUBLE (fl_of DOUBLE memory) (fl_of DOUBLE psize)) <= 2 ^ 42.
Proof.
  intros Hm Hp. pose proof GRID_pos as HG. rewrite !(fl_of_exact 53) by lia. unfold fl_div.
  pose proof (rnd_error 53 ltac:(lia) (memory * GRID) (psize * GRID) ltac:(nia)) as He.
  set (V := rnd 53 (memory * GRID) (psize * GRID)) in *.
  specialize (He ltac:(apply Z.div_le_lower_bound; unfold GRID in *; nia)).
  assert (psize * V <= 2 * (memory * GRID)) by (unfold GRID in *; nia).
  assert (memory * GRID <= 2 * (psize * V)) by (unfold GRID in *; nia).
  assert (0 < V) by nia. assert (V <= 2 ^ 41 * GRID) by nia.
  unfold fl_ceil. clearbody V. unfold GRID in *. split.
  - apply Z.div_le_lower_bound; lia.
  - apply Z.div_le_upper_bound; lia.
Qed.

Section LmdbFacts.
Context {CL : CryptoLib} {M : MDB} {Laws : MDBLaws M}.
Variables (l0 : LMDB) (indeterminate : Z).

(** The growth factor is between one mebibyte and one tebibyte. *)
Hypothesis Hgrowth : 1 <= m_growth_factor l0 <= 2 ^ 20.

(** An open environment: [n] open writers, [C] committed, a map of at least
    [B] bytes, and the rest of the object as in [l0]. *)
Record at_rest (n : Z) (C : contents) (B : Z) (l : LMDB) : Prop := {
  rest_id : lmdb_id l = lmdb_id l0;
  rest_growth : m_growth_factor l = m_growth_factor l0;
  rest_databases : m_databases l = m_databases l0;
  rest_open : m_open_txns l = n;
  rest_env : exists e, m_env l = Some e /\ env_contents e = C /\ B <= env_mapsize e
}.

(** A live transaction that sees [V]; one that is over; one that is either,
    where nothing was committed. *)
Definition live (ro : bool) (C V : contents) (B : Z) (s : LMDB * LMDBTransaction) : Prop :=
  at_rest (if ro then 0 else 1) C B (fst s) /\ m_readonly (snd s) = ro /\
  exists t, m_txn (snd s) = Some t /\ txn_contents t = V.

Definition over (C : contents) (B : Z) (s : LMDB * LMDBTransaction) : Prop :=
  at_rest 0 C B (fst s) /\ m_txn (snd s) = None.

Definition pending (ro : bool) (C : contents) (B : Z) (s : LMDB * LMDBTransaction) : Prop :=
  (exists V, live ro C V B s) \/ over C B s.

Definition selected (d : LMDBDatabase) (s : LMDB * LMDBTransaction) : Prop :=
  txn_db (snd s) = Some d.

Lemma at_rest_set_env n C B l e C' B' :
  at_rest n C B l -> env_contents e = C' -> B' <= env_mapsize e ->
  at_rest n C' B' (set_env e l).
Proof using. intros [] ? ?. constructor; try done. by exists e. Qed.

Lemma at_rest_open n n' C B l : at_rest n C B l -> at_rest n' C B (set_open_txns n' l).
Proof using. intros []. by constructor. Qed.

Lemma at_rest_weaken n C B B' l : at_rest n C B l -> B' <= B -> at_rest n C B' l.
Proof using.
  intros [? ? ? ? (e & ? & ? & ?)] ?. constructor; try done. exists e. split_and!; [done..|lia].
Qed.

Lemma code_success r : code_of_int r = SUCCESS <-> r = MDB_SUCCESS.
Proof using. apply code_of_int_success. Qed.

(** The size that an expansion asks for: one page at least is added, and the
    arithmetic does not wrap. *)
Lemma expand_size memory mapsize :
  memory = wrap64 (m_growth_factor l0 * 1024 * 1024) ->
  0 <= mapsize <= mapsize_limit ->
  mapsize < wrap64 (wrap64 (page_size *
    fl_ceil (fl_div DOUBLE (fl_of DOUBLE memory) (fl_of DOUBLE page_size))) + mapsize).
Proof using Hgrowth.
  intros -> Hm. pose proof page_size_range as Hp. pose proof mapsize_limit_range as Hl.
  rewrite (wrap64_id (_ * 1024 * 1024)) by (unfold uintw; lia).
  pose proof (pages_range (m_growth_factor l0 * 1024 * 1024) page_size ltac:(lia) Hp) as Hpages.
  set (pages := fl_ceil _) in *. clearbody pages.
  assert (page_size <= page_size * pages <= 2 ^ 58) by nia.
  rewrite !wrap64_id; unfold uintw; rewrite ?wrap64_id by (unfold uintw; lia); lia.
Qed.

Lemma stats_open l e :
  m_env l = Some e -> stats indeterminate l = Returned (SUCCESS, page_size) l.
Proof using. intros He. unfold stats. by rewrite He, stat_ok. Qed.

Lemma info_open l e :
  m_env l = Some e -> info indeterminate l = Returned (SUCCESS, env_mapsize e) l.
Proof using. intros He. unfold info. by rewrite He, info_ok. Qed.

Lemma runs_env_handle l e (Q : mdb_env -> LMDB -> Prop) X :
  m_env l = Some e -> Q e l -> runs env_handle l Q X.
Proof using. intros He HQ. unfold runs, env_handle. by rewrite He. Qed.

Lemma expand_spec C B l :
  at_rest 0 C B l ->
  runs (expand indeterminate) l
    (fun e l' => at_rest 0 C (if is_error e then B else B + 1) l') (fun _ => False).
Proof using Hgrowth.
  intros Hr. pose proof Hr as [Hid Hg Hdb Hopen (e & Henv & HC & HB)].
  unfold expand, memory_to_pages, expand_pages, open_transactions.
  unfold runs, mbind, prog_bind, mret, prog_ret, get_state, put_state.
  rewrite (stats_open l e Henv). cbn. rewrite Hopen. cbn. rewrite (info_open l e Henv). cbn.
  rewrite (stats_open l e Henv). cbn. rewrite Henv. cbn.
  destruct (mdb_env_set_mapsize e _) as [r e'] eqn:E. cbn.
  destruct (set_mapsize_ok _ _ _ _ E) as (HC' & Hok & _ & Hfail).
  pose proof (mapsize_range e) as Hrange.
  pose proof (expand_size _ _ (f_equal _ (f_equal (fun g => g * 1024 * 1024) Hg)) Hrange) as Hsz.
  eapply at_rest_set_env; [exact Hr|congruence|].
  rewrite is_error_code_of_int. unfold MDB_SUCCESS in *.
  destruct (Z.eqb_spec r 0) as [->|Hr0]; cbn.
  - specialize (Hok eq_refl). lia.
  - by rewrite Hfail.
Qed.

Lemma detect_map_size_spec n C B l :
  at_rest n C B l ->
  runs detect_map_size l (fun _ l' => at_rest n C B l') (fun _ => False).
Proof using.
  intros Hr. pose proof Hr as [_ _ _ _ (e & Henv & HC & HB)].
  unfold detect_map_size, open_transactions.
  unfold runs, mbind, prog_bind, mret, prog_ret, get_state, put_state. cbn.
  destruct (negb (m_open_txns l =? 0)); [done|]. rewrite Henv. cbn.
  destruct (mdb_env_set_mapsize e 0) as [r e'] eqn:E. cbn.
  destruct (set_mapsize_ok _ _ _ _ E) as (HC' & _ & Hok & Hfail).
  eapply at_rest_set_env; [exact Hr|congruence|].
  destruct (Z.eq_dec r MDB_SUCCESS) as [->|Hr0]; [specialize (Hok eq_refl eq_refl); lia|].
  rewrite Hfail; done.
Qed.

(** ** Lemmas: transactions *)

Lemma txn_setup_loop_spec tries ro n C B l :
  (0 < tries)%nat -> at_rest n C B l ->
  runs (txn_setup_loop tries ro) l
    (fun t l' => at_rest n C B l' /\ txn_contents t = C) (at_rest n C B).
Proof using.
  revert l. induction tries as [|tries IH]; intros l Ht Hr; [lia|]. cbn [txn_setup_loop].
  pose proof Hr as [_ _ _ _ (e & Henv & HC & HB)].
  apply runs_bind. eapply runs_env_handle; [done|].
  apply runs_bind, runs_get.
  destruct (mdb_txn_begin e _) as [[r e'] t] eqn:E.
  destruct (begin_ok _ _ _ _ _ E) as (HC' & Hm & Hok).
  apply runs_bind, runs_put.
  assert (Hr' : at_rest n C B (set_env e' l)) by (eapply at_rest_set_env; [exact Hr|congruence|lia]).
  destruct (Z.eqb_spec r MDB_SUCCESS) as [->|_].
  - apply runs_ret. split; [done|]. rewrite Hok; done.
  - destruct ((r =? MDB_MAP_RESIZED) && negb (Nat.eqb tries 0)) eqn:Hres; [|by apply runs_throw].
    apply andb_true_iff in Hres as [_ Hn]. apply negb_true_iff, Nat.eqb_neq in Hn.
    apply runs_bind. eapply runs_weaken; [by apply detect_map_size_spec| |done].
    cbn. intros _ l' Hl'. apply IH; [lia|done].
Qed.

Lemma txn_setup_spec db ro C B l :
  at_rest 0 C B l ->
  runs (txn_setup db ro) l
    (fun x l' => live ro C C B (l', x) /\ txn_db x = db) (at_rest 0 C B).
Proof using.
  intros Hr. unfold txn_setup. apply runs_bind.
  eapply runs_weaken; [apply (txn_setup_loop_spec 3 ro 0 C B l ltac:(lia) Hr)| |done].
  cbn. intros t l' [Hr' Ht].
  unfold transaction_register, runs, mbind, prog_bind, mret, prog_ret. destruct ro; cbn.
  - split; [|done]. split; [done|]. split; [done|]. by exists t.
  - split; [|done]. split; [|split; [done|by exists t]]. cbn.
    rewrite (rest_open _ _ _ _ Hr'). by eapply at_rest_open.
Qed.

Lemma abort_spec ro C B s :
  pending ro C B s ->
  runs abort s (fun _ s' => over C B s') (fun _ => False).
Proof using.
  destruct s as [l x]. intros [(V & Hr & Hro & t & Ht & HV)|[Hr Ht]]; cbn in *;
    unfold runs, abort; cbv beta iota; rewrite Ht; [|by split].
  pose proof Hr as [_ _ _ Hopen (e & Henv & HC & HB)].
  destruct (abort_ok e t) as [HC' Hm].
  unfold on_env, mbind, prog_bind, mret, prog_ret, get_state, put_state, deref,
    transaction_unregister.
  cbv beta iota. rewrite Henv. cbn. rewrite Hro. 
  assert (Hr' : at_rest (if ro then 0 else 1) C B (set_env (mdb_txn_abort e t) l))
    by (eapply at_rest_set_env; [exact Hr|congruence|lia]).
  destruct ro; cbn; [by split|]. rewrite Hopen. cbn. split; [|done]. cbn. by eapply at_rest_open.
Qed.

Lemma commit_spec C V B s :
  live false C V B s ->
  runs commit s (fun e s' => over (if is_error e then C else V) B s') (fun _ => False).
Proof using.
  destruct s as [l x]. intros (Hr & Hro & t & Ht & HV); cbn in *. unfold runs, commit.
  cbv beta iota. rewrite Ht.
  pose proof Hr as [_ _ _ Hopen (e & Henv & HC & HB)].
  unfold on_env, mbind, prog_bind, mret, prog_ret, get_state, put_state, deref,
    transaction_unregister.
  cbv beta iota. rewrite Henv. cbn. destruct (mdb_txn_commit e t) as [r e'] eqn:E.
  destruct (commit_ok _ _ _ _ E) as [Hm HC']. cbn. rewrite Hro. cbn. rewrite Hopen. cbn.
  split; [|done]. cbn. rewrite is_error_code_of_int. eapply at_rest_open, at_rest_set_env; [done| |lia].
  rewrite HC'. unfold MDB_SUCCESS. destruct (Z.eqb_spec r 0); cbn; destruct (decide (r = 0)); congruence.
Qed.

Lemma set_database_spec ro C V B d s :
  live ro C V B s ->
  runs (set_database d) s (fun _ s' => live ro C V B s' /\ selected d s') (fun _ => False).
Proof using. destruct s as [l x]. by intros (? & ? & ?). Qed.

Lemma txn_put_spec C V B d k v s :
  live false C V B s -> selected d s ->
  runs (txn_put k v 0) s
    (fun e s' => selected d s' /\
       if is_error e then pending false C B s'
       else live false C (<[(m_dbi d, k) := v]> V) B s') (fun _ => False).
Proof using.
  destruct s as [l x]. intros (Hr & Hro & t & Ht & HV) Hd; cbn in *. red in Hd. cbn in Hd.
  unfold txn_put, txn_handles, txn_update.
  unfold runs, mbind, prog_bind, mret, prog_ret, get_state, put_state, deref.
  rewrite Ht, Hd. cbn. destruct (mdb_put t (m_dbi d) k v 0) as [r t'] eqn:E. cbn.
  split; [done|]. rewrite is_error_code_of_int.
  destruct (Z.eqb_spec r 0) as [->|]; cbn.
  - split; [done|]. split; [done|]. exists t'. split; [done|]. rewrite <- HV. by apply put_ok.
  - left. exists (txn_contents t'). split; [done|]. split; [done|]. by exists t'.
Qed.

Lemma txn_del_spec C V B d k v s :
  live false C V B s -> selected d s ->
  runs (txn_del k v) s
    (fun e s' => selected d s' /\
       if is_error e then pending false C B s'
       else is_Some (V !! (m_dbi d, k)) /\ live false C (delete (m_dbi d, k) V) B s')
    (fun _ => False).
Proof using.
  destruct s as [l x]. intros (Hr & Hro & t & Ht & HV) Hd; cbn in *. red in Hd. cbn in Hd.
  unfold txn_del, txn_handles, txn_update.
  unfold runs, mbind, prog_bind, mret, prog_ret, get_state, put_state, deref.
  rewrite Ht, Hd. cbn. destruct (mdb_del t (m_dbi d) k v) as [r t'] eqn:E. cbn.
  split; [done|]. rewrite is_error_code_of_int.
  destruct (Z.eqb_spec r 0) as [->|]; cbn.
  - destruct (del_ok _ _ _ _ _ E) as [Hs HV']. subst V. split; [done|].
    split; [done|]. split; [done|]. by exists t'.
  - left. exists (txn_contents t'). split; [done|]. split; [done|]. by exists t'.
Qed.

Lemma txn_exists_spec ro C V B d k s :
  live ro C V B s -> selected d s ->
  runs (txn_exists k) s
    (fun b s' => s' = s /\ b = bool_decide (is_Some (V !! (m_dbi d, k)))) (fun _ => False).
Proof using.
  destruct s as [l x]. intros (Hr & Hro & t & Ht & HV) Hd; cbn in *. red in Hd. cbn in Hd.
  unfold txn_exists, txn_handles.
  unfold runs, mbind, prog_bind, mret, prog_ret, get_state, deref. rewrite Ht, Hd. cbn.
  pose proof (get_ok t (m_dbi d) k) as Hget. rewrite HV in Hget.
  destruct (V !! (m_dbi d, k)) as [v|] eqn:E.
  - rewrite Hget. by split.
  - destruct (mdb_get t (m_dbi d) k) as [r v]. cbn in *. split; [done|].
    by apply Z.eqb_neq.
Qed.

Lemma txn_get_spec ro C V B d k s :
  live ro C V B s -> selected d s ->
  runs (txn_get k) s
    (fun r s' => s' = s /\
       match V !! (m_dbi d, k) with
       | Some v => r = (SUCCESS, v)
       | None => is_error (fst r) = true
       end) (fun _ => False).
Proof using.
  destruct s as [l x]. intros (Hr & Hro & t & Ht & HV) Hd; cbn in *. red in Hd. cbn in Hd.
  unfold txn_get, txn_handles.
  unfold runs, mbind, prog_bind, mret, prog_ret, get_state, deref. rewrite Ht, Hd. cbn.
  pose proof (get_ok t (m_dbi d) k) as Hget. rewrite HV in Hget.
  destruct (V !! (m_dbi d, k)) as [v|] eqn:E.
  - rewrite Hget. cbn. done.
  - destruct (mdb_get t (m_dbi d) k) as [r v]. cbn in *. split; [done|].
    rewrite is_error_code_of_int. by apply negb_true_iff, Z.eqb_neq.
Qed.

(** ** Lemmas: the retry loop *)

(** How an attempt ends, when [F] is what it means to commit: a jump back with
    a larger map and nothing committed, an error and nothing committed, or
    success and [F] committed. *)
Definition attempt_post (C F : contents) (B : Z) (r : option ErrorCode)
  (s : LMDB * LMDBTransaction) : Prop :=
  match r with
  | None => over C (B + 1) s
  | Some e => if is_error e then pending false C B s else over F B s
  end.

Lemma runs_on_env {A} (m : env_prog A) l x (Q : A -> LMDB * LMDBTransaction -> Prop) X :
  runs m l (fun a l' => Q a (l', x)) (fun l' => X (l', x)) -> runs (on_env m) (l, x) Q X.
Proof using. unfold runs, on_env. by destruct (m l). Qed.

Lemma MDB_CHECK_spec C B e s :
  pending false C B s ->
  runs (MDB_CHECK_TXN_EXPAND indeterminate e) s
    (fun again s' => if again : bool then over C (B + 1) s' else
       pending false C B s' /\ (is_error e = false -> s' = s)) (fun _ => False).
Proof using Hgrowth.
  intros Hp. unfold MDB_CHECK_TXN_EXPAND.
  destruct (bool_decide (e = LMDB_MAP_FULL) || bool_decide (e = LMDB_TXN_FULL)) eqn:He;
    [|apply runs_ret; by split].
  apply runs_bind. eapply runs_conseq; [apply (abort_spec false _ _ _ Hp)|].
  cbn. intros _ [l x] [Hr Hx]. cbn in *. apply runs_bind, runs_on_env.
  eapply runs_conseq; [apply (expand_spec C B l Hr)|].
  cbn. intros e' l' Hl'. apply runs_ret. destruct (is_error e'); cbn; [|by split].
  split; [by right|]. intros Hne. exfalso.
  apply orb_true_iff in He as [->%bool_decide_eq_true| ->%bool_decide_eq_true]; done.
Qed.

(** A checked call followed by the rest of the attempt. *)
Lemma checked_spec C F B m k s :
  runs m s (fun e s' => if is_error e then pending false C B s'
                        else pending false C B s' /\
                             runs k s' (attempt_post C F B) (pending false C B)) (fun _ => False) ->
  runs (checked indeterminate m k) s (attempt_post C F B) (pending false C B).
Proof using Hgrowth.
  intros Hm. unfold checked. apply runs_bind.
  eapply runs_weaken; [exact Hm| |done]. cbn. intros e s1 H1.
  assert (Hp : pending false C B s1) by (by destruct (is_error e); [|destruct H1]).
  apply runs_bind. eapply runs_weaken; [apply (MDB_CHECK_spec C B e s1 Hp)| |done].
  cbn. intros [|] s2 H2; [by apply runs_ret|]. destruct H2 as [H2 Heq].
  destruct (is_error e) eqn:He.
  - apply runs_ret. cbn. by rewrite He.
  - rewrite Heq by done. by destruct H1.
Qed.

Lemma live_pending ro C V B s : live ro C V B s -> pending ro C B s.
Proof using. intros ?. left. by exists V. Qed.

Lemma checked_commit_spec C V B s :
  live false C V B s ->
  runs (checked_commit indeterminate) s (attempt_post C V B) (pending false C B).
Proof using Hgrowth.
  intros Hl. unfold checked_commit. apply runs_bind.
  eapply runs_weaken; [apply (commit_spec _ _ _ _ Hl)| |done]. cbn. intros e s1 H1.
  apply runs_bind. destruct (is_error e) eqn:He.
  - eapply runs_weaken; [apply (MDB_CHECK_spec C B e s1); by right| |done].
    cbn. intros [|] s2 H2; apply runs_ret; [done|]. cbn. rewrite He. by destruct H2.
  - assert (e = LMDB_MAP_FULL \/ e = LMDB_TXN_FULL -> False) as Hne by (by intros [-> | ->]).
    unfold MDB_CHECK_TXN_EXPAND. rewrite !bool_decide_eq_false_2 by tauto. cbn [orb].
    apply runs_ret, runs_ret. cbn. by rewrite He.
Qed.

(** The scope of a transaction. *)
Lemma scoped_spec {A} new (body : txn_prog A) ro C B l (Q : A -> LMDB -> Prop)
    (P : A -> LMDB * LMDBTransaction -> Prop) (I : LMDB * LMDBTransaction -> Prop) :
  runs new l (fun x l' => I (l', x)) (at_rest 0 C B) ->
  (forall s, I s -> runs body s P (pending ro C B)) ->
  (forall a s, P a s -> runs abort s (fun _ s' => Q a (fst s')) (fun _ => False)) ->
  runs (scoped new body) l Q (at_rest 0 C B).
Proof using.
  intros Hnew Hbody Hend. unfold runs, scoped in *. destruct (new l) as [x l1|l1| |]; try done.
  specialize (Hbody _ Hnew). destruct (body (l1, x)) as [a s|s| |]; try done.
  - specialize (Hend _ _ Hbody). by destruct (abort s) as [_ [l2 ?]|[l2 ?]| |].
  - pose proof (abort_spec ro C B s Hbody) as Ha. unfold runs in Ha.
    destruct (abort s) as [_ [l2 ?]|[l2 ?]| |]; try done. apply Ha.
Qed.

Lemma over_abort C B s : over C B s -> runs abort s (fun _ s' => s' = s) (fun _ => False).
Proof using. destruct s as [l x]. intros [_ Hx]. cbn in Hx. unfold runs, abort. by rewrite Hx. Qed.

Lemma try_again_spec new body C F fuel B l (J : Z -> LMDB * LMDBTransaction -> Prop) :
  (forall B l, at_rest 0 C B l -> runs new l (fun x l' => J B (l', x)) (at_rest 0 C B)) ->
  (forall B s, J B s -> runs body s (attempt_post C F B) (pending false C B)) ->
  at_rest 0 C B l -> mapsize_limit - B < Z.of_nat fuel ->
  runs (try_again fuel new body) l
    (fun e l' => at_rest 0 (if is_error e then C else F) B l') (at_rest 0 C B).
Proof using.
  intros Hnew Hbody. revert B l. induction fuel as [|fuel IH]; intros B l Hr Hf; cbn [try_again].
  { destruct Hr as [_ _ _ _ (e & _ & _ & HB)]. pose proof (mapsize_range e). lia. }
  apply runs_bind.
  eapply (runs_conseq _ _ (fun r l' => match r with
    | None => at_rest 0 C (B + 1) l'
    | Some e => at_rest 0 (if is_error e then C else F) B l' end)).
  - eapply (scoped_spec _ _ false C B l _ (attempt_post C F B)); [by apply Hnew|by apply Hbody|].
    intros [e|] s; cbn [attempt_post].
    + destruct (is_error e).
      * intros Hp. eapply runs_conseq; [by apply (abort_spec false)|]. cbn. by intros _ s' [? _].
      * intros Ho. eapply runs_conseq; [by eapply over_abort|]. cbn. intros _ s' ->. apply Ho.
    + intros Ho. eapply runs_conseq; [by eapply over_abort|]. cbn. intros _ s' ->. apply Ho.
  - cbn. intros [e|] l' Hl'; [by apply runs_ret|].
    eapply runs_weaken; [apply (IH (B + 1) l' Hl'); lia| |].
    + cbn. intros e l2 Hl2. eapply at_rest_weaken; [exact Hl2|lia].
    + intros l2 Hl2. eapply at_rest_weaken; [exact Hl2|lia].
Qed.

(** ** Lemmas: databases *)

(** The database object is the one that the environment has for its id. *)
Definition registered (db : LMDBDatabase) : Prop :=
  m_dbi db <> 0 /\ m_databases l0 !! db_id db = Some db.

Lemma db_transaction_spec db ro C B l :
  registered db -> at_rest 0 C B l ->
  runs (db_transaction db ro) l
    (fun x l' => live ro C C B (l', x) /\ selected db (l', x)) (at_rest 0 C B).
Proof using.
  intros [Hdbi Hdb] Hr. unfold db_transaction. rewrite (proj2 (Z.eqb_neq _ _) Hdbi).
  apply runs_bind. unfold get_database, runs at 1. rewrite (rest_databases _ _ _ _ Hr), Hdb. cbn.
  by apply txn_setup_spec.
Qed.

(** Reading: a body on a read-only transaction that leaves it as it is. *)
Lemma reading_spec {A} db (body : txn_prog A) C B l (R : A -> Prop) :
  registered db -> at_rest 0 C B l ->
  (forall s, live true C C B s -> selected db s ->
     runs body s (fun a s' => s' = s /\ R a) (fun s' => s' = s)) ->
  runs (scoped (db_transaction db true) body) l
    (fun a l' => at_rest 0 C B l' /\ R a) (at_rest 0 C B).
Proof using.
  intros Hdb Hr Hbody.
  eapply (scoped_spec _ _ true C B l _ (fun a s => live true C C B s /\ R a)
            (fun s => live true C C B s /\ selected db s)).
  - by apply db_transaction_spec.
  - intros s [Hl Hs]. eapply runs_weaken; [by apply Hbody| |].
    + by intros a s' [-> ?].
    + intros s' ->. by eapply live_pending.
  - intros a s [Hl HR]. eapply runs_conseq; [eapply abort_spec, live_pending, Hl|].
    cbn. intros _ s' [? _]. by split.
Qed.

Lemma db_exists_spec db k C B l :
  registered db -> at_rest 0 C B l ->
  runs (db_exists db k) l
    (fun b l' => at_rest 0 C B l' /\ b = bool_decide (is_Some (C !! (m_dbi db, k)))) (at_rest 0 C B).
Proof using.
  intros Hdb Hr. apply reading_spec; [done..|]. intros s Hl Hs.
  eapply runs_weaken; [by eapply txn_exists_spec| |done]. done.
Qed.

(** What a lookup hands out. *)
Definition lookup_result (C : contents) (db : LMDBDatabase) (k : bytes)
  (r : ErrorCode * bytes) : Prop :=
  match C !! (m_dbi db, k) with
  | Some v => r = (SUCCESS, v)
  | None => is_error (fst r) = true
  end.

Lemma db_get_spec db k C B l :
  registered db -> at_rest 0 C B l ->
  runs (db_get db k) l
    (fun r l' => at_rest 0 C B l' /\ lookup_result C db k r) (at_rest 0 C B).
Proof using.
  intros Hdb Hr. apply reading_spec; [done..|]. intros s Hl Hs.
  eapply runs_weaken; [by eapply txn_get_spec| |done]. done.
Qed.

Lemma db_get_as_spec {V} (rd : reader V) dflt db k C B l :
  registered db -> at_rest 0 C B l ->
  runs (db_get_as rd dflt db k) l
    (fun r l' => at_rest 0 C B l' /\
       match C !! (m_dbi db, k) with
       | Some v => exists x rest, rd v = Some (x, rest) /\ r = (SUCCESS, x)
       | None => is_error (fst r) = true /\ snd r = dflt
       end)
    (at_rest 0 C B).
Proof using.
  intros Hdb Hr. unfold db_get_as. apply runs_bind.
  eapply runs_weaken; [by apply db_get_spec| |done]. cbn. intros [e v] l' [Hr' Hl].
  unfold lookup_result in Hl. destruct (C !! _) as [v'|]; cbn in *.
  - injection Hl as -> ->. cbn. apply runs_bind. destruct (rd v') as [[x rest]|]; cbn.
    + apply runs_ret, runs_ret. split; [done|]. by repeat eexists.
    + by apply runs_throw.
  - rewrite Hl. by apply runs_ret.
Qed.

Lemma db_put_spec fuel db k v C B l :
  registered db -> at_rest 0 C B l -> mapsize_limit - B < Z.of_nat fuel ->
  runs (db_put fuel indeterminate db k v 0) l
    (fun e l' => at_rest 0 (if is_error e then C else <[(m_dbi db, k) := v]> C) B l')
    (at_rest 0 C B).
Proof using Hgrowth.
  intros Hdb Hr Hf.
  eapply (try_again_spec _ _ _ _ _ _ _ (fun B s => live false C C B s /\ selected db s));
    [|clear B l Hr Hf|exact Hr|exact Hf].
  - intros. by apply db_transaction_spec.
  - intros B s [Hl Hs]. apply checked_spec. eapply runs_weaken; [by eapply txn_put_spec| |done].
    cbn. intros e s1 [_ H1]. destruct (is_error e); [done|].
    split; [by eapply live_pending|]. by apply checked_commit_spec.
Qed.

Lemma db_del_spec fuel db k v C B l :
  registered db -> at_rest 0 C B l -> mapsize_limit - B < Z.of_nat fuel ->
  runs (db_del fuel indeterminate db k v) l
    (fun e l' => at_rest 0 (if is_error e then C else delete (m_dbi db, k) C) B l')
    (at_rest 0 C B).
Proof using Hgrowth.
  intros Hdb Hr Hf.
  eapply (try_again_spec _ _ _ _ _ _ _ (fun B s => live false C C B s /\ selected db s));
    [|clear B l Hr Hf|exact Hr|exact Hf].
  - intros. by apply db_transaction_spec.
  - intros B s [Hl Hs]. apply checked_spec. eapply runs_weaken; [by eapply txn_del_spec| |done].
    cbn. intros e s1 [_ H1]. destruct (is_error e); [done|]. destruct H1 as [_ H1].
    split; [by eapply live_pending|]. by apply checked_commit_spec.
Qed.
End LmdbFacts.

(** More attempts than were needed change nothing. *)
Lemma try_again_more {CL : CryptoLib} {M : MDB} fuel fuel' new body l e l' :
  try_again fuel new body l = Returned e l' -> (fuel <= fuel')%nat ->
  try_again fuel' new body l = Returned e l'.
Proof.
  revert fuel' l. induction fuel as [|fuel IH]; intros [|fuel'] l H Hle; try done; [lia|].
  cbn [try_again] in *. unfold mbind, prog_bind in *.
  destruct (scoped new body l) as [[error|] l1|l1| |]; try done. apply IH; [done|lia].
Qed.

(** What a state is measured from can be moved along. *)
Section Rebase.
Context {CL : CryptoLib} {M : MDB} {Laws : MDBLaws M}.

Lemma at_rest_here l0 n C B l : at_rest l0 n C B l -> at_rest l n C B l.
Proof. intros []. by constructor. Qed.

Lemma at_rest_from l0 n C B l n' C' B' l' :
  at_rest l0 n C B l -> at_rest l n' C' B' l' -> at_rest l0 n' C' B' l'.
Proof. intros [? ? ? ? _] [? ? ? ? ?]. constructor; congruence || done. Qed.
End Rebase.

(** ** Lemmas: counting *)

Section CountFacts.
Context {CL : CryptoLib} {M : MDB} {Laws : MDBLaws M} {CLaws : MDBCursorLaws M}.

(** The pairs of one database. *)
Definition table (C : contents) (d : Z) : contents := filter (fun p => fst (fst p) = d) C.

Lemma sorted_NoDup (l : list (bytes * bytes)) :
  StronglySorted (fun p q => bytes_lt (fst p) (fst q) = true) l -> NoDup l.
Proof using.
  induction 1 as [|p l Hs IH Hp]; constructor; [|done].
  intros Hin. rewrite Forall_forall in Hp. specialize (Hp _ Hin). cbn in Hp.
  by rewrite (order_irrefl bytes_lt bytes_lt_order) in Hp.
Qed.

Lemma table_size (C : contents) d (items : list (bytes * bytes)) :
  NoDup items -> (forall k v, (k, v) ∈ items <-> C !! (d, k) = Some v) ->
  List.length items = size (table C d).
Proof using.
  intros Hnd Hin. rewrite <- length_map_to_list.
  rewrite <- (length_fmap (fun p : bytes * bytes => ((d, fst p), snd p)) items).
  apply Permutation_length, NoDup_Permutation.
  - apply NoDup_fmap; [|done]. intros [k v] [k' v'] [= -> ->]. done.
  - apply NoDup_map_to_list.
  - intros [[d' k] v]. rewrite elem_of_map_to_list, list_elem_of_fmap. unfold table.
    rewrite map_lookup_filter_Some. cbn. split.
    + intros ([k' v'] & [= -> -> ->] & Hp). cbn. split; [|done]. by apply Hin.
    + intros [Hk ->]. exists (k, v). split; [done|]. by apply Hin.
Qed.

(** The call that reaches the pair number [n] of a walk from the start. *)
Definition op_at (n : nat) : MDB_cursor_op := match n with O => MDB_FIRST | _ => MDB_NEXT end.

Lemma cursor_walk c n :
  n = O \/ cursor_next c = n ->
  exists c', cursor_items c' = cursor_items c /\
    match cursor_items c !! n with
    | None => exists r k' v', mdb_cursor_get c [] (op_at n) = (r, k', v', c') /\ r <> MDB_SUCCESS
    | Some p => mdb_cursor_get c [] (op_at n) = (MDB_SUCCESS, fst p, snd p, c') /\
        cursor_next c' = S n
    end.
Proof using CLaws.
  destruct n as [|n]; intros Hpos.
  - destruct (cursor_first_ok c []) as (c' & Hi & Hc). exists c'. split; [done|].
    by destruct (cursor_items c).
  - destruct Hpos as [|Hpos]; [done|]. destruct (cursor_next_ok c []) as (c' & Hi & Hc).
    exists c'. split; [done|]. by rewrite Hpos in Hc.
Qed.

Lemma count_loop_spec fuel c n s :
  (n <= List.length (cursor_items c))%nat -> (n = O \/ cursor_next c = n) ->
  (List.length (cursor_items c) - n < fuel)%nat ->
  runs (count_loop fuel c (Z.of_nat n)) s
    (fun r s' => s' = s /\ r = Z.of_nat (List.length (cursor_items c))) (fun s' => s' = s).
Proof using CLaws.
  revert c n. induction fuel as [|fuel IH]; intros c n Hn Hpos Hf; [lia|]. cbn [count_loop].
  replace (if Z.of_nat n =? 0 then MDB_FIRST else MDB_NEXT) with (op_at n) by by destruct n.
  destruct (cursor_walk c n Hpos) as (c' & Hi & Hc).
  destruct (cursor_items c !! n) as [p|] eqn:E.
  - destruct Hc as [-> Hnext]. cbn. apply lookup_lt_Some in E.
    replace (Z.of_nat n + 1) with (Z.of_nat (S n)) by lia. rewrite <- Hi.
    apply IH; rewrite ?Hi; [lia|by right|lia].
  - destruct Hc as (r & k' & v' & -> & Hr). apply lookup_ge_None in E.
    rewrite (proj2 (Z.eqb_neq _ _) Hr). apply runs_ret. split; [done|]. f_equal. lia.
Qed.

(** The keys in order, when they are distinct and none is empty. *)
Lemma list_keys_loop_spec fuel c n last s keys :
  keys = fst <$> cursor_items c -> NoDup keys -> [] ∉ keys ->
  (n <= List.length keys)%nat -> (n = O \/ cursor_next c = n) ->
  (List.length keys - n < fuel)%nat ->
  match n with O => last = [] | S n' => keys !! n' = Some last end ->
  runs (list_keys_loop fuel true c last (take n keys)) s
    (fun r s' => s' = s /\ r = keys) (fun s' => s' = s).
Proof using CLaws.
  intros Hk Hnd Hne. revert c n last Hk.
  induction fuel as [|fuel IH]; intros c n last Hk Hn Hpos Hf Hlast; [lia|]. cbn [list_keys_loop].
  replace (match take n keys with [] => MDB_FIRST | _ => MDB_NEXT end) with (op_at n)
    by (destruct n; [done|]; by destruct keys; [cbn in Hn; lia|]).
  destruct (cursor_walk c n Hpos) as (c' & Hi & Hc).
  destruct (cursor_items c !! n) as [p|] eqn:E.
  - destruct Hc as [-> Hnext]. cbn [Z.eqb MDB_SUCCESS].
    assert (Hp : keys !! n = Some (fst p)) by (by rewrite Hk, list_lookup_fmap, E).
    rewrite bool_decide_eq_false_2; cbn [andb].
    + rewrite <- (take_S_r keys n (fst p)) by done. apply lookup_lt_Some in Hp as Hlt.
      apply IH; [by rewrite Hi|lia|by right|lia|done].
    + intros Heq. destruct n as [|n].
      * subst last. apply Hne. rewrite <- Heq. by eapply list_elem_of_lookup_2.
      * rewrite <- Heq in Hlast. pose proof (NoDup_lookup _ _ _ _ Hnd Hlast Hp). lia.
  - destruct Hc as (r & k' & v' & -> & Hr). rewrite (proj2 (Z.eqb_neq _ _) Hr).
    apply runs_ret. split; [done|]. apply take_ge. rewrite Hk, length_fmap. by apply lookup_ge_None.
Qed.

(** A fresh cursor of a reading transaction. *)
Lemma cursor_new_spec l0 C B d s :
  live l0 true C C B s -> selected d s ->
  runs cursor_new s
    (fun c s' => s' = s /\
       (forall k v, (k, v) ∈ cursor_items c <-> C !! (m_dbi d, k) = Some v) /\
       StronglySorted (fun p q => bytes_lt (fst p) (fst q) = true) (cursor_items c))
    (fun s' => s' = s).
Proof using CLaws.
  destruct s as [l x]. intros (Hr & Hro & t & Ht & HV) Hd; cbn in *. red in Hd. cbn in Hd.
  unfold cursor_new, txn_handles.
  unfold runs, mbind, prog_bind, mret, prog_ret, get_state, deref. rewrite Ht, Hd. cbn.
  destruct (mdb_cursor_open t (m_dbi d)) as [r c] eqn:E.
  destruct (Z.eqb_spec r MDB_SUCCESS) as [Hok|]; [|done]. cbn. split; [done|].
  rewrite <- HV. by eapply cursor_open_ok.
Qed.

Lemma db_count_spec l0 fuel db C B l :
  registered l0 db -> at_rest l0 0 C B l -> (size (table C (m_dbi db)) < fuel)%nat ->
  runs (db_count fuel db) l
    (fun n l' => at_rest l0 0 C B l' /\ n = Z.of_nat (size (table C (m_dbi db))))
    (at_rest l0 0 C B).
Proof using CLaws.
  intros Hdb Hr Hf. unfold db_count. apply runs_bind.
  unfold get_database, runs at 1. rewrite (rest_databases _ _ _ _ _ Hr), (proj2 Hdb). cbn.
  apply reading_spec; [done..|]. intros s Hl Hs. apply runs_bind.
  eapply runs_weaken; [by eapply cursor_new_spec| |done].
  cbn. intros c s1 (-> & Hin & Hsort).
  pose proof (table_size C (m_dbi db) _ (sorted_NoDup _ Hsort) Hin) as Hlen.
  eapply runs_weaken; [apply (count_loop_spec fuel c 0 s); [lia|by left|lia]| |done].
  cbn. intros n s1 [-> ->]. split; [done|]. by rewrite Hlen.
Qed.

(** The pairs of a database as a list. *)
Definition pairs_of (C : contents) (d : Z) (items : list (bytes * bytes)) : Prop :=
  NoDup (fst <$> items) /\ forall k v, (k, v) ∈ items <-> C !! (d, k) = Some v.

Lemma sorted_NoDup_keys (l : list (bytes * bytes)) :
  StronglySorted (fun p q => bytes_lt (fst p) (fst q) = true) l -> NoDup (fst <$> l).
Proof using.
  induction 1 as [|p l Hs IH Hp]; cbn; constructor; [|done].
  intros (q & Heq & Hin)%list_elem_of_fmap. rewrite Forall_forall in Hp. specialize (Hp _ Hin).
  rewrite Heq in Hp. by rewrite (order_irrefl bytes_lt bytes_lt_order) in Hp.
Qed.

Lemma list_keys_spec l0 fuel db C B l :
  registered l0 db -> at_rest l0 0 C B l -> (size (table C (m_dbi db)) < fuel)%nat ->
  C !! (m_dbi db, []) = None ->
  runs (list_keys fuel true db) l
    (fun keys l' => at_rest l0 0 C B l' /\
       exists items, pairs_of C (m_dbi db) items /\ keys = fst <$> items)
    (at_rest l0 0 C B).
Proof using CLaws.
  intros Hdb Hr Hf Hempty. apply reading_spec; [done..|]. intros s Hl Hs. apply runs_bind.
  eapply runs_weaken; [by eapply cursor_new_spec| |done].
  cbn. intros c s1 (-> & Hin & Hsort).
  pose proof (table_size C (m_dbi db) _ (sorted_NoDup _ Hsort) Hin) as Hlen.
  pose proof (sorted_NoDup_keys _ Hsort) as Hnd.
  eapply runs_weaken; [apply (list_keys_loop_spec fuel c 0 [] s (fst <$> cursor_items c))| |done].
  - done.
  - done.
  - intros ([k v] & Heq & Hp)%list_elem_of_fmap. cbn in Heq. subst k. apply Hin in Hp. congruence.
  - lia.
  - by left.
  - rewrite length_fmap. lia.
  - done.
  - cbn. intros keys s' [-> ->]. split; [done|]. exists (cursor_items c). by split.
Qed.

Lemma get_values_spec l0 db C B l items :
  registered l0 db -> at_rest l0 0 C B l ->
  (forall k v, (k, v) ∈ items -> C !! (m_dbi db, k) = Some v) ->
  runs (get_values db (fst <$> items)) l
    (fun vs l' => at_rest l0 0 C B l' /\ vs = snd <$> items) (at_rest l0 0 C B).
Proof using.
  intros Hdb. revert l. induction items as [|[k v] items IH]; intros l Hr Hin; cbn.
  { by apply runs_ret. }
  apply runs_bind. eapply runs_weaken; [by eapply db_get_spec| |done].
  cbn. intros r l1 [Hr1 Hl]. unfold lookup_result in Hl. rewrite (Hin k v) in Hl by by left.
  subst r. apply runs_bind. eapply runs_weaken; [apply (IH l1 Hr1)| |done].
  - intros k' v' Hk. apply Hin. by right.
  - cbn. intros vs l2 [Hr2 ->]. by apply runs_ret.
Qed.

Lemma db_get_all_spec l0 fuel db C B l :
  registered l0 db -> at_rest l0 0 C B l -> (size (table C (m_dbi db)) < fuel)%nat ->
  C !! (m_dbi db, []) = None ->
  runs (db_get_all fuel db) l
    (fun vs l' => at_rest l0 0 C B l' /\
       exists items, pairs_of C (m_dbi db) items /\ vs = snd <$> items)
    (at_rest l0 0 C B).
Proof using CLaws.
  intros Hdb Hr Hf Hempty. unfold db_get_all. apply runs_bind.
  eapply runs_weaken; [by eapply list_keys_spec| |done].
  cbn. intros keys l1 (Hr1 & items & Hit & ->).
  eapply runs_weaken; [apply (get_values_spec l0 db C B l1 items Hdb Hr1)| |done].
  - intros k v Hk. by apply Hit.
  - cbn. intros vs l2 [Hr2 ->]. split; [done|]. by exists items.
Qed.
End CountFacts.

(** ** Properties *)

Section LmdbProps.
Context {CL : CryptoLib} {M : MDB} {Laws : MDBLaws M}.

(** C15: A put on a database with no open writer always ends, within as many
    attempts as the map can still grow by bytes, whatever the engine answers:
    the whole put is committed when it reports success, and nothing is when it
    reports an error or throws; either way no transaction stays open and the
    map has not shrunk. *)
Theorem database_put_atomic fuel indeterminate db k v C B l :
  1 <= m_growth_factor l <= 2 ^ 20 ->
  registered l db -> at_rest l 0 C B l -> mapsize_limit - B < Z.of_nat fuel ->
  runs (db_put fuel indeterminate db k v 0) l
    (fun e l' => at_rest l 0 (if is_error e then C else <[(m_dbi db, k) := v]> C) B l')
    (at_rest l 0 C B).
Proof. intros. by apply db_put_spec. Qed.

(** A deletion is atomic in the same way: the key alone is gone when it
    reports success, and nothing changed otherwise. *)
Theorem database_del_atomic fuel indeterminate db k data C B l :
  1 <= m_growth_factor l <= 2 ^ 20 ->
  registered l db -> at_rest l 0 C B l -> mapsize_limit - B < Z.of_nat fuel ->
  runs (db_del fuel indeterminate db k data) l
    (fun e l' => at_rest l 0 (if is_error e then C else delete (m_dbi db, k) C) B l')
    (at_rest l 0 C B).
Proof. intros. by apply db_del_spec. Qed.

(** After a successful put the key exists and is read back with its value,
    and every other key of every database reads as before. *)
Theorem database_get_after_put fuel indeterminate db k v db' k' C B l l1 :
  1 <= m_growth_factor l <= 2 ^ 20 ->
  registered l db -> registered l db' -> at_rest l 0 C B l ->
  mapsize_limit - B < Z.of_nat fuel ->
  db_put fuel indeterminate db k v 0 l = Returned SUCCESS l1 ->
  runs (b ← db_exists db' k'; r ← db_get db' k'; mret (b, r)) l1
    (fun '(b, r) _ =>
       if decide (m_dbi db' = m_dbi db /\ k' = k) then b = true /\ r = (SUCCESS, v)
       else b = bool_decide (is_Some (C !! (m_dbi db', k'))) /\ lookup_result C db' k' r)
    (at_rest l 0 (<[(m_dbi db, k) := v]> C) B).
Proof.
  intros Hg Hdb Hdb' Hr Hf Hput.
  pose proof (db_put_spec l indeterminate Hg fuel db k v C B l Hdb Hr Hf) as Hs.
  unfold runs in Hs. rewrite Hput in Hs. cbn in Hs.
  apply runs_bind. eapply runs_weaken; [by eapply db_exists_spec| |done].
  cbn. intros b l2 [H2 ->]. apply runs_bind.
  eapply runs_weaken; [by eapply db_get_spec| |done].
  cbn. intros r l3 [H3 Hl]. apply runs_ret. unfold lookup_result in *.
  destruct (decide _) as [[Hd ->]|Hne].
  - rewrite Hd, lookup_insert_eq in *. split; [by apply bool_decide_eq_true_2|done].
  - rewrite lookup_insert_ne in * by (intros Heq; apply Hne; split; congruence). done.
Qed.

(** Counting a database ends and gives the number of keys it holds. *)
Theorem database_count_correct `{!MDBCursorLaws M} fuel db C B l :
  registered l db -> at_rest l 0 C B l -> (size (table C (m_dbi db)) < fuel)%nat ->
  runs (db_count fuel db) l
    (fun n l' => at_rest l 0 C B l' /\ n = Z.of_nat (size (table C (m_dbi db))))
    (at_rest l 0 C B).
Proof. apply db_count_spec. Qed.

(** Once [close] succeeded no call reaches the environment any more: the
    reports fail with [LMDB_ERROR], closing again fails, and every new
    transaction throws. *)
Theorem closed_environment_refuses indeterminate l l1 db ro :
  registered l db -> close l = Returned SUCCESS l1 ->
  m_env l1 = None /\
  info indeterminate l1 = Returned (LMDB_ERROR, indeterminate) l1 /\
  stats indeterminate l1 = Returned (LMDB_ERROR, indeterminate) l1 /\
  max_key_size l1 = Returned (LMDB_ERROR, 0) l1 /\
  max_readers l1 = Returned (LMDB_ERROR, 0) l1 /\
  env_get_flags indeterminate l1 = Returned (LMDB_ERROR, 0) l1 /\
  close l1 = Returned LMDB_ERROR l1 /\
  env_transaction ro l1 = Thrown l1 /\
  db_transaction db ro l1 = Thrown l1.
Proof.
  intros [Hdbi Hdb]. unfold close, flush, mbind, prog_bind, mret, prog_ret, get_state, put_state.
  destruct (m_env l) as [e|]; [|done].
  destruct (mdb_env_sync e true) as [r e'].
  destruct (is_error (code_of_int r)) eqn:Hr; [intros [= Heq _]; by rewrite Heq in Hr|].
  intros [= <-]. split; [done|]. do 6 (split; [done|]). split; [done|].
  unfold db_transaction. rewrite (proj2 (Z.eqb_neq _ _) Hdbi).
  unfold get_database, mbind, prog_bind. cbn. by rewrite Hdb.
Qed.
End LmdbProps.

(** ** Samples and witnesses *)

Module LmdbSamples.
#[local] Existing Instance toy_crypto.
Definition db : LMDBDatabase (CL := toy_crypto) := mk_LMDBDatabase (x07 : crypto_hash_t) 2.
Definition table_contents : contents := {[ (2, [1]) := [10]; (2, [5]) := [50]; (3, [1]) := [7] ]}.

(** An environment with a growth factor of 16 and a map of [size] bytes. *)
Definition object (size : Z) : LMDB (CL := toy_crypto) (M := memdb) :=
  mk_LMDB (x01 : crypto_hash_t) 16 (Some (mk_mem_env table_contents size))
    (<[ (x07 : crypto_hash_t) := db ]> ∅) 0.

Lemma db_registered size : registered (object size) db.
Proof. split; [done|]. cbn. apply lookup_insert_eq. Qed.

Lemma object_rest size : 0 <= size <= mem_limit ->
  at_rest (object size) 0 table_contents size (object size).
Proof.
  intros. constructor; try done. eexists. split; [reflexivity|]. split; [done|].
  cbn. unfold mem_mapsize. cbn [mem_size]. lia.
Qed.

(** A put on a map that is full for two attempts. *)
Definition put_codes (fuel : nat) (size : Z) : option (ErrorCode * Z) :=
  match db_put fuel 0 db [9] [90] 0 (object size) with
  | Returned e l => Some (e, match m_env l with Some e => mem_size e | None => -1 end)
  | _ => None
  end.

Definition stored : LMDB (CL := toy_crypto) (M := memdb) :=
  match db_put 1 0 db [9] [90] 0 (object mem_limit) with
  | Returned _ l => l
  | _ => object 0
  end.

Lemma put_stores : db_put 1 0 db [9] [90] 0 (object mem_limit) = Returned SUCCESS stored.
Proof. reflexivity. Qed.

Lemma limit_fuel : mapsize_limit (M := memdb) - 0 < Z.of_nat (Z.to_nat (mem_limit + 1)).
Proof. rewrite Z2Nat.id; cbn; unfold mem_limit; lia. Qed.
End LmdbSamples.

Example put_retries : LmdbSamples.put_codes 2 0 = Some (SUCCESS, 16777216).
Proof. reflexivity. Qed.

Example put_single_attempt : LmdbSamples.put_codes 1 0 = None.
Proof. reflexivity. Qed.

Lemma database_put_atomic_witness :
  runs (db_put (Z.to_nat (mem_limit + 1)) 0 LmdbSamples.db [9] [90] 0) (LmdbSamples.object 0)
    (fun e l' => at_rest (LmdbSamples.object 0) 0
       (if is_error e then LmdbSamples.table_contents
        else <[(m_dbi LmdbSamples.db, [9]) := [90]]> LmdbSamples.table_contents) 0 l')
    (at_rest (LmdbSamples.object 0) 0 LmdbSamples.table_contents 0).
Proof.
  apply database_put_atomic; [cbn; lia|apply LmdbSamples.db_registered| |exact LmdbSamples.limit_fuel].
  apply LmdbSamples.object_rest. unfold mem_limit. lia.
Defined.

Lemma database_del_atomic_witness :
  runs (db_del (Z.to_nat (mem_limit + 1)) 0 LmdbSamples.db [5] None) (LmdbSamples.object 0)
    (fun e l' => at_rest (LmdbSamples.object 0) 0
       (if is_error e then LmdbSamples.table_contents
        else delete (m_dbi LmdbSamples.db, [5]) LmdbSamples.table_contents) 0 l')
    (at_rest (LmdbSamples.object 0) 0 LmdbSamples.table_contents 0).
Proof.
  apply database_del_atomic; [cbn; lia|apply LmdbSamples.db_registered| |exact LmdbSamples.limit_fuel].
  apply LmdbSamples.object_rest. unfold mem_limit. lia.
Defined.

Lemma database_get_after_put_witness :
  runs (b ← db_exists LmdbSamples.db [9]; r ← db_get LmdbSamples.db [9]; mret (b, r))
    LmdbSamples.stored
    (fun '(b, r) _ =>
       if decide (2 = 2 /\ [9] = [9]) then b = true /\ r = (SUCCESS, [90])
       else b = bool_decide (is_Some (LmdbSamples.table_contents !! (2, [9]))) /\
            lookup_result LmdbSamples.table_contents LmdbSamples.db [9] r)
    (at_rest (LmdbSamples.object mem_limit) 0 (<[(2, [9]) := [90]]> LmdbSamples.table_contents)
       mem_limit).
Proof.
  apply (database_get_after_put 1 0 LmdbSamples.db [9] [90] LmdbSamples.db [9] _ _
           (LmdbSamples.object mem_limit));
    [cbn; lia|apply LmdbSamples.db_registered|apply LmdbSamples.db_registered
    |apply LmdbSamples.object_rest; unfold mem_limit; lia|cbn; lia|exact LmdbSamples.put_stores].
Defined.

Lemma database_count_correct_witness :
  runs (db_count 5 LmdbSamples.db) (LmdbSamples.object 0)
    (fun n l' => at_rest (LmdbSamples.object 0) 0 LmdbSamples.table_contents 0 l' /\
       n = Z.of_nat (size (table LmdbSamples.table_contents (m_dbi LmdbSamples.db))))
    (at_rest (LmdbSamples.object 0) 0 LmdbSamples.table_contents 0).
Proof.
  apply database_count_correct; [apply LmdbSamples.db_registered| |].
  - apply LmdbSamples.object_rest. unfold mem_limit. lia.
  - apply Nat.ltb_lt. vm_compute. reflexivity.
Defined.

Lemma closed_environment_refuses_witness :
  env_transaction false
    (match close (LmdbSamples.object 0) with Returned _ l => l | _ => LmdbSamples.object 0 end) =
  Thrown (match close (LmdbSamples.object 0) with Returned _ l => l | _ => LmdbSamples.object 0 end).
Proof.
  apply (closed_environment_refuses 0 (LmdbSamples.object 0) _ LmdbSamples.db false
           (LmdbSamples.db_registered 0) eq_refl).
Defined.
