(* ===== verification/LmdbTyped.v ===== *)
(** * Typed access to the database

    The overloads of [src/database/db_lmdb.h] and [db_lmdb.cpp] that take a
    structure or a 64-bit integer for a key or a value, on databases, on
    transactions and on cursors, and the calls of a cursor that write.  An
    overload serializes its arguments and calls the form on bytes.  The calls of
    LMDB that only these use are the class [MDBCursorCalls].  A database that is
    used at one type of keys and one of values is seen as a partial function
    between them ([table_of]). *)

From S2P Require Import Prelude Errors CryptoLib Concrete Codec Program Mdb MemDb Lmdb.
From Stdlib Require Import Strings.Byte.

(** The calls of [mdb_cursor_put] and its siblings; a cursor belongs to a
    transaction and a database. *)
Class MDBCursorCalls (M : MDB) : Type := {
  mdb_dbi_flags : mdb_txn -> Z -> Z * Z;
  mdb_cursor_put : mdb_txn -> mdb_cursor -> bytes -> bytes -> Z -> Z * mdb_txn * mdb_cursor;
  mdb_cursor_del : mdb_txn -> mdb_cursor -> Z -> Z * mdb_txn * mdb_cursor;
  mdb_cursor_count : mdb_cursor -> Z * Z;
  mdb_cursor_renew : mdb_txn -> mdb_cursor -> Z * mdb_cursor
}.

Section LmdbTyped.
Context {CL : CryptoLib} {M : MDB}.

(** ** Integer keys *)

Definition db_del_uint64 (fuel : nat) (indeterminate : Z) (db : LMDBDatabase) (key : Z)
  (value : option bytes) : env_prog ErrorCode :=
  db_del fuel indeterminate db (put_uint64 key) value.

Definition db_exists_uint64 (db : LMDBDatabase) (key : Z) : env_prog bool :=
  db_exists db (put_uint64 key).

Definition db_get_uint64 (db : LMDBDatabase) (key : Z) : env_prog (ErrorCode * bytes) :=
  db_get db (put_uint64 key).

Definition db_put_uint64 (fuel : nat) (indeterminate : Z) (db : LMDBDatabase) (key : Z)
  (value : bytes) (flags : Z) : env_prog ErrorCode :=
  db_put fuel indeterminate db (put_uint64 key) value flags.

Definition txn_del_uint64 (key : Z) (value : option bytes) : txn_prog ErrorCode :=
  txn_del (put_uint64 key) value.

Definition txn_exists_uint64 (key : Z) : txn_prog bool := txn_exists (put_uint64 key).

Definition txn_get_uint64 (key : Z) : txn_prog (ErrorCode * bytes) := txn_get (put_uint64 key).

Definition txn_put_uint64 (key : Z) (value : bytes) (flags : Z) : txn_prog ErrorCode :=
  txn_put (put_uint64 key) value flags.

(** ** Structures *)

Section Overloads.
Context {K V : Type} `{ISerializable K} `{ISerializable V}.
Variables (fuel walk : nat) (indeterminate : Z) (default_key : K) (default_value : V).

(** [LMDBDatabase] *)

Definition db_del_key (db : LMDBDatabase) (key : K) : env_prog ErrorCode :=
  db_del fuel indeterminate db (serialize key) None.

Definition db_del_pair (db : LMDBDatabase) (key : K) (value : V) : env_prog ErrorCode :=
  db_del fuel indeterminate db (serialize key) (Some (serialize value)).

Definition db_del_uint64_pair (db : LMDBDatabase) (key : Z) (value : V) : env_prog ErrorCode :=
  db_del_uint64 fuel indeterminate db key (Some (serialize value)).

Definition db_exists_key (db : LMDBDatabase) (key : K) : env_prog bool := db_exists db (serialize key).

Definition db_get_key (db : LMDBDatabase) (key : K) : env_prog (ErrorCode * bytes) :=
  '(error, i_value) ← db_get db (serialize key);
  if is_error error then mret (error, []) else mret (error, i_value).

Definition db_get_pair (db : LMDBDatabase) (key : K) : env_prog (ErrorCode * V) :=
  db_get_as deserialize default_value db (serialize key).

Definition db_get_uint64_pair (db : LMDBDatabase) (key : Z) : env_prog (ErrorCode * V) :=
  '(error, i_value) ← db_get_uint64 db key;
  if is_error error then mret (error, default_value)
  else
    value ← or_throw (fst <$> deserialize i_value);
    mret (error, value).

Definition db_get_all_values (db : LMDBDatabase) : env_prog (list V) :=
  db_get_all_as deserialize walk db.

Definition list_keys_of (db : LMDBDatabase) : env_prog (list K) := list_keys_as deserialize walk db.

Definition db_put_pair (db : LMDBDatabase) (key : K) (value : V) (flags : Z) : env_prog ErrorCode :=
  db_put fuel indeterminate db (serialize key) (serialize value) flags.

Definition db_put_uint64_pair (db : LMDBDatabase) (key : Z) (value : V) (flags : Z)
  : env_prog ErrorCode :=
  db_put_uint64 fuel indeterminate db key (serialize value) flags.

(** [LMDBTransaction] *)

Definition txn_del_key (key : K) : txn_prog ErrorCode := txn_del (serialize key) None.

Definition txn_del_pair (key : K) (value : V) : txn_prog ErrorCode :=
  txn_del (serialize key) (Some (serialize value)).

Definition txn_del_uint64_pair (key : Z) (value : V) : txn_prog ErrorCode :=
  txn_del_uint64 key (Some (serialize value)).

Definition txn_exists_key (key : K) : txn_prog bool := txn_exists (serialize key).

Definition txn_get_key (key : K) : txn_prog (ErrorCode * bytes) := txn_get (serialize key).

Definition txn_get_pair (key : K) : txn_prog (ErrorCode * V) :=
  '(error, i_value) ← txn_get (serialize key);
  if is_error error then mret (error, default_value)
  else
    value ← or_throw (fst <$> deserialize i_value);
    mret (error, value).

Definition txn_put_key (key : K) (flags : Z) : txn_prog ErrorCode := txn_put (serialize key) [] flags.

Definition txn_put_key_value (key : K) (value : bytes) (flags : Z) : txn_prog ErrorCode :=
  txn_put (serialize key) value flags.

Definition txn_put_pair (key : K) (value : V) (flags : Z) : txn_prog ErrorCode :=
  txn_put (serialize key) (serialize value) flags.

Definition txn_put_uint64_pair (key : Z) (value : V) (flags : Z) : txn_prog ErrorCode :=
  txn_put_uint64 key (serialize value) flags.
End Overloads.

(** ** Cursors *)

(** [m_cursor] is null once the cursor was destroyed. *)
Record LMDBCursor : Type := mk_LMDBCursor { m_cursor : option mdb_cursor; cur_readonly : bool }.

Notation cursor_prog := (prog (LMDB * LMDBTransaction * LMDBCursor)).

(** A call that moves the cursor; the key and the value it stops at. *)
Definition moved (c : mdb_cursor) : cursor_prog () := fun '(s, cur) =>
  Returned () (s, mk_LMDBCursor (Some c) (cur_readonly cur)).

Definition cur_get_op (op : MDB_cursor_op) : cursor_prog (ErrorCode * bytes * bytes) :=
  '(_, cur) ← get_state;
  match m_cursor cur with
  | None => mret (LMDB_ERROR, [], [])
  | Some c =>
      let '(result, i_key, i_value, c') := mdb_cursor_get c [] op in
      moved c';;
      mret (if result =? MDB_SUCCESS then (code_of_int result, i_key, i_value)
            else (code_of_int result, [], []))
  end.

Definition cur_get (key : bytes) (op : MDB_cursor_op) : cursor_prog (ErrorCode * bytes * bytes) :=
  '(_, cur) ← get_state;
  match m_cursor cur with
  | None => mret (LMDB_ERROR, [], [])
  | Some c => let '(r, c') := cursor_get c key op in moved c';; mret r
  end.

Definition cur_get_uint64 (key : Z) (op : MDB_cursor_op) : cursor_prog (ErrorCode * Z * bytes) :=
  '(error, r_key, r_value) ← cur_get (put_uint64 key) op;
  if is_error error then mret (error, 0, [])
  else
    f_key ← or_throw (fst <$> get_uint64 r_key);
    mret (error, f_key, r_value).

(** The loop of [get_all], which ends at the first error. *)
Fixpoint cur_get_all_loop (fuel : nat) (key : bytes) (success : bool) (results : list bytes)
  : cursor_prog (list bytes) :=
  match fuel with
  | O => fun _ => OutOfFuel
  | S fuel' =>
      '(error, _, v) ← cur_get key (if negb success then MDB_SET else MDB_NEXT_DUP);
      if is_error error then mret results else cur_get_all_loop fuel' key true (results ++ [v])
  end.

Definition cur_get_all (walk : nat) (key : bytes) : cursor_prog (ErrorCode * bytes * list bytes) :=
  results ← cur_get_all_loop walk key false [];
  mret (match results with [] => LMDB_EMPTY | _ => SUCCESS end, key, results).

Definition cur_get_all_uint64 (walk : nat) (key : Z) : cursor_prog (ErrorCode * Z * list bytes) :=
  '(error, r_key, r_value) ← cur_get_all walk (put_uint64 key);
  if is_error error then mret (error, 0, [])
  else
    f_key ← or_throw (fst <$> get_uint64 r_key);
    mret (error, f_key, r_value).

(** The destructor closes the cursor of a reading transaction only. *)
Definition cur_destroy : cursor_prog () := fun '(s, cur) =>
  match m_cursor cur with
  | Some c => if cur_readonly cur then Returned () (s, mk_LMDBCursor None true) else Returned () (s, cur)
  | None => Returned () (s, cur)
  end.

Definition cur_new (readonly : bool) : txn_prog LMDBCursor :=
  c ← cursor_new;
  mret (mk_LMDBCursor (Some c) readonly).

Context {Calls : MDBCursorCalls M}.

(** [count], [del], [put] and [renew]; [put] does not look whether there is a
    cursor. *)
Definition cur_count : cursor_prog (ErrorCode * Z) :=
  '(_, cur) ← get_state;
  match m_cursor cur with
  | None => mret (LMDB_ERROR, 0)
  | Some c => let '(result, count) := mdb_cursor_count c in mret (code_of_int result, count)
  end.

(** The result of a call that changed the transaction and the cursor. *)
Definition wrote (result : Z) (t : mdb_txn) (c : mdb_cursor) : cursor_prog ErrorCode :=
  fun '((l, x), cur) =>
    Returned (code_of_int result) (l, set_txn (Some t) x, mk_LMDBCursor (Some c) (cur_readonly cur)).

Definition cur_del (flags : Z) : cursor_prog ErrorCode :=
  '((_, x), cur) ← get_state;
  match m_cursor cur with
  | None => mret LMDB_ERROR
  | Some c =>
      t ← deref (m_txn x);
      let '(result, t', c') := mdb_cursor_del t c flags in wrote result t' c'
  end.

Definition cur_put (key value : bytes) (flags : Z) : cursor_prog ErrorCode :=
  '((_, x), cur) ← get_state;
  c ← deref (m_cursor cur);
  t ← deref (m_txn x);
  let '(result, t', c') := mdb_cursor_put t c key value flags in wrote result t' c'.

Definition cur_put_uint64 (key : Z) (value : bytes) (flags : Z) : cursor_prog ErrorCode :=
  cur_put (put_uint64 key) value flags.

Definition cur_renew : cursor_prog ErrorCode :=
  '((_, x), cur) ← get_state;
  match m_cursor cur with
  | Some c =>
      if negb (cur_readonly cur) then mret LMDB_ERROR
      else
        t ← deref (m_txn x);
        let '(result, c') := mdb_cursor_renew t c in moved c';; mret (code_of_int result)
  | None => mret LMDB_ERROR
  end.

Definition db_get_flags (indeterminate : Z) (db : LMDBDatabase) : env_prog (ErrorCode * Z) :=
  scoped (db_transaction db true)
    ('(_, x) ← get_state;
     t ← deref (m_txn x);
     let '(result, flags) := mdb_dbi_flags t (m_dbi db) in
     mret (code_of_int result, if result =? MDB_SUCCESS then flags else indeterminate)).

(** Structures through a cursor. *)
Section CursorOverloads.
Context {K V : Type} `{ISerializable K} `{ISerializable V}.
Variables (walk : nat) (default_key : K) (default_value : V).

Definition cur_get_op_key (op : MDB_cursor_op) : cursor_prog (ErrorCode * K * bytes) :=
  '(error, i_key, i_value) ← cur_get_op op;
  if is_error error then mret (error, default_key, [])
  else
    key ← or_throw (fst <$> deserialize i_key);
    mret (error, key, i_value).

Definition cur_get_op_pair (op : MDB_cursor_op) : cursor_prog (ErrorCode * K * V) :=
  '(error, i_key, i_value) ← cur_get_op op;
  if is_error error then mret (error, default_key, default_value)
  else
    key ← or_throw (fst <$> deserialize i_key);
    value ← or_throw (fst <$> deserialize i_value);
    mret (error, key, value).

Definition cur_get_key (key : K) (op : MDB_cursor_op) : cursor_prog (ErrorCode * K * bytes) :=
  '(error, r_key, f_value) ← cur_get (serialize key) op;
  if is_error error then mret (error, default_key, [])
  else
    f_key ← or_throw (fst <$> deserialize r_key);
    mret (error, f_key, f_value).

Definition cur_get_pair (key : K) (op : MDB_cursor_op) : cursor_prog (ErrorCode * K * V) :=
  '(error, r_key, r_value) ← cur_get (serialize key) op;
  if is_error error then mret (error, default_key, default_value)
  else
    f_key ← or_throw (fst <$> deserialize r_key);
    f_value ← or_throw (fst <$> deserialize r_value);
    mret (error, f_key, f_value).

Definition cur_get_uint64_pair (key : Z) (op : MDB_cursor_op) : cursor_prog (ErrorCode * Z * V) :=
  '(error, f_key, r_value) ← cur_get_uint64 key op;
  if is_error error then mret (error, 0, default_value)
  else
    value ← or_throw (fst <$> deserialize r_value);
    mret (error, f_key, value).

Definition cur_get_all_pair (key : K) : cursor_prog (ErrorCode * K * list V) :=
  '(error, r_key, r_values) ← cur_get_all walk (serialize key);
  if is_error error then mret (error, default_key, [])
  else
    f_key ← or_throw (fst <$> deserialize r_key);
    results ← or_throw (mapM (fun reader => fst <$> deserialize reader) r_values);
    mret (error, f_key, results).

Definition cur_get_all_uint64_pair (key : Z) : cursor_prog (ErrorCode * Z * list V) :=
  '(error, f_key, r_values) ← cur_get_all_uint64 walk key;
  if is_error error then mret (error, 0, [])
  else
    results ← or_throw (mapM (fun reader => fst <$> deserialize reader) r_values);
    mret (error, f_key, results).

Definition cur_put_key (key : K) (flags : Z) : cursor_prog ErrorCode := cur_put (serialize key) [] flags.

Definition cur_put_key_value (key : K) (value : bytes) (flags : Z) : cursor_prog ErrorCode :=
  cur_put (serialize key) value flags.

Definition cur_put_pair (key : K) (value : V) (flags : Z) : cursor_prog ErrorCode :=
  cur_put (serialize key) (serialize value) flags.

Definition cur_put_uint64_pair (key : Z) (value : V) (flags : Z) : cursor_prog ErrorCode :=
  cur_put_uint64 key (serialize value) flags.
End CursorOverloads.
End LmdbTyped.

(** An integer key is a structure that is written in eight bytes. *)
#[export] Instance uint64_serializable `{Serializer} : ISerializable Z := {|
  serialize := put_uint64;
  deserialize := get_uint64
|}.

#[export] Instance uint64_roundtrip `{SerializerLaws} : RoundTrip Z u64.
Proof. intros n r Hn. by apply get_put_uint64. Qed.

(** The forms on integer keys are those on structures. *)
Lemma uint64_overloads {CL : CryptoLib} {M : MDB} `{ISerializable V} fuel indeterminate db n
    (value default_value : V) flags :
  db_put_uint64_pair fuel indeterminate db n value flags =
    db_put_pair fuel indeterminate db n value flags /\
  db_del_uint64_pair fuel indeterminate db n value = db_del_pair fuel indeterminate db n value /\
  db_exists_uint64 db n = db_exists_key db n /\
  db_get_uint64_pair default_value db n = db_get_pair default_value db n /\
  txn_put_uint64_pair n value flags = txn_put_pair n value flags /\
  txn_del_uint64_pair n value = txn_del_pair n value.
Proof. done. Qed.

(** ** A database of one type of keys and one of values *)

Section TypedTable.
Context {CL : CryptoLib} {M : MDB} {Laws : MDBLaws M} {CLaws : MDBCursorLaws M}.
Context {K V : Type} `{!EqDecision K} `{!ISerializable K} `{!ISerializable V}.
Context (wfK : K -> Prop) (wfV : V -> Prop) `{!RoundTrip K wfK} `{!RoundTrip V wfV}.
Hypothesis nonempty_key : forall key, wfK key -> serialize key <> [].
Implicit Types (C : contents) (d : Z) (f : K -> option V).

(** The entries of the database [d] are those of [f], each well formed. *)
Record table_of C d f : Prop := {
  table_entry : forall key, wfK key -> C !! (d, serialize key) = serialize <$> f key;
  table_key : forall k v, C !! (d, k) = Some v -> exists key, wfK key /\ k = serialize key;
  table_wf : forall key value, f key = Some value -> wfK key /\ wfV value
}.

Definition update f (key : K) (o : option V) : K -> option V :=
  fun key' => if decide (key' = key) then o else f key'.

Lemma serialize_inj `{!ISerializable T} (wf : T -> Prop) `{!RoundTrip T wf} x y :
  wf x -> wf y -> serialize x = serialize y -> x = y.
Proof using.
  intros Hx Hy E. pose proof (deserialize_serialize x [] Hx) as H1.
  rewrite E, (deserialize_serialize y [] Hy) in H1. by injection H1.
Qed.

Lemma deserialize_whole `{!ISerializable T} (wf : T -> Prop) `{!RoundTrip T wf} x :
  wf x -> fst <$> deserialize (serialize x) = Some x.
Proof using.
  intros Hx. pose proof (deserialize_serialize x [] Hx) as H. rewrite app_nil_r in H. by rewrite H.
Qed.

Lemma table_put C d f key value :
  table_of C d f -> wfK key -> wfV value ->
  table_of (<[(d, serialize key) := serialize value]> C) d (update f key (Some value)).
Proof using RoundTrip0.
  intros [He Hk Hw] Hkey Hvalue. split.
  - intros key' Hkey'. unfold update. destruct (decide (key' = key)) as [->|Hne].
    + by rewrite lookup_insert_eq.
    + rewrite lookup_insert_ne; [by apply He|]. intros [= E].
      by apply Hne, (serialize_inj wfK).
  - intros k v [[[= <-] _]|[_ Hl]]%lookup_insert_Some; [by exists key|by eapply Hk].
  - intros key' value'. unfold update. case_decide; [intros [= <-]; by subst|by apply Hw].
Qed.

Lemma table_del C d f key :
  table_of C d f -> wfK key ->
  table_of (delete (d, serialize key) C) d (update f key None).
Proof using RoundTrip0.
  intros [He Hk Hw] Hkey. split.
  - intros key' Hkey'. unfold update. destruct (decide (key' = key)) as [->|Hne].
    + by rewrite lookup_delete_eq.
    + rewrite lookup_delete_ne; [by apply He|]. intros [= E].
      by apply Hne, (serialize_inj wfK).
  - intros k v [_ Hl]%lookup_delete_Some. by eapply Hk.
  - intros key' value'. unfold update. case_decide; [done|by apply Hw].
Qed.

Lemma table_no_empty C d f : table_of C d f -> C !! (d, []) = None.
Proof using nonempty_key.
  intros [_ Hk _]. destruct (C !! _) eqn:E; [|done].
  destruct (Hk _ _ E) as (key & Hkey & Hn). by destruct (nonempty_key key Hkey).
Qed.

(** The pairs of the database are the serialized entries of [f]. *)
Definition pair_bytes (e : K * V) : bytes * bytes := (serialize e.1, serialize e.2).

Lemma table_items C d f items :
  table_of C d f -> pairs_of C d items ->
  exists l, items = pair_bytes <$> l /\ NoDup l.*1 /\
    forall key value, (key, value) ∈ l <-> f key = Some value.
Proof using RoundTrip0.
  intros HT [Hnd Hin].
  assert (Hl : exists l, items = pair_bytes <$> l /\ Forall (fun e => f e.1 = Some e.2) l).
  { assert (Hsub : forall p, p ∈ items -> C !! (d, p.1) = Some p.2) by (intros []; apply Hin).
    clear Hnd Hin. induction items as [|[k v] items IH]; [by exists []|].
    destruct IH as (l & -> & Hl). { intros p Hp. apply Hsub. by right. }
    assert (Hkv : C !! (d, k) = Some v) by (apply (Hsub (k, v)); by left).
    destruct (table_key _ _ _ HT _ _ Hkv) as (key & Hkey & ->).
    rewrite (table_entry _ _ _ HT key Hkey) in Hkv. apply fmap_Some in Hkv as (value & Hf & ->).
    exists ((key, value) :: l). split; [done|]. by constructor. }
  destruct Hl as (l & -> & Hl). rewrite Forall_forall in Hl. exists l. split; [done|]. split.
  - apply (NoDup_fmap_1 serialize). replace (serialize <$> l.*1) with (pair_bytes <$> l).*1; [done|].
    clear. by induction l as [|e l IH]; cbn; [|rewrite IH].
  - intros key value. split; [apply (Hl (key, value))|]. intros Hf.
    destruct (table_wf _ _ _ HT _ _ Hf) as [Hkey Hvalue].
    assert (Hi : (serialize key, serialize value) ∈ pair_bytes <$> l).
    { apply Hin. by rewrite (table_entry _ _ _ HT key Hkey), Hf. }
    apply list_elem_of_fmap in Hi as ([key' value'] & [= E1 E2] & Hi). cbn in *.
    pose proof (Hl _ Hi) as Hf'. cbn in Hf'. destruct (table_wf _ _ _ HT _ _ Hf') as [Hkey' _].
    assert (key' = key) as -> by by apply (serialize_inj wfK). congruence.
Qed.

(** ** Lemmas: the operations *)

Variables (l0 : LMDB) (db : LMDBDatabase) (B : Z).
Hypothesis Hdb : registered l0 db.

(** The environment at rest with the entries [f] in the database. *)
Definition typed_db f (l : LMDB) : Prop :=
  exists C, at_rest l0 0 C B l /\ table_of C (m_dbi db) f.

(** A program on bytes whose result holds for the contents. *)
Lemma typed_reading {A} (m : env_prog A) f l (R : A -> Prop) :
  typed_db f l ->
  (forall C l, at_rest l0 0 C B l -> table_of C (m_dbi db) f ->
     runs m l (fun a l' => at_rest l0 0 C B l' /\ R a) (at_rest l0 0 C B)) ->
  runs m l (fun a l' => typed_db f l' /\ R a) (typed_db f).
Proof using.
  intros (C & Hr & HT) Hm. eapply runs_weaken; [by apply Hm| |].
  - intros a l' [? ?]. split; [|done]. by exists C.
  - intros l' ?. by exists C.
Qed.

Lemma typed_writing (m : env_prog ErrorCode) f f' l :
  typed_db f l ->
  (forall C l, at_rest l0 0 C B l -> table_of C (m_dbi db) f -> exists C',
     table_of C' (m_dbi db) f' /\
     runs m l (fun e l' => at_rest l0 0 (if is_error e then C else C') B l') (at_rest l0 0 C B)) ->
  runs m l (fun e l' => typed_db (if is_error e then f else f') l') (typed_db f).
Proof using.
  intros (C & Hr & HT) Hm. destruct (Hm C l Hr HT) as (C' & HT' & Hm').
  eapply runs_weaken; [exact Hm'| |].
  - cbn. intros e l' He. destruct (is_error e); by eexists.
  - intros l' ?. by exists C.
Qed.

(** What is read back is the entry. *)
Lemma typed_get_spec default_value f key l :
  typed_db f l -> wfK key ->
  runs (db_get_pair default_value db key) l
    (fun r l' => typed_db f l' /\
       match f key with
       | Some value => r = (SUCCESS, value)
       | None => is_error r.1 = true /\ r.2 = default_value
       end) (typed_db f).
Proof using Hdb RoundTrip1.
  intros Hl Hkey. apply typed_reading; [done|]. clear Hl. intros C l' Hr HT.
  eapply runs_weaken; [by eapply db_get_as_spec| |done]. cbn. intros r l1 [? Hres]. split; [done|].
  rewrite (table_entry _ _ _ HT key Hkey) in Hres. destruct (f key) as [value|] eqn:Hf; cbn in Hres; [|done].
  destruct Hres as (x & rest & Hd & ->). destruct (table_wf _ _ _ HT _ _ Hf) as [_ Hvalue].
  pose proof (deserialize_whole wfV value Hvalue) as E. rewrite Hd in E. cbn in E. congruence.
Qed.

(** A decoder that follows a reading and never fails on what it reads. *)
Lemma decoding_throws {A A'} (m : env_prog A) (k : A -> env_prog A') (R : A -> Prop) l l' :
  runs m l (fun a _ => R a) (fun _ => True) -> (forall a s s', R a -> k a s <> Thrown s') ->
  (m ≫= k) l = Thrown l' -> m l = Thrown l'.
Proof using.
  unfold runs, mbind, prog_bind. destruct (m l) as [a s|s| |]; try done; [|by intros _ _ [= ->]].
  intros Ha Hk Hthrown. by destruct (Hk a s l' Ha).
Qed.

Lemma mapM_decode `{!ISerializable T} (wf : T -> Prop) `{!RoundTrip T wf} (xs : list T) :
  Forall wf xs -> mapM (fun v => fst <$> deserialize v) (serialize <$> xs) = Some xs.
Proof using.
  induction 1 as [|x xs Hx _ IH]; [done|]. rewrite fmap_cons. cbn [mapM].
  rewrite (deserialize_whole wf x Hx), IH. done.
Qed.

Lemma items_wf C f (l : list (K * V)) :
  table_of C (m_dbi db) f -> (forall key value, (key, value) ∈ l <-> f key = Some value) ->
  Forall wfK l.*1 /\ Forall wfV l.*2.
Proof using.
  intros HT Hin. rewrite !Forall_fmap, !Forall_forall.
  split; intros [key value] Hp%Hin; by eapply table_wf.
Qed.

(** The entries as a list, in the order of a walk. *)
Definition entries_of f (l : list (K * V)) : Prop :=
  NoDup l.*1 /\ forall key value, (key, value) ∈ l <-> f key = Some value.

Lemma entries_keys f (l : list (K * V)) key : entries_of f l -> key ∈ l.*1 <-> is_Some (f key).
Proof using.
  intros [_ Hin]. rewrite list_elem_of_fmap. split.
  - intros ([key' value] & -> & Hp%Hin). by eexists.
  - intros [value Hf]. exists (key, value). split; [done|]. by apply Hin.
Qed.

Lemma entries_values f (l : list (K * V)) : entries_of f l -> f <$> l.*1 = Some <$> l.*2.
Proof using.
  intros [_ Hin]. assert (Hl : forall e, e ∈ l -> f e.1 = Some e.2) by (intros []; apply Hin).
  clear Hin. induction l as [|e l IH]; cbn; [done|]. rewrite (Hl e) by by left.
  f_equal. apply IH. intros e' ?. apply Hl. by right.
Qed.

Lemma typed_walk_spec C f walk l :
  at_rest l0 0 C B l -> table_of C (m_dbi db) f -> (size (table C (m_dbi db)) < walk)%nat ->
  runs (list_keys walk true db) l
    (fun ks l' => at_rest l0 0 C B l' /\
       exists es, entries_of f es /\ ks = serialize <$> es.*1) (at_rest l0 0 C B) /\
  runs (db_get_all walk db) l
    (fun vs l' => at_rest l0 0 C B l' /\
       exists es, entries_of f es /\ vs = serialize <$> es.*2) (at_rest l0 0 C B).
Proof using All.
  intros Hr HT Hw. pose proof (table_no_empty _ _ _ HT) as Hempty. split.
  - eapply runs_weaken; [by eapply list_keys_spec| |done].
    cbn. intros ks l' (Hr' & items & Hit & ->). split; [done|].
    destruct (table_items _ _ _ _ HT Hit) as (es & -> & Hes). exists es. split; [done|].
    clear. induction es as [|e es IH]; cbn; [done|]. by rewrite IH.
  - eapply runs_weaken; [by eapply db_get_all_spec| |done].
    cbn. intros vs l' (Hr' & items & Hit & ->). split; [done|].
    destruct (table_items _ _ _ _ HT Hit) as (es & -> & Hes). exists es. split; [done|].
    clear. induction es as [|e es IH]; cbn; [done|]. by rewrite IH.
Qed.

Lemma keys_decode C f es :
  table_of C (m_dbi db) f -> entries_of f es ->
  mapM (fun v => fst <$> deserialize v) (serialize <$> es.*1) = Some es.*1 /\
  mapM (fun v => fst <$> deserialize v) (serialize <$> es.*2) = Some es.*2.
Proof using RoundTrip0 RoundTrip1.
  intros HT [_ Hin]. destruct (items_wf _ _ _ HT Hin). by split; eapply mapM_decode.
Qed.
End TypedTable.

(** ** Properties *)

Section TypedProps.
Context {CL : CryptoLib} {M : MDB} {Laws : MDBLaws M}.
Context {K V : Type} `{!EqDecision K} `{!ISerializable K} `{!ISerializable V}.
Context (wfK : K -> Prop) (wfV : V -> Prop) `{!RoundTrip K wfK} `{!RoundTrip V wfV}.

(** C34: A database that is used at one type of keys and one of values refines a
    partial function between them: a put and both deletions update one argument
    of it when they report success and nothing otherwise, existence and lookups
    answer from it, and no operation leaves anything else behind. *)
Theorem typed_table_refined fuel indeterminate default_value db f key value B l :
  1 <= m_growth_factor l <= 2 ^ 20 -> registered l db ->
  typed_db wfK wfV l db B f l -> mapsize_limit - B < Z.of_nat fuel -> wfK key -> wfV value ->
  runs (db_put_pair fuel indeterminate db key value 0) l
    (fun e l' => typed_db wfK wfV l db B (if is_error e then f else update f key (Some value)) l')
    (typed_db wfK wfV l db B f) /\
  runs (db_del_key fuel indeterminate db key) l
    (fun e l' => typed_db wfK wfV l db B (if is_error e then f else update f key None) l')
    (typed_db wfK wfV l db B f) /\
  runs (db_del_pair fuel indeterminate db key value) l
    (fun e l' => typed_db wfK wfV l db B (if is_error e then f else update f key None) l')
    (typed_db wfK wfV l db B f) /\
  runs (db_exists_key db key) l
    (fun b l' => typed_db wfK wfV l db B f l' /\ b = bool_decide (is_Some (f key)))
    (typed_db wfK wfV l db B f) /\
  runs (db_get_pair default_value db key) l
    (fun r l' => typed_db wfK wfV l db B f l' /\
       match f key with
       | Some found => r = (SUCCESS, found)
       | None => is_error r.1 = true /\ r.2 = default_value
       end) (typed_db wfK wfV l db B f).
Proof.
  intros Hg Hdb Hl Hf Hkey Hvalue. repeat split.
  - apply typed_writing; [done|]. intros C l' Hr HT. eexists. split; [by eapply table_put|].
    by apply db_put_spec.
  - apply typed_writing; [done|]. intros C l' Hr HT. eexists. split; [by eapply table_del|].
    by apply db_del_spec.
  - apply typed_writing; [done|]. intros C l' Hr HT. eexists. split; [by eapply table_del|].
    by apply db_del_spec.
  - apply typed_reading; [done|]. intros C l' Hr HT.
    eapply runs_weaken; [by eapply db_exists_spec| |done]. cbn. intros b l1 [? ->]. split; [done|].
    rewrite (table_entry _ _ _ _ _ HT key Hkey). apply bool_decide_ext. by rewrite fmap_is_Some.
  - by apply typed_get_spec.
Qed.

(** C35: What a database of one type of keys and one of values holds is well
    typed: its keys and values are all handed out, once each and well formed,
    and reading them as structures throws only where reading their bytes does. *)
Theorem typed_reads_sound `{!MDBCursorLaws M} walk default_value db f C B l :
  registered l db -> at_rest l 0 C B l -> table_of wfK wfV C (m_dbi db) f ->
  (forall key, wfK key -> serialize key <> []) -> (size (table C (m_dbi db)) < walk)%nat ->
  runs (list_keys_of walk db) l
    (fun keys l' => at_rest l 0 C B l' /\ NoDup keys /\ Forall wfK keys /\
       forall key, key ∈ keys <-> is_Some (f key)) (at_rest l 0 C B) /\
  runs (db_get_all_values walk db) l
    (fun values l' => at_rest l 0 C B l' /\ Forall wfV values /\
       exists keys, NoDup keys /\ (forall key, key ∈ keys <-> is_Some (f key)) /\
         f <$> keys = Some <$> values) (at_rest l 0 C B) /\
  forall l',
    (list_keys_of (K := K) walk db l = Thrown l' -> list_keys walk true db l = Thrown l') /\
    (db_get_all_values (V := V) walk db l = Thrown l' -> db_get_all walk db l = Thrown l') /\
    forall key, wfK key -> db_get_pair default_value db key l = Thrown l' ->
      db_get db (serialize key) l = Thrown l'.
Proof.
  intros Hdb Hr HT Hne Hw.
  destruct (typed_walk_spec wfK wfV Hne l db B Hdb C f walk l Hr HT Hw) as [Hkeys Hvalues].
  pose proof (fun es => keys_decode wfK wfV db C f es HT) as Hdec.
  repeat split.
  - apply runs_bind. eapply runs_weaken; [exact Hkeys| |done]. cbn. intros ks l' (Hr' & es & Hes & ->).
    destruct (Hdec es Hes) as [-> _]. apply runs_ret. split; [done|]. split; [apply Hes|].
    split; [by eapply items_wf; [|apply Hes]|]. intros key. by apply entries_keys.
  - apply runs_bind. eapply runs_weaken; [exact Hvalues| |done]. cbn. intros ks l' (Hr' & es & Hes & ->).
    destruct (Hdec es Hes) as [_ ->]. apply runs_ret. split; [done|].
    split; [by eapply items_wf; [|apply Hes]|]. exists es.*1. split; [apply Hes|].
    split; [intros key; by apply entries_keys|by apply entries_values].
  - eapply decoding_throws; [eapply runs_weaken; [exact Hkeys|intros ? ? [_ HR]; exact HR|done]|].
    intros ks s s' (es & Hes & ->). by destruct (Hdec es Hes) as [-> _].
  - eapply decoding_throws; [eapply runs_weaken; [exact Hvalues|intros ? ? [_ HR]; exact HR|done]|].
    intros ks s s' (es & Hes & ->). by destruct (Hdec es Hes) as [_ ->].
  - intros key Hkey. eapply decoding_throws.
    { eapply runs_weaken; [by eapply db_get_spec|intros ? ? [_ HR]; exact HR|done]. }
    unfold lookup_result. rewrite (table_entry _ _ _ _ _ HT key Hkey). intros [e v] s s' Hres.
    destruct (f key) as [value|] eqn:Hfound; cbn in Hres; [|by rewrite Hres].
    injection Hres as -> ->. destruct (table_wf _ _ _ _ _ HT _ _ Hfound) as [_ Hvalue].
    cbn. by rewrite (deserialize_whole wfV value Hvalue).
Qed.
End TypedProps.

(** ** Samples and witnesses *)

Module TypedSamples.
#[local] Existing Instance toy_crypto.

Definition nothing (key : Z) : option Z := None.
Definition entries : Z -> option Z := update nothing 1 (Some 10).

(** The database 2 holds one entry, the database 3 something else. *)
Definition typed_contents : contents := <[(2, serialize 1) := serialize 10]> {[ (3, [1]) := [7] ]}.

Definition object : LMDB (CL := toy_crypto) (M := memdb) :=
  mk_LMDB (x01 : crypto_hash_t) 16 (Some (mk_mem_env typed_contents 0))
    (<[ (x07 : crypto_hash_t) := LmdbSamples.db ]> ∅) 0.

Lemma typed_db_registered : registered object LmdbSamples.db.
Proof. split; [done|]. cbn. apply lookup_insert_eq. Qed.

Lemma typed_object_rest : at_rest object 0 typed_contents 0 object.
Proof. constructor; try done. by eexists. Qed.

Lemma u64_small n : 0 <= n < 1000 -> u64 n.
Proof. unfold u64, uintw. lia. Qed.

Lemma holds_entries : table_of u64 u64 typed_contents 2 entries.
Proof.
  apply (table_put u64 u64); [|by apply u64_small..]. split.
  - intros key _. cbn. by apply lookup_singleton_ne.
  - intros k v Hk. by rewrite lookup_singleton_ne in Hk.
  - done.
Qed.

Lemma key_nonempty (key : Z) : u64 key -> serialize key <> [].
Proof. intros _ E. discriminate E. Qed.
End TypedSamples.

#[local] Existing Instance toy_crypto.

Lemma typed_table_refined_witness :
  runs (db_put_pair (Z.to_nat (mem_limit + 1)) 0 LmdbSamples.db 5 50 0) TypedSamples.object
    (fun e l' => typed_db u64 u64 TypedSamples.object LmdbSamples.db 0
       (if is_error e then TypedSamples.entries else update TypedSamples.entries 5 (Some 50)) l')
    (typed_db u64 u64 TypedSamples.object LmdbSamples.db 0 TypedSamples.entries).
Proof.
  refine (proj1 (typed_table_refined (M := memdb) u64 u64 (Z.to_nat (mem_limit + 1)) 0 0 LmdbSamples.db
    TypedSamples.entries 5 50 0 TypedSamples.object _ _ _ _ _ _)).
  - cbn. lia.
  - exact TypedSamples.typed_db_registered.
  - eexists. split; [exact TypedSamples.typed_object_rest|exact TypedSamples.holds_entries].
  - exact LmdbSamples.limit_fuel.
  - by apply TypedSamples.u64_small.
  - by apply TypedSamples.u64_small.
Defined.

Lemma typed_reads_sound_witness :
  runs (list_keys_of 3 LmdbSamples.db) TypedSamples.object
    (fun keys l' => at_rest TypedSamples.object 0 TypedSamples.typed_contents 0 l' /\ NoDup keys /\
       Forall u64 keys /\ forall key, key ∈ keys <-> is_Some (TypedSamples.entries key))
    (at_rest TypedSamples.object 0 TypedSamples.typed_contents 0).
Proof.
  refine (proj1 (typed_reads_sound (M := memdb) u64 u64 3 0 LmdbSamples.db TypedSamples.entries
    TypedSamples.typed_contents 0 TypedSamples.object _ _ _ _ _)).
  - exact TypedSamples.typed_db_registered.
  - exact TypedSamples.typed_object_rest.
  - exact TypedSamples.holds_entries.
  - exact TypedSamples.key_nonempty.
  - apply Nat.ltb_lt. vm_compute. reflexivity.
Defined.
