(* ===== verification/Storage.v ===== *)
(** * Chain storage

    [src/src/core/blockchain_storage.cpp]: the blocks, their transactions,
    outputs and key images in six databases of one environment.  Every
    operation is the sequence of database calls of the source; a method that
    takes an open transaction is a [txn_prog], the others are [env_prog].

    Where the source returns [{error, {}, {}}] the values are the default ones.
    The loops of [put_block] and [del_block] have the fuel of [try_again]; the
    walk over a database in [count] has its own. *)

From S2P Require Import Prelude Errors CryptoLib Codec Concrete TxBase TxUser TxSystem Block.
From S2P Require Import TxTypes Float Mdb MemDb Program Lmdb.
From Stdlib Require Import Strings.Byte.

Section Storage.
Context {CL : CryptoLib} {M : MDB}.

Record BlockchainStorage : Type := mk_BlockchainStorage {
  m_blocks : LMDBDatabase;
  m_block_indexes : LMDBDatabase;
  m_block_timestamps : LMDBDatabase;
  m_transactions : LMDBDatabase;
  m_key_images : LMDBDatabase;
  m_transaction_outputs : LMDBDatabase
}.

(** [indeterminate] is the content of a structure the wrapper leaves
    uninitialised (see [Lmdb.v]). *)
Context (indeterminate : Z) (S : BlockchainStorage).

(** ** Existence *)

Definition block_exists (block_hash : crypto_hash_t) : env_prog bool :=
  db_exists (m_blocks S) (put_key block_hash).

Definition block_index_exists (block_index : Z) : env_prog bool :=
  db_exists (m_block_indexes S) (put_uint64 block_index).

Definition key_image_exists (key_image : crypto_key_image_t) : env_prog bool :=
  db_exists (m_key_images S) (put_key key_image).

Definition output_exists (output_hash : crypto_hash_t) : env_prog bool :=
  db_exists (m_transaction_outputs S) (put_key output_hash).

Definition transaction_exists (txn_hash : crypto_hash_t) : env_prog bool :=
  db_exists (m_transactions S) (put_key txn_hash).

(** The form for several key images asks for each of them in one transaction. *)
Fixpoint any_key_image (key_images : list crypto_key_image_t) (exists_ : bool) : txn_prog bool :=
  match key_images with
  | [] => mret exists_
  | key_image :: rest =>
      found ← txn_exists (put_key key_image);
      any_key_image rest (if found : bool then true else exists_)
  end.

Definition key_images_exist (key_images : list crypto_key_image_t) : env_prog bool :=
  scoped (db_transaction (m_key_images S) true) (any_key_image key_images false).

Definition get_block_count (fuel : nat) : env_prog Z := db_count fuel (m_blocks S).

Definition output_count (fuel : nat) : env_prog Z := db_count fuel (m_transaction_outputs S).

(** ** Writing *)

Definition put_key_image (key_image : crypto_key_image_t) : txn_prog ErrorCode :=
  set_database (m_key_images S);;
  txn_put (put_key key_image) [] 0.

(** The unlock block is packed in front of the output. *)
Definition put_transaction_output (unlock_block : Z) (output : TransactionOutput)
  : txn_prog ErrorCode :=
  set_database (m_transaction_outputs S);;
  txn_put (put_key (TransactionOutput_hash output))
    (put_varint unlock_block ++ TransactionOutput_serialize output) 0.

(** First visit: the transaction itself, then its key images. *)
Definition put_transaction_data (transaction : transaction_t) (block_hash : crypto_hash_t)
  : txn_prog ErrorCode :=
  error ← txn_put (put_key (transaction_hash transaction))
            (transaction_serialize transaction ++ put_key block_hash) 0;
  if is_error error then mret error
  else
    match user_parts transaction with
    | Some (_, body) => for_each put_key_image (key_images body)
    | None => mret SUCCESS
    end.

(** Second visit: the outputs. *)
Definition put_transaction_outputs (transaction : transaction_t) : txn_prog ErrorCode :=
  match user_parts transaction with
  | Some (prefix, body) =>
      for_each (put_transaction_output (unlock_block prefix)) (outputs body)
  | None =>
      match transaction with
      | Genesis_tx tx => for_each (put_transaction_output (unlock_block tx)) (genesis_outputs tx)
      | Refund_tx tx => for_each (put_transaction_output (unlock_block tx)) (refund_outputs tx)
      | _ => mret SUCCESS
      end
  end.

Definition put_transaction (transaction : transaction_t) (block_hash : crypto_hash_t)
  : txn_prog (ErrorCode * crypto_hash_t) :=
  set_database (m_transactions S);;
  let txn_hash := transaction_hash transaction in
  error ← put_transaction_data transaction block_hash;
  if is_error error then mret (error, txn_hash)
  else
    error ← put_transaction_outputs transaction;
    if is_error error then mret (error, txn_hash)
    else mret (SUCCESS, txn_hash).

(** A loop whose calls go through the macro, before the rest of the attempt. *)
Fixpoint checked_each {A} (f : A -> txn_prog ErrorCode) (l : list A)
  (k : txn_prog (option ErrorCode)) : txn_prog (option ErrorCode) :=
  match l with
  | [] => k
  | x :: l' => checked indeterminate (f x) (checked_each f l' k)
  end.

(** The block of [put_block] between [try_again:] and the end. *)
Definition put_block_attempt (block : block_t) (transactions : list transaction_t)
  : txn_prog (option ErrorCode) :=
  let block_hash := block_hash block in
  let store tx := '(error, _) ← put_transaction tx block_hash; mret error in
  checked indeterminate (store (reward_transaction (reward_tx block)))
  (checked_each store transactions
  (checked indeterminate
     (set_database (m_blocks S);; txn_put (put_key block_hash) (block_bytes block) 0)
  (checked indeterminate
     (set_database (m_block_indexes S);;
      txn_put (put_uint64 (block_index block)) (put_key block_hash) 0)
  (checked indeterminate
     (set_database (m_block_timestamps S);;
      txn_put (put_uint64 (block_timestamp block)) (put_key block_hash) 0)
  (checked_commit indeterminate))))).

Definition put_block (fuel : nat) (block : block_t) (transactions : list transaction_t)
  : env_prog ErrorCode :=
  if negb (vsize transactions =? vsize (block_transactions block)) then mret BLOCK_TXN_MISMATCH
  else
    let block_hashes := sha3_hashes (block_transactions block) in
    let tx_hashes := sha3_hashes (transaction_hash <$> transactions) in
    if negb (bool_decide (block_hashes = tx_hashes)) then mret BLOCK_TXN_ORDER
    else try_again fuel (env_transaction false) (put_block_attempt block transactions).

(** ** Reading *)

(** What [get_transaction] does with the stored bytes: the block hash, then the
    structure that the type in front of the rest calls for. *)
Definition read_typed_transaction (block_hash : crypto_hash_t)
  : reader (ErrorCode * transaction_t * crypto_hash_t) := fun s =>
  match peek_varint s with
  | None => None
  | Some type =>
      let found {T} (rd : reader T) (c : T -> transaction_t) :=
        (tx ← rd; mret (SUCCESS, c tx, block_hash)) s in
      if type =? TransactionType_value GENESIS then found genesis_deserialize Genesis_tx
      else if type =? TransactionType_value STAKER then found staker_deserialize Staker_tx
      else if type =? TransactionType_value NORMAL then
        found committed_normal_deserialize Normal_tx
      else if type =? TransactionType_value STAKE then
        found committed_stake_deserialize Stake_tx
      else if type =? TransactionType_value RECALL_STAKE then
        found committed_recall_deserialize Recall_tx
      else if type =? TransactionType_value STAKE_REFUND then
        found refund_deserialize Refund_tx
      else Some (UNKNOWN_TRANSACTION_TYPE, default_transaction, block_hash, s)
  end.

Definition read_transaction : reader (ErrorCode * transaction_t * crypto_hash_t) :=
  block_hash ← get_key;
  read_typed_transaction block_hash.

Definition get_transaction (txn_hash : crypto_hash_t)
  : env_prog (ErrorCode * transaction_t * crypto_hash_t) :=
  '(error, txn_data) ← db_get (m_transactions S) (put_key txn_hash);
  if is_error error then mret (DB_TRANSACTION_NOT_FOUND, default_transaction, key_default)
  else or_throw (fst <$> read_transaction txn_data).

(** The transactions of a block, or [None] when one cannot be retrieved. *)
Fixpoint get_transactions (hashes : list crypto_hash_t) : env_prog (option (list transaction_t)) :=
  match hashes with
  | [] => mret (Some [])
  | txn :: hashes' =>
      '(txn_error, transaction, _) ← get_transaction txn;
      if is_error txn_error then mret None
      else
        rest ← get_transactions hashes';
        mret (cons transaction <$> rest)
  end.

Definition get_block (block_hash : crypto_hash_t)
  : env_prog (ErrorCode * block_t * list transaction_t) :=
  '(error, block) ← db_get_as block_deserialize default_block (m_blocks S) (put_key block_hash);
  if is_error error then mret (DB_BLOCK_NOT_FOUND, default_block, [])
  else
    found ← get_transactions (block_transactions block);
    match found with
    | None => mret (DB_TRANSACTION_NOT_FOUND, default_block, [])
    | Some transactions => mret (SUCCESS, block, transactions)
    end.

Definition get_block_at (block_index : Z)
  : env_prog (ErrorCode * block_t * list transaction_t) :=
  '(error, block_hash) ← db_get_as get_key key_default (m_block_indexes S) (put_uint64 block_index);
  if is_error error then mret (DB_BLOCK_NOT_FOUND, default_block, [])
  else get_block block_hash.

Definition get_block_hash (block_index : Z) : env_prog (ErrorCode * crypto_hash_t) :=
  '(error, block_hash) ← db_get_as get_key key_default (m_block_indexes S) (put_uint64 block_index);
  if is_error error then mret (DB_BLOCK_NOT_FOUND, key_default)
  else mret (error, block_hash).

Definition get_block_index (block_hash : crypto_hash_t) : env_prog (ErrorCode * Z) :=
  '(error, block) ← db_get_as block_deserialize default_block (m_blocks S) (put_key block_hash);
  if is_error error then mret (DB_BLOCK_NOT_FOUND, 0)
  else mret (error, block_index block).

(** The first block at or after a timestamp. *)
Definition get_block_by_timestamp (timestamp : Z) : env_prog (ErrorCode * Z * crypto_hash_t) :=
  scoped (db_transaction (m_block_timestamps S) true)
    (cursor ← cursor_new;
     '(error, result_timestamp, r_value) ← cursor_get_uint64 cursor timestamp MDB_SET_RANGE;
     if is_error error then mret (DB_BLOCK_NOT_FOUND, 0, key_default)
     else
       block_hash ← or_throw (fst <$> get_key r_value);
       mret (error, result_timestamp, block_hash)).

(** The output first, then the unlock block. *)
Definition read_output : reader (TransactionOutput * Z) :=
  output ← TransactionOutput_deserialize;
  unlock_block ← get_varint 64;
  mret (output, unlock_block).

Definition default_output : TransactionOutput := mkTransactionOutput key_default 0 key_default.

Definition get_transaction_output (output_hash : crypto_hash_t)
  : env_prog (ErrorCode * TransactionOutput * Z) :=
  '(error, output_data) ← db_get (m_transaction_outputs S) (put_key output_hash);
  if is_error error then mret (DB_TRANSACTION_OUTPUT_NOT_FOUND, default_output, 0)
  else
    '(output, unlock_block) ← or_throw (fst <$> read_output output_data);
    mret (SUCCESS, output, unlock_block).

Fixpoint get_transaction_outputs (output_hashes : list crypto_hash_t)
  (results : list (TransactionOutput * Z)) : env_prog (ErrorCode * list (TransactionOutput * Z)) :=
  match output_hashes with
  | [] => mret (SUCCESS, results)
  | output_hash :: rest =>
      '(error, output, unlock_block) ← get_transaction_output output_hash;
      if is_error error then mret (error, [])
      else get_transaction_outputs rest (results ++ [(output, unlock_block)])
  end.

(** The loop of [get_random_outputs]; [random_hash n] is the [n]-th draw.
    Hashes of the results are distinct, so sorting them is inserting them in
    the order of the hashes. *)
Fixpoint random_outputs_loop (fuel : nat) (random_hash : nat -> crypto_hash_t) (n : nat)
  (cursor : mdb_cursor) (block_index count : Z) (results : list TransactionOutput)
  : txn_prog (list TransactionOutput) :=
  if vsize results <? count then
    match fuel with
    | O => fun _ => OutOfFuel
    | Datatypes.S fuel' =>
        let '(error, r_key, value, cursor') :=
          cursor_get cursor (put_key (random_hash n)) MDB_SET_RANGE in
        let continue results' :=
          random_outputs_loop fuel' random_hash (Datatypes.S n) cursor' block_index count results' in
        if bool_decide (error = LMDB_NOTFOUND) then continue results
        else
          key ← (if is_error error then mret key_default else or_throw (fst <$> get_key r_key));
          '(output, unlock_block) ← or_throw (fst <$> read_output value);
          if negb (bool_decide (TransactionOutput_hash output = key)) || (unlock_block <? block_index)
          then continue results
          else if existsb (TransactionOutput_eq output) results then continue results
          else continue (results ++ [output])
    end
  else
    mret (fold_left (fun l o => sorted_insert key_ltb TransactionOutput_hash o l) results []).

Definition get_random_outputs (fuel : nat) (random_hash : nat -> crypto_hash_t)
  (block_index count : Z) : env_prog (ErrorCode * list TransactionOutput) :=
  n ← output_count fuel;
  if n <? count then mret (DB_TRANSACTION_OUTPUT_NOT_FOUND, [])
  else
    scoped (db_transaction (m_transaction_outputs S) true)
      (cursor ← cursor_new;
       results ← random_outputs_loop fuel random_hash 0 cursor block_index count [];
       mret (SUCCESS, results)).

(** ** Deleting *)

Definition del_key_image (key_image : crypto_key_image_t) : txn_prog ErrorCode :=
  set_database (m_key_images S);;
  txn_del (put_key key_image) None.

Definition del_transaction_output (output_hash : crypto_hash_t) : txn_prog ErrorCode :=
  set_database (m_transaction_outputs S);;
  txn_del (put_key output_hash) None.

Definition del_outputs (outputs : list TransactionOutput) : txn_prog ErrorCode :=
  for_each (fun output => del_transaction_output (TransactionOutput_hash output)) outputs.

Definition del_transaction (transaction : transaction_t) : txn_prog ErrorCode :=
  or_else
    (match user_parts transaction with
     | Some (_, body) =>
         or_else (for_each del_key_image (key_images body)) (del_outputs (outputs body))
     | None =>
         match transaction with
         | Genesis_tx tx => del_outputs (genesis_outputs tx)
         | Refund_tx tx => del_outputs (refund_outputs tx)
         | _ => mret SUCCESS
         end
     end)
    (set_database (m_transactions S);; txn_del (put_key (transaction_hash transaction)) None).

Definition del_block_attempt (block : block_t) (transactions : list transaction_t)
  : txn_prog (option ErrorCode) :=
  checked_each del_transaction transactions
  (checked indeterminate
     (set_database (m_block_timestamps S);;
      txn_del (put_uint64 (block_timestamp block)) (Some (put_key (block_hash block))))
  (checked indeterminate
     (set_database (m_block_indexes S);; txn_del (put_uint64 (block_index block)) None)
  (checked indeterminate
     (set_database (m_blocks S);; txn_del (put_key (block_hash block)) None)
  (checked_commit indeterminate)))).

Definition del_block (fuel : nat) (block_index : Z) : env_prog ErrorCode :=
  '(block_error, block, transactions) ← get_block_at block_index;
  if is_error block_error then mret block_error
  else try_again fuel (db_transaction (m_blocks S) false) (del_block_attempt block transactions).

(** [for (i = block_count; i > block_index; --i)]. *)
Fixpoint rewind_loop (fuel : nat) (steps : nat) (i : Z) : env_prog ErrorCode :=
  match steps with
  | O => mret SUCCESS
  | Datatypes.S steps' => or_else (del_block fuel i) (rewind_loop fuel steps' (i - 1))
  end.

Definition rewind (fuel : nat) (block_index : Z) : env_prog ErrorCode :=
  present ← block_index_exists block_index;
  if negb present then mret DB_BLOCK_NOT_FOUND
  else
    block_count ← get_block_count fuel;
    rewind_loop fuel (Z.to_nat (block_count - block_index)) block_count.
End Storage.

(** ** Writes and deletions as changes of the contents *)

Definition write : Type := Z * bytes * bytes.

Definition apply_write (C : contents) (w : write) : contents := <[fst w := snd w]> C.
Definition apply_writes (C : contents) (ws : list write) : contents := fold_left apply_write ws C.

Definition apply_deletes (C : contents) (ks : list (Z * bytes)) : contents :=
  fold_left (fun C k => delete k C) ks C.

#[global] Arguments apply_writes : simpl never.
#[global] Arguments apply_deletes : simpl never.

Lemma apply_writes_app C ws ws' :
  apply_writes C (ws ++ ws') = apply_writes (apply_writes C ws) ws'.
Proof. apply fold_left_app. Qed.

Lemma apply_deletes_app C ks ks' :
  apply_deletes C (ks ++ ks') = apply_deletes (apply_deletes C ks) ks'.
Proof. apply fold_left_app. Qed.

(** A key that is not written keeps its value; one that is written has one; one
    that is written with a single value has that value. *)
Lemma apply_writes_other ws C k :
  k ∉ ws.*1 -> apply_writes C ws !! k = C !! k.
Proof.
  revert C. induction ws as [|w ws IH]; intros C Hk; cbn; [done|].
  rewrite fmap_cons, not_elem_of_cons in Hk. destruct Hk as [Hw Hk].
  change (apply_writes (apply_write C w) ws !! k = C !! k). rewrite IH by done.
  by apply lookup_insert_ne.
Qed.

Lemma apply_writes_Some ws C k :
  is_Some (C !! k) \/ k ∈ ws.*1 -> is_Some (apply_writes C ws !! k).
Proof.
  revert C. induction ws as [|w ws IH]; intros C Hk; cbn.
  { destruct Hk as [|Hk]; [done|by apply elem_of_nil in Hk]. }
  change (is_Some (apply_writes (apply_write C w) ws !! k)). apply IH.
  destruct (decide (k = fst w)) as [->|Hne].
  - left. unfold apply_write. rewrite lookup_insert_eq. by eexists.
  - destruct Hk as [Hk|Hk].
    + left. unfold apply_write. by rewrite lookup_insert_ne.
    + right. rewrite fmap_cons, elem_of_cons in Hk. destruct Hk; [congruence|done].
Qed.

Lemma apply_writes_value ws C k v :
  (k, v) ∈ ws -> (forall v', (k, v') ∈ ws -> v' = v) -> apply_writes C ws !! k = Some v.
Proof.
  revert C. induction ws as [|w ws IH]; intros C Hin Hall; [by apply elem_of_nil in Hin|].
  change (apply_writes (apply_write C w) ws !! k = Some v).
  destruct (decide ((k, v) ∈ ws)) as [Hws|Hws].
  - apply IH; [done|]. intros v' Hv'. apply Hall. by right.
  - rewrite apply_writes_other.
    + apply elem_of_cons in Hin as [<-|]; [|done]. unfold apply_write. apply lookup_insert_eq.
    + intros Hk. apply list_elem_of_fmap in Hk as ([k' v'] & -> & Hv'). cbn in *.
      assert (v' = v) as -> by (apply Hall; by right). done.
Qed.

Lemma apply_deletes_lookup ks C k :
  apply_deletes C ks !! k = if decide (k ∈ ks) then None else C !! k.
Proof.
  revert C. induction ks as [|k' ks IH]; intros C; cbn.
  { rewrite decide_False by apply not_elem_of_nil. done. }
  change (apply_deletes (delete k' C) ks !! k = if decide (k ∈ k' :: ks) then None else C !! k).
  rewrite IH. destruct (decide (k ∈ ks)) as [Hin|Hin].
  - by rewrite decide_True by (by right).
  - destruct (decide (k = k')) as [->|Hne].
    + rewrite decide_True by (by left). apply lookup_delete_eq.
    + rewrite decide_False by (rewrite elem_of_cons; tauto). by apply lookup_delete_ne.
Qed.

(** ** What the operations write and delete *)

Section Effects.
Context {CL : CryptoLib} (S : BlockchainStorage).

Definition tx_key_images (t : transaction_t) : list crypto_key_image_t :=
  match user_parts t with Some (_, body) => key_images body | None => [] end.

Definition tx_outputs (t : transaction_t) : list TransactionOutput :=
  match user_parts t with
  | Some (_, body) => outputs body
  | None =>
      match t with
      | Genesis_tx tx => genesis_outputs tx
      | Refund_tx tx => refund_outputs tx
      | _ => []
      end
  end.

Definition tx_unlock_block (t : transaction_t) : Z :=
  match user_parts t with
  | Some (prefix, _) => unlock_block prefix
  | None =>
      match t with
      | Genesis_tx tx => unlock_block tx
      | Refund_tx tx => unlock_block tx
      | _ => 0
      end
  end.

Definition key_image_write (k : crypto_key_image_t) : write :=
  (m_dbi (m_key_images S), put_key k, []).

Definition output_write (unlock : Z) (o : TransactionOutput) : write :=
  (m_dbi (m_transaction_outputs S), put_key (TransactionOutput_hash o),
   put_varint unlock ++ TransactionOutput_serialize o).

Definition transaction_write (h : crypto_hash_t) (t : transaction_t) : write :=
  (m_dbi (m_transactions S), put_key (transaction_hash t), transaction_serialize t ++ put_key h).

Definition transaction_writes (h : crypto_hash_t) (t : transaction_t) : list write :=
  transaction_write h t :: (key_image_write <$> tx_key_images t) ++
  (output_write (tx_unlock_block t) <$> tx_outputs t).

Definition block_table_writes (b : block_t) : list write :=
  [ (m_dbi (m_blocks S), put_key (block_hash b), block_bytes b);
    (m_dbi (m_block_indexes S), put_uint64 (block_index b), put_key (block_hash b));
    (m_dbi (m_block_timestamps S), put_uint64 (block_timestamp b), put_key (block_hash b)) ].

(** What a block stores: its reward, its transactions, and its own entries. *)
Definition block_writes (b : block_t) (txs : list transaction_t) : list write :=
  flat_map (transaction_writes (block_hash b)) (reward_transaction (reward_tx b) :: txs) ++
  block_table_writes b.

Definition transaction_deletes (t : transaction_t) : list (Z * bytes) :=
  ((fun k => (m_dbi (m_key_images S), put_key k)) <$> tx_key_images t) ++
  ((fun o => (m_dbi (m_transaction_outputs S), put_key (TransactionOutput_hash o))) <$> tx_outputs t) ++
  [ (m_dbi (m_transactions S), put_key (transaction_hash t)) ].

(** What deleting a block removes; the reward transaction is not there. *)
Definition block_deletes (b : block_t) (txs : list transaction_t) : list (Z * bytes) :=
  flat_map transaction_deletes txs ++
  [ (m_dbi (m_block_timestamps S), put_uint64 (block_timestamp b));
    (m_dbi (m_block_indexes S), put_uint64 (block_index b));
    (m_dbi (m_blocks S), put_key (block_hash b)) ].
End Effects.

(** ** Lemmas: the methods of an open transaction *)

Section StorageFacts.
Context {CL : CryptoLib} {M : MDB} {Laws : MDBLaws M}.
Variables (indeterminate : Z) (l0 : LMDB) (S : BlockchainStorage).
Hypothesis Hgrowth : 1 <= m_growth_factor l0 <= 2 ^ 20.

(** On success the contents that the transaction sees changed by [f]; after an
    error nothing is committed and the transaction can still be aborted. *)
Definition performs (m : txn_prog ErrorCode) (f : contents -> contents) : Prop :=
  forall C V B s, live l0 false C V B s ->
  runs m s (fun e s' => if is_error e then pending l0 false C B s'
                        else live l0 false C (f V) B s') (fun _ => False).

(** The same for the rest of an attempt that ends by committing. *)
Definition attempts (k : txn_prog (option ErrorCode)) (f : contents -> contents) : Prop :=
  forall C V B s, live l0 false C V B s ->
  runs k s (attempt_post l0 C (f V) B) (pending l0 false C B).

Notation writes m ws := (performs m (fun V => apply_writes V ws)).
Notation deletes m ks := (performs m (fun V => apply_deletes V ks)).

Lemma performs_ext m f g : (forall V, f V = g V) -> performs m f -> performs m g.
Proof using.
  intros Hfg Hm C V B s Hl. eapply runs_conseq; [by apply Hm|]. cbn. intros e s'. by rewrite Hfg.
Qed.

Lemma attempts_ext k f g : (forall V, f V = g V) -> attempts k f -> attempts k g.
Proof using. intros Hfg Hk C V B s Hl. rewrite <- Hfg. by apply Hk. Qed.

Lemma performs_success : performs (mret SUCCESS) (fun V => V).
Proof using. intros C V B s Hl. by apply runs_ret. Qed.

Lemma performs_put d k v :
  performs (set_database d;; txn_put k v 0) (fun V => apply_writes V [(m_dbi d, k, v)]).
Proof using.
  intros C V B s Hl. apply runs_bind.
  eapply runs_conseq; [by apply set_database_spec|]. cbn. intros _ s1 [H1 Hd].
  eapply runs_conseq; [by eapply txn_put_spec|]. cbn. by intros e s2 [_ H2].
Qed.

Lemma performs_del d k v :
  performs (set_database d;; txn_del k v) (fun V => apply_deletes V [(m_dbi d, k)]).
Proof using.
  intros C V B s Hl. apply runs_bind.
  eapply runs_conseq; [by apply set_database_spec|]. cbn. intros _ s1 [H1 Hd].
  eapply runs_conseq; [by eapply txn_del_spec|]. cbn. intros e s2 [_ H2].
  destruct (is_error e); [done|]. by destruct H2.
Qed.

Lemma performs_or_else m k f g :
  performs m f -> performs k g -> performs (or_else m k) (fun V => g (f V)).
Proof using.
  intros Hm Hk C V B s Hl. apply runs_or_else. eapply runs_conseq; [by apply Hm|].
  cbn. intros e s1 H1. destruct (is_error e); [done|]. by apply Hk.
Qed.

Lemma performs_for_each {A} (f : A -> txn_prog ErrorCode) (g : A -> contents -> contents) l :
  (forall x, performs (f x) (g x)) ->
  performs (for_each f l) (fun V => fold_left (fun V x => g x V) l V).
Proof using.
  intros Hf. induction l as [|x l IH]; cbn [for_each fold_left]; [apply performs_success|].
  apply (performs_or_else (f x) (for_each f l) (g x) (fun V => fold_left (fun V x => g x V) l V));
    [apply Hf|apply IH].
Qed.

Lemma fold_writes {A} (g : A -> list write) l V :
  fold_left (fun V x => apply_writes V (g x)) l V = apply_writes V (flat_map g l).
Proof using.
  revert V. induction l as [|x l IH]; intros V; cbn [fold_left flat_map]; [done|].
  by rewrite apply_writes_app, IH.
Qed.

Lemma fold_deletes {A} (g : A -> list (Z * bytes)) l V :
  fold_left (fun V x => apply_deletes V (g x)) l V = apply_deletes V (flat_map g l).
Proof using.
  revert V. induction l as [|x l IH]; intros V; cbn [fold_left flat_map]; [done|].
  by rewrite apply_deletes_app, IH.
Qed.

Lemma flat_map_singleton {A B} (f : A -> B) l : flat_map (fun x => [f x]) l = f <$> l.
Proof using. induction l as [|x l IH]; cbn; [done|]. by rewrite IH. Qed.

Lemma writes_each {A} (f : A -> txn_prog ErrorCode) (w : A -> write) l :
  (forall x, writes (f x) [w x]) -> writes (for_each f l) (w <$> l).
Proof using.
  intros Hf. eapply performs_ext; [|apply performs_for_each, Hf].
  intros V. cbn beta. rewrite (fold_writes (fun x => [w x])). by rewrite flat_map_singleton.
Qed.

Lemma deletes_each {A} (f : A -> txn_prog ErrorCode) (w : A -> Z * bytes) l :
  (forall x, deletes (f x) [w x]) -> deletes (for_each f l) (w <$> l).
Proof using.
  intros Hf. eapply performs_ext; [|apply performs_for_each, Hf].
  intros V. cbn beta. rewrite (fold_deletes (fun x => [w x])). by rewrite flat_map_singleton.
Qed.

Lemma put_transaction_outputs_writes t :
  writes (put_transaction_outputs S t) (output_write S (tx_unlock_block t) <$> tx_outputs t).
Proof using.
  unfold put_transaction_outputs, tx_unlock_block, tx_outputs.
  destruct (user_parts t) as [[p b]|]; [apply writes_each; intros; apply performs_put|].
  destruct t; try apply performs_success; apply writes_each; intros; apply performs_put.
Qed.

(** The first visit, once the transactions database is selected. *)
Lemma put_transaction_data_writes h t C V B s :
  live l0 false C V B s -> selected (m_transactions S) s ->
  runs (put_transaction_data S t h) s
    (fun e s' => if is_error e then pending l0 false C B s'
       else live l0 false C (apply_writes V
              (transaction_write S h t :: (key_image_write S <$> tx_key_images t))) B s')
    (fun _ => False).
Proof using.
  intros Hl Hd. unfold put_transaction_data. apply runs_bind.
  eapply runs_conseq; [by eapply txn_put_spec|]. cbn. intros e s1 [_ H1].
  destruct (is_error e) eqn:He; [apply runs_ret; by rewrite He|].
  unfold tx_key_images. destruct (user_parts t) as [[p b]|]; [|by apply runs_ret].
  eapply (writes_each (put_key_image S) (key_image_write S)); [|exact H1].
  intros k. apply performs_put.
Qed.

Lemma put_transaction_writes h t :
  writes ('(error, _) ← put_transaction S t h; mret error) (transaction_writes S h t).
Proof using.
  intros C V B s Hl. apply runs_bind. unfold put_transaction. apply runs_bind.
  eapply runs_conseq; [by apply set_database_spec|]. cbn. intros _ s1 [H1 Hd].
  apply runs_bind. eapply runs_conseq; [by apply put_transaction_data_writes|].
  cbn beta. intros e s2 H2. destruct (is_error e) eqn:He.
  { apply runs_ret, runs_ret. by rewrite He. }
  apply runs_bind. eapply runs_conseq; [by apply put_transaction_outputs_writes|].
  cbn beta. intros e' s3 H3. destruct (is_error e') eqn:He'.
  { apply runs_ret, runs_ret. by rewrite He'. }
  apply runs_ret, runs_ret. rewrite is_error_success.
  change (transaction_writes S h t) with
    ((transaction_write S h t :: (key_image_write S <$> tx_key_images t)) ++
     (output_write S (tx_unlock_block t) <$> tx_outputs t)).
  rewrite apply_writes_app. exact H3.
Qed.

Lemma del_outputs_deletes os :
  deletes (del_outputs S os)
    ((fun o => (m_dbi (m_transaction_outputs S), put_key (TransactionOutput_hash o))) <$> os).
Proof using. apply deletes_each. intros. apply performs_del. Qed.

Lemma del_transaction_deletes t : deletes (del_transaction S t) (transaction_deletes S t).
Proof using.
  unfold del_transaction, transaction_deletes, tx_key_images, tx_outputs.
  rewrite app_assoc. eapply performs_ext; [intros V; symmetry; apply apply_deletes_app|].
  apply (performs_or_else _ _ (fun V => apply_deletes V _)); [|apply performs_del].
  destruct (user_parts t) as [[p b]|].
  - eapply performs_ext; [intros V; symmetry; apply apply_deletes_app|].
    apply (performs_or_else _ _ (fun V => apply_deletes V _)); [|apply del_outputs_deletes].
    apply deletes_each. intros. apply performs_del.
  - cbn [fmap list_fmap app].
    destruct t; try apply performs_success; apply del_outputs_deletes.
Qed.

(** ** Lemmas: attempts *)

Lemma attempts_commit : attempts (checked_commit indeterminate) (fun V => V).
Proof using Hgrowth. intros C V B s Hl. by apply checked_commit_spec. Qed.

Lemma attempts_checked m k f g :
  performs m f -> attempts k g -> attempts (checked indeterminate m k) (fun V => g (f V)).
Proof using Hgrowth.
  intros Hm Hk C V B s Hl. apply checked_spec; [done|].
  eapply runs_conseq; [by apply Hm|]. cbn. intros e s1 H1. destruct (is_error e); [done|].
  split; [by eapply live_pending|by apply Hk].
Qed.

Lemma attempts_each {A} (f : A -> txn_prog ErrorCode) (g : A -> contents -> contents) l k h :
  (forall x, performs (f x) (g x)) -> attempts k h ->
  attempts (checked_each indeterminate f l k) (fun V => h (fold_left (fun V x => g x V) l V)).
Proof using Hgrowth.
  intros Hf Hk. induction l as [|x l IH]; cbn [checked_each fold_left]; [done|].
  apply (attempts_checked (f x) (checked_each indeterminate f l k) (g x)
           (fun V => h (fold_left (fun V x => g x V) l V))); [apply Hf|apply IH].
Qed.

Lemma put_block_attempt_writes b txs :
  attempts (put_block_attempt indeterminate S b txs)
    (fun V => apply_writes V (block_writes S b txs)).
Proof using Hgrowth.
  eapply attempts_ext; [|unfold put_block_attempt; eapply attempts_checked;
    [apply put_transaction_writes|eapply attempts_each; [intros; apply put_transaction_writes|]]].
  2: { do 3 (eapply attempts_checked; [apply performs_put|]). apply attempts_commit. }
  intros V. cbn beta. rewrite fold_writes. unfold block_writes. cbn [flat_map].
  by rewrite <- app_assoc, !apply_writes_app.
Qed.

Lemma del_block_attempt_deletes b txs :
  attempts (del_block_attempt indeterminate S b txs)
    (fun V => apply_deletes V (block_deletes S b txs)).
Proof using Hgrowth.
  eapply attempts_ext; [|unfold del_block_attempt; eapply attempts_each;
    [intros; apply del_transaction_deletes|]].
  2: { do 3 (eapply attempts_checked; [apply performs_del|]). apply attempts_commit. }
  intros V. cbn beta. rewrite fold_deletes. unfold block_deletes.
  by rewrite apply_deletes_app.
Qed.
End StorageFacts.

(** ** Lemmas: what a stored block contains *)

Section BlockContents.
Context {CL : CryptoLib} {M : MDB}.

(** The six databases are open and different. *)
Record storage_ok (l : LMDB) (S : BlockchainStorage) : Prop := {
  ok_blocks : registered l (m_blocks S);
  ok_block_indexes : registered l (m_block_indexes S);
  ok_block_timestamps : registered l (m_block_timestamps S);
  ok_transactions : registered l (m_transactions S);
  ok_key_images : registered l (m_key_images S);
  ok_transaction_outputs : registered l (m_transaction_outputs S);
  ok_distinct : NoDup [m_dbi (m_blocks S); m_dbi (m_block_indexes S);
    m_dbi (m_block_timestamps S); m_dbi (m_transactions S); m_dbi (m_key_images S);
    m_dbi (m_transaction_outputs S)]
}.

Variables (l : LMDB) (S : BlockchainStorage) (Hok : storage_ok l S).

Ltac distinct :=
  pose proof (ok_distinct _ _ Hok) as Hdist;
  repeat (apply NoDup_cons in Hdist as [?Hni Hdist];
          rewrite ?not_elem_of_cons in Hni; destruct_and?).

(** The writes of a block to each of its own databases. *)
Lemma block_writes_cases b txs d k v :
  (d, k, v) ∈ block_writes S b txs ->
  (d = m_dbi (m_transactions S) \/ d = m_dbi (m_key_images S) \/
   d = m_dbi (m_transaction_outputs S)) \/
  (d, k, v) ∈ block_table_writes S b.
Proof using.
  unfold block_writes. rewrite elem_of_app. intros [Hin|Hin]; [left|by right].
  apply list_elem_of_In, in_flat_map in Hin as (t & _ & Ht). apply list_elem_of_In in Ht.
  unfold transaction_writes in Ht.
  rewrite elem_of_cons, elem_of_app, !list_elem_of_fmap in Ht.
  destruct Ht as [Ht|[(x & Ht & _)|(x & Ht & _)]]; injection Ht; intros; subst; tauto.
Qed.

Lemma transaction_write_in b txs t w :
  t ∈ reward_transaction (reward_tx b) :: txs -> w ∈ transaction_writes S (block_hash b) t ->
  w ∈ block_writes S b txs.
Proof using.
  intros Ht Hw. unfold block_writes. apply elem_of_app. left.
  apply list_elem_of_In, in_flat_map. exists t. by rewrite <- !list_elem_of_In.
Qed.

Lemma table_write_in b txs w : w ∈ block_table_writes S b -> w ∈ block_writes S b txs.
Proof using. intros Hw. unfold block_writes. apply elem_of_app. by right. Qed.

Ltac own_entry :=
  let Hc := fresh "Hc" in
  distinct; intros Hc; apply block_writes_cases in Hc as [Hc|Hc]; [naive_solver|];
  unfold block_table_writes in Hc; rewrite !elem_of_cons, elem_of_nil in Hc; naive_solver.

(** The one entry of a block in each of the tables of blocks. *)
Lemma block_entry b txs k v :
  (m_dbi (m_blocks S), k, v) ∈ block_writes S b txs ->
  k = put_key (block_hash b) /\ v = block_bytes b.
Proof using Hok. own_entry. Qed.

Lemma index_entry b txs k v :
  (m_dbi (m_block_indexes S), k, v) ∈ block_writes S b txs ->
  k = put_uint64 (block_index b) /\ v = put_key (block_hash b).
Proof using Hok. own_entry. Qed.

Lemma timestamp_entry b txs k v :
  (m_dbi (m_block_timestamps S), k, v) ∈ block_writes S b txs ->
  k = put_uint64 (block_timestamp b) /\ v = put_key (block_hash b).
Proof using Hok. own_entry. Qed.

(** After storing a block: its own three entries, and what its transactions
    spend and create. *)
Lemma stored_block C b txs :
  apply_writes C (block_writes S b txs) !! (m_dbi (m_blocks S), put_key (block_hash b)) =
    Some (block_bytes b).
Proof using Hok.
  apply apply_writes_value; [apply table_write_in; by left|]. by intros v' [_ ?]%block_entry.
Qed.

Lemma stored_index C b txs :
  apply_writes C (block_writes S b txs) !! (m_dbi (m_block_indexes S), put_uint64 (block_index b)) =
    Some (put_key (block_hash b)).
Proof using Hok.
  apply apply_writes_value; [apply table_write_in; right; by left|].
  by intros v' [_ ?]%index_entry.
Qed.

Lemma stored_timestamp C b txs :
  apply_writes C (block_writes S b txs) !!
    (m_dbi (m_block_timestamps S), put_uint64 (block_timestamp b)) = Some (put_key (block_hash b)).
Proof using Hok.
  apply apply_writes_value; [apply table_write_in; right; right; by left|].
  by intros v' [_ ?]%timestamp_entry.
Qed.

(** The entries of these tables after storing a block: the old ones and the
    block's. *)
Lemma index_entries C b txs k v :
  apply_writes C (block_writes S b txs) !! (m_dbi (m_block_indexes S), k) = Some v ->
  C !! (m_dbi (m_block_indexes S), k) = Some v \/ k = put_uint64 (block_index b).
Proof using Hok.
  intros Hv. destruct (decide ((m_dbi (m_block_indexes S), k) ∈ (block_writes S b txs).*1)) as [Hin|Hn].
  - right. apply list_elem_of_fmap in Hin as ([k' v'] & Hk & Hin). cbn [fst] in Hk. subst k'.
    by apply index_entry in Hin as [? _].
  - left. by rewrite apply_writes_other in Hv.
Qed.

Lemma timestamp_entries C b txs k v :
  apply_writes C (block_writes S b txs) !! (m_dbi (m_block_timestamps S), k) = Some v ->
  C !! (m_dbi (m_block_timestamps S), k) = Some v \/
  k = put_uint64 (block_timestamp b) /\ v = put_key (block_hash b).
Proof using Hok.
  intros Hv.
  destruct (decide ((m_dbi (m_block_timestamps S), k) ∈ (block_writes S b txs).*1)) as [Hin|Hn].
  - right. apply list_elem_of_fmap in Hin as ([k' v'] & Hk & Hin). cbn [fst] in Hk. subst k'.
    pose proof (timestamp_entry _ _ _ _ Hin) as [-> _].
    rewrite stored_timestamp in Hv. by injection Hv as <-.
  - left. by rewrite apply_writes_other in Hv.
Qed.

(** What deleting a block removes from each of its own databases. *)
Lemma block_deletes_cases b txs d k :
  (d, k) ∈ block_deletes S b txs ->
  (d = m_dbi (m_transactions S) \/ d = m_dbi (m_key_images S) \/
   d = m_dbi (m_transaction_outputs S)) \/
  (d, k) ∈ [ (m_dbi (m_block_timestamps S), put_uint64 (block_timestamp b));
             (m_dbi (m_block_indexes S), put_uint64 (block_index b));
             (m_dbi (m_blocks S), put_key (block_hash b)) ].
Proof using.
  unfold block_deletes. rewrite elem_of_app. intros [Hin|Hin]; [left|by right].
  apply list_elem_of_In, in_flat_map in Hin as (t & _ & Ht). apply list_elem_of_In in Ht.
  unfold transaction_deletes in Ht.
  rewrite !elem_of_app, !list_elem_of_fmap, elem_of_cons, elem_of_nil in Ht.
  destruct Ht as [(x & Ht & _)|[(x & Ht & _)|[Ht|[]]]]; injection Ht; intros; subst; tauto.
Qed.

Lemma block_deleted b txs k :
  (m_dbi (m_blocks S), k) ∈ block_deletes S b txs <-> k = put_key (block_hash b).
Proof using Hok.
  split.
  - distinct. intros Hc. apply block_deletes_cases in Hc as [Hc|Hc]; [naive_solver|].
    rewrite !elem_of_cons, elem_of_nil in Hc. naive_solver.
  - intros ->. unfold block_deletes. apply elem_of_app. right. right. right. by left.
Qed.

Lemma index_deleted b txs : (m_dbi (m_block_indexes S), put_uint64 (block_index b)) ∈ block_deletes S b txs.
Proof using. unfold block_deletes. apply elem_of_app. right. right. by left. Qed.

Lemma timestamp_deleted b txs :
  (m_dbi (m_block_timestamps S), put_uint64 (block_timestamp b)) ∈ block_deletes S b txs.
Proof using. unfold block_deletes. apply elem_of_app. right. by left. Qed.

Lemma stored_write C b txs t w :
  t ∈ reward_transaction (reward_tx b) :: txs -> w ∈ transaction_writes S (block_hash b) t ->
  is_Some (apply_writes C (block_writes S b txs) !! fst w).
Proof using.
  intros Ht Hw. apply apply_writes_Some. right. apply list_elem_of_fmap_2.
  by eapply transaction_write_in.
Qed.

Lemma stored_key_image C b txs t k :
  t ∈ txs -> k ∈ tx_key_images t ->
  is_Some (apply_writes C (block_writes S b txs) !! (m_dbi (m_key_images S), put_key k)).
Proof using.
  intros Ht Hk. apply (stored_write C b txs t (key_image_write S k)); [by right|].
  unfold transaction_writes. rewrite elem_of_cons, elem_of_app. right. left.
  by apply list_elem_of_fmap_2.
Qed.
End BlockContents.

(** ** Lemmas: reading *)

Section Reading.
Context {CL : CryptoLib} {M : MDB} {Laws : MDBLaws M}.
Variables (l0 : LMDB) (S : BlockchainStorage) (Hok : storage_ok l0 S).

(** The key images that are in the contents. *)
Definition spent (C : contents) (k : crypto_key_image_t) : bool :=
  bool_decide (is_Some (C !! (m_dbi (m_key_images S), put_key k))).

Lemma any_key_image_spec ks acc C B s :
  live l0 true C C B s -> selected (m_key_images S) s ->
  runs (any_key_image ks acc) s
    (fun r s' => s' = s /\ r = existsb (spent C) ks || acc) (fun s' => s' = s).
Proof using.
  intros Hl Hd. revert acc. induction ks as [|k ks IH]; intros acc; cbn [any_key_image existsb].
  { by apply runs_ret. }
  apply runs_bind. eapply runs_weaken; [by eapply txn_exists_spec| |done].
  cbn. intros found s1 [-> ->]. eapply runs_conseq; [apply IH|].
  cbn. intros r s1 [-> ->]. split; [done|]. unfold spent at 2.
  destruct (bool_decide _); cbn; [by rewrite orb_true_r|done].
Qed.

Lemma key_images_exist_spec ks C B l :
  at_rest l0 0 C B l ->
  runs (key_images_exist S ks) l
    (fun r l' => at_rest l0 0 C B l' /\ r = existsb (spent C) ks) (at_rest l0 0 C B).
Proof using Hok.
  intros Hr. apply reading_spec; [apply (ok_key_images _ _ Hok)|done|]. intros s Hl Hd.
  eapply runs_conseq; [by eapply any_key_image_spec|]. cbn. intros r s' [-> ->].
  by rewrite orb_false_r.
Qed.

(** A read that starts with a lookup whose result is known. *)
Lemma lookup_as_spec {V} (rd : reader V) dflt db k C B l :
  registered l0 db -> at_rest l0 0 C B l ->
  runs (db_get_as rd dflt db k) l
    (fun r l' => at_rest l0 0 C B l' /\
       match C !! (m_dbi db, k) with
       | Some v => exists x rest, rd v = Some (x, rest) /\ r = (SUCCESS, x)
       | None => is_error (fst r) = true /\ snd r = dflt
       end)
    (at_rest l0 0 C B).
Proof using. apply db_get_as_spec. Qed.

Lemma get_block_hash_spec i C B l :
  at_rest l0 0 C B l ->
  runs (get_block_hash S i) l
    (fun r l' => at_rest l0 0 C B l' /\
       match C !! (m_dbi (m_block_indexes S), put_uint64 i) with
       | Some v => exists h rest, get_key v = Some (h, rest) /\ r = (SUCCESS, h)
       | None => r = (DB_BLOCK_NOT_FOUND, key_default)
       end) (at_rest l0 0 C B).
Proof using Hok.
  intros Hr. unfold get_block_hash. apply runs_bind.
  eapply runs_weaken; [eapply lookup_as_spec; [apply (ok_block_indexes _ _ Hok)|done]| |done].
  cbn. intros [e h] l1 [H1 Hv]. cbn in Hv. destruct (C !! _) as [v|].
  - destruct Hv as (x & rest & Hrd & [= -> ->]). apply runs_ret. split; [done|]. by exists x, rest.
  - destruct Hv as [-> _]. by apply runs_ret.
Qed.

Lemma get_block_index_spec h C B l :
  at_rest l0 0 C B l ->
  runs (get_block_index S h) l
    (fun r l' => at_rest l0 0 C B l' /\
       match C !! (m_dbi (m_blocks S), put_key h) with
       | Some v => exists b rest, block_deserialize v = Some (b, rest) /\ r = (SUCCESS, block_index b)
       | None => r = (DB_BLOCK_NOT_FOUND, 0)
       end) (at_rest l0 0 C B).
Proof using Hok.
  intros Hr. unfold get_block_index. apply runs_bind.
  eapply runs_weaken; [eapply lookup_as_spec; [apply (ok_blocks _ _ Hok)|done]| |done].
  cbn. intros [e b] l1 [H1 Hv]. cbn in Hv. destruct (C !! _) as [v|].
  - destruct Hv as (x & rest & Hrd & [= -> ->]). apply runs_ret. split; [done|]. by exists x, rest.
  - destruct Hv as [-> _]. by apply runs_ret.
Qed.

Lemma get_transaction_rests h C B l :
  at_rest l0 0 C B l ->
  runs (get_transaction S h) l (fun _ l' => at_rest l0 0 C B l') (at_rest l0 0 C B).
Proof using Hok.
  intros Hr. unfold get_transaction. apply runs_bind.
  eapply runs_weaken; [eapply db_get_spec; [apply (ok_transactions _ _ Hok)|done]| |done].
  cbn. intros [e v] l1 [H1 _]. destruct (is_error e); [by apply runs_ret|].
  destruct (read_transaction v) as [[x ?]|]; [by apply runs_ret|by apply runs_throw].
Qed.

Lemma get_transactions_rests hs C B l :
  at_rest l0 0 C B l ->
  runs (get_transactions S hs) l (fun r l' => at_rest l0 0 C B l' /\ (hs = [] -> r = Some []))
    (at_rest l0 0 C B).
Proof using Hok.
  revert l. induction hs as [|h hs IH]; intros l Hr; cbn [get_transactions]; [by apply runs_ret|].
  apply runs_bind. eapply runs_weaken; [by apply get_transaction_rests| |done].
  cbn. intros [[e t] ?] l1 H1. destruct (is_error e); [by apply runs_ret|].
  apply runs_bind. eapply runs_weaken; [by apply IH| |done].
  cbn. intros r l2 [H2 _]. by apply runs_ret.
Qed.

Lemma get_block_spec h C B l :
  at_rest l0 0 C B l ->
  runs (get_block S h) l
    (fun r l' => at_rest l0 0 C B l' /\
       match C !! (m_dbi (m_blocks S), put_key h) with
       | Some v => exists b rest, block_deserialize v = Some (b, rest) /\
           (is_error (fst (fst r)) = false -> snd (fst r) = b) /\
           (block_transactions b = [] -> r = (SUCCESS, b, []))
       | None => r = (DB_BLOCK_NOT_FOUND, default_block, [])
       end) (at_rest l0 0 C B).
Proof using Hok.
  intros Hr. unfold get_block. apply runs_bind.
  eapply runs_weaken; [eapply lookup_as_spec; [apply (ok_blocks _ _ Hok)|done]| |done].
  cbn. intros [e b] l1 [H1 Hv]. cbn in Hv. destruct (C !! _) as [v|].
  - destruct Hv as (x & rest & Hrd & [= -> ->]). apply runs_bind.
    eapply runs_weaken; [by apply get_transactions_rests| |done].
    cbn. intros [txs|] l2 [H2 Hnil]; apply runs_ret; (split; [done|]); exists x, rest;
      (split; [done|]); (split; [done|]); intros Hx; specialize (Hnil Hx); [|done].
    by injection Hnil as ->.
  - destruct Hv as [-> _]. by apply runs_ret.
Qed.

Lemma get_block_at_spec i C B l :
  at_rest l0 0 C B l ->
  runs (get_block_at S i) l
    (fun r l' => at_rest l0 0 C B l' /\
       match C !! (m_dbi (m_block_indexes S), put_uint64 i) with
       | Some v => exists (h : crypto_hash_t) rest, get_key v = Some (h, rest) /\
           (is_error (fst (fst r)) = false ->
            exists v' rest', C !! (m_dbi (m_blocks S), put_key h) = Some v' /\
              block_deserialize v' = Some (snd (fst r), rest'))
       | None => r = (DB_BLOCK_NOT_FOUND, default_block, [])
       end) (at_rest l0 0 C B).
Proof using Hok.
  intros Hr. unfold get_block_at. apply runs_bind.
  eapply runs_weaken; [eapply lookup_as_spec; [apply (ok_block_indexes _ _ Hok)|done]| |done].
  cbn. intros [e h] l1 [H1 Hv]. cbn in Hv. destruct (C !! _) as [v|].
  - destruct Hv as (x & rest & Hrd & [= -> ->]).
    eapply runs_weaken; [by apply get_block_spec| |done].
    cbn. intros r l2 [H2 Hb]. split; [done|]. exists x, rest. split; [done|]. intros Hsucc.
    destruct (C !! _) as [v'|]; [|by subst r].
    destruct Hb as (b & rest' & Hb & Heq & _). exists v', rest'. rewrite Heq by done. done.
  - destruct Hv as [-> _]. by apply runs_ret.
Qed.
End Reading.

(** ** Lemmas: timestamps *)

(** The integer keys are big-endian, so their byte order is the order of the
    integers. *)
Class KeyOrderLaws (CL : CryptoLib) : Prop := {
  put_uint64_order : forall a b, u64 a -> u64 b ->
    bytes_lt (put_uint64 a) (put_uint64 b) = (a <? b)
}.

Section Timestamps.
Context {CL : CryptoLib} {M : MDB} {Laws : MDBLaws M} {CLaws : MDBCursorLaws M}.
Context {Codec : CodecLaws CL} {Order : KeyOrderLaws CL}.
Variables (l0 : LMDB) (S : BlockchainStorage) (Hok : storage_ok l0 S).

(** The table of timestamps holds what [put_block] puts there. *)
Definition timestamps_ok (C : contents) : Prop :=
  forall k v, C !! (m_dbi (m_block_timestamps S), k) = Some v ->
  exists n h, u64 n /\ k = put_uint64 n /\ v = put_key (K := crypto_hash_t) h.

(** The first block at or after [t]. *)
Definition first_from (C : contents) (t n : Z) (h : crypto_hash_t) : Prop :=
  u64 n /\ t <= n /\ C !! (m_dbi (m_block_timestamps S), put_uint64 n) = Some (put_key h) /\
  forall n', u64 n' -> t <= n' ->
    is_Some (C !! (m_dbi (m_block_timestamps S), put_uint64 n')) -> n <= n'.

(** The first element of a sorted list that passes a test on its key is below
    every other one that passes. *)
Lemma find_least (f : bytes * bytes -> bool) items p :
  StronglySorted (fun p q => bytes_lt (fst p) (fst q) = true) items ->
  List.find f items = Some p ->
  forall q, q ∈ items -> f q = true -> q = p \/ bytes_lt (fst p) (fst q) = true.
Proof using.
  induction 1 as [|x items Hs IH Hx]; cbn; [done|]. intros Hf q Hq Hfq.
  apply elem_of_cons in Hq as [->|Hq].
  - rewrite Hfq in Hf. injection Hf as ->. by left.
  - destruct (f x); [|by apply IH]. injection Hf as ->. right.
    rewrite Forall_forall in Hx. by apply Hx.
Qed.

Lemma get_uint64_key n : u64 n -> get_uint64 (put_uint64 n) = Some (n, []).
Proof using Codec. intros Hn. by rewrite <- (app_nil_r (put_uint64 n)), get_put_uint64. Qed.

Lemma get_key_whole (h : crypto_hash_t) : get_key (put_key h) = Some (h, []).
Proof using Codec. by rewrite <- (app_nil_r (put_key h)), get_put_key. Qed.

Lemma timestamp_lookup c C t s :
  u64 t -> timestamps_ok C ->
  (forall k v, (k, v) ∈ cursor_items c <-> C !! (m_dbi (m_block_timestamps S), k) = Some v) ->
  StronglySorted (fun p q => bytes_lt (fst p) (fst q) = true) (cursor_items c) ->
  runs (cursor_get_uint64 c t MDB_SET_RANGE) s
    (fun '(e, n, v) s' => s' = s /\
       if is_error e then
         forall n', u64 n' -> t <= n' -> C !! (m_dbi (m_block_timestamps S), put_uint64 n') = None
       else e = SUCCESS /\ exists h, v = put_key h /\ first_from C t n h)
    (fun s' => s' = s).
Proof using Codec Order CLaws.
  intros Ht Hts Hin Hsort. unfold cursor_get_uint64, cursor_get.
  destruct (cursor_set_range_ok c (put_uint64 t)) as (c' & Hi & Hc).
  assert (Hle : forall n, u64 n -> bytes_le (put_uint64 t) (put_uint64 n) = (t <=? n)).
  { intros n Hn. unfold bytes_le. rewrite put_uint64_order by done. lia. }
  destruct (List.find _ _) as [[k v]|] eqn:Hfind.
  - rewrite Hc. rewrite Z.eqb_refl. cbn [fst snd].
    change (is_error (code_of_int MDB_SUCCESS)) with false. cbv iota.
    pose proof (find_some _ _ Hfind) as [Hkin Hkle]. apply list_elem_of_In, Hin in Hkin.
    destruct (Hts _ _ Hkin) as (n & h & Hn & -> & ->). cbn [fst] in Hkle. rewrite Hle in Hkle by done.
    apply Z.leb_le in Hkle. rewrite get_uint64_key by done. cbn [fmap option_fmap option_map fst].
    apply runs_bind, runs_ret, runs_ret. split; [done|]. cbv iota. split; [done|].
    exists h. split; [done|]. split; [done|]. split; [done|]. split; [done|].
    intros n' Hn' Hle' [v' Hv']. apply Hin in Hv'.
    pose proof (find_least _ _ _ Hsort Hfind _ Hv') as Hl. cbn [fst] in Hl.
    rewrite Hle in Hl by done. destruct Hl as [Heq|Hlt]; [lia| |].
    + assert (get_uint64 (put_uint64 n') = get_uint64 (put_uint64 n)) as E by congruence.
      rewrite !get_uint64_key in E by done. injection E as ->. lia.
    + rewrite put_uint64_order in Hlt by done. lia.
  - destruct Hc as (k' & v' & ->).
    change (MDB_NOTFOUND =? MDB_SUCCESS) with false. cbv iota.
    change (is_error (code_of_int MDB_NOTFOUND)) with true. cbv iota. apply runs_ret.
    split; [done|]. change (is_error (code_of_int MDB_NOTFOUND)) with true. cbv iota.
    intros n' Hn' Hle'. destruct (C !! _) as [v|] eqn:E; [|done]. exfalso.
    apply Hin in E. apply list_elem_of_In in E.
    pose proof (find_none _ _ Hfind _ E) as Hf. cbn [fst] in Hf.
    rewrite Hle in Hf by done. lia.
Qed.

Lemma get_block_by_timestamp_spec t C B l :
  u64 t -> timestamps_ok C -> at_rest l0 0 C B l ->
  runs (get_block_by_timestamp S t) l
    (fun r l' => at_rest l0 0 C B l' /\
       ((exists n h, r = (SUCCESS, n, h) /\ first_from C t n h) \/
        (r = (DB_BLOCK_NOT_FOUND, 0, key_default) /\
         forall n', u64 n' -> t <= n' ->
           C !! (m_dbi (m_block_timestamps S), put_uint64 n') = None)))
    (at_rest l0 0 C B).
Proof using Codec Order CLaws Hok.
  intros Ht Hts Hr. apply reading_spec; [apply (ok_block_timestamps _ _ Hok)|done|]. intros s Hl Hd.
  apply runs_bind. eapply runs_weaken; [by eapply cursor_new_spec| |done].
  cbn beta. intros c s1 (-> & Hin & Hsort).
  apply runs_bind. eapply runs_weaken; [by apply (timestamp_lookup c C t)| |done].
  cbn beta. intros [[e n] v] s1 [-> He]. destruct (is_error e).
  - apply runs_ret. split; [done|]. by right.
  - destruct He as (-> & h & -> & Hfirst). rewrite get_key_whole.
    cbn [fmap option_fmap option_map fst]. apply runs_bind, runs_ret, runs_ret.
    split; [done|]. left. by exists n, h.
Qed.
End Timestamps.

(** ** Lemmas: records *)

Section Records.
Context {CL : CryptoLib} {Codec : CodecLaws CL}.

(** The serialized form of a transaction starts with its type. *)
Lemma peek_prefix p r :
  TransactionPrefix_wf p -> peek_varint (serialize_prefix p ++ r) = Some (l_type p).
Proof using Codec.
  intros [Hh _]. unfold serialize_prefix. rewrite <- app_assoc. by apply peek_header.
Qed.

Lemma read_typed_spec t (h : crypto_hash_t) r :
  transaction_wf t ->
  read_typed_transaction h (transaction_serialize t ++ r) = Some (SUCCESS, t, h, r).
Proof using Codec.
  unfold read_typed_transaction. destruct t as [tx|tx|tx|tx|tx|tx]; intros [Hwf Ht];
    cbn [transaction_serialize].
  - assert (peek_varint (genesis_serialize tx ++ r) = Some 0) as ->.
    { unfold genesis_serialize. rewrite <- !app_assoc, peek_prefix by apply Hwf. by rewrite Ht. }
    cbn. by erewrite bind_step by (by apply genesis_roundtrip).
  - assert (peek_varint (staker_serialize tx ++ r) = Some 1) as ->.
    { unfold staker_serialize. rewrite <- !app_assoc, peek_header by apply Hwf. by rewrite Ht. }
    cbn. by erewrite bind_step by (by apply staker_roundtrip).
  - assert (peek_varint (committed_normal_serialize tx ++ r) = Some 2) as ->.
    { unfold committed_normal_serialize. rewrite <- !app_assoc, peek_prefix by apply Hwf. by rewrite Ht. }
    cbn. by erewrite bind_step by (by apply committed_normal_roundtrip).
  - assert (peek_varint (committed_recall_serialize tx ++ r) = Some 4) as ->.
    { unfold committed_recall_serialize. rewrite <- !app_assoc, peek_prefix by apply Hwf. by rewrite Ht. }
    cbn. by erewrite bind_step by (by apply committed_recall_roundtrip).
  - assert (peek_varint (committed_stake_serialize tx ++ r) = Some 3) as ->.
    { unfold committed_stake_serialize. rewrite <- !app_assoc, peek_prefix by apply Hwf. by rewrite Ht. }
    cbn. by erewrite bind_step by (by apply committed_stake_roundtrip).
  - assert (peek_varint (refund_serialize tx ++ r) = Some 5) as ->.
    { unfold refund_serialize. rewrite <- !app_assoc, peek_prefix by apply Hwf. by rewrite Ht. }
    cbn. by erewrite bind_step by (by apply refund_roundtrip).
Qed.
End Records.

Section PutBlock.
Context {CL : CryptoLib} {M : MDB} {Laws : MDBLaws M}.

Lemma put_block_more fuel fuel' indeterminate S block txs l error l' :
  put_block indeterminate S fuel block txs l = Returned error l' -> (fuel <= fuel')%nat ->
  put_block indeterminate S fuel' block txs l = Returned error l'.
Proof.
  unfold put_block. destruct (negb _); [done|]. destruct (negb _); [done|]. apply try_again_more.
Qed.

Lemma put_block_contents fuel indeterminate S block txs C B l :
  1 <= m_growth_factor l <= 2 ^ 20 -> at_rest l 0 C B l ->
  mapsize_limit - B < Z.of_nat fuel ->
  runs (put_block indeterminate S fuel block txs) l
    (fun e l' => at_rest l 0 (if is_error e then C
                              else apply_writes C (block_writes S block txs)) B l')
    (at_rest l 0 C B).
Proof.
  intros Hg Hr Hf. unfold put_block.
  destruct (negb (_ =? _)); [by apply runs_ret|].
  destruct (negb (bool_decide _)); [by apply runs_ret|].
  eapply (try_again_spec l _ _ C _ fuel B l (fun B s => live l false C C B s)); [| |exact Hr|exact Hf].
  - intros B' l' Hr'. eapply runs_conseq; [by apply (txn_setup_spec l None false)|]. by intros x l2 [? _].
  - intros B' s Hs. by apply (put_block_attempt_writes indeterminate l S Hg).
Qed.
End PutBlock.

(** ** Properties *)

(** The block that the index tables of the contents name. *)
Definition index_names {CL : CryptoLib} (S : BlockchainStorage) (C : contents) (index : Z)
  (block : block_t) : Prop :=
  exists (h : crypto_hash_t) v1 v2 r1 r2,
    C !! (m_dbi (m_block_indexes S), put_uint64 index) = Some v1 /\
    get_key v1 = Some (h, r1) /\
    C !! (m_dbi (m_blocks S), put_key h) = Some v2 /\
    block_deserialize v2 = Some (block, r2).

Section StorageProps.
Context {CL : CryptoLib} {M : MDB} {Laws : MDBLaws M}.

(** C3: Storing a block always ends, whatever the engine answers, and is
    atomic: on success the committed contents are the old ones with exactly the
    block's entries written (its reward and its transactions with their outputs
    and key images, the block, its index and its timestamp), and after an error
    or an exception they are the old ones; no transaction stays open. *)
Theorem put_block_atomic fuel indeterminate S block txs C B l :
  1 <= m_growth_factor l <= 2 ^ 20 -> at_rest l 0 C B l ->
  mapsize_limit - B < Z.of_nat fuel ->
  runs (put_block indeterminate S fuel block txs) l
    (fun e l' => at_rest l 0 (if is_error e then C
                              else apply_writes C (block_writes S block txs)) B l')
    (at_rest l 0 C B).
Proof. by apply put_block_contents. Qed.

(** Before it opens a transaction [put_block] compares the transactions
    with the block: another number of them is [BLOCK_TXN_MISMATCH], other
    hashes or another order (up to collisions of the hash of the list) are
    [BLOCK_TXN_ORDER], both with the database untouched; so a stored block has
    its own transactions in its own order. *)
Theorem put_block_checks_transactions fuel indeterminate S block txs l :
  (vsize txs <> vsize (block_transactions block) ->
   put_block indeterminate S fuel block txs l = Returned BLOCK_TXN_MISMATCH l) /\
  (vsize txs = vsize (block_transactions block) ->
   sha3_hashes (transaction_hash <$> txs) <> sha3_hashes (block_transactions block) ->
   put_block indeterminate S fuel block txs l = Returned BLOCK_TXN_ORDER l) /\
  (forall l', put_block indeterminate S fuel block txs l = Returned SUCCESS l' ->
   vsize txs = vsize (block_transactions block) /\
   sha3_hashes (transaction_hash <$> txs) = sha3_hashes (block_transactions block)).
Proof.
  unfold put_block. destruct (Z.eqb_spec (vsize txs) (vsize (block_transactions block))) as [Hs|Hs];
    cbn [negb].
  - case_bool_decide as Hh; cbn [negb]; (split; [done|]); (split; [|intros; done || by split]).
    + intros _ Hne. congruence.
    + done.
  - split; [done|]. split; [done|]. done.
Qed.

(** All the ways to look a block up, one after the other. *)
Definition block_lookups {CL : CryptoLib} {M : MDB} (S : BlockchainStorage) (block : block_t)
  : env_prog (bool * bool * (ErrorCode * crypto_hash_t) * (ErrorCode * Z) *
              (ErrorCode * block_t * list transaction_t)) :=
  by_hash ← block_exists S (block_hash block);
  by_index ← block_index_exists S (block_index block);
  hash ← get_block_hash S (block_index block);
  index ← get_block_index S (block_hash block);
  whole ← get_block S (block_hash block);
  mret (by_hash, by_index, hash, index, whole).

(** The lookups of a block whose records are there. *)
Lemma block_reads `{!CodecLaws CL} S block C B l0 l :
  storage_ok l0 S -> at_rest l0 0 C B l -> block_wf block ->
  C !! (m_dbi (m_blocks S), put_key (block_hash block)) = Some (block_bytes block) ->
  C !! (m_dbi (m_block_indexes S), put_uint64 (block_index block)) = Some (put_key (block_hash block)) ->
  runs (block_lookups S block) l
    (fun '(by_hash, by_index, hash, index, whole) _ =>
       by_hash = true /\ by_index = true /\ hash = (SUCCESS, block_hash block) /\
       index = (SUCCESS, block_index block) /\
       (block_transactions block = [] -> whole = (SUCCESS, block, [])))
    (at_rest l0 0 C B).
Proof.
  intros Hok Hr Hwf Hb Hi. unfold block_lookups.
  assert (Hrb : block_deserialize (block_bytes block) = Some (block, [])).
  { rewrite <- (app_nil_r (block_bytes block)). by apply block_roundtrip. }
  assert (Hrh : get_key (put_key (block_hash block)) = Some (block_hash block, [])).
  { rewrite <- (app_nil_r (put_key _)). apply get_put_key. }
  apply runs_bind. eapply runs_weaken; [eapply db_exists_spec; [apply (ok_blocks _ _ Hok)|done]| |done].
  cbn beta. intros x1 l2 [H2 ->]. rewrite Hb, bool_decide_eq_true_2 by done.
  apply runs_bind.
  eapply runs_weaken; [eapply db_exists_spec; [apply (ok_block_indexes _ _ Hok)|done]| |done].
  cbn beta. intros x2 l3 [H3 ->]. rewrite Hi, bool_decide_eq_true_2 by done.
  apply runs_bind. eapply runs_weaken; [by eapply get_block_hash_spec| |done].
  cbn beta. rewrite Hi. intros x3 l4 [H4 (h & ? & Hh & ->)]. rewrite Hrh in Hh. injection Hh as <- <-.
  apply runs_bind. eapply runs_weaken; [by eapply get_block_index_spec| |done].
  cbn beta. rewrite Hb. intros x4 l5 [H5 (b & ? & Hbb & ->)]. rewrite Hrb in Hbb. injection Hbb as <- <-.
  apply runs_bind. eapply runs_weaken; [by eapply get_block_spec| |done].
  cbn beta. rewrite Hb. intros x5 l6 [H6 (b & ? & Hbb & _ & Hx)].
  rewrite Hrb in Hbb. injection Hbb as <- <-. by apply runs_ret.
Qed.

(** After a block was stored it is found by its hash and by its index, the
    two lookups translate into each other, and a block without transactions is
    handed out whole. *)
Theorem stored_block_found `{!CodecLaws CL} fuel indeterminate S block txs C B l l1 :
  1 <= m_growth_factor l <= 2 ^ 20 -> storage_ok l S -> at_rest l 0 C B l ->
  mapsize_limit - B < Z.of_nat fuel -> block_wf block ->
  put_block indeterminate S fuel block txs l = Returned SUCCESS l1 ->
  runs (block_lookups S block) l1
    (fun '(by_hash, by_index, hash, index, whole) _ =>
       by_hash = true /\ by_index = true /\ hash = (SUCCESS, block_hash block) /\
       index = (SUCCESS, block_index block) /\
       (block_transactions block = [] -> whole = (SUCCESS, block, [])))
    (at_rest l 0 (apply_writes C (block_writes S block txs)) B).
Proof.
  intros Hg Hok Hr Hf Hwf Hput.
  pose proof (put_block_contents fuel indeterminate S block txs C B l Hg Hr Hf) as Hs.
  unfold runs in Hs. rewrite Hput in Hs. cbn in Hs.
  eapply block_reads; [exact Hok|exact Hs|exact Hwf| |]; [by eapply stored_block|by eapply stored_index].
Qed.

(** After a block was stored, every set of key images that shares one with
    its transactions is reported as spent, and every one of its transactions
    and outputs exists. *)
Theorem stored_block_spends fuel indeterminate S block txs C B l l1 t key_images k o :
  1 <= m_growth_factor l <= 2 ^ 20 -> storage_ok l S -> at_rest l 0 C B l ->
  mapsize_limit - B < Z.of_nat fuel ->
  put_block indeterminate S fuel block txs l = Returned SUCCESS l1 ->
  t ∈ reward_transaction (reward_tx block) :: txs ->
  k ∈ tx_key_images t -> k ∈ key_images -> o ∈ tx_outputs t ->
  runs (spent ← key_images_exist S key_images;
        single ← key_image_exists S k;
        known ← transaction_exists S (transaction_hash t);
        created ← output_exists S (TransactionOutput_hash o);
        mret (spent, single, known, created)) l1
    (fun r _ => r = (true, true, true, true))
    (at_rest l 0 (apply_writes C (block_writes S block txs)) B).
Proof.
  intros Hg Hok Hr Hf Hput Ht Hk Hks Ho.
  pose proof (put_block_contents fuel indeterminate S block txs C B l Hg Hr Hf) as Hs.
  unfold runs in Hs. rewrite Hput in Hs. cbn in Hs.
  assert (Hin : forall w, w ∈ transaction_writes S (block_hash block) t ->
    is_Some (apply_writes C (block_writes S block txs) !! fst w)).
  { intros w Hw. by eapply stored_write. }
  assert (Hk' := Hin (key_image_write S k)). assert (Ho' := Hin (output_write S (tx_unlock_block t) o)).
  assert (Ht' := Hin (transaction_write S (block_hash block) t)).
  unfold transaction_writes in Hk', Ho', Ht'. rewrite elem_of_cons, elem_of_app in Hk', Ho', Ht'.
  specialize (Hk' ltac:(right; left; by apply list_elem_of_fmap_2)).
  specialize (Ho' ltac:(right; right; by apply list_elem_of_fmap_2)).
  specialize (Ht' ltac:(by left)). cbn [fst key_image_write output_write transaction_write] in *.
  set (C' := apply_writes _ _) in *.
  apply runs_bind. eapply runs_weaken; [by eapply key_images_exist_spec| |done].
  cbn beta. intros x1 l2 [H2 ->].
  apply runs_bind. eapply runs_weaken; [eapply db_exists_spec; [apply (ok_key_images _ _ Hok)|done]| |done].
  cbn beta. intros x2 l3 [H3 ->]. rewrite bool_decide_eq_true_2 by done.
  apply runs_bind. eapply runs_weaken; [eapply db_exists_spec; [apply (ok_transactions _ _ Hok)|done]| |done].
  cbn beta. intros x3 l4 [H4 ->]. rewrite bool_decide_eq_true_2 by done.
  apply runs_bind.
  eapply runs_weaken; [eapply db_exists_spec; [apply (ok_transaction_outputs _ _ Hok)|done]| |done].
  cbn beta. intros x4 l5 [H5 ->]. rewrite bool_decide_eq_true_2 by done.
  apply runs_ret. do 3 f_equal. apply existsb_exists. exists k. rewrite <- list_elem_of_In.
  split; [done|]. by apply bool_decide_eq_true_2.
Qed.

Lemma del_block_spec fuel indeterminate S index C B l :
  1 <= m_growth_factor l <= 2 ^ 20 -> storage_ok l S -> at_rest l 0 C B l ->
  mapsize_limit - B < Z.of_nat fuel ->
  runs (del_block indeterminate S fuel index) l
    (fun e l' =>
       if is_error e then at_rest l 0 C B l'
       else exists block txs, at_rest l 0 (apply_deletes C (block_deletes S block txs)) B l' /\
         index_names S C index block)
    (at_rest l 0 C B).
Proof.
  intros Hg Hok Hr Hf. unfold del_block. apply runs_bind.
  eapply runs_weaken; [by eapply get_block_at_spec| |done].
  cbn beta. intros [[e block] txs] l1 [H1 Hv]. cbn [fst snd] in Hv.
  destruct (is_error e) eqn:He; [apply runs_ret; by rewrite He|].
  destruct (C !! _) as [v1|] eqn:E1; [|by injection Hv as -> _ _].
  destruct Hv as (h & r1 & Hh & Hb). destruct (Hb eq_refl) as (v2 & r2 & E2 & Hbb).
  eapply runs_conseq; [eapply (try_again_spec l _ _ C _ fuel B l1 (fun B s => live l false C C B s));
    [| |exact H1|exact Hf]|].
  - intros B' l' Hr'.
    eapply runs_conseq; [eapply (db_transaction_spec l); [apply (ok_blocks _ _ Hok)|done]|].
    by intros x l2 [? _].
  - intros B' s Hs. by apply (del_block_attempt_deletes indeterminate l S Hg block txs).
  - cbn beta. intros e' l' Hl'. destruct (is_error e'); [done|].
    exists block, txs. split; [done|]. by exists h, v1, v2, r1, r2.
Qed.


(** C39: A rewind deletes nothing on a chain whose indexes are [0] to [n - 1]:
    the loop starts at the number of blocks, which is no index, so it returns
    [DB_BLOCK_NOT_FOUND] before the first deletion, for every target below
    the number of blocks. *)
Theorem rewind_fails_on_chain `{!MDBCursorLaws M} fuel indeterminate S index C B l :
  storage_ok l S -> at_rest l 0 C B l -> (size (table C (m_dbi (m_blocks S))) < fuel)%nat ->
  u64 index -> u64 (Z.of_nat (size (table C (m_dbi (m_blocks S))))) ->
  (forall i, u64 i -> is_Some (C !! (m_dbi (m_block_indexes S), put_uint64 i)) ->
     i < Z.of_nat (size (table C (m_dbi (m_blocks S))))) ->
  runs (rewind indeterminate S fuel index) l
    (fun e l' => at_rest l 0 C B l' /\ e = DB_BLOCK_NOT_FOUND) (at_rest l 0 C B).
Proof.
  intros Hok Hr Hf Hi Hn Hidx. unfold rewind. apply runs_bind.
  eapply runs_weaken; [eapply db_exists_spec; [apply (ok_block_indexes _ _ Hok)|done]| |done].
  cbn beta. intros present l1 [H1 ->]. case_bool_decide as Hp; cbn [negb]; [|by apply runs_ret].
  apply (Hidx _ Hi) in Hp. apply runs_bind.
  eapply runs_weaken; [eapply db_count_spec; [apply (ok_blocks _ _ Hok)|done|done]| |done].
  cbn beta. intros n l2 [H2 ->]. set (n := Z.of_nat _) in *.
  destruct (Z.to_nat (n - index)) as [|steps] eqn:Esteps; [lia|]. cbn [rewind_loop].
  apply runs_or_else. unfold del_block. apply runs_bind.
  eapply runs_weaken; [by eapply get_block_at_spec| |done].
  cbn beta. intros [[e b] txs] l3 [H3 Hv].
  destruct (C !! _) as [v|] eqn:E.
  - exfalso. assert (n < n); [|lia]. apply (Hidx _ Hn). by exists v.
  - injection Hv as -> -> ->. by apply runs_ret.
Qed.

(** C38: The lookup by time gives the earliest stored block that is not before
    the requested time, and [DB_BLOCK_NOT_FOUND] exactly when there is none; the
    table of timestamps holds what [put_block] writes there. An exception leaves
    the contents alone. *)
Theorem earliest_block_by_timestamp `{!MDBCursorLaws M} `{!CodecLaws CL} `{!KeyOrderLaws CL}
    S t C B l :
  u64 t -> storage_ok l S -> timestamps_ok S C -> at_rest l 0 C B l ->
  runs (get_block_by_timestamp S t) l
    (fun r l' => at_rest l 0 C B l' /\
       ((exists n h, r = (SUCCESS, n, h) /\ first_from S C t n h) \/
        (r = (DB_BLOCK_NOT_FOUND, 0, key_default) /\
         forall n', u64 n' -> t <= n' ->
           C !! (m_dbi (m_block_timestamps S), put_uint64 n') = None)))
    (at_rest l 0 C B).
Proof. intros. by apply get_block_by_timestamp_spec. Qed.
End StorageProps.

(** [get_transaction] and [get_transaction_output] read back every record
    in which the block hash comes before the transaction and the output before
    its unlock block: for each of the six kinds of transaction the type selects
    the structure that was written. *)
Theorem records_in_reading_order `{CL : CryptoLib} `{!CodecLaws CL} :
  (forall t (h : crypto_hash_t) r, transaction_wf t ->
     read_transaction (put_key h ++ transaction_serialize t ++ r) = Some (SUCCESS, t, h, r)) /\
  (forall o u r, TransactionOutput_wf o -> u64 u ->
     read_output (TransactionOutput_serialize o ++ put_varint u ++ r) = Some (o, u, r)).
Proof.
  split.
  - intros t h r Hwf. unfold read_transaction. erewrite bind_step by (by apply get_put_key).
    by apply read_typed_spec.
  - intros o u r Ho Hu. unfold read_output. repeat codec_step. done.
Qed.

(** ** Samples and witnesses *)

#[global] Instance toy_key_order : KeyOrderLaws toy_crypto.
Proof.
  assert (Hlen : forall (a b c d : bytes), List.length a = List.length b ->
    bytes_lt (a ++ c) (b ++ d) = bytes_lt a b || (bool_decide (a = b) && bytes_lt c d)).
  { induction a as [|x a IH]; intros [|y b] c d Hl; try done.
    injection Hl as Hl. cbn [app bytes_lt]. rewrite IH by done.
    destruct (Z.ltb_spec x y), (Z.eqb_spec x y); cbn; try lia;
      repeat case_bool_decide; cbn; rewrite ?orb_false_r; (done || congruence || idtac). }
  assert (Hbe : forall k a b, 0 <= a < 256 ^ Z.of_nat k -> 0 <= b < 256 ^ Z.of_nat k ->
    bytes_lt (be_enc k a) (be_enc k b) = (a <? b)).
  { induction k as [|k IH]; intros a b Ha Hb; [cbn in *; lia|].
    rewrite Nat2Z.inj_succ, Z.pow_succ_r in Ha, Hb by lia. cbn [be_enc].
    pose proof (Z.mod_pos_bound a 256). pose proof (Z.mod_pos_bound b 256).
    pose proof (Z.div_mod a 256). pose proof (Z.div_mod b 256).
    assert (Ha' : 0 <= a / 256 < 256 ^ Z.of_nat k)
      by (split; [apply Z.div_pos; lia|apply Z.div_lt_upper_bound; lia]).
    assert (Hb' : 0 <= b / 256 < 256 ^ Z.of_nat k)
      by (split; [apply Z.div_pos; lia|apply Z.div_lt_upper_bound; lia]).
    rewrite Hlen by (by rewrite !be_enc_length). rewrite IH by done.
    case_bool_decide as He; cbn.
    - apply (f_equal be_val) in He. rewrite !be_val_enc in He by done. lia.
    - assert (a / 256 <> b / 256) by (intros E; apply He; by rewrite E). lia. }
  split. intros a b Ha Hb. apply (Hbe 8%nat); unfold uintw in *; cbn; lia.
Qed.

Module StorageSamples.
#[local] Existing Instance toy_crypto.
Definition db (id : byte) (n : Z) : LMDBDatabase (CL := toy_crypto) :=
  mk_LMDBDatabase (id : crypto_hash_t) n.

Definition store : BlockchainStorage (CL := toy_crypto) :=
  mk_BlockchainStorage (db x01 1) (db x02 2) (db x03 3) (db x04 4) (db x05 5) (db x06 6).

(** An empty chain in a map of [size] bytes. *)
Definition object (size : Z) : LMDB (CL := toy_crypto) (M := memdb) :=
  mk_LMDB (x01 : crypto_hash_t) 16 (Some (mk_mem_env ∅ size))
    (<[ (x01 : crypto_hash_t) := db x01 1 ]> (<[ (x02 : crypto_hash_t) := db x02 2 ]>
     (<[ (x03 : crypto_hash_t) := db x03 3 ]> (<[ (x04 : crypto_hash_t) := db x04 4 ]>
     (<[ (x05 : crypto_hash_t) := db x05 5 ]> (<[ (x06 : crypto_hash_t) := db x06 6 ]> ∅)))))) 0.

Definition tx : transaction_t (CL := toy_crypto) := to_committed (U_normal UserSamples.normal).

Definition block : block_t (CL := toy_crypto) :=
  mk_block 1 1633492800 7 x61 (Reward_staker SystemSamples.reward) [transaction_hash tx]
    x0a xf5 [(x0b, x2d)].
(** The first block of a chain, without transactions. *)
Definition bare : block_t (CL := toy_crypto) :=
  mk_block 1 1633492800 0 x61 (Reward_staker SystemSamples.reward) [] x0a xf5 [(x0b, x2d)].

Definition after (b : block_t (CL := toy_crypto)) (txs : list (transaction_t (CL := toy_crypto)))
  : LMDB (CL := toy_crypto) (M := memdb) :=
  match put_block 0 store 1 b txs (object mem_limit) with
  | Returned _ l => l
  | _ => object 0
  end.

Lemma block_stored : put_block 0 store 1 block [tx] (object mem_limit) =
  Returned SUCCESS (after block [tx]).
Proof. reflexivity. Qed.

(** A block with a refund transaction, to read its records back. *)
Definition refund_tx : transaction_t (CL := toy_crypto) := Refund_tx SystemSamples.refund.
Definition refund_block : block_t (CL := toy_crypto) :=
  mk_block 1 1633492800 7 x61 (Reward_staker SystemSamples.reward) [transaction_hash refund_tx]
    x0a xf5 [(x0b, x2d)].

(** The kind of transaction and the block hash that [get_transaction] gives
    for the refund transaction, and the public key's amount and unlock block
    that [get_transaction_output] gives for its output. *)
Definition refund_read : option (ErrorCode * bool * bool) :=
  observe (fun '(e, t, h) =>
      (e, bool_decide (transaction_serialize t = transaction_serialize refund_tx),
       bool_decide (h = block_hash refund_block)))
    (get_transaction store (transaction_hash refund_tx) (after refund_block [refund_tx])).
Definition output_read : option (ErrorCode * Z * Z) :=
  observe (fun '(e, o, u) => (e, amount o, u))
    (get_transaction_output store (TransactionOutput_hash UserSamples.output1)
       (after refund_block [refund_tx])).

(** The hash of the block of a record. *)
Definition block_key : crypto_hash_t (CryptoLib := toy_crypto) := x61.

Lemma refund_block_stored : put_block 0 store 1 refund_block [refund_tx] (object mem_limit) =
  Returned SUCCESS (after refund_block [refund_tx]).
Proof. reflexivity. Qed.

Lemma store_ok size : storage_ok (object size) store.
Proof.
  split; try (split; [done|]; cbn; repeat (rewrite lookup_insert_ne by done); apply lookup_insert_eq).
  cbn. apply (bool_decide_unpack _). reflexivity.
Qed.

Lemma storage_at_rest size : 0 <= size <= mem_limit -> at_rest (object size) 0 ∅ size (object size).
Proof.
  intros. constructor; try done. eexists. split; [reflexivity|]. split; [done|].
  cbn. unfold mem_mapsize. cbn [mem_size]. lia.
Qed.

Lemma full_map_at_rest : at_rest (object mem_limit) 0 ∅ mem_limit (object mem_limit).
Proof. apply storage_at_rest. unfold mem_limit. lia. Qed.

Lemma growth_ok size : 1 <= m_growth_factor (object size) <= 2 ^ 20.
Proof. cbn. lia. Qed.

Lemma one_attempt : mapsize_limit (M := memdb) - mem_limit < Z.of_nat 1.
Proof. cbn. lia. Qed.

Lemma many_attempts : mapsize_limit (M := memdb) - 0 < Z.of_nat (Z.to_nat (mem_limit + 1)).
Proof. rewrite Z2Nat.id; cbn; unfold mem_limit; lia. Qed.

Lemma bare_wf : block_wf bare.
Proof.
  split; cbn; try lia; try (unfold uintw; lia).
  - split; [apply SystemSamples.reward_wf|done].
  - done.
  - repeat constructor.
  - intros H. discriminate H.
  - done.
  - repeat constructor.
Qed.

Lemma bare_stored : put_block 0 store 1 bare [] (object mem_limit) =
  Returned SUCCESS (after bare []).
Proof. reflexivity. Qed.

(** The chain of that one block. *)
Definition chain : LMDB (CL := toy_crypto) (M := memdb) := after bare [].
Definition chain_contents : contents := apply_writes ∅ (block_writes store bare []).

Lemma chain_from_empty : at_rest (object mem_limit) 0 chain_contents mem_limit chain.
Proof.
  pose proof (put_block_contents 1 0 store bare [] ∅ mem_limit (object mem_limit)
    (growth_ok _) full_map_at_rest one_attempt) as Hr.
  unfold runs in Hr. rewrite bare_stored in Hr. exact Hr.
Qed.

Lemma chain_rest : at_rest chain 0 chain_contents mem_limit chain.
Proof. destruct chain_from_empty. by constructor. Qed.

Lemma chain_ok : storage_ok chain store.
Proof.
  pose proof (rest_databases _ _ _ _ _ chain_from_empty) as Hdb.
  destruct (store_ok mem_limit). split; unfold registered in *; rewrite ?Hdb; done.
Qed.

Lemma chain_growth : 1 <= m_growth_factor chain <= 2 ^ 20.
Proof. rewrite (rest_growth _ _ _ _ _ chain_from_empty). apply growth_ok. Qed.

Lemma chain_count : size (table chain_contents 1) = 1%nat.
Proof. vm_compute. exact eq_refl. Qed.

Lemma chain_index i : u64 i -> is_Some (chain_contents !! (2, put_uint64 i)) -> i = 0.
Proof.
  intros Hi [v Hv].
  apply (index_entries _ store chain_ok ∅ bare []) in Hv as [Hv|Hk]; [discriminate Hv|].
  apply (f_equal get_uint64) in Hk. change (block_index bare) with 0 in Hk.
  rewrite !get_uint64_key in Hk by (done || split; cbn; lia). by injection Hk.
Qed.

Lemma chain_timestamps : timestamps_ok store chain_contents.
Proof.
  intros k v Hv.
  apply (timestamp_entries _ store chain_ok ∅ bare []) in Hv as [Hv|[-> ->]]; [discriminate Hv|].
  exists (block_timestamp bare), (block_hash bare). split; [split; cbn; lia|done].
Qed.
End StorageSamples.

#[local] Existing Instance toy_crypto.

Lemma put_block_atomic_witness :
  runs (put_block 0 StorageSamples.store (Z.to_nat (mem_limit + 1)) StorageSamples.block
          [StorageSamples.tx]) (StorageSamples.object 0)
    (fun e l' => at_rest (StorageSamples.object 0) 0
       (if is_error e then ∅
        else apply_writes ∅ (block_writes StorageSamples.store StorageSamples.block
               [StorageSamples.tx])) 0 l')
    (at_rest (StorageSamples.object 0) 0 ∅ 0).
Proof.
  apply put_block_atomic; [apply StorageSamples.growth_ok| |exact StorageSamples.many_attempts].
  apply StorageSamples.storage_at_rest. unfold mem_limit. lia.
Defined.

Lemma put_block_checks_transactions_witness :
  put_block 0 StorageSamples.store 1 StorageSamples.block [] (StorageSamples.object 0) =
    Returned BLOCK_TXN_MISMATCH (StorageSamples.object 0).
Proof.
  apply (proj1 (put_block_checks_transactions 1 0 StorageSamples.store StorageSamples.block []
    (StorageSamples.object 0))). discriminate.
Defined.

Lemma stored_block_found_witness :
  runs (by_hash ← block_exists StorageSamples.store (block_hash StorageSamples.bare);
        by_index ← block_index_exists StorageSamples.store (block_index StorageSamples.bare);
        hash ← get_block_hash StorageSamples.store (block_index StorageSamples.bare);
        index ← get_block_index StorageSamples.store (block_hash StorageSamples.bare);
        whole ← get_block StorageSamples.store (block_hash StorageSamples.bare);
        mret (by_hash, by_index, hash, index, whole))
    (StorageSamples.after StorageSamples.bare [])
    (fun '(by_hash, by_index, hash, index, whole) _ =>
       by_hash = true /\ by_index = true /\
       hash = (SUCCESS, block_hash StorageSamples.bare) /\ index = (SUCCESS, 0) /\
       (block_transactions StorageSamples.bare = [] -> whole = (SUCCESS, StorageSamples.bare, [])))
    (at_rest (StorageSamples.object mem_limit) 0
       (apply_writes ∅ (block_writes StorageSamples.store StorageSamples.bare [])) mem_limit).
Proof.
  apply (stored_block_found 1 0 StorageSamples.store StorageSamples.bare [] ∅ mem_limit
           (StorageSamples.object mem_limit)).
  - apply StorageSamples.growth_ok.
  - apply StorageSamples.store_ok.
  - exact StorageSamples.full_map_at_rest.
  - exact StorageSamples.one_attempt.
  - exact StorageSamples.bare_wf.
  - exact StorageSamples.bare_stored.
Defined.

Lemma stored_block_spends_witness :
  runs (spent ← key_images_exist (CL := toy_crypto) StorageSamples.store [x13; x12];
        single ← key_image_exists (CL := toy_crypto) StorageSamples.store x12;
        known ← transaction_exists StorageSamples.store (transaction_hash StorageSamples.tx);
        created ← output_exists StorageSamples.store (TransactionOutput_hash UserSamples.output2);
        mret (spent, single, known, created))
    (StorageSamples.after StorageSamples.block [StorageSamples.tx])
    (fun r _ => r = (true, true, true, true))
    (at_rest (StorageSamples.object mem_limit) 0
       (apply_writes ∅ (block_writes StorageSamples.store StorageSamples.block
          [StorageSamples.tx])) mem_limit).
Proof.
  apply (stored_block_spends 1 0 StorageSamples.store StorageSamples.block [StorageSamples.tx] ∅
           mem_limit (StorageSamples.object mem_limit) _ StorageSamples.tx).
  - apply StorageSamples.growth_ok.
  - apply StorageSamples.store_ok.
  - exact StorageSamples.full_map_at_rest.
  - exact StorageSamples.one_attempt.
  - exact StorageSamples.block_stored.
  - right. by left.
  - cbn. right. by left.
  - right. by left.
  - cbn. right. by left.
Defined.


Lemma rewind_fails_on_chain_witness :
  runs (rewind 0 StorageSamples.store 5 0) StorageSamples.chain
    (fun e l' => at_rest StorageSamples.chain 0 StorageSamples.chain_contents mem_limit l' /\
       e = DB_BLOCK_NOT_FOUND)
    (at_rest StorageSamples.chain 0 StorageSamples.chain_contents mem_limit).
Proof.
  apply rewind_fails_on_chain.
  - exact StorageSamples.chain_ok.
  - exact StorageSamples.chain_rest.
  - cbn [m_dbi m_blocks StorageSamples.store StorageSamples.db].
    rewrite StorageSamples.chain_count. lia.
  - split; lia.
  - cbn [m_dbi m_blocks StorageSamples.store StorageSamples.db].
    rewrite StorageSamples.chain_count. split; cbn; lia.
  - intros i Hi Hs. cbn [m_dbi m_blocks StorageSamples.store StorageSamples.db].
    rewrite StorageSamples.chain_count, (StorageSamples.chain_index i Hi Hs). lia.
Defined.

Lemma earliest_block_by_timestamp_witness :
  runs (get_block_by_timestamp StorageSamples.store 5) StorageSamples.chain
    (fun r l' => at_rest StorageSamples.chain 0 StorageSamples.chain_contents mem_limit l' /\
       ((exists n h, r = (SUCCESS, n, h) /\
           first_from StorageSamples.store StorageSamples.chain_contents 5 n h) \/
        (r = (DB_BLOCK_NOT_FOUND, 0, key_default) /\
         forall n', u64 n' -> 5 <= n' ->
           StorageSamples.chain_contents !!
             (m_dbi (m_block_timestamps StorageSamples.store), put_uint64 n') = None)))
    (at_rest StorageSamples.chain 0 StorageSamples.chain_contents mem_limit).
Proof.
  apply earliest_block_by_timestamp.
  - unfold uintw. lia.
  - exact StorageSamples.chain_ok.
  - exact StorageSamples.chain_timestamps.
  - exact StorageSamples.chain_rest.
Defined.

Lemma refund_reads :
  StorageSamples.refund_read = Some (SUCCESS, false, false) /\
  StorageSamples.output_read = Some (SUCCESS, 5, 6).
Proof. split; vm_compute; exact eq_refl. Qed.

(** A sample run, with the keys of [Concrete.v] on the in-memory engine: the
    records that [put_block] writes are in the other order than that of
    [records_in_reading_order], and here [get_transaction] reports
    success with another transaction and another block hash, and
    [get_transaction_output] with another amount and another unlock block. *)
Example stored_records_misread :
  exists (S : BlockchainStorage) (b : block_t) (t : transaction_t) (o : TransactionOutput)
         (l l1 : LMDB),
    put_block 0 S 1 b [t] l = Returned SUCCESS l1 /\ transaction_wf t /\ o ∈ tx_outputs t /\
    (exists t' h l2, get_transaction S (transaction_hash t) l1 = Returned (SUCCESS, t', h) l2 /\
       t' <> t /\ h <> block_hash b) /\
    (exists o' u l2, get_transaction_output S (TransactionOutput_hash o) l1 =
         Returned (SUCCESS, o', u) l2 /\
       amount o' <> amount o /\ u <> tx_unlock_block t).
Proof.
  exists StorageSamples.store, StorageSamples.refund_block, StorageSamples.refund_tx,
    UserSamples.output1, (StorageSamples.object mem_limit),
    (StorageSamples.after StorageSamples.refund_block [StorageSamples.refund_tx]).
  destruct refund_reads as [Ht Ho].
  split; [exact StorageSamples.refund_block_stored|].
  split; [split; [apply SystemSamples.refund_sample_wf|done]|]. split; [by left|]. split.
  - apply observe_Some in Ht as ([[e t'] h] & l2 & -> & Heq).
    apply pair_equal_spec in Heq as [Heq Hh]. apply pair_equal_spec in Heq as [-> Ht].
    apply bool_decide_eq_false in Ht, Hh. exists t', h, l2. split; [done|].
    split; [|exact Hh]. intros Heq. exact (Ht (f_equal transaction_serialize Heq)).
  - apply observe_Some in Ho as ([[e o'] u] & l2 & -> & Heq).
    apply pair_equal_spec in Heq as [Heq ->]. apply pair_equal_spec in Heq as [-> Ha].
    exists o', 6, l2. split; [done|]. rewrite Ha. split; discriminate.
Qed.

Lemma records_in_reading_order_witness :
  read_transaction (put_key (StorageSamples.block_key : crypto_hash_t) ++
    transaction_serialize StorageSamples.refund_tx ++ []) =
  Some (SUCCESS, StorageSamples.refund_tx, StorageSamples.block_key, []).
Proof.
  refine (proj1 records_in_reading_order StorageSamples.refund_tx StorageSamples.block_key [] _).
  split; [apply SystemSamples.refund_sample_wf|done].
Defined.
