(* ===== verification/Chain.v ===== *)
(** * The chain as a state machine

    The states that a chain storage goes through when blocks are stored and
    deleted and the chain is rewound, in any order and whatever the database
    engine answers, and the invariant of its three tables of blocks:
    [src/src/core/blockchain_storage.cpp]. *)

From S2P Require Import Prelude Errors CryptoLib Codec Concrete TxBase TxUser TxSystem Block TxTypes.
From S2P Require Import Mdb MemDb Program Lmdb Storage.
From Stdlib Require Import Strings.Byte.

Section Chain.
Context {CL : CryptoLib} {M : MDB} {Laws : MDBLaws M} {CLaws : MDBCursorLaws M} {Codec : CodecLaws CL}.
Context (indeterminate : Z) (S : BlockchainStorage).

(** ** Actions *)

Inductive chain_action : Type :=
  | Store (block : block_t) (transactions : list transaction_t)
  | Delete (block_index : Z)
  | Rewind (block_index : Z).

Definition perform (fuel : nat) (a : chain_action) : env_prog ErrorCode :=
  match a with
  | Store block transactions => put_block indeterminate S fuel block transactions
  | Delete block_index => del_block indeterminate S fuel block_index
  | Rewind block_index => rewind indeterminate S fuel block_index
  end.

(** Another block with the hash of [b] is not stored. *)
Definition no_collision (C : contents) (b : block_t) : Prop :=
  forall v, C !! (m_dbi (m_blocks S), put_key (block_hash b)) = Some v -> v = block_bytes b.

(** Blocks are well formed and their hashes do not collide; and there is enough
    fuel for the retries and for a walk over the blocks. *)
Definition allowed (C : contents) (fuel : nat) (a : chain_action) : Prop :=
  mapsize_limit < Z.of_nat fuel /\ (size (table C (m_dbi (m_blocks S))) < fuel)%nat /\
  match a with
  | Store block _ => block_wf block /\ no_collision C block
  | Delete _ | Rewind _ => True
  end.

(** The states of a chain that begins at [start]: an action that failed or
    threw an exception leads to a state like one that succeeded. *)
Inductive reachable (start : LMDB) : LMDB -> Prop :=
  | reachable_start : reachable start start
  | reachable_step l e fuel a l' :
      reachable start l -> m_env l = Some e -> allowed (env_contents e) fuel a ->
      (exists error, perform fuel a l = Returned error l') \/ perform fuel a l = Thrown l' ->
      reachable start l'.

(** ** The invariant *)

(** The block is in the table of blocks. *)
Definition block_at (C : contents) (b : block_t) : Prop :=
  block_wf b /\ C !! (m_dbi (m_blocks S), put_key (block_hash b)) = Some (block_bytes b).

(** Every entry in the tables of indexes and timestamps names a stored block
    that has that index or timestamp. *)
Record consistent (C : contents) : Prop := {
  indexes_named : forall k v, C !! (m_dbi (m_block_indexes S), k) = Some v ->
    exists b, block_at C b /\ k = put_uint64 (block_index b) /\ v = put_key (block_hash b);
  timestamps_named : forall k v, C !! (m_dbi (m_block_timestamps S), k) = Some v ->
    exists b, block_at C b /\ k = put_uint64 (block_timestamp b) /\ v = put_key (block_hash b)
}.

Lemma consistent_empty : consistent ∅.
Proof using. split; intros k v H; by rewrite lookup_empty in H. Qed.

Variables (l0 : LMDB) (Hok : storage_ok l0 S).

Lemma same_bytes b b' : block_wf b -> block_wf b' -> block_bytes b = block_bytes b' -> b = b'.
Proof using Codec.
  intros Hb Hb' Heq. pose proof (block_roundtrip b [] Hb) as H. pose proof (block_roundtrip b' [] Hb') as H'.
  rewrite Heq, H' in H. congruence.
Qed.

Lemma block_at_stored C b txs b' :
  no_collision C b -> block_at C b' -> block_at (apply_writes C (block_writes S b txs)) b'.
Proof using Hok.
  intros Hno [Hwf Hb']. split; [done|].
  destruct (decide (put_key (block_hash b') = put_key (block_hash b))) as [Heq|Hne].
  - rewrite Heq in *. rewrite (stored_block l0 S Hok). by rewrite (Hno _ Hb').
  - rewrite apply_writes_other; [done|]. intros ([k v] & Hk & Hin)%list_elem_of_fmap. cbn in Hk. subst k.
    by apply (block_entry l0 S Hok) in Hin as [? _].
Qed.

Lemma consistent_stored C b txs :
  block_wf b -> no_collision C b -> consistent C -> consistent (apply_writes C (block_writes S b txs)).
Proof using Hok.
  intros Hwf Hno [Hi Ht].
  assert (Hb : block_at (apply_writes C (block_writes S b txs)) b) by (split; [done|by eapply stored_block]).
  split; intros k v Hv.
  - destruct (decide (k = put_uint64 (block_index b))) as [->|Hne].
    + rewrite (stored_index l0 S Hok) in Hv. injection Hv as <-. by exists b.
    + apply (index_entries l0 S Hok) in Hv as [Hv|?]; [|done].
      destruct (Hi _ _ Hv) as (b' & ? & ? & ?). exists b'. split; [by apply block_at_stored|done].
  - apply (timestamp_entries l0 S Hok) in Hv as [Hv|[-> ->]]; [|by exists b].
    destruct (Ht _ _ Hv) as (b' & ? & ? & ?). exists b'. split; [by apply block_at_stored|done].
Qed.

Lemma consistent_deleted C b txs :
  block_at C b -> consistent C -> consistent (apply_deletes C (block_deletes S b txs)).
Proof using Hok Codec.
  intros [Hwf Hb] [Hi Ht].
  assert (Hkeep : forall b', block_at C b' -> b' <> b -> block_at (apply_deletes C (block_deletes S b txs)) b').
  { intros b' [Hwf' Hb'] Hne. split; [done|]. rewrite apply_deletes_lookup, decide_False; [done|].
    intros Heq%(block_deleted l0 S Hok). rewrite Heq, Hb in Hb'. injection Hb' as Hb'.
    by apply Hne, same_bytes. }
  split; intros k v Hv; rewrite apply_deletes_lookup in Hv; case_decide as Hn; try done.
  - destruct (Hi _ _ Hv) as (b' & Hb' & -> & ->). exists b'. split; [|done]. apply Hkeep; [done|].
    intros ->. apply Hn, index_deleted.
  - destruct (Ht _ _ Hv) as (b' & Hb' & -> & ->). exists b'. split; [|done]. apply Hkeep; [done|].
    intros ->. apply Hn, timestamp_deleted.
Qed.

(** The block that an index leads to is the stored one. *)
Lemma named_stored C index b : consistent C -> index_names S C index b -> block_at C b.
Proof using Codec.
  intros [Hi _] (h & v1 & v2 & r1 & r2 & H1 & Hh & H2 & Hb).
  destruct (Hi _ _ H1) as (b' & [Hwf Hb'] & _ & ->).
  rewrite <- (app_nil_r (put_key _)), get_put_key in Hh. injection Hh as <- _.
  rewrite Hb' in H2. injection H2 as <-. rewrite <- (app_nil_r (block_bytes _)), block_roundtrip in Hb by done.
  by injection Hb as <- _.
Qed.

(** ** Every action keeps the invariant *)

Variable B : Z.
Hypothesis Hgrowth : 1 <= m_growth_factor l0 <= 2 ^ 20.

(** The environment is at rest with consistent tables. *)
Definition in_order (l : LMDB) : Prop := exists C, at_rest l0 0 C B l /\ consistent C.

Lemma rest_growth_ok C l : at_rest l0 0 C B l -> 1 <= m_growth_factor l <= 2 ^ 20.
Proof using Hgrowth. intros Hr. by rewrite (rest_growth _ _ _ _ _ Hr). Qed.

Lemma storage_ok_rest C l : at_rest l0 0 C B l -> storage_ok l S.
Proof using Hok.
  intros Hr. pose proof (rest_databases _ _ _ _ _ Hr) as Hds.
  destruct Hok. split; unfold registered in *; rewrite ?Hds; done.
Qed.

Lemma in_order_rest C C' l l' : at_rest l0 0 C B l -> at_rest l 0 C' B l' -> consistent C' -> in_order l'.
Proof using. intros Hr Hr' HC. exists C'. split; [by eapply at_rest_from|done]. Qed.

Lemma store_in_order fuel b txs C l :
  at_rest l0 0 C B l -> consistent C -> mapsize_limit - B < Z.of_nat fuel ->
  block_wf b -> no_collision C b ->
  runs (put_block indeterminate S fuel b txs) l (fun _ => in_order) in_order.
Proof using Hok Hgrowth.
  intros Hr HC Hf Hwf Hno.
  eapply runs_weaken; [apply (put_block_contents fuel indeterminate S b txs C B l);
    [by eapply rest_growth_ok|by eapply at_rest_here|done]| |].
  - cbn beta. intros error l' Hl'. eapply in_order_rest; [exact Hr|exact Hl'|].
    destruct (is_error error); [done|by apply consistent_stored].
  - intros l' Hl'. by eapply in_order_rest.
Qed.

Lemma delete_in_order fuel index l :
  in_order l -> mapsize_limit - B < Z.of_nat fuel ->
  runs (del_block indeterminate S fuel index) l (fun _ => in_order) in_order.
Proof using Hok Hgrowth Codec.
  intros (C & Hr & HC) Hf.
  eapply runs_weaken; [apply (del_block_spec fuel indeterminate S index C B l);
    [by eapply rest_growth_ok|by eapply storage_ok_rest|by eapply at_rest_here|done]| |].
  - cbn beta. intros error l' Hl'. destruct (is_error error); [by eapply in_order_rest|].
    destruct Hl' as (b & txs & Hl' & Hb). eapply in_order_rest; [exact Hr|exact Hl'|].
    apply consistent_deleted; [by eapply named_stored|done].
  - intros l' Hl'. by eapply in_order_rest.
Qed.

Lemma rewind_loop_in_order fuel steps i l :
  in_order l -> mapsize_limit - B < Z.of_nat fuel ->
  runs (rewind_loop indeterminate S fuel steps i) l (fun _ => in_order) in_order.
Proof using Hok Hgrowth Codec.
  intros Hl Hf. revert i l Hl. induction steps as [|steps IH]; intros i l Hl; cbn [rewind_loop]; [by apply runs_ret|].
  apply runs_or_else. eapply runs_weaken; [by apply delete_in_order| |done].
  cbn beta. intros error l' Hl'. destruct (is_error error); [done|by apply IH].
Qed.

Lemma rewind_in_order fuel index C l :
  at_rest l0 0 C B l -> consistent C -> mapsize_limit - B < Z.of_nat fuel ->
  (size (table C (m_dbi (m_blocks S))) < fuel)%nat ->
  runs (rewind indeterminate S fuel index) l (fun _ => in_order) in_order.
Proof using Hok Hgrowth Codec CLaws.
  intros Hr HC Hf Hsize. assert (Hin : forall l', at_rest l0 0 C B l' -> in_order l') by by exists C.
  unfold rewind. apply runs_bind.
  eapply runs_weaken; [eapply db_exists_spec; [apply (ok_block_indexes _ _ Hok)|done]| |done].
  cbn beta. intros present l1 [H1 _]. destruct (negb present); [by apply runs_ret, Hin|]. apply runs_bind.
  eapply runs_weaken; [eapply db_count_spec; [apply (ok_blocks _ _ Hok)|done|done]| |done].
  cbn beta. intros n l2 [H2 _]. by apply rewind_loop_in_order; [apply Hin|].
Qed.

Lemma perform_in_order fuel a l e :
  in_order l -> 0 <= B -> m_env l = Some e -> allowed (env_contents e) fuel a ->
  runs (perform fuel a) l (fun _ => in_order) in_order.
Proof using Hok Hgrowth Codec CLaws.
  intros (C & Hr & HC) HB He (Hf & Hsize & Ha).
  pose proof (rest_env _ _ _ _ _ Hr) as (e' & He' & HC' & _).
  assert (env_contents e = C) as HeC by congruence. rewrite HeC in *.
  destruct a as [b txs|i|i]; cbn [perform].
  - destruct Ha as [Hwf Hno]. by apply (store_in_order fuel b txs C); [| |lia| |].
  - apply delete_in_order; [by exists C|lia].
  - by apply (rewind_in_order fuel i C); [| |lia|].
Qed.

Lemma reachable_in_order l : 0 <= B -> in_order l0 -> reachable l0 l -> in_order l.
Proof using Hok Hgrowth Codec CLaws.
  intros HB H0. induction 1 as [|l e fuel a l' Hl IH He Ha Hstep]; [done|].
  pose proof (perform_in_order fuel a l e IH HB He Ha) as Hrun. unfold runs in Hrun.
  destruct Hstep as [[error Hstep]|Hstep]; by rewrite Hstep in Hrun.
Qed.

(** What an index leads to in consistent tables. *)
Lemma index_query C i l :
  u64 i -> at_rest l0 0 C B l -> consistent C ->
  runs (present ← block_index_exists S i;
        hash ← get_block_hash S i;
        index ← get_block_index S (snd hash);
        mret (present, hash, index)) l
    (fun '(present, hash, index) _ =>
       if present : bool then fst hash = SUCCESS /\ index = (SUCCESS, i)
       else hash = (DB_BLOCK_NOT_FOUND, key_default)) (at_rest l0 0 C B).
Proof using Hok Codec.
  intros Hi Hr HC. apply runs_bind.
  eapply runs_weaken; [eapply db_exists_spec; [apply (ok_block_indexes _ _ Hok)|done]| |done].
  cbn beta. intros present l1 [H1 ->]. apply runs_bind.
  eapply runs_weaken; [by eapply get_block_hash_spec| |done].
  cbn beta. intros hash l2 [H2 Hhash]. apply runs_bind.
  eapply runs_weaken; [by eapply get_block_index_spec| |done].
  cbn beta. intros index l3 [_ Hindex]. apply runs_ret.
  destruct (C !! (m_dbi (m_block_indexes S), put_uint64 i)) as [v|] eqn:Hv;
    [rewrite bool_decide_eq_true_2 by by eexists|by rewrite bool_decide_eq_false_2 by by intros [? ?]].
  destruct Hhash as (h & r & Hh & ->). destruct (indexes_named _ HC _ _ Hv) as (b & [Hwf Hb] & Hk & ->).
  rewrite <- (app_nil_r (put_key _)), get_put_key in Hh. injection Hh as <- _. cbn [snd] in Hindex.
  rewrite Hb in Hindex. destruct Hindex as (b' & r' & Hb' & ->).
  rewrite <- (app_nil_r (block_bytes _)), block_roundtrip in Hb' by done. injection Hb' as <- _.
  split; [done|]. f_equal. apply (f_equal get_uint64) in Hk. rewrite !get_uint64_key in Hk by (done || apply Hwf).
  by injection Hk.
Qed.
End Chain.

(** C12: Whatever blocks are stored and deleted and however often the chain is
    rewound, and wherever a call to the engine fails: every entry in the tables
    of indexes and timestamps names a stored block with that index or timestamp.
    So an index that exists has a hash, and that hash leads back to the index;
    and every action ends with an answer or an exception. *)
Theorem chain_stays_consistent {CL : CryptoLib} {M : MDB} {Laws : MDBLaws M} {CLaws : MDBCursorLaws M}
    {Codec : CodecLaws CL} indeterminate S start C0 B i l :
  1 <= m_growth_factor start <= 2 ^ 20 -> storage_ok start S ->
  at_rest start 0 C0 B start -> 0 <= B -> consistent S C0 -> u64 i ->
  reachable indeterminate S start l ->
  (exists C, at_rest start 0 C B l /\ consistent S C /\
     forall fuel a, allowed S C fuel a ->
       runs (perform indeterminate S fuel a) l (fun _ => reachable indeterminate S start)
         (reachable indeterminate S start)) /\
  runs (present ← block_index_exists S i;
        hash ← get_block_hash S i;
        index ← get_block_index S (snd hash);
        mret (present, hash, index)) l
    (fun '(present, hash, index) _ =>
       if present : bool then fst hash = SUCCESS /\ index = (SUCCESS, i)
       else hash = (DB_BLOCK_NOT_FOUND, key_default)) (fun _ => True).
Proof.
  intros Hg Hok Hr HB HC Hi Hl.
  destruct (reachable_in_order indeterminate S start Hok B Hg l HB (ex_intro _ C0 (conj Hr HC)) Hl) as (C & Hr' & HC').
  split; [|by eapply runs_weaken; [apply (index_query S start Hok B C)| |]].
  exists C. split; [done|]. split; [done|]. intros fuel a Ha.
  pose proof (rest_env _ _ _ _ _ Hr') as (e & He & HeC & _). rewrite <- HeC in Ha.
  pose proof (perform_in_order indeterminate S start Hok B Hg fuel a l e (ex_intro _ C (conj Hr' HC')) HB He Ha) as Hrun.
  unfold runs in *. destruct (perform indeterminate S fuel a l) as [error l'|l'| |] eqn:E; try done.
  - eapply reachable_step; [exact Hl|exact He|exact Ha|]. left. by exists error.
  - eapply reachable_step; [exact Hl|exact He|exact Ha|]. by right.
Qed.

(** ** Samples and witnesses *)

#[local] Existing Instance toy_crypto.

Module ChainSamples.
Definition enough : nat := Z.to_nat (mem_limit + 1).

Lemma one_block_reachable :
  reachable 0 StorageSamples.store (StorageSamples.object mem_limit) StorageSamples.chain.
Proof.
  eapply (reachable_step _ _ _ _ (mk_mem_env ∅ mem_limit : mdb_env (MDB := memdb)) enough (Store StorageSamples.bare []));
    [apply reachable_start|exact eq_refl| |].
  - split; [|split; [|split]].
    + unfold enough. rewrite Z2Nat.id by (unfold mem_limit; lia). cbn. lia.
    + cbn. unfold enough, table. rewrite map_filter_empty, map_size_empty. unfold mem_limit. lia.
    + exact StorageSamples.bare_wf.
    + intros v Hv. cbn in Hv. by rewrite lookup_empty in Hv.
  - left. exists SUCCESS. cbn [perform]. eapply put_block_more; [exact StorageSamples.bare_stored|].
    unfold enough, mem_limit. lia.
Qed.
End ChainSamples.

Lemma chain_stays_consistent_witness :
  runs (present ← block_index_exists StorageSamples.store 0;
        hash ← get_block_hash StorageSamples.store 0;
        index ← get_block_index StorageSamples.store (snd hash);
        mret (present, hash, index)) StorageSamples.chain
    (fun '(present, hash, index) _ =>
       if present : bool then fst hash = SUCCESS /\ index = (SUCCESS, 0)
       else hash = (DB_BLOCK_NOT_FOUND, key_default)) (fun _ => True).
Proof.
  refine (proj2 (chain_stays_consistent (CL := toy_crypto) (M := memdb) 0 StorageSamples.store
    (StorageSamples.object mem_limit) ∅ mem_limit 0 StorageSamples.chain (StorageSamples.growth_ok _)
    (StorageSamples.store_ok _) StorageSamples.full_map_at_rest _ (consistent_empty _) _
    ChainSamples.one_block_reachable)).
  - unfold mem_limit. lia.
  - unfold uintw. lia.
Defined.
