(* ===== verification/Staking.v ===== *)
(** * Staking

    [src/include/staking/candidate.h], [src/include/staking/stake.h] and
    [src/src/core/staking_engine.cpp].  [del_stake] and [process_staker_tx] are
    unfinished in the source: they change nothing and report success, and so
    does a vote in [add_stake] once its checks passed. *)

From S2P Require Import Prelude Errors Config CryptoLib Codec Concrete TxBase TxUser TxSystem.
From S2P Require Import Mdb MemDb Program Lmdb.
From Stdlib Require Import Strings.Byte.
Import Configuration.

Section Staking.
Context {CL : CryptoLib} {M : MDB}.

(** ** [candidate_node_t] *)

Record candidate_node_t : Type := mk_candidate {
  candidate_record_version : Z;
  candidate_signing_key : crypto_public_key_t;
  candidate_view_key : crypto_public_key_t;
  candidate_spend_key : crypto_public_key_t;
  initial_stake : Z;
  block_production_assigned : Z;
  block_validation_assigned : Z;
  blocks_produced : Z;
  blocks_validated : Z
}.

(** The constructor from the keys and the stake; the counters start at 0. *)
Definition new_candidate (public_signing_key public_view_key public_spend_key : crypto_public_key_t)
  (initial_stake : Z) : candidate_node_t :=
  mk_candidate Staking.CANDIDATE_RECORD_VERSION public_signing_key public_view_key public_spend_key
    initial_stake 0 0 0 0.

Definition candidate_wf (c : candidate_node_t) : Prop :=
  u64 (candidate_record_version c) /\ u64 (initial_stake c) /\
  u64 (block_production_assigned c) /\ u64 (block_validation_assigned c) /\
  u64 (blocks_produced c) /\ u64 (blocks_validated c).

Definition candidate_serialize (c : candidate_node_t) : bytes :=
  put_varint (candidate_record_version c) ++
  put_key (candidate_signing_key c) ++
  put_key (candidate_view_key c) ++
  put_key (candidate_spend_key c) ++
  put_varint (initial_stake c) ++
  put_varint (block_production_assigned c) ++
  put_varint (block_validation_assigned c) ++
  put_varint (blocks_produced c) ++
  put_varint (blocks_validated c).

Definition candidate_deserialize : reader candidate_node_t :=
  record_version ← get_varint 64;
  public_signing_key ← get_key;
  public_view_key ← get_key;
  public_spend_key ← get_key;
  initial_stake ← get_varint 64;
  block_production_assigned ← get_varint 64;
  block_validation_assigned ← get_varint 64;
  blocks_produced ← get_varint 64;
  blocks_validated ← get_varint 64;
  mret (mk_candidate record_version public_signing_key public_view_key public_spend_key
          initial_stake block_production_assigned block_validation_assigned
          blocks_produced blocks_validated).

Definition candidate_hash (c : candidate_node_t) : crypto_hash_t := sha3 (candidate_serialize c).

Definition candidate_size (c : candidate_node_t) : Z := vsize (candidate_serialize c).

(** ** [stake_t] *)

Record stake_t : Type := mk_stake {
  stake_record_version : Z;
  stake_candidate_key : crypto_public_key_t;
  stake_view_key : crypto_public_key_t;
  stake_spend_key : crypto_public_key_t;
  stake : Z
}.

Definition stake_wf (s : stake_t) : Prop := u64 (stake_record_version s) /\ u64 (stake s).

Definition stake_serialize (s : stake_t) : bytes :=
  put_varint (stake_record_version s) ++
  put_key (stake_candidate_key s) ++
  put_key (stake_view_key s) ++
  put_key (stake_spend_key s) ++
  put_varint (stake s).

Definition stake_deserialize : reader stake_t :=
  record_version ← get_varint 64;
  candidate_public_key ← get_key;
  public_view_key ← get_key;
  public_spend_key ← get_key;
  stake ← get_varint 64;
  mret (mk_stake record_version candidate_public_key public_view_key public_spend_key stake).

Definition stake_hash (s : stake_t) : crypto_hash_t := sha3 (stake_serialize s).

(** The staker's id covers the two keys only. *)
Definition stake_id (s : stake_t) : crypto_hash_t :=
  sha3 (put_key (stake_view_key s) ++ put_key (stake_spend_key s)).

Definition stake_size (s : stake_t) : Z := vsize (stake_serialize s).

(** ** [StakingEngine] *)

Record StakingEngine : Type := mk_StakingEngine {
  m_db_candidates : LMDBDatabase;
  m_db_stakes : LMDBDatabase
}.

Context (indeterminate : Z) (E : StakingEngine).

Definition add_stake (fuel : nat) (tx : committed_stake_transaction_t) : env_prog ErrorCode :=
  if version tx =? 1 then
    present ← db_exists (m_db_candidates E) (put_key (candidate_public_key tx));
    if present : bool then mret STAKING_CANDIDATE_ALREADY_EXISTS
    else if negb (stake_amount tx =? Consensus.REQUIRED_CANDIDACY_AMOUNT) then
      mret STAKING_CANDIDATE_AMOUNT_INVALID
    else
      let candidate :=
        new_candidate (candidate_public_key tx) (staker_public_view_key tx)
          (staker_public_spend_key tx) (stake_amount tx) in
      error ← db_put fuel indeterminate (m_db_candidates E) (put_key (candidate_public_key tx))
                (candidate_serialize candidate) 0;
      if is_error error then mret error else mret SUCCESS
  else if version tx =? 2 then
    present ← db_exists (m_db_candidates E) (put_key (candidate_public_key tx));
    if negb present then mret STAKING_CANDIDATE_NOT_FOUND
    else if stake_amount tx <? Consensus.MINIMUM_STAKE_AMOUNT then mret STAKING_STAKE_AMOUNT
    else mret SUCCESS
  else mret TX_INVALID_VERSION.

Definition del_stake (recall_tx : committed_recall_stake_transaction_t)
  (refund_tx : stake_refund_transaction_t) : env_prog ErrorCode := mret SUCCESS.

Definition process_staker_tx (tx : staker_transaction_t) : env_prog ErrorCode := mret SUCCESS.
End Staking.

(** ** Lemmas *)

Section StakingFacts.
Context {CL : CryptoLib} {M : MDB} {Laws : MDBLaws M}.

Lemma candidate_roundtrip `{!CodecLaws CL} c r :
  candidate_wf c -> candidate_deserialize (candidate_serialize c ++ r) = Some (c, r).
Proof. revert c r. codec. Qed.

Lemma stake_roundtrip `{!CodecLaws CL} s r :
  stake_wf s -> stake_deserialize (stake_serialize s ++ r) = Some (s, r).
Proof. revert s r. codec. Qed.

Lemma new_candidate_wf a b c amount : u64 amount -> candidate_wf (new_candidate a b c amount).
Proof.
  unfold candidate_wf, uintw, Staking.CANDIDATE_RECORD_VERSION. cbn.
  unfold Staking.CANDIDATE_RECORD_VERSION. lia.
Qed.

(** The record and the database key of the candidate that a stake registers. *)
Definition registration (tx : committed_stake_transaction_t) : candidate_node_t :=
  new_candidate (candidate_public_key tx) (staker_public_view_key tx)
    (staker_public_spend_key tx) (stake_amount tx).

Definition candidate_key (E : StakingEngine) (tx : committed_stake_transaction_t) : Z * bytes :=
  (m_dbi (m_db_candidates E), put_key (candidate_public_key tx)).

(** What [add_stake] answers, and when it writes. *)
Definition stake_verdict (known : bool) (ver amount : Z) : ErrorCode :=
  if ver =? 1 then
    if known then STAKING_CANDIDATE_ALREADY_EXISTS
    else if amount =? 100000 then SUCCESS else STAKING_CANDIDATE_AMOUNT_INVALID
  else if ver =? 2 then
    if known then if amount <? 100 then STAKING_STAKE_AMOUNT else SUCCESS
    else STAKING_CANDIDATE_NOT_FOUND
  else TX_INVALID_VERSION.

(** The answer to a stake on the contents [C] and the database afterwards. *)
Definition stake_answered (E : StakingEngine) (tx : committed_stake_transaction_t) (C : contents)
  (B : Z) (l : LMDB) (e : ErrorCode) (l' : LMDB) : Prop :=
  let verdict := stake_verdict (bool_decide (is_Some (C !! candidate_key E tx)))
                   (version tx) (stake_amount tx) in
  if is_error verdict then e = verdict /\ at_rest l 0 C B l'
  else if version tx =? 1 then
    at_rest l 0 (if is_error e then C
                 else <[candidate_key E tx := candidate_serialize (registration tx)]> C) B l'
  else e = SUCCESS /\ at_rest l 0 C B l'.

Lemma add_stake_spec fuel indeterminate E tx C B l :
  1 <= m_growth_factor l <= 2 ^ 20 -> registered l (m_db_candidates E) ->
  at_rest l 0 C B l -> mapsize_limit - B < Z.of_nat fuel ->
  runs (add_stake indeterminate E fuel tx) l (stake_answered E tx C B l) (at_rest l 0 C B).
Proof.
  intros Hg Hdb Hr Hf. unfold stake_answered, stake_verdict, add_stake, candidate_key.
  unfold Consensus.REQUIRED_CANDIDACY_AMOUNT, Consensus.MINIMUM_STAKE_AMOUNT.
  destruct (version tx =? 1).
  - apply runs_bind. eapply runs_weaken; [by apply db_exists_spec| |done].
    cbn beta. intros present l1 [H1 ->]. destruct (bool_decide _); [by apply runs_ret|].
    destruct (stake_amount tx =? 100000); cbn [negb]; [|by apply runs_ret].
    apply runs_bind. eapply runs_weaken; [by eapply db_put_spec| |done].
    cbn beta. intros e l2 H2. destruct (is_error e) eqn:He; apply runs_ret; cbn; rewrite ?He; done.
  - destruct (version tx =? 2); [|by apply runs_ret].
    apply runs_bind. eapply runs_weaken; [by apply db_exists_spec| |done].
    cbn beta. intros present l1 [H1 ->]. destruct (bool_decide _); cbn [negb]; [|by apply runs_ret].
    by destruct (stake_amount tx <? 100); apply runs_ret.
Qed.
End StakingFacts.

(** ** Properties *)

Section StakingProps.
Context {CL : CryptoLib} {M : MDB} {Laws : MDBLaws M}.

(** The stored staking records, candidates and stakes, are read back by
    their [deserialize] from what their [serialize] wrote, and a fresh
    candidate is a well-formed record with no blocks to its name. *)
Theorem staking_records_roundtrip `{!CodecLaws CL} :
  (forall c r, candidate_wf c -> candidate_deserialize (candidate_serialize c ++ r) = Some (c, r)) /\
  (forall s r, stake_wf s -> stake_deserialize (stake_serialize s ++ r) = Some (s, r)) /\
  (forall a b c amount, u64 amount -> candidate_wf (new_candidate a b c amount)).
Proof.
  split; [intros; by apply candidate_roundtrip|]. split; [intros; by apply stake_roundtrip|].
  exact new_candidate_wf.
Qed.

(** C21: Adding a stake always ends and answers by its kind: a candidacy needs an
    unknown candidate and exactly the required amount, a vote a known candidate
    and at least the minimum, every other version is refused; a refused stake
    and a vote leave the database as it was, and a candidacy is written whole
    or not at all. *)
Theorem add_stake_correct fuel indeterminate E tx C B l :
  1 <= m_growth_factor l <= 2 ^ 20 -> registered l (m_db_candidates E) ->
  at_rest l 0 C B l -> mapsize_limit - B < Z.of_nat fuel ->
  runs (add_stake indeterminate E fuel tx) l (stake_answered E tx C B l) (at_rest l 0 C B).
Proof. intros. by apply add_stake_spec. Qed.

(** A registered candidate is in the database with its keys and its stake,
    and cannot be registered a second time. *)
Theorem candidate_registered_once `{!CodecLaws CL} fuel indeterminate E
    (tx tx2 : committed_stake_transaction_t) C B l l1 :
  1 <= m_growth_factor l <= 2 ^ 20 -> registered l (m_db_candidates E) ->
  at_rest l 0 C B l -> mapsize_limit - B < Z.of_nat fuel ->
  version tx = 1 -> version tx2 = 1 -> candidate_public_key tx2 = candidate_public_key tx ->
  u64 (stake_amount tx) ->
  add_stake indeterminate E fuel tx l = Returned SUCCESS l1 ->
  stake_amount tx = 100000 /\
  runs (found ← db_get_as candidate_deserialize (registration tx) (m_db_candidates E)
                  (put_key (candidate_public_key tx));
        again ← add_stake indeterminate E fuel tx2;
        mret (found, again)) l1
    (fun r _ => r = (SUCCESS, registration tx, STAKING_CANDIDATE_ALREADY_EXISTS))
    (at_rest l 0 (<[candidate_key E tx := candidate_serialize (registration tx)]> C) B).
Proof.
  intros Hg Hdb Hr Hf Hv Hv2 Hkey Hamount Hadd.
  pose proof (add_stake_spec fuel indeterminate E tx C B l Hg Hdb Hr Hf) as Hs.
  unfold runs in Hs. rewrite Hadd in Hs. unfold stake_answered, stake_verdict in Hs. rewrite Hv in Hs. cbn in Hs.
  destruct (bool_decide _); [by destruct Hs|].
  destruct (Z.eqb_spec (stake_amount tx) 100000) as [Ha|]; [|by destruct Hs].
  split; [done|]. cbn in Hs.
  assert (Hwf : candidate_wf (registration tx)) by by apply new_candidate_wf.
  assert (Hrd := candidate_roundtrip (registration tx) [] Hwf). rewrite app_nil_r in Hrd.
  apply runs_bind. eapply runs_weaken; [by eapply db_get_as_spec| |done].
  cbn beta. unfold candidate_key in *. rewrite lookup_insert_eq.
  intros r l2 [H2 (x & rest & Hx & ->)]. rewrite Hrd in Hx. injection Hx as <- <-.
  apply runs_bind. unfold add_stake. rewrite Hv2. cbn [Z.eqb Pos.eqb]. apply runs_bind.
  eapply runs_weaken; [by eapply db_exists_spec| |done]. cbn beta. intros present l3 [H3 ->].
  rewrite Hkey, lookup_insert_eq, bool_decide_eq_true_2 by done. by apply runs_ret, runs_ret.
Qed.
End StakingProps.

(** ** Samples and witnesses *)

Module StakingSamples.
#[local] Existing Instance toy_crypto.
Definition candidates : LMDBDatabase (CL := toy_crypto) := mk_LMDBDatabase (x01 : crypto_hash_t) 1.
Definition engine : StakingEngine (CL := toy_crypto) :=
  mk_StakingEngine candidates (mk_LMDBDatabase (x02 : crypto_hash_t) 2).

Definition object (size : Z) : LMDB (CL := toy_crypto) (M := memdb) :=
  mk_LMDB (x05 : crypto_hash_t) 8 (Some (mk_mem_env ∅ size))
    (<[ (x01 : crypto_hash_t) := candidates ]> ∅) 0.

(** A candidacy of 100000. *)
Definition tx : committed_stake_transaction_t (CL := toy_crypto) :=
  uncommitted_stake_to_committed UserSamples.stake.

Definition after : LMDB (CL := toy_crypto) (M := memdb) :=
  match add_stake 0 engine 1 tx (object mem_limit) with
  | Returned _ l => l
  | _ => object 0
  end.

Lemma added : add_stake 0 engine 1 tx (object mem_limit) = Returned SUCCESS after.
Proof. reflexivity. Qed.

Lemma candidates_registered size : registered (object size) candidates.
Proof. split; [done|]. apply lookup_insert_eq. Qed.

Lemma candidates_at_rest size : 0 <= size <= mem_limit -> at_rest (object size) 0 ∅ size (object size).
Proof.
  intros. constructor; try done. eexists. split; [reflexivity|]. split; [done|].
  cbn. unfold mem_mapsize. cbn [mem_size]. lia.
Qed.

Lemma full_candidates_at_rest : at_rest (object mem_limit) 0 ∅ mem_limit (object mem_limit).
Proof. apply candidates_at_rest. unfold mem_limit. lia. Qed.
End StakingSamples.

#[local] Existing Instance toy_crypto.

Lemma staking_records_roundtrip_witness :
  candidate_deserialize (candidate_serialize (registration StakingSamples.tx) ++ [1]) =
    Some (registration StakingSamples.tx, [1]).
Proof.
  apply (proj1 (staking_records_roundtrip (CL := toy_crypto))).
  apply new_candidate_wf. split; cbn; lia.
Defined.

Lemma add_stake_correct_witness :
  runs (add_stake 0 StakingSamples.engine (Z.to_nat (mem_limit + 1)) StakingSamples.tx)
    (StakingSamples.object 0)
    (stake_answered StakingSamples.engine StakingSamples.tx ∅ 0 (StakingSamples.object 0))
    (at_rest (StakingSamples.object 0) 0 ∅ 0).
Proof.
  apply add_stake_correct.
  - cbn. lia.
  - apply StakingSamples.candidates_registered.
  - apply StakingSamples.candidates_at_rest. unfold mem_limit. lia.
  - rewrite Z2Nat.id; cbn; unfold mem_limit; lia.
Defined.

Lemma candidate_registered_once_witness : stake_amount StakingSamples.tx = 100000.
Proof.
  refine (proj1 (candidate_registered_once 1 0 StakingSamples.engine StakingSamples.tx
    StakingSamples.tx ∅ mem_limit (StakingSamples.object mem_limit) StakingSamples.after
    _ _ _ _ eq_refl eq_refl eq_refl _ StakingSamples.added)).
  - cbn. lia.
  - apply StakingSamples.candidates_registered.
  - exact StakingSamples.full_candidates_at_rest.
  - cbn. lia.
  - split; cbn; lia.
Defined.
