(* ===== verification/Forms.v ===== *)
(** * The forms of a structure

    Every structure of [src/include] is constructed from a vector of bytes, some
    from hexadecimal digits too, and [to_string] gives the digits of what
    [serialize] writes; the structures that are stored have a hash and a type
    ([IStorable] of [src/include/serializable.h]), and the two outputs are
    compared by their hashes.  The hexadecimal functions of the cryptography
    library are the class [HexLib]. *)

From S2P Require Import Prelude Errors CryptoLib Concrete Codec Packets TxBase TxUser TxSystem Block.
From S2P Require Import Lmdb Staking.

(** [Crypto::StringTools::to_hex], and the constructor of [deserializer_t] from
    hexadecimal digits, which throws. *)
Class HexLib : Type := {
  to_hex : bytes -> string;
  reader_of_hex : string -> option bytes
}.

Class HexLaws (H : HexLib) : Prop := {
  reader_of_to_hex : forall bs, reader_of_hex (to_hex bs) = Some bs
}.

(** ** Constructors and [to_string] *)

(** [deserializer_t reader(data); deserialize(reader);]: what is left in the
    reader is ignored. *)
Definition from_bytes {T} (rd : reader T) (data : bytes) : option T := fst <$> rd data.

Section Forms.
Context {CL : CryptoLib} {IP : IPParser} {H : HexLib}.

Definition from_hex {T} (rd : reader T) (hex : string) : option T :=
  data ← reader_of_hex hex; from_bytes rd data.

Definition hex_form {T} (w : T -> bytes) (x : T) : string := to_hex (w x).

Definition StakerOutput_of_bytes : bytes -> option StakerOutput := from_bytes StakerOutput_deserialize.
Definition StakerOutput_to_string : StakerOutput -> string := hex_form StakerOutput_serialize.

Definition TransactionOutput_of_bytes : bytes -> option TransactionOutput := from_bytes TransactionOutput_deserialize.
Definition TransactionOutput_to_string : TransactionOutput -> string := hex_form TransactionOutput_serialize.

Definition genesis_of_bytes : bytes -> option genesis_transaction_t := from_bytes genesis_deserialize.
Definition genesis_of_hex : string -> option genesis_transaction_t := from_hex genesis_deserialize.
Definition genesis_to_string : genesis_transaction_t -> string := hex_form genesis_serialize.

Definition staker_of_bytes : bytes -> option staker_transaction_t := from_bytes staker_deserialize.
Definition staker_of_hex : string -> option staker_transaction_t := from_hex staker_deserialize.
Definition staker_to_string : staker_transaction_t -> string := hex_form staker_serialize.

Definition refund_of_bytes : bytes -> option stake_refund_transaction_t := from_bytes refund_deserialize.
Definition refund_of_hex : string -> option stake_refund_transaction_t := from_hex refund_deserialize.
Definition refund_to_string : stake_refund_transaction_t -> string := hex_form refund_serialize.

Definition committed_normal_of_bytes : bytes -> option committed_normal_transaction_t := from_bytes committed_normal_deserialize.
Definition committed_normal_of_hex : string -> option committed_normal_transaction_t := from_hex committed_normal_deserialize.
Definition committed_normal_to_string : committed_normal_transaction_t -> string := hex_form committed_normal_serialize.

Definition uncommitted_normal_of_bytes : bytes -> option uncommited_normal_transaction_t := from_bytes uncommitted_normal_deserialize.
Definition uncommitted_normal_of_hex : string -> option uncommited_normal_transaction_t := from_hex uncommitted_normal_deserialize.
Definition uncommitted_normal_to_string : uncommited_normal_transaction_t -> string := hex_form uncommitted_normal_serialize.

Definition committed_stake_of_bytes : bytes -> option committed_stake_transaction_t := from_bytes committed_stake_deserialize.
Definition committed_stake_of_hex : string -> option committed_stake_transaction_t := from_hex committed_stake_deserialize.
Definition committed_stake_to_string : committed_stake_transaction_t -> string := hex_form committed_stake_serialize.

Definition uncommitted_stake_of_bytes : bytes -> option uncommitted_stake_transaction_t := from_bytes uncommitted_stake_deserialize.
Definition uncommitted_stake_of_hex : string -> option uncommitted_stake_transaction_t := from_hex uncommitted_stake_deserialize.
Definition uncommitted_stake_to_string : uncommitted_stake_transaction_t -> string := hex_form uncommitted_stake_serialize.

Definition committed_recall_of_bytes : bytes -> option committed_recall_stake_transaction_t := from_bytes committed_recall_deserialize.
Definition committed_recall_of_hex : string -> option committed_recall_stake_transaction_t := from_hex committed_recall_deserialize.
Definition committed_recall_to_string : committed_recall_stake_transaction_t -> string := hex_form committed_recall_serialize.

Definition uncommitted_recall_of_bytes : bytes -> option uncommitted_recall_stake_transaction_t := from_bytes uncommitted_recall_deserialize.
Definition uncommitted_recall_of_hex : string -> option uncommitted_recall_stake_transaction_t := from_hex uncommitted_recall_deserialize.
Definition uncommitted_recall_to_string : uncommitted_recall_stake_transaction_t -> string := hex_form uncommitted_recall_serialize.

Definition block_of_bytes : bytes -> option block_t := from_bytes block_deserialize.
Definition block_of_hex : string -> option block_t := from_hex block_deserialize.
Definition block_to_string : block_t -> string := hex_form block_bytes.

Definition candidate_of_bytes : bytes -> option candidate_node_t := from_bytes candidate_deserialize.
Definition candidate_to_string : candidate_node_t -> string := hex_form candidate_serialize.

Definition stake_of_bytes : bytes -> option stake_t := from_bytes stake_deserialize.
Definition stake_to_string : stake_t -> string := hex_form stake_serialize.

Definition peer_of_bytes : bytes -> option network_peer_t := from_bytes peer_deserialize.
Definition peer_to_string : network_peer_t -> string := hex_form peer_serialize.

Definition handshake_of_bytes : bytes -> option packet_handshake_t := from_bytes handshake_deserialize.
Definition handshake_to_string : packet_handshake_t -> string := hex_form handshake_serialize.

Definition exchange_of_bytes : bytes -> option packet_peer_exchange_t := from_bytes exchange_deserialize.
Definition exchange_to_string : packet_peer_exchange_t -> string := hex_form exchange_serialize.

Definition keepalive_of_bytes : bytes -> option packet_keepalive_t := from_bytes keepalive_deserialize.
Definition keepalive_to_string : packet_keepalive_t -> string := hex_form keepalive_serialize.

Definition data_of_bytes : bytes -> option packet_data_t := from_bytes data_deserialize.
Definition data_to_string : packet_data_t -> string := hex_form data_serialize.

(** The constructor of an address normalizes once more. *)
Definition ip_of_bytes (data : bytes) : option ip_address_t :=
  normalize_v4_embedded <$> from_bytes ip_deserialize data.

(** ** Stored structures *)

Class IStorable (T : Type) : Type := {
  storable_serializable :: ISerializable T;
  hash : T -> crypto_hash_t;
  type : T -> Z
}.

#[export] Instance ip_storable : IStorable ip_address_t := {| hash := ip_hash; type _ := 0 |}.
#[export] Instance peer_storable : IStorable network_peer_t := {| hash := peer_hash; type _ := 0 |}.
#[export] Instance handshake_storable : IStorable packet_handshake_t := {|
  hash := handshake_hash; type p := packet_l_type p |}.
#[export] Instance exchange_storable : IStorable packet_peer_exchange_t := {|
  hash := exchange_hash; type p := packet_l_type p |}.
#[export] Instance keepalive_storable : IStorable packet_keepalive_t := {|
  hash := keepalive_hash; type p := packet_l_type p |}.
#[export] Instance data_storable : IStorable packet_data_t := {|
  hash := data_hash; type p := packet_l_type p |}.
#[export] Instance candidate_storable : IStorable candidate_node_t := {|
  storable_serializable := {| serialize := candidate_serialize; deserialize := candidate_deserialize |};
  hash := candidate_hash; type _ := 0 |}.
#[export] Instance stake_storable : IStorable stake_t := {|
  storable_serializable := {| serialize := stake_serialize; deserialize := stake_deserialize |};
  hash := stake_hash; type _ := 0 |}.

(** ** Comparing outputs

    Those of a [TransactionOutput] but [!=] are in [TxBase.v]. *)

Definition StakerOutput_eq (a b : StakerOutput) : bool :=
  bool_decide (StakerOutput_hash a = StakerOutput_hash b).
Definition StakerOutput_ne (a b : StakerOutput) : bool := negb (StakerOutput_eq a b).
Definition StakerOutput_lt (a b : StakerOutput) : bool :=
  key_ltb (StakerOutput_hash a) (StakerOutput_hash b).
Definition StakerOutput_le (a b : StakerOutput) : bool := StakerOutput_eq a b || StakerOutput_lt a b.
Definition StakerOutput_gt (a b : StakerOutput) : bool :=
  key_ltb (StakerOutput_hash b) (StakerOutput_hash a).
Definition StakerOutput_ge (a b : StakerOutput) : bool := StakerOutput_eq a b || StakerOutput_gt a b.

Definition TransactionOutput_ne (a b : TransactionOutput) : bool := negb (TransactionOutput_eq a b).
End Forms.

(** ** Theorems *)

Section FormsFacts.
Context {CL : CryptoLib} {IP : IPParser} {H : HexLib}.

(** What is read back from the bytes of a value, followed by anything, and from
    its printed digits. *)
Definition bytes_read_back {T} (wf : T -> Prop) (w : T -> bytes) (of_bytes : bytes -> option T) : Prop :=
  forall x junk, wf x -> of_bytes (w x ++ junk) = Some x.
Definition digits_read_back {T} (wf : T -> Prop) (print : T -> string) (of_hex : string -> option T) : Prop :=
  forall x, wf x -> of_hex (print x) = Some x.

Lemma from_bytes_back {T} wf (w : T -> bytes) (rd : reader T) :
  (forall x r, wf x -> rd (w x ++ r) = Some (x, r)) -> bytes_read_back wf w (from_bytes rd).
Proof. intros Hrt x junk Hwf. unfold from_bytes. by rewrite Hrt. Qed.

Lemma from_hex_back {HL : HexLaws H} {T} wf (w : T -> bytes) (rd : reader T) :
  (forall x r, wf x -> rd (w x ++ r) = Some (x, r)) -> digits_read_back wf (hex_form w) (from_hex rd).
Proof.
  intros Hrt x Hwf. unfold from_hex, hex_form. rewrite reader_of_to_hex. cbn.
  rewrite <- (app_nil_r (w x)). by apply (from_bytes_back wf).
Qed.

(** Printed values differ when the values do. *)
Lemma digits_distinct {T} wf print of_hex (x y : T) :
  digits_read_back wf print of_hex -> wf x -> wf y -> print x = print y -> x = y.
Proof. intros Hb Hx Hy Heq. apply Hb in Hx, Hy. congruence. Qed.

(** The block and the transactions are read back from the digits that
    [to_string] prints. *)
Theorem printed_digits_roundtrip {HL : HexLaws H} {Codec : CodecLaws CL} :
  digits_read_back block_wf block_to_string block_of_hex /\
  digits_read_back genesis_wf genesis_to_string genesis_of_hex /\
  digits_read_back staker_wf staker_to_string staker_of_hex /\
  digits_read_back refund_wf refund_to_string refund_of_hex /\
  digits_read_back committed_normal_wf committed_normal_to_string committed_normal_of_hex /\
  digits_read_back uncommitted_normal_wf uncommitted_normal_to_string uncommitted_normal_of_hex /\
  digits_read_back committed_stake_wf committed_stake_to_string committed_stake_of_hex /\
  digits_read_back uncommitted_stake_wf uncommitted_stake_to_string uncommitted_stake_of_hex /\
  digits_read_back committed_recall_wf committed_recall_to_string committed_recall_of_hex /\
  digits_read_back uncommitted_recall_wf uncommitted_recall_to_string uncommitted_recall_of_hex.
Proof.
  repeat split; apply from_hex_back.
  - exact block_roundtrip.
  - exact genesis_roundtrip.
  - exact staker_roundtrip.
  - exact refund_roundtrip.
  - exact committed_normal_roundtrip.
  - exact uncommitted_normal_roundtrip.
  - exact committed_stake_roundtrip.
  - exact uncommitted_stake_roundtrip.
  - exact committed_recall_roundtrip.
  - exact uncommitted_recall_roundtrip.
Qed.

(** The network's and the staking structures are constructed from bytes, an
    address from those of a normalized one. *)
Theorem constructed_from_bytes {IPL : IPParserLaws IP} {Codec : CodecLaws CL} :
  bytes_read_back ip_wf ip_serialize ip_of_bytes /\
  bytes_read_back peer_wf peer_serialize peer_of_bytes /\
  bytes_read_back handshake_wf handshake_serialize handshake_of_bytes /\
  bytes_read_back exchange_wf exchange_serialize exchange_of_bytes /\
  bytes_read_back keepalive_wf keepalive_serialize keepalive_of_bytes /\
  bytes_read_back data_wf data_serialize data_of_bytes /\
  bytes_read_back candidate_wf candidate_serialize candidate_of_bytes /\
  bytes_read_back stake_wf stake_serialize stake_of_bytes.
Proof.
  repeat split; [|apply from_bytes_back..].
  - intros a junk Ha. unfold ip_of_bytes, from_bytes. rewrite ip_get_put by done. cbn.
    by rewrite (normalize_keeps_normalized a (proj1 Ha)).
  - exact peer_roundtrip.
  - exact handshake_roundtrip.
  - exact exchange_roundtrip.
  - exact keepalive_roundtrip.
  - exact data_roundtrip.
  - exact candidate_roundtrip.
  - exact stake_roundtrip.
Qed.
End FormsFacts.

(** The comparisons of outputs: exactly one of less, equal and greater holds,
    less is transitive, [<=] and [>=] are its reflexive forms. *)
Section Order.
Context {CL : CryptoLib} {T : Type} (h : T -> crypto_hash_t).
Variables eqb ltb leb gtb geb : T -> T -> bool.

Definition ordered_by_hash : Prop :=
  (forall a b, eqb a b = true <-> h a = h b) /\
  (forall a b, ltb a b = true -> ltb b a = false /\ eqb a b = false) /\
  (forall a b, eqb a b = false -> ltb a b = true \/ ltb b a = true) /\
  (forall a b c, ltb a b = true -> ltb b c = true -> ltb a c = true) /\
  (forall a b, leb a b = negb (ltb b a)) /\ (forall a b, geb a b = leb b a) /\
  (forall a b, gtb a b = ltb b a).

Context {HK : KeyLaws crypto_hash_t}.

Lemma hash_order :
  (forall a b, eqb a b = bool_decide (h a = h b)) -> (forall a b, ltb a b = key_ltb (h a) (h b)) ->
  (forall a b, leb a b = eqb a b || ltb a b) -> (forall a b, geb a b = eqb a b || gtb a b) ->
  (forall a b, gtb a b = ltb b a) -> ordered_by_hash.
Proof.
  intros Heq Hlt Hle Hge Hgt. destruct (key_order (K := crypto_hash_t)) as [Hirr Htr Htot].
  assert (Hanti : forall a b, ltb a b = true -> ltb b a = false).
  { intros a b Hab. rewrite Hlt in *. destruct (key_ltb (h b) (h a)) eqn:Hba; [|done].
    rewrite <- (Hirr (h a)). symmetry. by eapply Htr. }
  assert (Hneq : forall a b, ltb a b = true -> eqb a b = false).
  { intros a b Hab. rewrite Hlt in Hab. rewrite Heq. apply bool_decide_eq_false_2. intros E.
    rewrite E, Hirr in Hab. discriminate Hab. }
  assert (Hone : forall a b, eqb a b = false -> ltb a b = true \/ ltb b a = true).
  { intros a b Hab. rewrite Heq in Hab. apply bool_decide_eq_false in Hab. rewrite !Hlt.
    destruct (key_ltb (h a) (h b)) eqn:E1; [by left|]. destruct (key_ltb (h b) (h a)) eqn:E2; [by right|].
    destruct Hab. by apply Htot. }
  assert (Hsym : forall a b, eqb a b = eqb b a)
    by (intros a b; rewrite !Heq; apply bool_decide_ext; split; congruence).
  assert (Hleb : forall a b, leb a b = negb (ltb b a)).
  { intros a b. rewrite Hle. destruct (ltb b a) eqn:Hba.
    - rewrite Hsym, (Hneq b a), (Hanti b a) by done. done.
    - destruct (eqb a b) eqn:E; [done|]. destruct (Hone a b E) as [Hab|Hba']; [by rewrite Hab|congruence]. }
  split; [intros a b; rewrite Heq; apply bool_decide_eq_true|]. split; [intros a b Hab; split; auto|].
  split; [exact Hone|]. split; [intros a b c; rewrite !Hlt; apply Htr|]. split; [exact Hleb|].
  split; [|exact Hgt]. intros a b. by rewrite Hge, Hgt, Hsym, Hle.
Qed.
End Order.

Theorem outputs_ordered {CL : CryptoLib} {Codec : CodecLaws CL} :
  ordered_by_hash StakerOutput_hash StakerOutput_eq StakerOutput_lt StakerOutput_le
    StakerOutput_gt StakerOutput_ge /\
  ordered_by_hash TransactionOutput_hash TransactionOutput_eq TransactionOutput_lt TransactionOutput_le
    TransactionOutput_gt TransactionOutput_ge.
Proof. split; (apply hash_order; [exact _|intros a b; reflexivity..]). Qed.
