(* ===== verification/Json.v ===== *)
(** * JSON

    The structures convert to and from JSON with RapidJSON and with the macros of
    [json_helper.h], which belongs to the submodule [external/crypto]; neither is
    in the tree.  What a conversion writes is the sequence of calls it makes on
    the RapidJSON writer ([json_event]); [document] is the JSON value that such a
    sequence denotes.  The macros and accessors are the class [JsonLib], and
    [JsonLaws] states what each of them does with one member of an object.
    [IJson] is the interface of the conversions and [JsonRoundTrip] what an
    implementation promises. *)

From S2P Require Import Prelude CryptoLib Codec Concrete.
From Stdlib Require Import Strings.Byte.

(** ** Documents and the calls that write them *)

(** The calls on [rapidjson::Writer]. *)
Inductive json_event : Type :=
  | StartObject | EndObject | StartArray | EndArray
  | JKey (name : string) | JText (value : string)
  | JUint (n : Z) | JUint64 (n : Z) | JInt64 (n : Z).

(** A parsed value ([JSONValue]). *)
Inductive json : Type :=
  | JString (s : string)
  | JNumber (n : Z)
  | JArray (elements : list json)
  | JObject (members : list (string * json)).

(** The first member of a name ([FindMember]). *)
Fixpoint find_member (name : string) (members : list (string * json)) : option json :=
  match members with
  | [] => None
  | (k, v) :: rest => if String.eqb k name then Some v else find_member name rest
  end.

(** A sequence of calls that writes one value, the elements of an array, the
    members of an object.  RapidJSON writes a name and a text alike. *)
Inductive writes : list json_event -> json -> Prop :=
  | writes_text s : writes [JText s] (JString s)
  | writes_name s : writes [JKey s] (JString s)
  | writes_uint n : writes [JUint n] (JNumber n)
  | writes_uint64 n : writes [JUint64 n] (JNumber n)
  | writes_int64 n : writes [JInt64 n] (JNumber n)
  | writes_array es vs : writes_elements es vs -> writes (StartArray :: es ++ [EndArray]) (JArray vs)
  | writes_object es ms : writes_members es ms -> writes (StartObject :: es ++ [EndObject]) (JObject ms)
with writes_elements : list json_event -> list json -> Prop :=
  | no_elements : writes_elements [] []
  | more_elements es v es' vs :
      writes es v -> writes_elements es' vs -> writes_elements (es ++ es') (v :: vs)
with writes_members : list json_event -> list (string * json) -> Prop :=
  | no_members : writes_members [] []
  | more_members name es v es' ms :
      writes es v -> writes_members es' ms ->
      writes_members (JKey name :: es ++ es') ((name, v) :: ms).

Scheme writes_ind' := Minimality for writes Sort Prop
  with writes_elements_ind' := Minimality for writes_elements Sort Prop
  with writes_members_ind' := Minimality for writes_members Sort Prop.
Combined Scheme writes_mutind from writes_ind', writes_elements_ind', writes_members_ind'.

(** The elements and the members up to the end of an array and of an object,
    and the value that a sequence of calls starts with. *)
Fixpoint read_elements (read : list json_event -> option (json * list json_event)) (count : nat)
  (es : list json_event) : option (list json * list json_event) :=
  match count, es with
  | _, EndArray :: rest => Some ([], rest)
  | S count', _ =>
      '(v, rest) ← read es;
      '(vs, rest') ← read_elements read count' rest;
      Some (v :: vs, rest')
  | O, _ => None
  end.

Fixpoint read_members (read : list json_event -> option (json * list json_event)) (count : nat)
  (es : list json_event) : option (list (string * json) * list json_event) :=
  match count, es with
  | _, EndObject :: rest => Some ([], rest)
  | S count', JKey name :: es' =>
      '(v, rest) ← read es';
      '(ms, rest') ← read_members read count' rest;
      Some ((name, v) :: ms, rest')
  | _, _ => None
  end.

Fixpoint read_value (fuel : nat) (es : list json_event) : option (json * list json_event) :=
  match fuel with
  | O => None
  | S fuel' =>
      match es with
      | JText s :: rest | JKey s :: rest => Some (JString s, rest)
      | JUint n :: rest | JUint64 n :: rest | JInt64 n :: rest => Some (JNumber n, rest)
      | StartArray :: rest =>
          '(vs, rest') ← read_elements (read_value fuel') fuel' rest; Some (JArray vs, rest')
      | StartObject :: rest =>
          '(ms, rest') ← read_members (read_value fuel') fuel' rest; Some (JObject ms, rest')
      | _ => None
      end
  end.

(** The value that a sequence of calls denotes, when it is one. *)
Definition document (es : list json_event) : option json :=
  match read_value (List.length es) es with
  | Some (v, []) => Some v
  | _ => None
  end.

(** ** Lemmas: documents *)

Definition closes (e : json_event) : bool :=
  match e with EndArray | EndObject => true | _ => false end.

Lemma writes_starts es v : writes es v -> exists e es', es = e :: es' /\ closes e = false.
Proof. intros []; by do 2 eexists. Qed.

Lemma read_written :
  (forall es v, writes es v -> forall fuel r, (List.length es <= fuel)%nat ->
     read_value fuel (es ++ r) = Some (v, r)) /\
  (forall es vs, writes_elements es vs -> forall fuel count r,
     (List.length es <= fuel)%nat -> (List.length es <= count)%nat ->
     read_elements (read_value fuel) count (es ++ EndArray :: r) = Some (vs, r)) /\
  (forall es ms, writes_members es ms -> forall fuel count r,
     (List.length es <= fuel)%nat -> (List.length es <= count)%nat ->
     read_members (read_value fuel) count (es ++ EndObject :: r) = Some (ms, r)).
Proof.
  apply writes_mutind.
  1-5: intros x [|fuel] r Hf; cbn in *; [lia|done].
  - intros es vs _ IH [|fuel] r Hf; cbn in *; [lia|]. rewrite length_app in Hf. cbn in Hf.
    rewrite <- app_assoc. cbn [app]. by rewrite IH by lia.
  - intros es ms _ IH [|fuel] r Hf; cbn in *; [lia|]. rewrite length_app in Hf. cbn in Hf.
    rewrite <- app_assoc. cbn [app]. by rewrite IH by lia.
  - intros fuel [|count] r _ _; done.
  - intros es v es' vs Hv IH _ IH' fuel count r Hf Hc. rewrite length_app in *.
    destruct (writes_starts _ _ Hv) as (e & tl & -> & He).
    destruct count as [|count]; cbn in Hc; [lia|]. rewrite <- app_assoc.
    destruct e; try discriminate He; cbn [app read_elements] in *.
    all: rewrite IH by (cbn in *; lia); cbn; by rewrite IH' by (cbn in *; lia).
  - intros fuel [|count] r _ _; done.
  - intros name es v es' ms Hv IH _ IH' fuel count r Hf Hc. cbn in Hf, Hc. rewrite length_app in *.
    destruct count as [|count]; [lia|]. cbn [app read_members]. rewrite <- app_assoc.
    rewrite IH by lia. cbn. by rewrite IH' by lia.
Qed.

Lemma document_written es v : writes es v -> document es = Some v.
Proof.
  intros Hv. unfold document. pose proof (proj1 read_written es v Hv (List.length es) []) as Hr.
  rewrite app_nil_r in Hr. by rewrite Hr.
Qed.

Example document_of_calls :
  document [StartObject; JKey "a"; StartArray; JUint 1; JText "b"; EndArray; JKey "c"; JKey "d"; EndObject] =
    Some (JObject [("a", JArray [JNumber 1; JString "b"]); ("c", JString "d")])%string.
Proof. reflexivity. Qed.

Example unclosed_object : document [StartObject; JKey "a"; JUint 1] = None.
Proof. reflexivity. Qed.

(** ** The interface of the conversions *)

Class IJson (T : Type) : Type := {
  toJSON : T -> list json_event;
  fromJSON : json -> option T
}.

Class JsonRoundTrip (T : Type) `{IJson T} (wf : T -> Prop) : Prop :=
  json_written : forall x, wf x -> exists v, writes (toJSON x) v /\ fromJSON v = Some x.

(** ** The helpers of the library *)

Class JsonLib {CL : CryptoLib} : Type := {
  (* JSON_OBJECT_OR_THROW and JSON_MEMBER_OR_THROW *)
  JSON_OBJECT_OR_THROW : json -> option ();
  JSON_MEMBER_OR_THROW : json -> string -> option ();
  has_member : json -> string -> bool;
  (* get_json_... on a value, and on a member of an object *)
  get_json_string_value : json -> option string;
  get_json_string : json -> string -> option string;
  get_json_value : json -> string -> option json;
  get_json_array : json -> string -> option (list json);
  get_json_uint64_t : json -> string -> option Z;
  get_json_uint32_t : json -> string -> option Z;
  (* U64_TO_JSON and LOAD_U64_FROM_JSON, and the forms of 32 bits *)
  U64_TO_JSON : string -> Z -> list json_event;
  U32_TO_JSON : string -> Z -> list json_event;
  LOAD_U64_FROM_JSON : json -> string -> option Z;
  LOAD_U32_FROM_JSON : json -> string -> option Z;
  (* KEY_TO_JSON and LOAD_KEY_FROM_JSON, and the forms of vectors *)
  KEY_TO_JSON : forall {T} `{IJson T}, string -> T -> list json_event;
  LOAD_KEY_FROM_JSON : forall {T} `{IJson T}, json -> string -> option T;
  KEYV_TO_JSON : forall {T} `{IJson T}, string -> list T -> list json_event;
  LOAD_KEYV_FROM_JSON : forall {T} `{IJson T}, json -> string -> option (list T);
  (* the constructor from a member that JSON_OBJECT_CONSTRUCTORS declares *)
  member_fromJSON : forall {T} `{IJson T}, json -> string -> option T;
  (* the structures of the library *)
  key_toJSON : forall {K} `{Key K}, K -> list json_event;
  key_fromJSON : forall {K} `{Key K}, json -> option K;
  key_of_string : forall {K} `{Key K}, string -> option K;
  clsag_toJSON : crypto_clsag_signature_t -> list json_event;
  clsag_fromJSON : json -> option crypto_clsag_signature_t;
  bulletproof_toJSON : crypto_bulletproof_plus_t -> list json_event;
  bulletproof_fromJSON : json -> option crypto_bulletproof_plus_t;
  (* Crypto::StringTools *)
  to_hex : bytes -> string;
  from_hex : string -> option bytes
}.

#[export] Instance key_IJson `{JsonLib} {K} `{Key K} : IJson K := {|
  toJSON := key_toJSON; fromJSON := key_fromJSON |}.
#[export] Instance clsag_IJson `{JsonLib} : IJson crypto_clsag_signature_t := {|
  toJSON := clsag_toJSON; fromJSON := clsag_fromJSON |}.
#[export] Instance bulletproof_IJson `{JsonLib} : IJson crypto_bulletproof_plus_t := {|
  toJSON := bulletproof_toJSON; fromJSON := bulletproof_fromJSON |}.

(** A macro that writes a member writes its name and one value; an accessor of a
    member finds it. *)
Class JsonLaws {CL : CryptoLib} (JL : JsonLib) : Prop := {
  object_ok : forall ms, JSON_OBJECT_OR_THROW (JObject ms) = Some ();
  member_ok : forall ms name v, find_member name ms = Some v ->
    JSON_MEMBER_OR_THROW (JObject ms) name = Some ();
  has_member_ok : forall ms name,
    has_member (JObject ms) name = match find_member name ms with Some _ => true | None => false end;
  string_value_ok : forall s, get_json_string_value (JString s) = Some s;
  string_ok : forall ms name s, find_member name ms = Some (JString s) ->
    get_json_string (JObject ms) name = Some s;
  value_ok : forall ms name v, find_member name ms = Some v ->
    get_json_value (JObject ms) name = Some v;
  array_ok : forall ms name vs, find_member name ms = Some (JArray vs) ->
    get_json_array (JObject ms) name = Some vs;
  uint64_ok : forall ms name n, u64 n -> find_member name ms = Some (JNumber n) ->
    get_json_uint64_t (JObject ms) name = Some n;
  uint32_ok : forall ms name n, uintw 32 n -> find_member name ms = Some (JNumber n) ->
    get_json_uint32_t (JObject ms) name = Some n;
  U64_ok : forall name n, u64 n -> exists es v, U64_TO_JSON name n = JKey name :: es /\
    writes es v /\
    forall ms, find_member name ms = Some v -> LOAD_U64_FROM_JSON (JObject ms) name = Some n;
  U32_ok : forall name n, uintw 32 n -> exists es v, U32_TO_JSON name n = JKey name :: es /\
    writes es v /\
    forall ms, find_member name ms = Some v -> LOAD_U32_FROM_JSON (JObject ms) name = Some n;
  KEY_ok : forall T `{IJson T} name (x : T),
    KEY_TO_JSON name x = JKey name :: toJSON x /\
    forall ms v, find_member name ms = Some v -> LOAD_KEY_FROM_JSON (JObject ms) name = fromJSON (T := T) v;
  KEYV_ok : forall T `{IJson T} name (xs : list T),
    KEYV_TO_JSON name xs = JKey name :: StartArray :: flat_map toJSON xs ++ [EndArray] /\
    forall ms vs, find_member name ms = Some (JArray vs) ->
      LOAD_KEYV_FROM_JSON (JObject ms) name = mapM (fromJSON (T := T)) vs;
  member_fromJSON_ok : forall T `{IJson T} ms name v, find_member name ms = Some v ->
    member_fromJSON (JObject ms) name = fromJSON (T := T) v;
  key_ok : forall K `{Key K} `{!KeyLaws K} (k : K), exists s,
    writes (key_toJSON k) (JString s) /\ key_fromJSON (JString s) = Some k /\ key_of_string s = Some k;
  clsag_ok : forall s, exists v, writes (clsag_toJSON s) v /\ clsag_fromJSON v = Some s;
  bulletproof_ok : forall p, exists v, writes (bulletproof_toJSON p) v /\ bulletproof_fromJSON v = Some p;
  hex_ok : forall bs, from_hex (to_hex bs) = Some bs
}.

Section JsonFacts.
Context {CL : CryptoLib} {JL : JsonLib} {Laws : JsonLaws JL}.

#[export] Instance key_json {K} `{KeyLaws K} : JsonRoundTrip K (fun _ => True).
Proof. intros k _. destruct (key_ok K k) as (s & Hs & Hk & _). by exists (JString s). Qed.
#[export] Instance clsag_json : JsonRoundTrip crypto_clsag_signature_t (fun _ => True).
Proof. intros x _. apply clsag_ok. Qed.
#[export] Instance bulletproof_json : JsonRoundTrip crypto_bulletproof_plus_t (fun _ => True).
Proof. intros x _. apply bulletproof_ok. Qed.

(** The elements of an array of structures. *)
Lemma elements_written `{JsonRoundTrip T wf} (xs : list T) :
  Forall wf xs -> exists vs, writes_elements (flat_map toJSON xs) vs /\ mapM fromJSON vs = Some xs.
Proof using.
  induction 1 as [|x xs Hx _ (vs & Hw & Hm)].
  - exists []. split; [constructor|done].
  - destruct (json_written x Hx) as (v & Hv & Hf). exists (v :: vs).
    split; [by constructor|]. cbn. by rewrite Hf, Hm.
Qed.

(** ** Objects from parts *)

(** The calls [es] write members with the names [names], and in every object
    that has them, and none of these names before them, [P] holds. *)
Definition part (es : list json_event) (names : list string) (P : json -> Prop) : Prop :=
  exists ms, writes_members es ms /\ ms.*1 = names /\
    forall before after, Forall (fun name => name ∉ before.*1) names ->
      P (JObject (before ++ ms ++ after)).

Lemma find_member_app name before after :
  name ∉ before.*1 -> find_member name (before ++ after) = find_member name after.
Proof using.
  induction before as [|[k v] before IH]; [done|]. cbn. rewrite not_elem_of_cons.
  intros [Hne Hin]. destruct (String.eqb_spec k name); [congruence|]. by apply IH.
Qed.

Lemma find_member_here name v before after :
  name ∉ before.*1 -> find_member name (before ++ [(name, v)] ++ after) = Some v.
Proof using. intros Hn. rewrite find_member_app by done. cbn. by rewrite String.eqb_refl. Qed.

(** One member. *)
Lemma part_member name es v (P : json -> Prop) :
  writes es v -> (forall ms, find_member name ms = Some v -> P (JObject ms)) ->
  part (JKey name :: es) [name] P.
Proof using.
  intros Hv HP. exists [(name, v)]. split.
  - rewrite <- (app_nil_r es). constructor; [done|constructor].
  - split; [done|]. intros before after Hn. apply HP, find_member_here. by inv Hn.
Qed.

Lemma writes_members_app es ms es' ms' :
  writes_members es ms -> writes_members es' ms' -> writes_members (es ++ es') (ms ++ ms').
Proof using.
  intros Hm Hm'. induction Hm as [|name es v es1 ms1 Hv Hm IH]; [done|].
  cbn. rewrite <- app_assoc. by constructor.
Qed.

(** The members that the macros write, and the ones written by hand. *)
Lemma part_u64 name n :
  u64 n -> part (U64_TO_JSON name n) [name] (fun j => LOAD_U64_FROM_JSON j name = Some n).
Proof using Laws.
  intros Hn. destruct (U64_ok name n Hn) as (es & v & -> & Hv & Hl). by apply (part_member _ _ v).
Qed.

Lemma part_u32 name n :
  uintw 32 n -> part (U32_TO_JSON name n) [name] (fun j => LOAD_U32_FROM_JSON j name = Some n).
Proof using Laws.
  intros Hn. destruct (U32_ok name n Hn) as (es & v & -> & Hv & Hl). by apply (part_member _ _ v).
Qed.

Lemma part_key `{JsonRoundTrip T wf} name (x : T) :
  wf x -> part (KEY_TO_JSON name x) [name] (fun j => LOAD_KEY_FROM_JSON j name = Some x).
Proof using Laws.
  intros Hx. destruct (json_written x Hx) as (v & Hv & Hf). destruct (KEY_ok T name x) as [-> Hl].
  apply (part_member _ _ v); [done|]. intros ms Hm. by rewrite (Hl ms v Hm).
Qed.

Lemma part_keyv `{JsonRoundTrip T wf} name (xs : list T) :
  Forall wf xs -> part (KEYV_TO_JSON name xs) [name] (fun j => LOAD_KEYV_FROM_JSON j name = Some xs).
Proof using Laws.
  intros Hxs. destruct (elements_written xs Hxs) as (vs & Hv & Hf).
  destruct (KEYV_ok T name xs) as [-> Hl].
  apply (part_member _ _ (JArray vs)); [by constructor|]. intros ms Hm. by rewrite (Hl ms vs Hm).
Qed.

Lemma part_uint64 name n :
  u64 n -> part [JKey name; JUint64 n] [name]
    (fun j => JSON_MEMBER_OR_THROW j name = Some () /\ get_json_uint64_t j name = Some n).
Proof using Laws.
  intros Hn. apply (part_member _ _ (JNumber n)); [constructor|]. intros ms Hm.
  split; [by eapply member_ok|by apply uint64_ok].
Qed.

Lemma part_uint name n :
  uintw 32 n -> part [JKey name; JUint n] [name]
    (fun j => JSON_MEMBER_OR_THROW j name = Some () /\ get_json_uint32_t j name = Some n).
Proof using Laws.
  intros Hn. apply (part_member _ _ (JNumber n)); [constructor|]. intros ms Hm.
  split; [by eapply member_ok|by apply uint32_ok].
Qed.

Lemma part_string name s e :
  e = JText s \/ e = JKey s ->
  part [JKey name; e] [name]
    (fun j => JSON_MEMBER_OR_THROW j name = Some () /\ get_json_string j name = Some s).
Proof using Laws.
  intros He. apply (part_member _ _ (JString s)); [destruct He as [->| ->]; constructor|]. intros ms Hm.
  split; [by eapply member_ok|by apply string_ok].
Qed.

Lemma part_struct `{JsonRoundTrip T wf} name (x : T) :
  wf x -> part (JKey name :: toJSON x) [name]
    (fun j => JSON_MEMBER_OR_THROW j name = Some () /\ member_fromJSON j name = Some x).
Proof using Laws.
  intros Hx. destruct (json_written x Hx) as (v & Hv & Hf). apply (part_member _ _ v); [done|].
  intros ms Hm. split; [by eapply member_ok|]. by rewrite (member_fromJSON_ok T ms name v Hm).
Qed.

Lemma part_array `{JsonRoundTrip T wf} name (xs : list T) :
  Forall wf xs -> part (JKey name :: StartArray :: flat_map toJSON xs ++ [EndArray]) [name]
    (fun j => JSON_MEMBER_OR_THROW j name = Some () /\
       exists vs, get_json_array j name = Some vs /\ mapM fromJSON vs = Some xs).
Proof using Laws.
  intros Hxs. destruct (elements_written xs Hxs) as (vs & Hv & Hf).
  apply (part_member _ _ (JArray vs)); [by constructor|]. intros ms Hm.
  split; [by eapply member_ok|]. exists vs. split; [by apply array_ok|done].
Qed.

(** The members whose type has no condition. *)
Lemma part_any_key `{JsonRoundTrip T (fun _ => True)} name (x : T) :
  part (KEY_TO_JSON name x) [name] (fun j => LOAD_KEY_FROM_JSON j name = Some x).
Proof using Laws. by apply (part_key (wf := fun _ => True)). Qed.

Lemma part_any_keyv `{JsonRoundTrip T (fun _ => True)} name (xs : list T) :
  part (KEYV_TO_JSON name xs) [name] (fun j => LOAD_KEYV_FROM_JSON j name = Some xs).
Proof using Laws. apply (part_keyv (wf := fun _ => True)), Forall_anything. Qed.

Lemma part_any_struct `{JsonRoundTrip T (fun _ => True)} name (x : T) :
  part (JKey name :: toJSON x) [name]
    (fun j => JSON_MEMBER_OR_THROW j name = Some () /\ member_fromJSON j name = Some x).
Proof using Laws. by apply (part_struct (wf := fun _ => True)). Qed.

(** Names that two lists do not share, decided. *)
Definition apart (names names' : list string) : bool :=
  forallb (fun name => forallb (fun name' => negb (String.eqb name name')) names') names.

Lemma apart_spec names names' name :
  apart names names' = true -> name ∈ names -> name ∉ names'.
Proof using.
  unfold apart. rewrite forallb_forall. intros Ha Hin Hin'. apply list_elem_of_In in Hin, Hin'.
  specialize (Ha _ Hin). rewrite forallb_forall in Ha. specialize (Ha _ Hin').
  by rewrite String.eqb_refl in Ha.
Qed.

Lemma part_app es names P es' names' P' :
  part es names P -> part es' names' P' -> apart names' names = true ->
  part (es ++ es') (names ++ names') (fun j => P j /\ P' j).
Proof using.
  intros (ms & Hw & <- & HP) (ms' & Hw' & <- & HP') Ha. exists (ms ++ ms').
  split; [by apply writes_members_app|]. split; [by rewrite fmap_app|].
  intros before after Hn. apply Forall_app in Hn as [Hn Hn']. split.
  - rewrite <- app_assoc. by apply HP.
  - rewrite <- app_assoc, app_assoc. apply HP'. rewrite fmap_app.
    rewrite Forall_forall in Hn' |- *. intros name Hin. rewrite elem_of_app.
    intros [Hb|Hb]; [by eapply Hn'|]. by eapply apart_spec.
Qed.

Lemma part_weaken es names names' P Q :
  part es names P -> names = names' -> (forall ms, P (JObject ms) -> Q (JObject ms)) ->
  part es names' Q.
Proof using. intros (ms & Hw & Hn & HP) <- HPQ. exists ms. eauto. Qed.

Lemma object_written_names {T} (read : json -> option T) x es names P :
  part es names P -> (forall ms, ms.*1 = names -> P (JObject ms) -> read (JObject ms) = Some x) ->
  exists v, writes (StartObject :: es ++ [EndObject]) v /\ read v = Some x.
Proof using.
  intros (ms & Hw & Hn & HP) Hread. exists (JObject ms). split; [by constructor|]. apply Hread; [done|].
  specialize (HP [] []). rewrite app_nil_r in HP. apply HP. apply Forall_forall.
  intros name _. apply not_elem_of_nil.
Qed.

Lemma object_written {T} (read : json -> option T) x es names P :
  part es names P -> (forall ms, P (JObject ms) -> read (JObject ms) = Some x) ->
  exists v, writes (StartObject :: es ++ [EndObject]) v /\ read v = Some x.
Proof using. intros Hp Hread. eapply object_written_names; [done|]. intros ms _. apply Hread. Qed.

Lemma part_nil : part [] [] (fun _ => True).
Proof using. exists []. split; [constructor|done]. Qed.

Lemma find_member_absent name (ms : list (string * json)) : name ∉ ms.*1 -> find_member name ms = None.
Proof using.
  induction ms as [|[k v] ms IH]; [done|]. cbn. rewrite not_elem_of_cons. intros [Hne Hin].
  destruct (String.eqb_spec k name); [congruence|]. by apply IH.
Qed.
End JsonFacts.

Create HintDb json.
#[export] Hint Resolve part_any_key part_any_keyv part_any_struct part_u64 part_u32 part_key part_keyv part_uint64 part_uint part_string part_struct
  part_array : json.
#[export] Hint Extern 1 (uintw _ _) => (assumption || (unfold uintw, u16 in *; lia)) : json.
#[export] Hint Extern 0 (JsonRoundTrip _ _) => (apply _) : json.

(** The parts of an object, one after the other. *)
Ltac json_parts :=
  lazymatch goal with
  | |- part (_ ++ _) _ _ => eapply part_app; [json_parts|json_parts|reflexivity]
  | |- _ => eauto with json
  end.

(** What the parts give for the reader of the object. *)
Ltac json_reader :=
  let ms := fresh "ms" in let Hs := fresh "Hs" in
  intros ms Hs; cbn beta in Hs; decompose [and ex] Hs; clear Hs;
  lazymatch goal with |- ?read = _ => let rd := head_of read in unfold rd end;
  rewrite ?object_ok; cbn;
  repeat (match goal with Hr : _ = Some _ |- _ => rewrite Hr; clear Hr; cbn end);
  try reflexivity.

(** The part of a structure that writes its members into an object. *)
Ltac json_part :=
  lazymatch goal with |- part ?es _ _ => let wr := head_of es in unfold wr end;
  eapply part_weaken; [json_parts|reflexivity|json_reader].

(** A structure that is one object. *)
Ltac json_object :=
  lazymatch goal with
  | |- context [@toJSON _ ?i _] => let inst := head_of i in unfold toJSON, fromJSON, inst
  end;
  lazymatch goal with |- exists v, writes ?es v /\ _ => let wr := head_of es in unfold wr end;
  eapply object_written; [json_parts|json_reader].

(** ** A concrete instance, for the witnesses *)

Section PlainJson.
Context {CL : CryptoLib}.

Definition plain_member (j : json) (name : string) : option json :=
  match j with JObject ms => find_member name ms | _ => None end.
Definition plain_string (j : json) : option string := match j with JString s => Some s | _ => None end.
Definition plain_array (j : json) : option (list json) := match j with JArray vs => Some vs | _ => None end.
Definition plain_number (w : Z) (j : json) : option Z :=
  match j with JNumber n => if (0 <=? n) && (n <? 2 ^ w) then Some n else None | _ => None end.

(** A structure of the library as the text of its bytes. *)
Definition plain_read {A} (rd : reader A) (s : string) : option A :=
  bs ← base58_decode_check s; fst <$> rd bs.

Definition plain_get {A} (get : json -> option A) (j : json) (name : string) : option A :=
  match plain_member j name with Some v => get v | None => None end.
Definition plain_elements {T} `{IJson T} (j : json) : option (list T) :=
  match plain_array j with Some vs => mapM fromJSON vs | None => None end.
Definition plain_text {A} (rd : reader A) (j : json) : option A :=
  match plain_string j with Some s => plain_read rd s | None => None end.

#[export] Instance plain_json : JsonLib := {|
  JSON_OBJECT_OR_THROW j := match j with JObject _ => Some () | _ => None end;
  JSON_MEMBER_OR_THROW j name := match plain_member j name with Some _ => Some () | None => None end;
  has_member j name := match plain_member j name with Some _ => true | None => false end;
  get_json_string_value := plain_string;
  get_json_string j name := plain_get plain_string j name;
  get_json_value := plain_member;
  get_json_array j name := plain_get plain_array j name;
  get_json_uint64_t j name := plain_get (plain_number 64) j name;
  get_json_uint32_t j name := plain_get (plain_number 32) j name;
  U64_TO_JSON name n := [JKey name; JUint64 n];
  U32_TO_JSON name n := [JKey name; JUint n];
  LOAD_U64_FROM_JSON j name := plain_get (plain_number 64) j name;
  LOAD_U32_FROM_JSON j name := plain_get (plain_number 32) j name;
  KEY_TO_JSON T _ name x := JKey name :: toJSON x;
  LOAD_KEY_FROM_JSON T _ j name := plain_get fromJSON j name;
  KEYV_TO_JSON T _ name xs := JKey name :: StartArray :: flat_map toJSON xs ++ [EndArray];
  LOAD_KEYV_FROM_JSON T _ j name := plain_get plain_elements j name;
  member_fromJSON T _ j name := plain_get fromJSON j name;
  key_toJSON K _ k := [JText (base58_encode_check (put_key k))];
  key_fromJSON K _ j := plain_text get_key j;
  key_of_string K _ := plain_read get_key;
  clsag_toJSON s := [JText (base58_encode_check (put_clsag s))];
  clsag_fromJSON j := plain_text get_clsag j;
  bulletproof_toJSON p := [JText (base58_encode_check (put_bulletproof p))];
  bulletproof_fromJSON j := plain_text get_bulletproof j;
  to_hex := base58_encode_check;
  from_hex := base58_decode_check
|}.

Context {Codec : CodecLaws CL} {B58 : Base58Laws CL}.

Lemma plain_number_ok w n : uintw w n -> plain_number w (JNumber n) = Some n.
Proof using.
  intros [H0 H1]. cbn. by rewrite (proj2 (Z.leb_le _ _) H0), (proj2 (Z.ltb_lt _ _) H1).
Qed.

Lemma plain_read_ok {A} (rd : reader A) (w : bytes) x :
  rd (w ++ []) = Some (x, []) -> plain_read rd (base58_encode_check w) = Some x.
Proof using B58.
  intros Hr. unfold plain_read. rewrite base58_decode_encode. cbn. rewrite app_nil_r in Hr. by rewrite Hr.
Qed.

#[export] Instance plain_json_laws : JsonLaws plain_json.
Proof using Codec B58.
  split; intros; cbn; unfold plain_get, plain_text, plain_elements; cbn; try done.
  1-3: by match goal with Hf : find_member _ _ = _ |- _ => rewrite Hf end.
  1,2: match goal with Hf : find_member _ _ = _ |- _ => rewrite Hf end; by apply plain_number_ok.
  1,2: do 2 eexists; split; [done|]; split; [constructor|]; intros ms ->; by apply plain_number_ok.
  1,2: split; [done|]; by intros ms v ->.
  - by match goal with Hf : find_member _ _ = _ |- _ => rewrite Hf end.
  - eexists. split; [constructor|]. cbn. split; apply plain_read_ok, get_put_key.
  - eexists. split; [constructor|]. cbn. apply plain_read_ok, get_put_clsag.
  - eexists. split; [constructor|]. cbn. apply plain_read_ok, get_put_bulletproof.
  - apply base58_decode_encode.
Qed.
End PlainJson.
