(* ===== verification/JsonTypes.v ===== *)
(** * The JSON forms of the chain's structures

    [toJSON] and [fromJSON] of the structures of [src/include/blockchain] and
    [src/include/staking]: each [toJSON] is the sequence of calls it makes on the
    writer, each [fromJSON] reads the members that it reads, in its order. *)

From S2P Require Import Prelude CryptoLib Concrete Codec TxBase TxUser TxSystem Block TxTypes Json.
From S2P Require Import Errors Mdb MemDb Program Lmdb Staking.
From Stdlib Require Import Strings.Byte.

Section JsonTypes.
Context {CL : CryptoLib} {JL : JsonLib}.

#[local] Open Scope string_scope.

(** The loops over a vector of structures. *)
Definition array_toJSON `{IJson T} (name : string) (xs : list T) : list json_event :=
  JKey name :: StartArray :: flat_map toJSON xs ++ [EndArray].

Definition array_fromJSON `{IJson T} (j : json) (name : string) : option (list T) :=
  _ ← JSON_MEMBER_OR_THROW j name;
  elems ← get_json_array j name;
  mapM fromJSON elems.

(** ** The parts of transactions *)

Definition header_toJSON (h : TransactionHeader) : list json_event :=
  [JKey "type"; JUint64 (l_type h)] ++ U64_TO_JSON "version" (version h).

Definition header_fromJSON (j : json) : option TransactionHeader :=
  _ ← JSON_OBJECT_OR_THROW j;
  _ ← JSON_MEMBER_OR_THROW j "type";
  l_type ← get_json_uint64_t j "type";
  version ← LOAD_U64_FROM_JSON j "version";
  Some (mkTransactionHeader l_type version).

Definition prefix_toJSON (p : TransactionPrefix) : list json_event :=
  header_toJSON p ++ U64_TO_JSON "unlock_block" (unlock_block p) ++ KEY_TO_JSON "public_key" (public_key p).

Definition prefix_fromJSON (j : json) : option TransactionPrefix :=
  _ ← JSON_OBJECT_OR_THROW j;
  header ← header_fromJSON j;
  unlock_block ← LOAD_U64_FROM_JSON j "unlock_block";
  public_key ← LOAD_KEY_FROM_JSON j "public_key";
  Some (mkTransactionPrefix header unlock_block public_key).

Definition StakerOutput_toJSON (o : StakerOutput) : list json_event :=
  StartObject ::
  (KEY_TO_JSON "staker_id" (staker_output_id o) ++ U64_TO_JSON "amount" (staker_output_amount o)) ++
  [EndObject].

Definition StakerOutput_fromJSON (j : json) : option StakerOutput :=
  _ ← JSON_OBJECT_OR_THROW j;
  staker_id ← LOAD_KEY_FROM_JSON j "staker_id";
  amount ← LOAD_U64_FROM_JSON j "amount";
  Some (mkStakerOutput staker_id amount).

#[export] Instance StakerOutput_IJson : IJson StakerOutput := {|
  toJSON := StakerOutput_toJSON; fromJSON := StakerOutput_fromJSON |}.

Definition TransactionOutput_toJSON (o : TransactionOutput) : list json_event :=
  StartObject ::
  (KEY_TO_JSON "public_ephemeral" (public_ephemeral o) ++ U64_TO_JSON "amount" (amount o) ++
   KEY_TO_JSON "commitment" (commitment o)) ++
  [EndObject].

Definition TransactionOutput_fromJSON (j : json) : option TransactionOutput :=
  _ ← JSON_OBJECT_OR_THROW j;
  public_ephemeral ← LOAD_KEY_FROM_JSON j "public_ephemeral";
  amount ← LOAD_U64_FROM_JSON j "amount";
  commitment ← LOAD_KEY_FROM_JSON j "commitment";
  Some (mkTransactionOutput public_ephemeral amount commitment).

#[export] Instance TransactionOutput_IJson : IJson TransactionOutput := {|
  toJSON := TransactionOutput_toJSON; fromJSON := TransactionOutput_fromJSON |}.

Definition body_toJSON (b : TransactionUserBody) : list json_event :=
  U64_TO_JSON "nonce" (nonce b) ++ U64_TO_JSON "fee" (fee b) ++
  KEYV_TO_JSON "key_images" (key_images b) ++ array_toJSON "outputs" (outputs b).

Definition body_fromJSON (j : json) : option TransactionUserBody :=
  _ ← JSON_OBJECT_OR_THROW j;
  nonce ← LOAD_U64_FROM_JSON j "nonce";
  fee ← LOAD_U64_FROM_JSON j "fee";
  key_images ← LOAD_KEYV_FROM_JSON j "key_images";
  outputs ← array_fromJSON j "outputs";
  Some (mkTransactionUserBody nonce fee key_images outputs).

Definition uncommitted_suffix_toJSON (s : UncommittedTransactionSuffix) : list json_event :=
  KEYV_TO_JSON "pseudo_commitments" (pseudo_commitments s) ++
  KEYV_TO_JSON "ring_participants" (ring_participants s) ++
  KEYV_TO_JSON "signatures" (signatures s) ++
  (JKey "range_proof" :: toJSON (range_proof s)).

Definition uncommitted_suffix_fromJSON (j : json) : option UncommittedTransactionSuffix :=
  _ ← JSON_OBJECT_OR_THROW j;
  pseudo_commitments ← LOAD_KEYV_FROM_JSON j "pseudo_commitments";
  ring_participants ← LOAD_KEYV_FROM_JSON j "ring_participants";
  signatures ← LOAD_KEYV_FROM_JSON j "signatures";
  _ ← JSON_MEMBER_OR_THROW j "range_proof";
  range_proof ← member_fromJSON j "range_proof";
  Some (mkUncommittedTransactionSuffix pseudo_commitments ring_participants signatures range_proof).

Definition committed_suffix_toJSON (s : CommittedTransactionSuffix) : list json_event :=
  KEY_TO_JSON "signature_hash" (signature_hash s) ++ KEY_TO_JSON "range_proof_hash" (range_proof_hash s).

Definition committed_suffix_fromJSON (j : json) : option CommittedTransactionSuffix :=
  _ ← JSON_OBJECT_OR_THROW j;
  signature_hash ← LOAD_KEY_FROM_JSON j "signature_hash";
  range_proof_hash ← LOAD_KEY_FROM_JSON j "range_proof_hash";
  Some (mkCommittedTransactionSuffix signature_hash range_proof_hash).

(** The value of [extra] is written with [Key] too. *)
Definition normal_data_toJSON (d : NormalTransactionData) : list json_event :=
  [JKey "extra"; JKey (to_hex (extra d))].

Definition normal_data_fromJSON (j : json) : option NormalTransactionData :=
  _ ← JSON_OBJECT_OR_THROW j;
  _ ← JSON_MEMBER_OR_THROW j "extra";
  data ← get_json_string j "extra";
  extra ← from_hex data;
  Some (mkNormalTransactionData extra).

Definition stake_data_toJSON (d : StakeTransactionData) : list json_event :=
  U64_TO_JSON "stake_amount" (stake_amount d) ++
  KEY_TO_JSON "candidate_public_key" (candidate_public_key d) ++
  KEY_TO_JSON "staker_public_view_key" (staker_public_view_key d) ++
  KEY_TO_JSON "staker_public_spend_key" (staker_public_spend_key d).

Definition stake_data_fromJSON (j : json) : option StakeTransactionData :=
  _ ← JSON_OBJECT_OR_THROW j;
  stake_amount ← LOAD_U64_FROM_JSON j "stake_amount";
  candidate_public_key ← LOAD_KEY_FROM_JSON j "candidate_public_key";
  staker_public_view_key ← LOAD_KEY_FROM_JSON j "staker_public_view_key";
  staker_public_spend_key ← LOAD_KEY_FROM_JSON j "staker_public_spend_key";
  Some (mkStakeTransactionData stake_amount candidate_public_key staker_public_view_key
          staker_public_spend_key).

Definition recall_data_toJSON (d : RecallStakeTransactionData) : list json_event :=
  U64_TO_JSON "stake_amount" (recall_stake_amount d) ++
  KEY_TO_JSON "candidate_public_key" (recall_candidate_public_key d) ++
  KEY_TO_JSON "staker_id" (staker_id d) ++
  KEY_TO_JSON "view_signature" (view_signature d) ++
  KEY_TO_JSON "spend_signature" (spend_signature d).

Definition recall_data_fromJSON (j : json) : option RecallStakeTransactionData :=
  _ ← JSON_OBJECT_OR_THROW j;
  stake_amount ← LOAD_U64_FROM_JSON j "stake_amount";
  candidate_public_key ← LOAD_KEY_FROM_JSON j "candidate_public_key";
  staker_id ← LOAD_KEY_FROM_JSON j "staker_id";
  view_signature ← LOAD_KEY_FROM_JSON j "view_signature";
  spend_signature ← LOAD_KEY_FROM_JSON j "spend_signature";
  Some (mkRecallStakeTransactionData stake_amount candidate_public_key staker_id view_signature
          spend_signature).

(** ** The transactions *)

Definition committed_normal_toJSON (tx : committed_normal_transaction_t) : list json_event :=
  StartObject ::
  (prefix_toJSON tx ++ body_toJSON tx ++ normal_data_toJSON tx ++ committed_suffix_toJSON tx) ++ [EndObject].

Definition committed_normal_fromJSON (j : json) : option committed_normal_transaction_t :=
  _ ← JSON_OBJECT_OR_THROW j;
  prefix ← prefix_fromJSON j;
  body ← body_fromJSON j;
  data ← normal_data_fromJSON j;
  suffix ← committed_suffix_fromJSON j;
  Some (mk_committed_normal prefix body data suffix).

#[export] Instance committed_normal_IJson : IJson committed_normal_transaction_t := {|
  toJSON := committed_normal_toJSON; fromJSON := committed_normal_fromJSON |}.

Definition uncommitted_normal_toJSON (tx : uncommited_normal_transaction_t) : list json_event :=
  StartObject ::
  (prefix_toJSON tx ++ body_toJSON tx ++ normal_data_toJSON tx ++ uncommitted_suffix_toJSON tx) ++ [EndObject].

Definition uncommitted_normal_fromJSON (j : json) : option uncommited_normal_transaction_t :=
  _ ← JSON_OBJECT_OR_THROW j;
  prefix ← prefix_fromJSON j;
  body ← body_fromJSON j;
  data ← normal_data_fromJSON j;
  suffix ← uncommitted_suffix_fromJSON j;
  Some (mk_uncommitted_normal prefix body data suffix).

#[export] Instance uncommitted_normal_IJson : IJson uncommited_normal_transaction_t := {|
  toJSON := uncommitted_normal_toJSON; fromJSON := uncommitted_normal_fromJSON |}.

Definition committed_stake_toJSON (tx : committed_stake_transaction_t) : list json_event :=
  StartObject ::
  (prefix_toJSON tx ++ body_toJSON tx ++ stake_data_toJSON tx ++ committed_suffix_toJSON tx) ++ [EndObject].

Definition committed_stake_fromJSON (j : json) : option committed_stake_transaction_t :=
  _ ← JSON_OBJECT_OR_THROW j;
  prefix ← prefix_fromJSON j;
  body ← body_fromJSON j;
  data ← stake_data_fromJSON j;
  suffix ← committed_suffix_fromJSON j;
  Some (mk_committed_stake prefix body data suffix).

#[export] Instance committed_stake_IJson : IJson committed_stake_transaction_t := {|
  toJSON := committed_stake_toJSON; fromJSON := committed_stake_fromJSON |}.

Definition uncommitted_stake_toJSON (tx : uncommitted_stake_transaction_t) : list json_event :=
  StartObject ::
  (prefix_toJSON tx ++ body_toJSON tx ++ stake_data_toJSON tx ++ uncommitted_suffix_toJSON tx) ++ [EndObject].

Definition uncommitted_stake_fromJSON (j : json) : option uncommitted_stake_transaction_t :=
  _ ← JSON_OBJECT_OR_THROW j;
  prefix ← prefix_fromJSON j;
  body ← body_fromJSON j;
  data ← stake_data_fromJSON j;
  suffix ← uncommitted_suffix_fromJSON j;
  Some (mk_uncommitted_stake prefix body data suffix).

#[export] Instance uncommitted_stake_IJson : IJson uncommitted_stake_transaction_t := {|
  toJSON := uncommitted_stake_toJSON; fromJSON := uncommitted_stake_fromJSON |}.

Definition committed_recall_toJSON (tx : committed_recall_stake_transaction_t) : list json_event :=
  StartObject ::
  (prefix_toJSON tx ++ body_toJSON tx ++ recall_data_toJSON tx ++ committed_suffix_toJSON tx) ++ [EndObject].

Definition committed_recall_fromJSON (j : json) : option committed_recall_stake_transaction_t :=
  _ ← JSON_OBJECT_OR_THROW j;
  prefix ← prefix_fromJSON j;
  body ← body_fromJSON j;
  data ← recall_data_fromJSON j;
  suffix ← committed_suffix_fromJSON j;
  Some (mk_committed_recall prefix body data suffix).

#[export] Instance committed_recall_IJson : IJson committed_recall_stake_transaction_t := {|
  toJSON := committed_recall_toJSON; fromJSON := committed_recall_fromJSON |}.

Definition uncommitted_recall_toJSON (tx : uncommitted_recall_stake_transaction_t) : list json_event :=
  StartObject ::
  (prefix_toJSON tx ++ body_toJSON tx ++ recall_data_toJSON tx ++ uncommitted_suffix_toJSON tx) ++ [EndObject].

Definition uncommitted_recall_fromJSON (j : json) : option uncommitted_recall_stake_transaction_t :=
  _ ← JSON_OBJECT_OR_THROW j;
  prefix ← prefix_fromJSON j;
  body ← body_fromJSON j;
  data ← recall_data_fromJSON j;
  suffix ← uncommitted_suffix_fromJSON j;
  Some (mk_uncommitted_recall prefix body data suffix).

#[export] Instance uncommitted_recall_IJson : IJson uncommitted_recall_stake_transaction_t := {|
  toJSON := uncommitted_recall_toJSON; fromJSON := uncommitted_recall_fromJSON |}.

Definition genesis_toJSON (tx : genesis_transaction_t) : list json_event :=
  StartObject ::
  (prefix_toJSON tx ++ KEY_TO_JSON "secret_key" (genesis_secret_key tx) ++
   array_toJSON "outputs" (genesis_outputs tx)) ++ [EndObject].

Definition genesis_fromJSON (j : json) : option genesis_transaction_t :=
  _ ← JSON_OBJECT_OR_THROW j;
  prefix ← prefix_fromJSON j;
  secret_key ← LOAD_KEY_FROM_JSON j "secret_key";
  outputs ← array_fromJSON j "outputs";
  Some (mk_genesis prefix secret_key outputs).

#[export] Instance genesis_IJson : IJson genesis_transaction_t := {|
  toJSON := genesis_toJSON; fromJSON := genesis_fromJSON |}.

Definition staker_toJSON (tx : staker_transaction_t) : list json_event :=
  StartObject ::
  (header_toJSON tx ++ array_toJSON "staker_outputs" (staker_outputs tx) ++
   array_toJSON "staker_penalties" (staker_penalties tx)) ++ [EndObject].

Definition staker_fromJSON (j : json) : option staker_transaction_t :=
  _ ← JSON_OBJECT_OR_THROW j;
  header ← header_fromJSON j;
  staker_outputs ← array_fromJSON j "staker_outputs";
  staker_penalties ← array_fromJSON j "staker_penalties";
  Some (mk_staker header staker_outputs staker_penalties).

#[export] Instance staker_IJson : IJson staker_transaction_t := {|
  toJSON := staker_toJSON; fromJSON := staker_fromJSON |}.

Definition refund_toJSON (tx : stake_refund_transaction_t) : list json_event :=
  StartObject ::
  (prefix_toJSON tx ++ KEY_TO_JSON "secret_key" (refund_secret_key tx) ++
   KEY_TO_JSON "recall_stake_tx" (refund_recall_stake_tx tx) ++
   array_toJSON "outputs" (refund_outputs tx)) ++ [EndObject].

Definition refund_fromJSON (j : json) : option stake_refund_transaction_t :=
  _ ← JSON_OBJECT_OR_THROW j;
  prefix ← prefix_fromJSON j;
  secret_key ← LOAD_KEY_FROM_JSON j "secret_key";
  recall_stake_tx ← LOAD_KEY_FROM_JSON j "recall_stake_tx";
  outputs ← array_fromJSON j "outputs";
  Some (mk_stake_refund prefix secret_key recall_stake_tx outputs).

#[export] Instance refund_IJson : IJson stake_refund_transaction_t := {|
  toJSON := refund_toJSON; fromJSON := refund_fromJSON |}.

(** ** Staking records *)

Definition candidate_toJSON (c : candidate_node_t) : list json_event :=
  StartObject ::
  (U64_TO_JSON "record_version" (candidate_record_version c) ++
   KEY_TO_JSON "public_signing_key" (candidate_signing_key c) ++
   KEY_TO_JSON "public_view_key" (candidate_view_key c) ++
   KEY_TO_JSON "public_spend_key" (candidate_spend_key c) ++
   U64_TO_JSON "initial_stake" (initial_stake c) ++
   U64_TO_JSON "block_production_assigned" (block_production_assigned c) ++
   U64_TO_JSON "block_validation_assigned" (block_validation_assigned c) ++
   U64_TO_JSON "blocks_produced" (blocks_produced c) ++
   U64_TO_JSON "blocks_validated" (blocks_validated c)) ++ [EndObject].

Definition candidate_fromJSON (j : json) : option candidate_node_t :=
  _ ← JSON_OBJECT_OR_THROW j;
  record_version ← LOAD_U64_FROM_JSON j "record_version";
  public_signing_key ← LOAD_KEY_FROM_JSON j "public_signing_key";
  public_view_key ← LOAD_KEY_FROM_JSON j "public_view_key";
  public_spend_key ← LOAD_KEY_FROM_JSON j "public_spend_key";
  initial_stake ← LOAD_U64_FROM_JSON j "initial_stake";
  block_production_assigned ← LOAD_U64_FROM_JSON j "block_production_assigned";
  block_validation_assigned ← LOAD_U64_FROM_JSON j "block_validation_assigned";
  blocks_produced ← LOAD_U64_FROM_JSON j "blocks_produced";
  blocks_validated ← LOAD_U64_FROM_JSON j "blocks_validated";
  Some (mk_candidate record_version public_signing_key public_view_key public_spend_key initial_stake
          block_production_assigned block_validation_assigned blocks_produced blocks_validated).

#[export] Instance candidate_IJson : IJson candidate_node_t := {|
  toJSON := candidate_toJSON; fromJSON := candidate_fromJSON |}.

Definition stake_toJSON (s : stake_t) : list json_event :=
  StartObject ::
  (U64_TO_JSON "record_version" (stake_record_version s) ++
   KEY_TO_JSON "candidate_public_key" (stake_candidate_key s) ++
   KEY_TO_JSON "public_view_key" (stake_view_key s) ++
   KEY_TO_JSON "public_spend_key" (stake_spend_key s) ++
   U64_TO_JSON "stake" (stake s)) ++ [EndObject].

Definition stake_fromJSON (j : json) : option stake_t :=
  _ ← JSON_OBJECT_OR_THROW j;
  record_version ← LOAD_U64_FROM_JSON j "record_version";
  candidate_public_key ← LOAD_KEY_FROM_JSON j "candidate_public_key";
  public_view_key ← LOAD_KEY_FROM_JSON j "public_view_key";
  public_spend_key ← LOAD_KEY_FROM_JSON j "public_spend_key";
  stake ← LOAD_U64_FROM_JSON j "stake";
  Some (mk_stake record_version candidate_public_key public_view_key public_spend_key stake).

#[export] Instance stake_IJson : IJson stake_t := {|
  toJSON := stake_toJSON; fromJSON := stake_fromJSON |}.

(** ** Blocks *)

Definition reward_toJSON (r : block_transaction_t) : list json_event :=
  match r with Reward_genesis tx => toJSON tx | Reward_staker tx => toJSON tx end.

(** The object of a public key and a signature. *)
Definition signer_toJSON (pk : crypto_public_key_t) (sig : crypto_signature_t) : list json_event :=
  StartObject :: (JKey "public_key" :: toJSON pk) ++ (JKey "signature" :: toJSON sig) ++ [EndObject].

(** Every entry of the validators is written with the producer's key and
    signature. *)
Definition block_toJSON (b : block_t) : list json_event :=
  StartObject ::
  (U64_TO_JSON "version" (block_version b) ++
   KEY_TO_JSON "previous_blockhash" (previous_blockhash b) ++
   U64_TO_JSON "timestamp" (block_timestamp b) ++
   U64_TO_JSON "block_index" (block_index b) ++
   (JKey "reward_tx" :: reward_toJSON (reward_tx b)) ++
   array_toJSON "transactions" (block_transactions b) ++
   (if has_producer b
    then JKey "producer_signature" :: signer_toJSON (producer_public_key b) (producer_signature b)
    else []) ++
   (match validator_signatures b with
    | [] => []
    | vs => JKey "validator_signatures" :: StartArray ::
        flat_map (fun '(public_key, signature) =>
          signer_toJSON (producer_public_key b) (producer_signature b)) vs ++ [EndArray]
    end)) ++ [EndObject].

Definition detect_json_type (j : json) : option Z :=
  _ ← JSON_OBJECT_OR_THROW j;
  _ ← JSON_MEMBER_OR_THROW j "type";
  get_json_uint64_t j "type".

Definition reward_fromJSON (elem : json) : option block_transaction_t :=
  type ← detect_json_type elem;
  if (type =? TransactionType_value GENESIS)%Z then Reward_genesis <$> fromJSON elem
  else if (type =? TransactionType_value STAKER)%Z then Reward_staker <$> fromJSON elem
  else None.

Definition signer_fromJSON (elem : json) : option (crypto_public_key_t * crypto_signature_t) :=
  if negb (has_member elem "public_key") || negb (has_member elem "signature") then None
  else
    public_key ← get_json_string elem "public_key" ≫= key_of_string;
    signature ← get_json_string elem "signature" ≫= key_of_string;
    Some (public_key, signature).

(** The loops over the transactions and over the validators. *)
Definition insert_hashes (elems : list json) : option (list crypto_hash_t) :=
  hashes ← mapM (fun elem => get_json_string_value elem ≫= key_of_string) elems;
  Some (fold_left (fun txs hash => tx_set_insert hash txs) hashes []).

Definition append_validators (elems : list json) (b : block_t) : option block_t :=
  signers ← mapM signer_fromJSON elems;
  Some (fold_left (fun b '(public_key, signature) => append_validator_signature public_key signature b)
          signers b).

Definition block_fromJSON (j : json) : option block_t :=
  _ ← JSON_OBJECT_OR_THROW j;
  version ← LOAD_U64_FROM_JSON j "version";
  previous_blockhash ← LOAD_KEY_FROM_JSON j "previous_blockhash";
  timestamp ← LOAD_U64_FROM_JSON j "timestamp";
  block_index ← LOAD_U64_FROM_JSON j "block_index";
  _ ← JSON_MEMBER_OR_THROW j "reward_tx";
  reward_tx ← get_json_value j "reward_tx" ≫= reward_fromJSON;
  _ ← JSON_MEMBER_OR_THROW j "transactions";
  transactions ← get_json_array j "transactions" ≫= insert_hashes;
  '(producer_key, producer_sig) ←
    (if has_member j "producer_signature" then get_json_value j "producer_signature" ≫= signer_fromJSON
     else Some (producer_public_key default_block, producer_signature default_block));
  let b := mk_block version timestamp block_index previous_blockhash reward_tx transactions
             producer_key producer_sig [] in
  if has_member j "validator_signatures"
  then get_json_array j "validator_signatures" ≫= (fun elems => append_validators elems b)
  else Some b.

#[export] Instance block_IJson : IJson block_t := {|
  toJSON := block_toJSON; fromJSON := block_fromJSON |}.
End JsonTypes.

(** ** Lemmas: the parts of the objects *)

Section JsonParts.
Context {CL : CryptoLib} {Codec : CodecLaws CL} {JL : JsonLib} {Laws : JsonLaws JL}.

#[local] Open Scope string_scope.

Lemma array_part `{JsonRoundTrip T wf} name (xs : list T) :
  Forall wf xs -> part (array_toJSON name xs) [name] (fun j => array_fromJSON j name = Some xs).
Proof using Laws.
  intros Hxs. eapply part_weaken; [by apply part_array|done|].
  json_reader.
Qed.

Lemma header_part h :
  TransactionHeader_wf h -> part (header_toJSON h) ["type"; "version"] (fun j => header_fromJSON j = Some h).
Proof using Laws. intros [Ht Hv]. json_part. by destruct h. Qed.
#[export] Instance StakerOutput_json : JsonRoundTrip StakerOutput StakerOutput_wf.
Proof using Laws Codec.
  intros o Ho. red in Ho.
  json_object. by destruct o.
Qed.

#[export] Instance TransactionOutput_json : JsonRoundTrip TransactionOutput TransactionOutput_wf.
Proof using Laws Codec.
  intros o Ho. red in Ho.
  json_object. by destruct o.
Qed.

Lemma prefix_part p :
  TransactionPrefix_wf p ->
  part (prefix_toJSON p) ["type"; "version"; "unlock_block"; "public_key"]
    (fun j => prefix_fromJSON j = Some p).
Proof using Laws Codec. intros [Hh Hu]. pose proof (header_part p Hh). json_part. by destruct p. Qed.

Lemma body_part b :
  TransactionUserBody_wf b ->
  part (body_toJSON b) ["nonce"; "fee"; "key_images"; "outputs"] (fun j => body_fromJSON j = Some b).
Proof using Laws Codec.
  intros (Hn & Hf & _ & _ & Ho). pose proof (array_part (wf := TransactionOutput_wf) "outputs" _ Ho).
  json_part. by destruct b.
Qed.

Lemma normal_data_part d :
  part (normal_data_toJSON d) ["extra"] (fun j => normal_data_fromJSON j = Some d).
Proof using Laws.
  eapply part_weaken; [by apply part_string; right|done|]. json_reader. rewrite hex_ok. by destruct d.
Qed.

Lemma stake_data_part d :
  StakeTransactionData_wf d ->
  part (stake_data_toJSON d)
    ["stake_amount"; "candidate_public_key"; "staker_public_view_key"; "staker_public_spend_key"]
    (fun j => stake_data_fromJSON j = Some d).
Proof using Laws Codec. intros Hd. red in Hd. json_part. by destruct d. Qed.

Lemma recall_data_part d :
  RecallStakeTransactionData_wf d ->
  part (recall_data_toJSON d)
    ["stake_amount"; "candidate_public_key"; "staker_id"; "view_signature"; "spend_signature"]
    (fun j => recall_data_fromJSON j = Some d).
Proof using Laws Codec. intros Hd. red in Hd. json_part. by destruct d. Qed.

Lemma committed_suffix_part s :
  part (committed_suffix_toJSON s) ["signature_hash"; "range_proof_hash"]
    (fun j => committed_suffix_fromJSON j = Some s).
Proof using Laws Codec. json_part. by destruct s. Qed.

Lemma uncommitted_suffix_part s :
  part (uncommitted_suffix_toJSON s)
    ["pseudo_commitments"; "ring_participants"; "signatures"; "range_proof"]
    (fun j => uncommitted_suffix_fromJSON j = Some s).
Proof using Laws Codec. json_part. by destruct s. Qed.
End JsonParts.

#[local] Hint Resolve header_part prefix_part body_part array_part normal_data_part stake_data_part
  recall_data_part committed_suffix_part uncommitted_suffix_part : json.

Section JsonRoundTrips.
Context {CL : CryptoLib} {Codec : CodecLaws CL} {JL : JsonLib} {Laws : JsonLaws JL}.

#[local] Open Scope string_scope.

(** The round trip of a transaction, from those of its parts. *)
Ltac json_transaction :=
  let tx := fresh "tx" in let Hwf := fresh "Hwf" in
  intros tx Hwf; red in Hwf; destruct_and?; json_object; by destruct tx.

Lemma committed_normal_json : JsonRoundTrip committed_normal_transaction_t committed_normal_wf.
Proof using Laws Codec. json_transaction. Qed.

Lemma uncommitted_normal_json : JsonRoundTrip uncommited_normal_transaction_t uncommitted_normal_wf.
Proof using Laws Codec. json_transaction. Qed.

Lemma committed_stake_json : JsonRoundTrip committed_stake_transaction_t committed_stake_wf.
Proof using Laws Codec. json_transaction. Qed.

Lemma uncommitted_stake_json : JsonRoundTrip uncommitted_stake_transaction_t uncommitted_stake_wf.
Proof using Laws Codec. json_transaction. Qed.

Lemma committed_recall_json : JsonRoundTrip committed_recall_stake_transaction_t committed_recall_wf.
Proof using Laws Codec. json_transaction. Qed.

Lemma uncommitted_recall_json : JsonRoundTrip uncommitted_recall_stake_transaction_t uncommitted_recall_wf.
Proof using Laws Codec. json_transaction. Qed.

Lemma genesis_json : JsonRoundTrip genesis_transaction_t genesis_wf.
Proof using Laws Codec. json_transaction. Qed.

Lemma staker_json : JsonRoundTrip staker_transaction_t staker_wf.
Proof using Laws Codec. json_transaction. Qed.

Lemma refund_json : JsonRoundTrip stake_refund_transaction_t refund_wf.
Proof using Laws Codec. json_transaction. Qed.

Lemma candidate_json : JsonRoundTrip candidate_node_t candidate_wf.
Proof using Laws Codec. json_transaction. Qed.

Lemma stake_json : JsonRoundTrip stake_t stake_wf.
Proof using Laws Codec. json_transaction. Qed.

(** ** Lemmas: blocks *)

Lemma detect_of_header j h : header_fromJSON j = Some h -> detect_json_type j = Some (l_type h).
Proof using.
  unfold header_fromJSON, detect_json_type. destruct (JSON_OBJECT_OR_THROW j) as [u|]; cbn; [|done].
  destruct (JSON_MEMBER_OR_THROW j "type") as [u'|]; cbn; [|done].
  destruct (get_json_uint64_t j "type") as [t|]; cbn; [|done].
  destruct (LOAD_U64_FROM_JSON j "version") as [v|]; cbn; [|done]. by intros [= <-].
Qed.

Lemma reward_written r :
  reward_wf r -> exists v, writes (reward_toJSON r) v /\ reward_fromJSON v = Some r.
Proof using Laws Codec.
  destruct r as [tx|tx]; intros [Hwf Ht]; cbn [reward_toJSON].
  - destruct (genesis_json tx Hwf) as (v & Hv & Hf). exists v. split; [done|].
    change (genesis_fromJSON v = Some tx) in Hf.
    assert (Hd : detect_json_type v = Some (l_type tx)).
    { clear Ht. unfold genesis_fromJSON, prefix_fromJSON in Hf.
      destruct (JSON_OBJECT_OR_THROW v) as [u|]; cbn in Hf; [|done].
      destruct (header_fromJSON v) as [h|] eqn:Hh; cbn in Hf; [|done].
      repeat (match type of Hf with (?o ≫= _) ≫= _ = _ => destruct o; cbn in Hf; [|done]
                                  | ?o ≫= _ = _ => destruct o; cbn in Hf; [|done] end).
      injection Hf as <-. by apply detect_of_header in Hh. }
    unfold reward_fromJSON. rewrite Hd. cbn. rewrite Ht. cbn. by rewrite Hf.
  - destruct (staker_json tx Hwf) as (v & Hv & Hf). exists v. split; [done|].
    change (staker_fromJSON v = Some tx) in Hf.
    assert (Hd : detect_json_type v = Some (l_type tx)).
    { clear Ht. unfold staker_fromJSON in Hf.
      destruct (JSON_OBJECT_OR_THROW v) as [u|]; cbn in Hf; [|done].
      destruct (header_fromJSON v) as [h|] eqn:Hh; cbn in Hf; [|done].
      repeat (match type of Hf with ?o ≫= _ = _ => destruct o; cbn in Hf; [|done] end).
      injection Hf as <-. by apply detect_of_header in Hh. }
    unfold reward_fromJSON. rewrite Hd. cbn. rewrite Ht. cbn. by rewrite Hf.
Qed.

Lemma one_member name es v : writes es v -> writes_members (JKey name :: es) [(name, v)].
Proof using. intros Hv. rewrite <- (app_nil_r es). by constructor; [|constructor]. Qed.

Lemma signer_written pk sig :
  exists v, writes (signer_toJSON pk sig) v /\ signer_fromJSON v = Some (pk, sig).
Proof using Laws Codec.
  destruct (key_ok _ pk) as (s1 & Hw1 & _ & Hs1). destruct (key_ok _ sig) as (s2 & Hw2 & _ & Hs2).
  exists (JObject [("public_key", JString s1); ("signature", JString s2)]). split.
  - unfold signer_toJSON. rewrite app_assoc. constructor.
    apply (writes_members_app _ [_] _ [_]); by apply one_member.
  - unfold signer_fromJSON. rewrite !has_member_ok. cbn.
    erewrite !string_ok by done. cbn. by rewrite Hs1, Hs2.
Qed.

Lemma hashes_written (hashes : list crypto_hash_t) :
  exists vs, writes_elements (flat_map toJSON hashes) vs /\
    mapM (fun elem => get_json_string_value elem ≫= key_of_string) vs = Some hashes.
Proof using Laws Codec.
  induction hashes as [|h hashes (vs & Hw & Hm)]; [exists []; split; [constructor|done]|].
  destruct (key_ok _ h) as (s & Hs & _ & Hk). exists (JString s :: vs).
  split; [by constructor|]. cbn. rewrite string_value_ok. cbn. by rewrite Hk, Hm.
Qed.

Lemma signers_written {A} pk sig (l : list A) :
  exists vs, writes_elements (flat_map (fun _ => signer_toJSON pk sig) l) vs /\
    mapM signer_fromJSON vs = Some ((fun _ => (pk, sig)) <$> l).
Proof using Laws Codec.
  destruct (signer_written pk sig) as (v & Hv & Hf).
  induction l as [|x l (vs & Hw & Hm)]; [exists []; split; [constructor|done]|].
  exists (v :: vs). split; [by constructor|]. cbn. by rewrite Hf, Hm.
Qed.

(** The members of a block; the last two are there or not. *)
Definition block_members (b : block_t) : list json_event :=
  U64_TO_JSON "version" (block_version b) ++
  KEY_TO_JSON "previous_blockhash" (previous_blockhash b) ++
  U64_TO_JSON "timestamp" (block_timestamp b) ++
  U64_TO_JSON "block_index" (block_index b) ++
  (JKey "reward_tx" :: reward_toJSON (reward_tx b)) ++
  array_toJSON "transactions" (block_transactions b).

Definition block_names : list string :=
  ["version"; "previous_blockhash"; "timestamp"; "block_index"; "reward_tx"; "transactions"].

Record block_read (b : block_t) (j : json) : Prop := {
  read_object : JSON_OBJECT_OR_THROW j = Some ();
  read_version : LOAD_U64_FROM_JSON j "version" = Some (block_version b);
  read_previous : LOAD_KEY_FROM_JSON j "previous_blockhash" = Some (previous_blockhash b);
  read_timestamp : LOAD_U64_FROM_JSON j "timestamp" = Some (block_timestamp b);
  read_index : LOAD_U64_FROM_JSON j "block_index" = Some (block_index b);
  read_reward_tx : JSON_MEMBER_OR_THROW j "reward_tx" = Some () /\
    get_json_value j "reward_tx" ≫= reward_fromJSON = Some (reward_tx b);
  read_transactions : JSON_MEMBER_OR_THROW j "transactions" = Some () /\
    get_json_array j "transactions" ≫= insert_hashes = Some (block_transactions b)
}.

Lemma block_members_part b : block_wf b -> part (block_members b) block_names (block_read b).
Proof using Laws Codec.
  intros Hb. pose proof (wf_block_version _ Hb). pose proof (wf_block_timestamp _ Hb).
  pose proof (wf_block_index _ Hb).
  assert (Hr : part (JKey "reward_tx" :: reward_toJSON (reward_tx b)) ["reward_tx"]
    (fun j => JSON_MEMBER_OR_THROW j "reward_tx" = Some () /\
       get_json_value j "reward_tx" ≫= reward_fromJSON = Some (reward_tx b))).
  { destruct (reward_written _ (wf_reward _ Hb)) as (v & Hv & Hf).
    apply (part_member _ _ v); [done|]. intros ms Hm. split; [by eapply member_ok|].
    by rewrite (value_ok _ _ _ Hm). }
  assert (Ht : part (array_toJSON "transactions" (block_transactions b)) ["transactions"]
    (fun j => JSON_MEMBER_OR_THROW j "transactions" = Some () /\
       get_json_array j "transactions" ≫= insert_hashes = Some (block_transactions b))).
  { destruct (hashes_written (block_transactions b)) as (vs & Hv & Hf).
    apply (part_member _ _ (JArray vs)); [by constructor|]. intros ms Hm. split; [by eapply member_ok|].
    rewrite (array_ok _ _ _ Hm). cbn. unfold insert_hashes. rewrite Hf. cbn. f_equal.
    apply (fold_sorted_insert _ _ key_order _ []), (wf_transactions _ Hb). }
  unfold block_members. eapply part_weaken; [json_parts|reflexivity|].
  intros ms Hs. cbn beta in Hs. destruct_and?. split; try done. apply object_ok.
Qed.

(** The optional members. *)
Lemma producer_part pk sig :
  part (JKey "producer_signature" :: signer_toJSON pk sig) ["producer_signature"]
    (fun j => has_member j "producer_signature" = true /\
       get_json_value j "producer_signature" ≫= signer_fromJSON = Some (pk, sig)).
Proof using Laws Codec.
  destruct (signer_written pk sig) as (v & Hv & Hf). apply (part_member _ _ v); [done|].
  intros ms Hm. rewrite has_member_ok, Hm. split; [done|]. by rewrite (value_ok _ _ _ Hm).
Qed.

Lemma validators_part {A} pk sig (l : list A) :
  part (JKey "validator_signatures" :: StartArray :: flat_map (fun _ => signer_toJSON pk sig) l ++
          [EndArray]) ["validator_signatures"]
    (fun j => has_member j "validator_signatures" = true /\
       exists vs, get_json_array j "validator_signatures" = Some vs /\
         mapM signer_fromJSON vs = Some ((fun _ => (pk, sig)) <$> l)).
Proof using Laws Codec.
  destruct (signers_written pk sig l) as (vs & Hv & Hf).
  apply (part_member _ _ (JArray vs)); [by constructor|].
  intros ms Hm. rewrite has_member_ok, Hm. split; [done|]. exists vs. split; [by apply array_ok|done].
Qed.

(** Appending one signature again and again leaves it once. *)
Lemma append_same pk sig {A} (l : list A) b :
  validators_find pk (validator_signatures b) <> None ->
  fold_left (fun b '(public_key, signature) => append_validator_signature public_key signature b)
    ((fun _ => (pk, sig)) <$> l) b = b.
Proof using.
  intros Hf. induction l as [|x l IH]; [done|]. cbn. unfold append_validator_signature at 2.
  destruct (validators_find pk (validator_signatures b)) eqn:E; [apply IH|done].
Qed.

(** The validators that are read back: one entry with the producer's key. *)
Definition json_validators (b : block_t) : list (crypto_public_key_t * crypto_signature_t) :=
  match validator_signatures b with
  | [] => []
  | _ => [(producer_public_key b, producer_signature b)]
  end.

Definition producer_member (b : block_t) : list json_event :=
  if has_producer b
  then JKey "producer_signature" :: signer_toJSON (producer_public_key b) (producer_signature b) else [].

Definition validators_member (b : block_t) : list json_event :=
  match validator_signatures b with
  | [] => []
  | vs => JKey "validator_signatures" :: StartArray ::
      flat_map (fun _ => signer_toJSON (producer_public_key b) (producer_signature b)) vs ++ [EndArray]
  end.

Lemma block_toJSON_members b :
  block_toJSON b =
    StartObject :: (block_members b ++ producer_member b ++ validators_member b) ++ [EndObject].
Proof using.
  assert (E : forall vs : list (crypto_public_key_t * crypto_signature_t), flat_map (fun '(public_key, signature) =>
      signer_toJSON (producer_public_key b) (producer_signature b)) vs =
    flat_map (fun _ => signer_toJSON (producer_public_key b) (producer_signature b)) vs).
  { intros vs. apply flat_map_ext. by intros []. }
  unfold block_toJSON, block_members, producer_member, validators_member.
  destruct (validator_signatures b) as [|v vs]; rewrite ?E, <- !app_assoc; reflexivity.
Qed.

(** The names of the optional members, and what reading them gives. *)
Lemma optional_members b : exists names,
  part (producer_member b ++ validators_member b) names (fun j =>
    (has_producer b = true -> has_member j "producer_signature" = true /\
       get_json_value j "producer_signature" ≫= signer_fromJSON =
         Some (producer_public_key b, producer_signature b)) /\
    (validator_signatures b <> [] -> has_member j "validator_signatures" = true /\
       exists vs, get_json_array j "validator_signatures" = Some vs /\
         mapM signer_fromJSON vs =
           Some ((fun _ => (producer_public_key b, producer_signature b)) <$> validator_signatures b))) /\
  apart names block_names = true /\
  (has_producer b = false -> "producer_signature" ∉ names) /\
  (validator_signatures b = [] -> "validator_signatures" ∉ names).
Proof using Laws Codec.
  unfold producer_member, validators_member.
  pose proof (producer_part (producer_public_key b) (producer_signature b)) as Hp.
  pose proof (validators_part (producer_public_key b) (producer_signature b) (validator_signatures b)) as Hv.
  destruct (has_producer b); destruct (validator_signatures b) as [|v vs]; eexists.
  - split; [eapply part_weaken; [exact (part_app _ _ _ _ _ _ Hp part_nil eq_refl)|reflexivity|]|].
    { cbn beta. naive_solver. }
    split; [done|]. split; [done|]. intros _. by apply (bool_decide_unpack _).
  - split; [eapply part_weaken; [exact (part_app _ _ _ _ _ _ Hp Hv eq_refl)|reflexivity|]|].
    { cbn beta. naive_solver. }
    done.
  - split; [eapply part_weaken; [exact part_nil|reflexivity|]|].
    { cbn beta. naive_solver. }
    split; [done|]. split; intros _; apply not_elem_of_nil.
  - split; [eapply part_weaken; [exact Hv|reflexivity|]|].
    { cbn beta. naive_solver. }
    split; [done|]. split; [|done]. intros _. by apply (bool_decide_unpack _).
Qed.

Lemma block_written b :
  block_wf b -> exists v, writes (block_toJSON b) v /\
    block_fromJSON v = Some (set_validators (json_validators b) b).
Proof using Laws Codec.
  intros Hb. rewrite block_toJSON_members.
  destruct (optional_members b) as (names & Hopt & Ha & Hnp & Hnv).
  eapply object_written_names; [exact (part_app _ _ _ _ _ _ (block_members_part b Hb) Hopt Ha)|].
  intros ms Hnames [Hr [Hp Hv]].
  assert (Habsent : forall name, name ∉ block_names -> name ∉ names -> has_member (JObject ms) name = false).
  { intros name H1 H2. rewrite has_member_ok, find_member_absent; [done|].
    rewrite Hnames. by apply not_elem_of_app. }
  unfold block_fromJSON.
  rewrite (read_object _ _ Hr), (read_version _ _ Hr), (read_previous _ _ Hr), (read_timestamp _ _ Hr),
    (read_index _ _ Hr). cbn.
  destruct (read_reward_tx _ _ Hr) as [-> Hrt], (read_transactions _ _ Hr) as [-> Htx]. cbn.
  rewrite Hrt. cbn. rewrite Htx. cbn.
  assert (Hprod : (if has_member (JObject ms) "producer_signature"
     then get_json_value (JObject ms) "producer_signature" ≫= signer_fromJSON
     else Some (producer_public_key default_block, producer_signature default_block)) =
     Some (producer_public_key b, producer_signature b)).
  { destruct (has_producer b) eqn:E.
    - destruct (Hp eq_refl) as [-> ->]. done.
    - rewrite Habsent; [|by apply (bool_decide_unpack _)|by apply Hnp].
      by destruct (wf_producer _ Hb E) as [-> ->]. }
  cbn in Hprod. rewrite Hprod. cbn. clear Hprod. unfold json_validators.
  destruct (validator_signatures b) as [|v vs] eqn:Evs.
  - rewrite Habsent; [done|by apply (bool_decide_unpack _)|by apply Hnv].
  - destruct (Hv ltac:(done)) as (-> & es & Hes & Hm). rewrite Hes. cbn. unfold append_validators.
    rewrite Hm. cbn. f_equal. rewrite append_same; [done|].
    cbn. unfold validators_find, sorted_find, same_key. cbn.
    by rewrite (order_irrefl _ key_order).
Qed.
End JsonRoundTrips.

(** ** Properties *)

Section JsonProps.
Context {CL : CryptoLib} {Codec : CodecLaws CL} {JL : JsonLib} {Laws : JsonLaws JL}.

(** What was written is one document, and reading it gives the structure back. *)
Definition json_reads_back {T} `{IJson T} (wf : T -> Prop) : Prop := forall x, wf x ->
  document (toJSON x) ≫= fromJSON = Some x.

Lemma reads_back `{JsonRoundTrip T wf} : json_reads_back (T := T) wf.
Proof using. intros x Hx. destruct (json_written x Hx) as (v & Hv & Hf). by rewrite (document_written _ _ Hv). Qed.

(** C40: Outputs, the six user transactions, the three system transactions and
    the two staking records are read back from the JSON they are written as. *)
Theorem structures_json_roundtrip :
  json_reads_back StakerOutput_wf /\ json_reads_back TransactionOutput_wf /\
  json_reads_back uncommitted_normal_wf /\ json_reads_back committed_normal_wf /\
  json_reads_back uncommitted_stake_wf /\ json_reads_back committed_stake_wf /\
  json_reads_back uncommitted_recall_wf /\ json_reads_back committed_recall_wf /\
  json_reads_back genesis_wf /\ json_reads_back staker_wf /\ json_reads_back refund_wf /\
  json_reads_back candidate_wf /\ json_reads_back stake_wf.
Proof using Codec Laws.
  pose proof committed_normal_json. pose proof uncommitted_normal_json. pose proof committed_stake_json.
  pose proof uncommitted_stake_json. pose proof committed_recall_json. pose proof uncommitted_recall_json.
  pose proof genesis_json. pose proof staker_json. pose proof refund_json. pose proof candidate_json.
  pose proof stake_json. repeat split; apply reads_back.
Qed.

(** A block is written as one JSON document, and what is read back from it
    differs in the validators only: of any validators just one entry is left,
    with the key and the signature of the producer.  So a block is read back as
    it was exactly when it had no validators or only that one. *)
Theorem block_json_loses_validators b :
  block_wf b ->
  document (toJSON b) ≫= fromJSON = Some (set_validators (json_validators b) b) /\
  (document (toJSON b) ≫= fromJSON = Some b <->
   validator_signatures b = [] \/
   validator_signatures b = [(producer_public_key b, producer_signature b)]).
Proof using Codec Laws.
  intros Hb. destruct (block_written b Hb) as (v & Hv & Hf).
  assert (H : document (toJSON b) ≫= fromJSON = Some (set_validators (json_validators b) b)).
  { change (toJSON b) with (block_toJSON b). by rewrite (document_written _ _ Hv). }
  split; [done|]. rewrite H. unfold json_validators. destruct b as [ver ts idx prev rw txs pk sig vs].
  cbn. unfold set_validators. cbn. split.
  - intros [= E]. destruct vs; [by left|right; congruence].
  - by intros [->| ->].
Qed.
End JsonProps.

(** ** Witnesses *)

#[local] Existing Instance toy_crypto.

Lemma structures_json_roundtrip_witness :
  document (toJSON SystemSamples.refund) ≫= fromJSON = Some SystemSamples.refund.
Proof.
  destruct (structures_json_roundtrip (CL := toy_crypto))
    as (_ & _ & _ & _ & _ & _ & _ & _ & _ & _ & H & _).
  apply H. apply SystemSamples.refund_sample_wf.
Defined.

(** Two validators are lost. *)
Lemma block_json_loses_validators_witness :
  document (toJSON BlockSamples.signed) ≫= fromJSON =
    Some (set_validators [(x0a, xf5)] BlockSamples.signed).
Proof.
  apply (block_json_loses_validators (CL := toy_crypto) BlockSamples.signed BlockSamples.signed_wf).
Defined.
