(* ===== verification/JsonNet.v ===== *)
(** * The JSON forms of the network structures and of errors

    [toJSON] and [fromJSON] of [src/include/network], in the manner of
    [JsonTypes.v], the JSON form of an [Error], and the parsing of the bodies of
    HTTP requests and results ([src/networking/http_server.cpp],
    [http_client.cpp]).  The 32-bit numbers that are read are stored in 16 bits. *)

From S2P Require Import Prelude Errors Config CryptoLib Concrete Codec Packets Json JsonTypes.
From Stdlib Require Import Strings.Byte.

(** The value of a [uint16_t] that a number is assigned to. *)
Definition wrap16 (n : Z) : Z := n mod 2 ^ 16.

Section JsonNet.
Context {CL : CryptoLib} {JL : JsonLib} {IP : IPParser}.

#[local] Open Scope string_scope.

(** ** Addresses and peers *)

Definition ip_toJSON (a : ip_address_t) : list json_event :=
  StartObject :: [JKey "address"; JText (ip_to_string a)] ++ [EndObject].

Definition ip_fromJSON (j : json) : option ip_address_t :=
  _ ← JSON_OBJECT_OR_THROW j;
  _ ← JSON_MEMBER_OR_THROW j "address";
  str ← get_json_string j "address";
  address ← str_to_ip str;
  Some (normalize_v4_embedded address).

#[export] Instance ip_IJson : IJson ip_address_t := {| toJSON := ip_toJSON; fromJSON := ip_fromJSON |}.

Definition peer_toJSON (p : network_peer_t) : list json_event :=
  StartObject ::
  ([JKey "address"; JText (ip_to_string (peer_address p))] ++
   U32_TO_JSON "port" (peer_port p) ++
   KEY_TO_JSON "peer_id" (peer_id p) ++
   KEY_TO_JSON "network_id" (peer_network_id p) ++
   U64_TO_JSON "last_seen" (last_seen p)) ++ [EndObject].

Definition peer_fromJSON (j : json) : option network_peer_t :=
  _ ← JSON_OBJECT_OR_THROW j;
  _ ← JSON_MEMBER_OR_THROW j "address";
  address ← get_json_string j "address" ≫= ip_address_of_string;
  port ← LOAD_U32_FROM_JSON j "port";
  peer_id ← LOAD_KEY_FROM_JSON j "peer_id";
  network_id ← LOAD_KEY_FROM_JSON j "network_id";
  last_seen ← LOAD_U64_FROM_JSON j "last_seen";
  Some (mk_peer address peer_id (wrap16 port) network_id last_seen).

#[export] Instance peer_IJson : IJson network_peer_t := {|
  toJSON := peer_toJSON; fromJSON := peer_fromJSON |}.

(** ** Packets *)

(** The type and the version that every packet writes first. *)
Definition packet_base_toJSON (b : NetworkPacketBase) : list json_event :=
  [JKey "type"; JUint (packet_l_type b)] ++ U32_TO_JSON "version" (packet_version b).

Definition packet_base_fromJSON (j : json) : option NetworkPacketBase :=
  _ ← JSON_MEMBER_OR_THROW j "type";
  l_type ← get_json_uint32_t j "type";
  version ← LOAD_U32_FROM_JSON j "version";
  Some (mk_packet_base (wrap16 l_type) (wrap16 version)).

Definition handshake_toJSON (p : packet_handshake_t) : list json_event :=
  StartObject ::
  (packet_base_toJSON p ++ KEY_TO_JSON "peer_id" (hs_peer_id p) ++
   [JKey "peer_port"; JUint (hs_peer_port p)] ++
   KEY_TO_JSON "network_id" (hs_network_id p) ++ array_toJSON "peers" (hs_peers p)) ++ [EndObject].

Definition handshake_fromJSON (j : json) : option packet_handshake_t :=
  _ ← JSON_OBJECT_OR_THROW j;
  base ← packet_base_fromJSON j;
  peer_id ← LOAD_KEY_FROM_JSON j "peer_id";
  network_id ← LOAD_KEY_FROM_JSON j "network_id";
  _ ← JSON_MEMBER_OR_THROW j "peer_port";
  peer_port ← get_json_uint32_t j "peer_port";
  peers ← array_fromJSON j "peers";
  Some (mk_handshake base peer_id (wrap16 peer_port) network_id peers).

#[export] Instance handshake_IJson : IJson packet_handshake_t := {|
  toJSON := handshake_toJSON; fromJSON := handshake_fromJSON |}.

Definition exchange_toJSON (p : packet_peer_exchange_t) : list json_event :=
  StartObject ::
  (packet_base_toJSON p ++ KEY_TO_JSON "peer_id" (ex_peer_id p) ++
   [JKey "peer_port"; JUint (ex_peer_port p)] ++
   KEY_TO_JSON "network_id" (ex_network_id p) ++ array_toJSON "peers" (ex_peers p)) ++ [EndObject].

Definition exchange_fromJSON (j : json) : option packet_peer_exchange_t :=
  _ ← JSON_OBJECT_OR_THROW j;
  base ← packet_base_fromJSON j;
  peer_id ← LOAD_KEY_FROM_JSON j "peer_id";
  network_id ← LOAD_KEY_FROM_JSON j "network_id";
  _ ← JSON_MEMBER_OR_THROW j "peer_port";
  peer_port ← get_json_uint32_t j "peer_port";
  peers ← array_fromJSON j "peers";
  Some (mk_exchange base peer_id (wrap16 peer_port) network_id peers).

#[export] Instance exchange_IJson : IJson packet_peer_exchange_t := {|
  toJSON := exchange_toJSON; fromJSON := exchange_fromJSON |}.

Definition keepalive_toJSON (p : packet_keepalive_t) : list json_event :=
  StartObject :: (packet_base_toJSON p ++ KEY_TO_JSON "peer_id" (ka_peer_id p)) ++ [EndObject].

Definition keepalive_fromJSON (j : json) : option packet_keepalive_t :=
  _ ← JSON_OBJECT_OR_THROW j;
  base ← packet_base_fromJSON j;
  peer_id ← LOAD_KEY_FROM_JSON j "peer_id";
  Some (mk_keepalive base peer_id).

#[export] Instance keepalive_IJson : IJson packet_keepalive_t := {|
  toJSON := keepalive_toJSON; fromJSON := keepalive_fromJSON |}.

Definition data_toJSON (p : packet_data_t) : list json_event :=
  StartObject ::
  (packet_base_toJSON p ++ KEY_TO_JSON "network_id" (da_network_id p) ++
   [JKey "payload"; JText (to_hex (da_payload p))]) ++ [EndObject].

Definition data_fromJSON (j : json) : option packet_data_t :=
  _ ← JSON_OBJECT_OR_THROW j;
  base ← packet_base_fromJSON j;
  network_id ← LOAD_KEY_FROM_JSON j "network_id";
  _ ← JSON_MEMBER_OR_THROW j "payload";
  payload ← get_json_string j "payload" ≫= from_hex;
  Some (mk_data base network_id payload).

#[export] Instance data_IJson : IJson packet_data_t := {|
  toJSON := data_toJSON; fromJSON := data_fromJSON |}.

(** ** Errors *)

Definition Error_toJSON (e : Error) : list json_event :=
  StartObject :: JKey "error" ::
  (StartObject ::
     [JKey "code"; JInt64 (int_of_code (m_error_code e)); JKey "message"; JText (Error_to_string e)] ++
   [EndObject]) ++ [EndObject].
End JsonNet.

(** ** Lemmas *)

Section JsonNetFacts.
Context {CL : CryptoLib} {Codec : CodecLaws CL} {JL : JsonLib} {Laws : JsonLaws JL} {IP : IPParser}.

#[local] Open Scope string_scope.

Lemma wrap16_id n : u16 n -> wrap16 n = n.
Proof using. unfold wrap16, u16, uintw. intros. apply Z.mod_small. lia. Qed.

(** An address that is read back from its text. *)
Definition ip_json_wf (a : ip_address_t) : Prop := ip_address_of_string (ip_to_string a) = Some a.

Definition peer_json_wf (p : network_peer_t) : Prop :=
  ip_json_wf (peer_address p) /\ u16 (peer_port p) /\ u64 (last_seen p).

Lemma u16_u32 n : u16 n -> uintw 32 n.
Proof using. unfold u16, uintw. lia. Qed.

#[local] Hint Resolve u16_u32 : json.

Lemma ip_json : JsonRoundTrip ip_address_t ip_json_wf.
Proof using Laws.
  intros a Ha. red in Ha. unfold ip_address_of_string in Ha. destruct (str_to_ip _) as [addr|] eqn:E; [|done].
  injection Ha as Ha. assert (part [JKey "address"; JText (ip_to_string a)] ["address"]
    (fun j => JSON_MEMBER_OR_THROW j "address" = Some () /\
       get_json_string j "address" = Some (ip_to_string a))) as Hp by by apply part_string; left.
  cbn [toJSON fromJSON ip_IJson]. unfold ip_toJSON. eapply object_written; [exact Hp|].
  json_reader. by rewrite Ha.
Qed.

Lemma packet_base_part b :
  packet_base_wf b ->
  part (packet_base_toJSON b) ["type"; "version"] (fun j => packet_base_fromJSON j = Some b).
Proof using Laws.
  intros [Ht Hv]. json_part. rewrite !wrap16_id by done. by destruct b.
Qed.

#[local] Hint Resolve packet_base_part array_part : json.

#[local] Instance peer_json : JsonRoundTrip network_peer_t peer_json_wf.
Proof using Laws Codec.
  intros p (Ha & Hp & Hs). red in Ha.
  assert (Hpart : part [JKey "address"; JText (ip_to_string (peer_address p))] ["address"]
    (fun j => JSON_MEMBER_OR_THROW j "address" = Some () /\
       get_json_string j "address" = Some (ip_to_string (peer_address p)))) by by apply part_string; left.
  json_object. rewrite wrap16_id by done. by destruct p.
Qed.

Definition packet_json_wf (port : Z) (peers : list network_peer_t) (b : NetworkPacketBase) : Prop :=
  packet_base_wf b /\ u16 port /\ Forall peer_json_wf peers.

Lemma handshake_json :
  JsonRoundTrip packet_handshake_t (fun p => packet_json_wf (hs_peer_port p) (hs_peers p) p).
Proof using Laws Codec.
  intros p (Hb & Hp & Hl). json_object. rewrite wrap16_id by done. by destruct p.
Qed.

Lemma exchange_json :
  JsonRoundTrip packet_peer_exchange_t (fun p => packet_json_wf (ex_peer_port p) (ex_peers p) p).
Proof using Laws Codec.
  intros p (Hb & Hp & Hl). json_object. rewrite wrap16_id by done. by destruct p.
Qed.

Lemma keepalive_json : JsonRoundTrip packet_keepalive_t keepalive_wf.
Proof using Laws Codec. intros p Hp. red in Hp. json_object. by destruct p. Qed.

Lemma data_json : JsonRoundTrip packet_data_t (fun p => packet_base_wf p).
Proof using Laws Codec.
  intros p Hp. assert (Hpart : part [JKey "payload"; JText (to_hex (da_payload p))] ["payload"]
    (fun j => JSON_MEMBER_OR_THROW j "payload" = Some () /\
       get_json_string j "payload" = Some (to_hex (da_payload p)))) by by apply part_string; left.
  json_object. rewrite hex_ok. by destruct p.
Qed.
End JsonNetFacts.

(** The packets are read back from the JSON they are written as. *)
Theorem packets_json_roundtrip `{JsonLaws} {Codec : CodecLaws CL} {IP : IPParser} :
  json_reads_back (T := packet_handshake_t) (fun p => packet_json_wf (hs_peer_port p) (hs_peers p) p) /\
  json_reads_back (T := packet_peer_exchange_t) (fun p => packet_json_wf (ex_peer_port p) (ex_peers p) p) /\
  json_reads_back keepalive_wf /\
  json_reads_back (T := packet_data_t) (fun p => packet_base_wf p) /\
  json_reads_back ip_json_wf.
Proof.
  pose proof handshake_json. pose proof exchange_json. pose proof keepalive_json.
  pose proof data_json. pose proof ip_json. repeat split; apply reads_back.
Qed.
