(* ===== verification/Http.v ===== *)
(** * HTTP

    [src/networking/http_server.cpp] and [http_client.cpp] over cpp-httplib, the
    class [HttpLib]: the bodies of requests and results, the headers and the
    answer that a server installs, the clients, and the life of a server with its
    forwarded port.  The thread of the server runs inside the library. *)

From S2P Require Import Prelude Errors Config Program Text Upnp Json.
From Stdlib Require Import Ascii.
Import Configuration.

Inductive HTTPBodyMode : Set := HTTP_BODY_NOT_REQUIRED | HTTP_BODY_REQUIRED.

(** The socket of [httplib::Server], its responses and clients, and the parser of
    RapidJSON. *)
Class HttpLib : Type := {
  http_response_t : Type;
  set_header : string -> string -> http_response_t -> http_response_t;
  set_status : Z -> http_response_t -> http_response_t;
  set_content : string -> string -> http_response_t -> http_response_t;
  http_client_t : Type;
  (* by host and port, with TLS or not *)
  new_client : string -> Z -> http_client_t;
  new_ssl_client : string -> Z -> http_client_t;
  set_connection_timeout : Z -> http_client_t -> http_client_t;
  set_keep_alive : bool -> http_client_t -> http_client_t;
  openssl_support : bool;
  http_socket_t : Type;
  bind_to_port : string -> Z -> Z -> http_socket_t -> bool * http_socket_t;
  is_running : http_socket_t -> bool;
  http_stop : http_socket_t -> http_socket_t;
  json_parse : string -> option json
}.

Section Http.
Context {H : HttpLib} {U : MiniUPnP}.

(** ** Bodies *)

(** A character between two double quotes, and an empty document. *)
Definition quoted (body : string) : string :=
  let quote := String (ascii_of_nat 34) EmptyString in (quote ++ body ++ quote)%string.

(** The body of a request or of a result; [None] is an empty document. *)
Definition parse_json_body (body : string) (body_mode : HTTPBodyMode) : ErrorCode * option json :=
  match body_mode with
  | HTTP_BODY_NOT_REQUIRED => (SUCCESS, None)
  | HTTP_BODY_REQUIRED =>
      if String.eqb body EmptyString then (HTTP_BODY_REQUIRED_BUT_NOT_FOUND, None)
      else
        match json_parse body with
        | Some json_body => (SUCCESS, Some json_body)
        | None =>
            match json_parse (quoted body) with
            | Some json_body => (SUCCESS, Some json_body)
            | None => (JSON_PARSE_ERROR, None)
            end
        end
  end.

Definition parse_text_body (body : string) (body_mode : HTTPBodyMode) : ErrorCode * string :=
  match body_mode with
  | HTTP_BODY_NOT_REQUIRED => (SUCCESS, EmptyString)
  | HTTP_BODY_REQUIRED =>
      if String.eqb body EmptyString then (HTTP_BODY_REQUIRED_BUT_NOT_FOUND, EmptyString)
      else (SUCCESS, body)
  end.

(** The bodies of a client's result, which is null when there was no answer. *)
Definition result_json_body {S} (result : option string) (body_mode : HTTPBodyMode)
  : prog S (ErrorCode * option json) :=
  match body_mode with
  | HTTP_BODY_NOT_REQUIRED => mret (parse_json_body EmptyString HTTP_BODY_NOT_REQUIRED)
  | HTTP_BODY_REQUIRED => body ← deref result; mret (parse_json_body body HTTP_BODY_REQUIRED)
  end.

Definition result_text_body {S} (result : option string) (body_mode : HTTPBodyMode)
  : prog S (ErrorCode * string) :=
  match body_mode with
  | HTTP_BODY_NOT_REQUIRED => mret (SUCCESS, EmptyString)
  | HTTP_BODY_REQUIRED => body ← deref result; mret (parse_text_body body HTTP_BODY_REQUIRED)
  end.

(** ** Clients *)

Definition create_client (host : string) (port : Z) (keepalive ssl : bool) (timeout : Z)
  : http_client_t :=
  let client := if openssl_support && ssl then new_ssl_client host port else new_client host port in
  set_keep_alive keepalive (set_connection_timeout timeout client).

(** ** The handlers that a server installs *)

Definition security_headers (cors_domain : string) : list (string * string) :=
  [("Access-Control-Allow-Origin", cors_domain);
   ("X-Requested-With", "*");
   ("Access-Control-Allow-Headers", "Origin, X-Requested-With, Content-Type, Accept, User-Agent");
   ("Access-Control-Allow-Methods", "GET, DELETE, HEAD, POST, PUT, PATCH, OPTIONS");
   ("Referrer-Policy", "no-referrer");
   ("Content-Security-Policy", "default-src 'none'");
   ("Feature-Policy",
    "geolocation none;midi none;notifications none;push none;sync-xhr none;microphone none;camera " ++
    "none;magnetometer none;gyroscope none;speaker self;vibrate none;fullscreen self;payment none;");
   ("Permissions-Policy",
    "geolocation=(), midi=(), notifications=(), push=(), sync-xhr=(), microphone=(), camera=(), " ++
    "magnetometer=(), gyroscope=(), speaker=(self), vibrate=(), fullscreen=(self), payment=()");
   ("X-Frame-Options", "SAMEORIGIN");
   ("X-Content-Type-Options", "nosniff")]%string.

Definition post_routing (cors_domain : string) (res : http_response_t) : http_response_t :=
  fold_left (fun res '(name, value) => set_header name value res) (security_headers cors_domain) res.

Definition exception_handler (response : http_response_t) : http_response_t :=
  set_content "500 Internal Server Error" "text/plain" (set_status 500 response).

(** ** The server *)

Record HTTPServer : Type := mk_HTTPServer {
  m_cors_domain : string;
  http_port : Z;
  m_host : string;
  m_upnp_helper : option UPNP;
  http_socket : http_socket_t;
  http_gateway : gateway_t
}.

Notation http_prog := (prog HTTPServer).

Definition new_HTTPServer (cors_domain : string) (socket : http_socket_t) (gateway : gateway_t)
  : HTTPServer := mk_HTTPServer cors_domain 0 EmptyString None socket gateway.

Definition cors_domain (s : HTTPServer) : string := m_cors_domain s.

(** The getter [port]. *)
Definition server_http_port (s : HTTPServer) : Z := http_port s.

Definition http_external_address (s : HTTPServer) : string :=
  match m_upnp_helper s with None => EmptyString | Some upnp => external_address upnp end.

Definition http_upnp_active (s : HTTPServer) : bool :=
  match m_upnp_helper s with None => false | Some upnp => active upnp end.

Definition on_gateway {A} : prog gateway_t A -> http_prog A :=
  zoom http_gateway (fun g s => mk_HTTPServer (m_cors_domain s) (http_port s) (m_host s)
    (m_upnp_helper s) (http_socket s) g).

(** [m_upnp_helper] gets another value; what it held is destroyed. *)
Definition set_upnp_helper (helper : option UPNP) : http_prog () :=
  s ← get_state;
  put_state (mk_HTTPServer (m_cors_domain s) (http_port s) (m_host s) helper (http_socket s)
    (http_gateway s));;
  match m_upnp_helper s with None => mret () | Some upnp => on_gateway (upnp_destroy upnp) end.

(** The thread that [listen] starts is the library's. *)
Definition listen (host : string) (port socket_flags : Z) : http_prog bool :=
  s ← get_state;
  let '(bound, socket) := bind_to_port host port socket_flags (http_socket s) in
  put_state (mk_HTTPServer (m_cors_domain s) (http_port s) (m_host s) (m_upnp_helper s) socket
    (http_gateway s));;
  if negb bound then set_upnp_helper None;; mret false
  else
    put_state (mk_HTTPServer (m_cors_domain s) (port mod 2 ^ 16) host (m_upnp_helper s) socket
      (http_gateway s));;
    helper ← on_gateway (new_UPNP (port mod 2 ^ 16) (Version.PROJECT_NAME ++ ": HTTP Server") 1000 false);
    set_upnp_helper (Some helper);;
    mret true.

Definition shutdown : http_prog () := fun s =>
  if is_running (http_socket s)
  then Returned () (mk_HTTPServer (m_cors_domain s) (http_port s) (m_host s) (m_upnp_helper s)
                      (http_stop (http_socket s)) (http_gateway s))
  else Returned () s.

Definition http_destroy : http_prog () := set_upnp_helper None;; shutdown.
End Http.

(** ** Bodies and responses *)

Section BodyFacts.
Context {H : HttpLib}.

(** A body is asked for only when it is required; then it is missing, or it is
    the document that parses, as it is or between quotes, or an error. *)
Theorem json_body_outcomes body mode :
  parse_json_body body mode =
    match mode with
    | HTTP_BODY_NOT_REQUIRED => (SUCCESS, None)
    | HTTP_BODY_REQUIRED =>
        if bool_decide (body = EmptyString) then (HTTP_BODY_REQUIRED_BUT_NOT_FOUND, None)
        else match union (json_parse body) (json_parse (quoted body)) with
             | Some j => (SUCCESS, Some j)
             | None => (JSON_PARSE_ERROR, None)
             end
    end.
Proof.
  unfold parse_json_body. destruct mode; [done|].
  destruct (String.eqb_spec body EmptyString) as [->|Hne]; [done|]. rewrite bool_decide_eq_false_2 by done.
  by destruct (json_parse body), (json_parse (quoted body)).
Qed.

(** A client without an answer must not ask for its body. *)
Theorem missing_result {S} mode (s : S) :
  (exists r, result_json_body None mode s = Returned r s) <-> mode = HTTP_BODY_NOT_REQUIRED.
Proof. split; [|intros ->; by eexists]. by destruct mode; [|intros [r [=]]]. Qed.

(** What a response shows of a header: documented for [set_header], which adds
    a field to those that are there. *)
Theorem every_response_restricted (header : http_response_t -> string -> list string) cors res :
  (forall name value r q,
     header (set_header name value r) q = if bool_decide (q = name) then header r q ++ [value] else header r q) ->
  (forall name value, (name, value) ∈ security_headers cors -> value ∈ header (post_routing cors res) name) /\
  (forall q, q ∉ (security_headers cors).*1 -> header (post_routing cors res) q = header res q).
Proof.
  intros Hset. unfold post_routing. generalize (security_headers cors) as l.
  assert (Hkeep : forall l r name value, value ∈ header r name ->
    value ∈ header (fold_left (fun res '(n, v) => set_header n v res) l r) name).
  { induction l as [|[n v] l IH]; intros r name value Hin; cbn [fold_left]; [done|]. apply IH.
    rewrite Hset. case_bool_decide; [|done]. rewrite elem_of_app. by left. }
  intros l. revert res. induction l as [|[n v] l IH]; intros res; cbn [fold_left fmap list_fmap fst].
  - split; [intros ? ? []%not_elem_of_nil|done].
  - destruct (IH (set_header n v res)) as [IH1 IH2]. split.
    + intros name value [[= -> ->]|Hin]%elem_of_cons; [|by apply IH1]. apply Hkeep. rewrite Hset.
      rewrite bool_decide_eq_true_2 by done. rewrite elem_of_app. right. by left.
    + intros q Hq. rewrite not_elem_of_cons in Hq. rewrite IH2 by tauto. rewrite Hset.
      rewrite bool_decide_eq_false_2 by tauto. done.
Qed.
End BodyFacts.

(** ** The life of a server *)

Section HttpFacts.
Context {H : HttpLib} {U : MiniUPnP} {UL : MiniUPnPLaws U}.

Lemma shutdown_spec s :
  runs shutdown s (fun _ s' => m_upnp_helper s' = m_upnp_helper s /\ http_gateway s' = http_gateway s)
    (fun _ => False).
Proof. unfold runs, shutdown. by destruct (is_running _). Qed.

Lemma http_destroy_spec s port :
  (forall upnp, m_upnp_helper s = Some upnp -> m_port upnp = port) ->
  runs http_destroy s
    (fun _ s' => m_upnp_helper s' = None /\ forall q, q <> to_string port \/ m_upnp_helper s = None ->
       q ∈ forwarded (http_gateway s') <-> q ∈ forwarded (http_gateway s)) (fun _ => False).
Proof.
  intros Hport. unfold http_destroy. apply runs_bind. unfold set_upnp_helper.
  apply runs_bind, runs_get, runs_bind, runs_put. destruct (m_upnp_helper s) as [upnp|].
  - apply runs_zoom. cbn. unfold upnp_destroy. apply runs_bind.
    eapply runs_conseq; [apply upnp_del_spec|]. intros e g' [_ Hg]. apply runs_ret.
    eapply runs_conseq; [apply shutdown_spec|]. cbn. intros _ s' [-> ->]. split; [done|].
    intros q [Hq|[=]]. rewrite Hg, (Hport upnp eq_refl). intuition.
  - apply runs_ret. eapply runs_conseq; [apply shutdown_spec|]. cbn. by intros _ s' [-> ->].
Qed.

(** A server that listens, or fails to, and is destroyed has no forwarded port
    left of its own, and every other port is forwarded as it was before. *)
Theorem http_server_lifetime host port flags s :
  m_upnp_helper s = None ->
  runs (b ← listen host port flags; http_destroy;; mret b) s
    (fun b s' => m_upnp_helper s' = None /\
       forall q, q <> to_string (port mod 2 ^ 16) \/ b = false ->
         q ∈ forwarded (http_gateway s') <-> q ∈ forwarded (http_gateway s)) (fun _ => False).
Proof.
  intros Hnone. apply runs_bind. unfold listen. apply runs_bind, runs_get.
  destruct (bind_to_port _ _ _ _) as [[] socket].
  - apply runs_bind, runs_put, runs_bind, runs_put, runs_bind, runs_zoom. cbn.
    eapply runs_conseq; [apply new_UPNP_spec|]. intros upnp g' (Hp & _ & Hg). cbn.
    apply runs_bind. unfold set_upnp_helper. apply runs_bind, runs_get, runs_bind, runs_put. cbn.
    rewrite Hnone. apply runs_ret, runs_ret, runs_bind.
    eapply runs_conseq; [apply (http_destroy_spec _ (port mod 2 ^ 16))|].
    + cbn. by intros u [= <-].
    + cbn. intros _ s' [Hn Hf]. apply runs_ret. split; [done|]. intros q [Hq|[=]].
      rewrite Hf by by left. rewrite Hg. intuition.
  - apply runs_bind, runs_put, runs_bind. unfold set_upnp_helper.
    apply runs_bind, runs_get, runs_bind, runs_put. cbn. rewrite Hnone. apply runs_ret, runs_ret, runs_bind.
    eapply runs_conseq; [apply (http_destroy_spec _ 0)|]; cbn; [done|].
    intros _ s' [Hn Hf]. apply runs_ret. split; [done|]. intros q _. apply Hf. by right.
Qed.
End HttpFacts.
