(* ===== verification/Aes.v ===== *)
(** * The AES helper

    [src/src/utilities/aes_helper.cpp] over the cipher of the cryptography
    library, the class [AesLib]: its exceptions become errors when something is
    decrypted and pass through when something is encrypted. *)

From S2P Require Import Prelude Errors Config.
Import Configuration.

(** [Crypto::AES]: the input, the password and the number of iterations; an
    exception of [decrypt] carries its text. *)
Class AesLib : Type := {
  AES_encrypt : string -> string -> Z -> option string;
  AES_decrypt : string -> string -> Z -> string + string
}.

(** What was encrypted is decrypted with the same password and iterations. *)
Class AesLaws (A : AesLib) : Prop := {
  decrypt_encrypt : forall input password iterations output,
    AES_encrypt input password iterations = Some output ->
    AES_decrypt output password iterations = inr input
}.

Section Aes.
Context {A : AesLib}.

Definition decrypt (input password : string) (iterations : Z) : Error * string :=
  match AES_decrypt input password iterations with
  | inr decrypted => (make_error SUCCESS 17 "aes_helper.cpp", decrypted)
  | inl what => (make_error_msg AES_DECRYPTION_ERROR what 21 "aes_helper.cpp", EmptyString)
  end.

(** [None] is an exception. *)
Definition encrypt (input password : string) (iterations : Z) : option string :=
  AES_encrypt input password iterations.

(** The default of the iterations. *)
Definition decrypt_default (input password : string) : Error * string :=
  decrypt input password Wallet.PBKDF2_ITERS.
Definition encrypt_default (input password : string) : option string :=
  encrypt input password Wallet.PBKDF2_ITERS.

(** Decrypting never throws: it gives back what was encrypted, and a failure is
    the error of the helper with the text of the exception and no output. *)
Theorem aes_decrypts {AL : AesLaws A} input password :
  (forall output, encrypt_default input password = Some output ->
     is_error (m_error_code (decrypt_default output password).1) = false /\
     (decrypt_default output password).2 = input) /\
  (forall what, AES_decrypt input password Wallet.PBKDF2_ITERS = inl what ->
     m_error_code (decrypt_default input password).1 = AES_DECRYPTION_ERROR /\
     (what <> EmptyString -> Error_to_string (decrypt_default input password).1 = what) /\
     (decrypt_default input password).2 = EmptyString).
Proof.
  unfold decrypt_default, encrypt_default, encrypt, decrypt. split.
  - intros output Henc. by rewrite (decrypt_encrypt _ _ _ _ Henc).
  - intros what ->. split; [done|]. split; [|done]. intros Hne. unfold Error_to_string. cbn.
    by destruct (String.eqb_spec what EmptyString).
Qed.
End Aes.
