(* ===== verification/Signals.v ===== *)
(** * Signals

    [src/include/tools/signal_handler.h] on systems with [signal], the handler
    that [catch_abort] of [src/src/utilities/console.cpp] installs, and
    [src/include/tools/thread_helper.h].  What the kernel does with a signal that
    the program did not ask for is not the program's: a parameter. *)

From S2P Require Import Prelude Errors Program Text Console.

Section Signals.
(** What the handler acts on. *)
Context {A : Type}.

(** A callback; [Some code] is a call of [exit]. *)
Definition signal_callback : Type := prog A (option Z).

Inductive signal_number : Set := SIGINT | SIGTERM.

#[global] Instance signal_number_eq_dec : EqDecision signal_number.
Proof. solve_decision. Defined.

(** [m_handler], and the signals that go to [handler]; the kernel's own
    treatment of the others is [default_action]. *)
Record control_signal : Type := mk_control_signal {
  cs_handler : option signal_callback;
  cs_caught : list signal_number
}.

Definition no_signals : control_signal := mk_control_signal None [].

Variable default_action : signal_number -> signal_callback.

(** ** Installing *)

Definition signal (type : signal_number) (c : control_signal) : control_signal :=
  mk_control_signal (cs_handler c) (type :: cs_caught c).

Definition register_handler (callback : signal_callback) (c : control_signal) : bool * control_signal :=
  let c' := signal SIGTERM (signal SIGINT c) in
  (true, mk_control_signal (Some callback) (cs_caught c')).

(** ** Delivery *)

Definition handle_signal (c : control_signal) : signal_callback :=
  match cs_handler c with
  | Some m_handler => m_handler
  | None => mret None
  end.

Definition signal_handler (type : signal_number) (c : control_signal) : signal_callback := handle_signal c.

Definition deliver (type : signal_number) (c : control_signal) : signal_callback :=
  if bool_decide (type ∈ cs_caught c) then signal_handler type c else default_action type.

(** ** [thread_sleep]

    [wait_for] of the condition variable, which says whether it timed out, is the
    scheduler's. *)
Variable wait_for : Z -> A -> bool * A.

Definition thread_sleep (milliseconds : Z) : prog A bool := fun a =>
  let '(timed_out, a') := wait_for milliseconds a in Returned (negb timed_out) a'.
End Signals.

(** ** [ConsoleHandler::catch_abort] *)

Definition abort_callback : signal_callback (A := list token) := fun out =>
  Returned (Some 0) (out ++ [Endl; Color yellow; Str (to_chars "Termination signal caught. Performing hard exit.");
                            Color reset; Endl; Endl]).

Definition catch_abort (c : control_signal (A := list token)) : control_signal :=
  snd (register_handler abort_callback c).

(** ** Theorems *)

Section SignalFacts.
Variable default_action : signal_number -> signal_callback (A := list token).

(** After [catch_abort] both signals end the program with 0 and the message, and
    they keep doing so when the handler is installed again. *)
Theorem abort_caught type c out :
  exists out', deliver default_action type (catch_abort c) out = Returned (Some 0) (out ++ out') /\
    deliver default_action type (catch_abort (catch_abort c)) out = Returned (Some 0) (out ++ out').
Proof.
  eexists. unfold deliver, catch_abort, register_handler, signal_handler, handle_signal, abort_callback.
  assert (forall l, type ∈ SIGTERM :: SIGINT :: l) as Hin by (intros l; destruct type; set_solver).
  cbn. by rewrite !bool_decide_eq_true_2 by apply Hin.
Qed.

(** Between the two calls of [signal] and the assignment of the handler a signal
    of a program without a handler is lost: nothing runs, and it does not end. *)
Theorem early_signal_lost type out :
  deliver default_action type (signal SIGTERM (signal SIGINT no_signals)) out = Returned None out.
Proof.
  unfold deliver. rewrite bool_decide_eq_true_2; [done|]. destruct type; set_solver.
Qed.
End SignalFacts.
