(* ===== verification/Validator.v ===== *)
(** * Transaction validation

    [src/src/core/transaction_validator.cpp].  [check] looks at the transaction
    alone; its [None] is the exception of the fee calculation.  [validate] also
    asks the chain storage.  The source compares [unlock_block < block_index]
    to call an output locked, and so does the model. *)

From S2P Require Import Prelude Errors Config CryptoLib Codec Concrete TxBase TxUser TxSystem.
From S2P Require Import Block TxTypes Fees Address Mdb MemDb Program Lmdb Storage.
From Stdlib Require Import Strings.Byte.
Import Configuration.Transaction.

Section Validator.
Context {CL : CryptoLib} {M : MDB}.

#[local] Existing Instance key_eq_dec.

Definition check_pow_zeros (pow_zeros : Z) : ErrorCode :=
  if pow_zeros <? Fees.MINIMUM_POW_ZEROS then TX_MINIMUM_POW else SUCCESS.

Definition calculate_required_fee (tx_size pow_zeros : Z) : option Z :=
  calculate_transaction_fee tx_size pow_zeros.

(** The proof of work and the fee of a user transaction. *)
Definition check_pow_and_fee (pow_hash : crypto_hash_t) (size fee : Z) : option ErrorCode :=
  let pow_zeros := leading_zeros pow_hash in
  let error := check_pow_zeros pow_zeros in
  if is_error error then Some error
  else
    required ← calculate_required_fee size pow_zeros;
    Some (if fee <? required then TX_LOW_FEE else SUCCESS).

Definition check_uncommitted (t : uncommitted_transaction_t) : option ErrorCode :=
  let error := uncommitted_check_construction t in
  if is_error error then Some error
  else check_pow_and_fee (uncommitted_pow_hash t) (uncommitted_size t) (fee (uncommitted_body t)).

(** ** The genesis transaction pays the configured wallet *)

Definition TX_PRIVATE_KEY : crypto_secret_key_t := secret_key_of_hex Genesis.TX_PRIVATE_KEY_HEX.

Definition check_genesis_output (key_derivation : crypto_key_derivation_t)
  (public_spend : crypto_public_key_t) (i : Z) (output : TransactionOutput) : ErrorCode :=
  let key_derivation_scalar := derivation_to_scalar key_derivation i in
  let blinding_factor := generate_commitment_blinding_factor key_derivation_scalar in
  let amount_mask := generate_amount_mask key_derivation_scalar in
  if negb (bool_decide (derive_public_key key_derivation_scalar public_spend = public_ephemeral output))
  then TX_OUTPUT_PUBLIC_EPHEMERAL
  else if negb (toggle_masked_amount amount_mask (amount output) =? Genesis.OUTPUT_AMOUNT)
  then TX_OUTPUT_AMOUNT
  else if negb (bool_decide
            (generate_pedersen_commitment blinding_factor Genesis.OUTPUT_AMOUNT = commitment output))
  then TX_OUTPUT_COMMITMENT
  else SUCCESS.

Fixpoint check_genesis_outputs (key_derivation : crypto_key_derivation_t)
  (public_spend : crypto_public_key_t) (i : Z) (outputs : list TransactionOutput) : ErrorCode :=
  match outputs with
  | [] => SUCCESS
  | output :: outputs' =>
      let error := check_genesis_output key_derivation public_spend i output in
      if is_error error then error
      else check_genesis_outputs key_derivation public_spend (i + 1) outputs'
  end.

Definition check_genesis (tx : genesis_transaction_t) : ErrorCode :=
  if negb (bool_decide (genesis_secret_key tx = TX_PRIVATE_KEY)) then TX_SECRET_KEY
  else
    let '(error, public_spend, public_view) := decode Genesis.DESTINATION_WALLET in
    if is_error error then error
    else
      check_genesis_outputs (generate_key_derivation public_view (genesis_secret_key tx))
        public_spend 0 (genesis_outputs tx).

Definition check_transaction (t : transaction_t) : option ErrorCode :=
  let error := transaction_check_construction t in
  if is_error error then Some error
  else
    match user_parts t, user_pow_size t with
    | Some (_, body), Some (pow_hash, size) => check_pow_and_fee pow_hash size (fee body)
    | _, _ =>
        match t with
        | Genesis_tx tx => Some (check_genesis tx)
        | _ => Some SUCCESS
        end
    end.

(** ** Validation against the chain *)

Context (S : BlockchainStorage).

(** The keys and commitments of the ring, or the error of a locked output. *)
Fixpoint gather_inputs (block_index : Z) (inputs : list (TransactionOutput * Z))
  : option (list crypto_public_key_t * list crypto_pedersen_commitment_t) :=
  match inputs with
  | [] => Some ([], [])
  | (input, unlock_block) :: inputs' =>
      if unlock_block <? block_index then None
      else
        '(public_keys, commitments) ← gather_inputs block_index inputs';
        Some (public_ephemeral input :: public_keys, commitment input :: commitments)
  end.

(** The loop over the signatures; [key_images[i]] beyond the end is undefined
    behaviour. *)
Fixpoint check_signatures (message_digest : crypto_hash_t) (public_keys : list crypto_public_key_t)
  (commitments : list crypto_pedersen_commitment_t) (i : nat)
  (signatures : list crypto_clsag_signature_t) (key_images : list crypto_key_image_t)
  : env_prog ErrorCode :=
  match signatures with
  | [] => mret SUCCESS
  | signature :: signatures' =>
      key_image ← deref (key_images !! i);
      if negb (check_ring_signature message_digest key_image public_keys signature commitments)
      then mret TX_INVALID_RING_SIGNATURE
      else check_signatures message_digest public_keys commitments (Datatypes.S i) signatures' key_images
  end.

Definition validate_uncommitted (block_index : Z) (t : uncommitted_transaction_t)
  : env_prog ErrorCode :=
  error ← or_throw (check_uncommitted t);
  if is_error error then mret error
  else
    let body := uncommitted_body t in
    let suffix := uncommitted_suffix t in
    if negb (bulletproofs_plus_verify (range_proof suffix) (commitment <$> outputs body)) then
      mret TX_INVALID_RANGE_PROOF
    else
      spent ← key_images_exist S (key_images body);
      if spent : bool then mret TX_KEY_IMAGE_ALREADY_EXISTS
      else
        '(error, inputs) ← get_transaction_outputs S (ring_participants suffix) [];
        if is_error error then mret error
        else
          match gather_inputs block_index inputs with
          | None => mret TX_OUTPUT_LOCKED
          | Some (public_keys, commitments) =>
              check_signatures (uncommitted_digest t) public_keys commitments 0
                (signatures suffix) (key_images body)
          end.

Definition validate_transaction (block_index : Z) (t : transaction_t) : env_prog ErrorCode :=
  error ← or_throw (check_transaction t);
  if is_error error then mret error
  else
    match user_parts t with
    | Some (_, body) =>
        spent ← key_images_exist S (key_images body);
        mret (if spent : bool then TX_KEY_IMAGE_ALREADY_EXISTS else SUCCESS)
    | None =>
        match t with
        | Genesis_tx _ =>
            present ← block_index_exists S 0;
            mret (if present : bool then TX_GENESIS_ALREADY_EXISTS else SUCCESS)
        | _ => mret SUCCESS
        end
    end.
End Validator.

(** ** Lemmas *)

Section ValidatorFacts.
Context {CL : CryptoLib} {M : MDB} {Laws : MDBLaws M}.

Lemma is_error_true_neq e : is_error e = true -> e <> SUCCESS.
Proof. by intros ? ->. Qed.

Lemma check_pow_and_fee_ok h size fee :
  check_pow_and_fee h size fee = Some SUCCESS <->
  Fees.MINIMUM_POW_ZEROS <= leading_zeros h /\
  exists required, calculate_transaction_fee size (leading_zeros h) = Some required /\ required <= fee.
Proof.
  unfold check_pow_and_fee, check_pow_zeros, calculate_required_fee.
  destruct (Z.ltb_spec (leading_zeros h) Fees.MINIMUM_POW_ZEROS) as [Hlt|Hge].
  - cbn. split; [done|]. intros [? _]. lia.
  - rewrite is_error_success. destruct (calculate_transaction_fee _ _) as [required|]; cbn.
    + destruct (Z.ltb_spec fee required); split.
      * done.
      * intros (_ & r & [= <-] & ?). lia.
      * intros _. split; [done|]. exists required. split; [done|lia].
      * done.
    + split; [done|]. by intros (_ & r & ? & _).
Qed.

Lemma check_after_construction (e : ErrorCode) (k : option ErrorCode) :
  (is_error e = true -> e <> SUCCESS) -> (is_error e = false -> e = SUCCESS) ->
  (if is_error e then Some e else k) = Some SUCCESS <-> e = SUCCESS /\ k = Some SUCCESS.
Proof. intros H1 H2. destruct (is_error e); naive_solver. Qed.

(** A construction check that is no error is [SUCCESS]. *)
Lemma fail_if_no_error (c : bool) e k :
  is_error e = true -> (is_error k = false -> k = SUCCESS) ->
  is_error (if c then e else k) = false -> (if c then e else k) = SUCCESS.
Proof. destruct c; [congruence|auto]. Qed.

Lemma try_check_no_error e k :
  (is_error k = false -> k = SUCCESS) ->
  is_error (try_check_then e k) = false -> try_check_then e k = SUCCESS.
Proof. unfold try_check_then. destruct (is_error e) eqn:E; [congruence|auto]. Qed.

Ltac no_error :=
  repeat first [apply fail_if_no_error; [reflexivity|]|apply try_check_no_error]; done.

Lemma uncommitted_no_error t :
  is_error (uncommitted_check_construction t) = false -> uncommitted_check_construction t = SUCCESS.
Proof.
  destruct t as [tx|tx|tx]; cbn [uncommitted_check_construction];
    [unfold uncommitted_normal_check_construction|unfold uncommitted_stake_check_construction
    |unfold uncommitted_recall_check_construction]; no_error.
Qed.

Lemma transaction_no_error t :
  is_error (transaction_check_construction t) = false -> transaction_check_construction t = SUCCESS.
Proof.
  destruct t as [tx|tx|tx|tx|tx|tx]; cbn [transaction_check_construction];
    [unfold genesis_check_construction|unfold staker_check_construction
    |unfold committed_normal_check_construction|unfold committed_recall_check_construction
    |unfold committed_stake_check_construction|unfold refund_check_construction]; no_error.
Qed.

Lemma check_uncommitted_ok t :
  check_uncommitted t = Some SUCCESS <->
  uncommitted_check_construction t = SUCCESS /\
  check_pow_and_fee (uncommitted_pow_hash t) (uncommitted_size t) (fee (uncommitted_body t)) =
    Some SUCCESS.
Proof.
  apply check_after_construction; [apply is_error_true_neq|apply uncommitted_no_error].
Qed.

(** The ring: the stored outputs with their unlock blocks, when each hash has
    a record that can be read. *)
Definition ring_inputs (S : BlockchainStorage) (C : contents) (hashes : list crypto_hash_t)
  : option (list (TransactionOutput * Z)) :=
  mapM (fun h => v ← C !! (m_dbi (m_transaction_outputs S), put_key h); fst <$> read_output v) hashes.

Variables (l0 : LMDB) (S : BlockchainStorage) (Hok : storage_ok l0 S).

Lemma get_transaction_output_spec h C B l :
  at_rest l0 0 C B l ->
  runs (get_transaction_output S h) l
    (fun '(e, o, u) l' => at_rest l0 0 C B l' /\
       match (v ← C !! (m_dbi (m_transaction_outputs S), put_key h); fst <$> read_output v) with
       | Some input => e = SUCCESS /\ (o, u) = input
       | None => is_error e = true
       end) (at_rest l0 0 C B).
Proof using Hok.
  intros Hr. unfold get_transaction_output. apply runs_bind.
  eapply runs_weaken; [eapply db_get_spec; [apply (ok_transaction_outputs _ _ Hok)|done]| |done].
  cbn beta. intros [e v] l1 [H1 Hv]. unfold lookup_result in Hv.
  destruct (C !! _) as [v'|]; cbn [mbind option_bind fst] in *.
  - injection Hv as -> ->. rewrite is_error_success. apply runs_bind.
    destruct (read_output v') as [[[o u] rest]|]; cbn [fmap option_fmap option_map fst].
    + by apply runs_ret, runs_ret.
    + by apply runs_throw.
  - rewrite Hv. by apply runs_ret.
Qed.

Lemma get_transaction_outputs_spec hs acc C B l :
  at_rest l0 0 C B l ->
  runs (get_transaction_outputs S hs acc) l
    (fun '(e, results) l' => at_rest l0 0 C B l' /\
       match ring_inputs S C hs with
       | Some inputs => e = SUCCESS /\ results = acc ++ inputs
       | None => is_error e = true
       end) (at_rest l0 0 C B).
Proof using Hok.
  revert acc l. induction hs as [|h hs IH]; intros acc l Hr; cbn [get_transaction_outputs].
  { apply runs_ret. split; [done|]. cbn. by rewrite app_nil_r. }
  apply runs_bind. eapply runs_weaken; [by apply get_transaction_output_spec| |done].
  cbn beta. intros [[e o] u] l1 [H1 Hv]. unfold ring_inputs in *. cbn [mapM].
  destruct (v ← C !! _; _) as [input|]; cbn [mbind option_bind].
  - destruct Hv as [-> <-]. rewrite is_error_success.
    eapply runs_weaken; [by apply IH| |done].
    cbn beta. intros [e results] l2 [H2 Hm]. split; [done|].
    destruct (mapM _ hs) as [inputs|]; cbn [mbind option_bind mret option_ret]; [|done].
    destruct Hm as [-> ->]. by rewrite <- app_assoc.
  - rewrite Hv. apply runs_ret. by split.
Qed.

Lemma gather_inputs_spec block_index inputs :
  gather_inputs block_index inputs =
    if forallb (fun i => negb (snd i <? block_index)) inputs then
      Some ((fun i => public_ephemeral (fst i)) <$> inputs, (fun i => commitment (fst i)) <$> inputs)
    else None.
Proof using.
  induction inputs as [|[o u] inputs IH]; [done|]. cbn [gather_inputs forallb snd].
  destruct (u <? block_index); [done|]. cbn [negb andb]. rewrite IH.
  by destruct (forallb _ inputs).
Qed.

(** Every signature checks under its key image and the ring. *)
Definition signatures_ok (digest : crypto_hash_t) (inputs : list (TransactionOutput * Z))
  (sigs : list crypto_clsag_signature_t) (kis : list crypto_key_image_t) : Prop :=
  Forall2 (fun signature key_image =>
    check_ring_signature digest key_image ((fun i => public_ephemeral (fst i)) <$> inputs) signature
      ((fun i => commitment (fst i)) <$> inputs) = true) sigs kis.

Lemma check_signatures_spec digest pks cms i sigs kis l (X : LMDB -> Prop) :
  List.length (drop i kis) = List.length sigs ->
  runs (check_signatures digest pks cms i sigs kis) l
    (fun e l' => l' = l /\
       (e = SUCCESS <->
        Forall2 (fun s k => check_ring_signature digest k pks s cms = true) sigs (drop i kis))) X.
Proof using.
  revert i. induction sigs as [|s sigs IH]; intros i Hlen; cbn [check_signatures].
  { apply runs_ret. split; [done|]. destruct (drop i kis); [|done]. split; [by constructor|done]. }
  destruct (kis !! i) as [k|] eqn:Hk.
  2: { apply lookup_ge_None in Hk. rewrite skipn_all2 in Hlen by done. done. }
  rewrite (drop_S _ _ _ Hk) in *. cbn [List.length] in Hlen. injection Hlen as Hlen.
  cbn [deref]. apply runs_bind, runs_ret.
  destruct (check_ring_signature digest k pks s cms) eqn:Hs; cbn [negb].
  - eapply runs_conseq; [by apply IH|]. cbn beta. intros e l' [-> He]. split; [done|].
    rewrite He, Forall2_cons. intuition auto.
  - apply runs_ret. split; [done|]. rewrite Forall2_cons. split; [done|]. intros [? _]. congruence.
Qed.

(** The conditions under which a spend is valid on the contents [C]. *)
Record valid_spend (C : contents) (block_index : Z) (t : uncommitted_transaction_t)
  (inputs : list (TransactionOutput * Z)) : Prop := {
  spend_checked : check_uncommitted t = Some SUCCESS;
  spend_range :
    bulletproofs_plus_verify (range_proof (uncommitted_suffix t))
      (commitment <$> outputs (uncommitted_body t)) = true;
  spend_unspent : Forall (fun k => C !! (m_dbi (m_key_images S), put_key k) = None)
    (key_images (uncommitted_body t));
  spend_ring : ring_inputs S C (ring_participants (uncommitted_suffix t)) = Some inputs;
  spend_unlock : Forall (fun i => block_index <= snd i) inputs;
  spend_signatures : signatures_ok (uncommitted_digest t) inputs
    (signatures (uncommitted_suffix t)) (key_images (uncommitted_body t))
}.

Lemma unspent_iff C ks :
  existsb (spent S C) ks = false <->
  Forall (fun k => C !! (m_dbi (m_key_images S), put_key k) = None) ks.
Proof using.
  rewrite <- not_true_iff_false, existsb_exists, Forall_forall. split.
  - intros Hn k Hk. destruct (C !! _) eqn:E; [|done]. exfalso. apply Hn. exists k.
    split; [by apply list_elem_of_In|]. unfold spent. rewrite E. by apply bool_decide_eq_true_2.
  - intros Hall (k & Hk & Hs). apply list_elem_of_In in Hk. unfold spent in Hs.
    rewrite (Hall k Hk) in Hs. apply bool_decide_eq_true in Hs. by destruct Hs.
Qed.

Lemma checked_counts `{!DedupeLaws CL} t :
  check_uncommitted t = Some SUCCESS ->
  List.length (key_images (uncommitted_body t)) = List.length (signatures (uncommitted_suffix t)).
Proof using.
  intros [Hs _]%check_uncommitted_ok.
  destruct t as [tx|tx|tx]; cbn [uncommitted_check_construction] in Hs.
  - apply uncommitted_normal_check_iff in Hs as (_ & _ & _ & Hok'). pose proof (ok_signature_count _ _ Hok'). cbn. lia.
  - by apply uncommitted_stake_check_fails in Hs.
  - apply uncommitted_recall_check_iff in Hs as (_ & _ & _ & Hok'). pose proof (ok_signature_count _ _ Hok'). cbn. lia.
Qed.
End ValidatorFacts.

(** ** Lemmas: validation *)

Section Validation.
Context {CL : CryptoLib} {M : MDB} {Laws : MDBLaws M}.
Variables (l0 : LMDB) (S : BlockchainStorage) (Hok : storage_ok l0 S).

Lemma runs_or_throw {St A} (o : option A) (s : St) (Q : A -> St -> Prop) (X : St -> Prop) :
  X s -> (forall a, o = Some a -> Q a s) -> runs (or_throw o) s Q X.
Proof using. intros HX HQ. destruct o as [a|]; [by apply runs_ret, HQ|by apply runs_throw]. Qed.

(** An error code of a check is not [SUCCESS]. *)
Lemma refused (P : Prop) e : is_error e = true -> ~ P -> e = SUCCESS <-> P.
Proof using. intros He HP. split; [by intros ->|done]. Qed.

Lemma Some_not_error {A} (o : option A) e :
  is_error e = true -> forall x : ErrorCode, x = e -> x <> SUCCESS.
Proof using. by intros He x -> ->. Qed.

Lemma locked_iff block_index (inputs : list (TransactionOutput * Z)) :
  forallb (fun i => negb (snd i <? block_index)) inputs = true <->
  Forall (fun i => block_index <= snd i) inputs.
Proof using.
  rewrite forallb_forall, Forall_forall. setoid_rewrite list_elem_of_In.
  split; intros H i Hi; specialize (H i Hi); cbn in *; lia.
Qed.

Lemma validate_uncommitted_spec `{!DedupeLaws CL} block_index t C B l :
  at_rest l0 0 C B l ->
  runs (validate_uncommitted S block_index t) l
    (fun e l' => at_rest l0 0 C B l' /\
       (e = SUCCESS <-> exists inputs, valid_spend S C block_index t inputs))
    (at_rest l0 0 C B).
Proof using Hok.
  intros Hr. unfold validate_uncommitted. apply runs_bind, runs_or_throw; [done|].
  intros e He. destruct (is_error e) eqn:Ee.
  { apply runs_ret. split; [done|]. apply refused; [done|]. intros [inputs Hv].
    rewrite (spend_checked _ _ _ _ _ Hv) in He. injection He as <-. done. }
  destruct (bulletproofs_plus_verify _ _) eqn:Hrange; cbn [negb].
  2: { apply runs_ret. split; [done|]. apply refused; [done|]. intros [inputs Hv].
       pose proof (spend_range _ _ _ _ _ Hv). congruence. }
  apply runs_bind. eapply runs_weaken; [by eapply key_images_exist_spec| |done].
  cbn beta. intros spent l1 [H1 ->]. destruct (existsb _ _) eqn:Hspent.
  { apply runs_ret. split; [done|]. apply refused; [done|]. intros [inputs Hv].
    pose proof (proj2 (unspent_iff S C _) (spend_unspent _ _ _ _ _ Hv)). congruence. }
  apply unspent_iff in Hspent.
  apply runs_bind. eapply runs_weaken; [by eapply get_transaction_outputs_spec| |done].
  cbn beta. intros [e2 inputs] l2 [H2 Hin].
  destruct (ring_inputs S C _) as [inputs'|] eqn:Hring.
  2: { rewrite Hin. apply runs_ret. split; [done|]. apply refused; [done|]. intros [ins Hv].
       pose proof (spend_ring _ _ _ _ _ Hv). congruence. }
  destruct Hin as [-> ->]. rewrite is_error_success, app_nil_l, gather_inputs_spec.
  assert (Hunique : forall ins, valid_spend S C block_index t ins -> ins = inputs').
  { intros ins Hv. pose proof (spend_ring _ _ _ _ _ Hv). congruence. }
  destruct (forallb _ inputs') eqn:Hlock.
  2: { apply runs_ret. split; [done|]. apply refused; [done|]. intros [ins Hv].
       pose proof (Hunique _ Hv) as ->. pose proof (spend_unlock _ _ _ _ _ Hv) as Hu.
       apply locked_iff in Hu. congruence. }
  apply locked_iff in Hlock.
  destruct (decide (check_uncommitted t = Some SUCCESS)) as [Hchk|Hchk].
  - eapply runs_conseq; [apply check_signatures_spec; rewrite drop_0; by apply checked_counts|].
    cbn beta. rewrite drop_0. intros e3 l3 [-> Hsig]. split; [done|]. rewrite Hsig. split.
    + intros Hf. exists inputs'. by constructor.
    + intros [ins Hv]. pose proof (Hunique _ Hv) as ->. apply (spend_signatures _ _ _ _ _ Hv).
  - exfalso. apply Hchk. rewrite He. f_equal. unfold check_uncommitted in He.
    destruct (is_error (uncommitted_check_construction t)) eqn:Ec; [congruence|].
    unfold check_pow_and_fee, check_pow_zeros in He.
    destruct (leading_zeros _ <? _); [by injection He as <-|].
    rewrite is_error_success in He. destruct (calculate_required_fee _ _); [|done].
    cbn in He. injection He as <-. by destruct (_ <? _).
Qed.

(** The conditions on the chain for a committed transaction. *)
Definition chain_allows (C : contents) (t : transaction_t) : Prop :=
  match user_parts t with
  | Some (_, body) =>
      Forall (fun k => C !! (m_dbi (m_key_images S), put_key k) = None) (key_images body)
  | None =>
      match t with
      | Genesis_tx _ => C !! (m_dbi (m_block_indexes S), put_uint64 0) = None
      | _ => True
      end
  end.

Lemma check_transaction_success t e :
  check_transaction t = Some e -> is_error e = false -> e = SUCCESS.
Proof using.
  unfold check_transaction. intros He Ee.
  destruct (is_error (transaction_check_construction t)) eqn:Ec; [congruence|].
  assert (Hpow : forall h s f, check_pow_and_fee h s f = Some e -> e = SUCCESS).
  { intros h s f. unfold check_pow_and_fee, check_pow_zeros.
    destruct (leading_zeros h <? _); [by intros [= <-]|]. rewrite is_error_success.
    destruct (calculate_required_fee _ _); [|done]. cbn. intros [= <-]. by destruct (_ <? _). }
  destruct t as [tx|tx|tx|tx|tx|tx]; cbn [user_parts user_pow_size] in He;
    try (by eapply Hpow); try congruence.
  injection He as <-. revert Ee. unfold check_genesis.
  case_bool_decide; cbn [negb]; [|done].
  destruct (decode _) as [[e0 s] v]. destruct (is_error e0) eqn:E0; [congruence|].
  generalize 0. induction (genesis_outputs tx) as [|o os IH]; intros i; cbn; [done|].
  destruct (is_error (check_genesis_output _ _ _ _)) eqn:E; [congruence|]. apply IH.
Qed.

Lemma validate_transaction_spec block_index t C B l :
  at_rest l0 0 C B l ->
  runs (validate_transaction S block_index t) l
    (fun e l' => at_rest l0 0 C B l' /\
       (e = SUCCESS <-> check_transaction t = Some SUCCESS /\ chain_allows C t))
    (at_rest l0 0 C B).
Proof using Hok.
  intros Hr. unfold validate_transaction. apply runs_bind, runs_or_throw; [done|].
  intros e He. destruct (is_error e) eqn:Ee.
  { apply runs_ret. split; [done|]. apply refused; [done|]. intros [Hc _].
    rewrite Hc in He. injection He as <-. done. }
  pose proof (check_transaction_success _ _ He Ee) as ->. unfold chain_allows.
  destruct (user_parts t) as [[p b]|].
  - apply runs_bind. eapply runs_weaken; [by eapply key_images_exist_spec| |done].
    cbn beta. intros spent l1 [H1 ->]. apply runs_ret. split; [done|].
    rewrite <- unspent_iff. destruct (existsb _ _); naive_solver.
  - destruct t as [tx|tx|tx|tx|tx|tx]; try (apply runs_ret; by split).
    apply runs_bind.
    eapply runs_weaken; [eapply db_exists_spec; [apply (ok_block_indexes _ _ Hok)|done]| |done].
    cbn beta. intros present l1 [H1 ->]. apply runs_ret. split; [done|].
    destruct (C !! _) as [v|]; [rewrite bool_decide_eq_true_2 by done|
      rewrite bool_decide_eq_false_2 by (by intros [? ?])]; naive_solver.
Qed.
(** A spent key image makes both forms of validation fail. *)
Lemma spent_refused `{!DedupeLaws CL} index k C B l :
  at_rest l0 0 C B l -> is_Some (C !! (m_dbi (m_key_images S), put_key k)) ->
  (forall t, k ∈ tx_key_images t ->
     runs (validate_transaction S index t) l
       (fun e l' => at_rest l0 0 C B l' /\ e <> SUCCESS) (at_rest l0 0 C B)) /\
  (forall t, k ∈ key_images (uncommitted_body t) ->
     runs (validate_uncommitted S index t) l
       (fun e l' => at_rest l0 0 C B l' /\ e <> SUCCESS) (at_rest l0 0 C B)).
Proof using Hok.
  intros Hr Hspent. split; intros t Hk.
  - eapply runs_weaken; [by eapply validate_transaction_spec| |done].
    cbn beta. intros e l2 [Hl2 He]. split; [done|]. intros [_ Hallow]%He.
    unfold chain_allows, tx_key_images in *. destruct (user_parts t) as [[p b]|];
      [|by apply elem_of_nil in Hk].
    rewrite Forall_forall in Hallow. rewrite (Hallow k Hk) in Hspent. by destruct Hspent.
  - eapply runs_weaken; [by eapply validate_uncommitted_spec| |done].
    cbn beta. intros e l2 [Hl2 He]. split; [done|]. intros [inputs Hv]%He.
    pose proof (spend_unspent _ _ _ _ _ Hv) as Hu. rewrite Forall_forall in Hu.
    rewrite (Hu k Hk) in Hspent. by destruct Hspent.
Qed.
End Validation.

(** ** Properties *)

Section ValidatorProps.
Context {CL : CryptoLib} {M : MDB} {Laws : MDBLaws M}.

(** C1: No double spend: once a block was stored, no transaction that shares a
    key image with one of the block's transactions is validated any more,
    neither as it comes from a wallet nor in its committed form. *)
Theorem no_double_spend `{!DedupeLaws CL} fuel indeterminate S block txs C B l l1 t k index :
  1 <= m_growth_factor l <= 2 ^ 20 -> storage_ok l S -> at_rest l 0 C B l ->
  mapsize_limit - B < Z.of_nat fuel ->
  put_block indeterminate S fuel block txs l = Returned SUCCESS l1 ->
  t ∈ txs -> k ∈ tx_key_images t ->
  let C' := apply_writes C (block_writes S block txs) in
  (forall t2, k ∈ tx_key_images t2 ->
     runs (validate_transaction S index t2) l1 (fun e _ => e <> SUCCESS) (at_rest l 0 C' B)) /\
  (forall t2, k ∈ key_images (uncommitted_body t2) ->
     runs (validate_uncommitted S index t2) l1 (fun e _ => e <> SUCCESS) (at_rest l 0 C' B)).
Proof.
  intros Hg Hok Hr Hf Hput Ht Hk C'.
  pose proof (put_block_contents fuel indeterminate S block txs C B l Hg Hr Hf) as Hs.
  unfold runs in Hs. rewrite Hput in Hs. change (at_rest l 0 C' B l1) in Hs.
  destruct (spent_refused l S Hok index k C' B l1 Hs ltac:(by eapply stored_key_image)) as [H1 H2].
  split; intros t2 Hk2; (eapply runs_weaken; [by auto| |done]); by intros e l2 [_ ?].
Qed.

(** C4: [validate] of a transaction from a wallet never touches the database or
    reads a key image out of bounds, and succeeds exactly when the transaction
    passes [check], its range proof verifies, none of its key images is spent,
    every ring participant is a stored output whose unlock block is not below
    the block index, and every signature checks under its key image and the
    ring in the order of the participants. *)
Theorem validate_uncommitted_iff `{!DedupeLaws CL} S block_index t C B l :
  storage_ok l S -> at_rest l 0 C B l ->
  runs (validate_uncommitted S block_index t) l
    (fun e l' => at_rest l 0 C B l' /\
       (e = SUCCESS <-> exists inputs, valid_spend S C block_index t inputs))
    (at_rest l 0 C B).
Proof. intros. by apply validate_uncommitted_spec. Qed.

(** C13: [validate] of a committed transaction succeeds exactly when it passes
    [check] and, for a user transaction, none of its key images is spent, or,
    for a genesis transaction, there is no block 0; the database stays as it
    is. *)
Theorem validate_transaction_iff S block_index t C B l :
  storage_ok l S -> at_rest l 0 C B l ->
  runs (validate_transaction S block_index t) l
    (fun e l' => at_rest l 0 C B l' /\
       (e = SUCCESS <-> check_transaction t = Some SUCCESS /\ chain_allows S C t))
    (at_rest l 0 C B).
Proof. intros. by apply validate_transaction_spec. Qed.

(** The outputs of a genesis transaction, from the index [i] on, pay the
    wallet's keys the configured amount. *)
Fixpoint pays_wallet (kd : crypto_key_derivation_t) (spend : crypto_public_key_t) (i : Z)
  (os : list TransactionOutput) : Prop :=
  match os with
  | [] => True
  | o :: os' =>
      let scalar := derivation_to_scalar kd i in
      derive_public_key scalar spend = public_ephemeral o /\
      toggle_masked_amount (generate_amount_mask scalar) (amount o) = 122565 /\
      generate_pedersen_commitment (generate_commitment_blinding_factor scalar) 122565 =
        commitment o /\
      pays_wallet kd spend (i + 1) os'
  end.

Lemma check_genesis_outputs_ok kd spend i os :
  check_genesis_outputs kd spend i os = SUCCESS <-> pays_wallet kd spend i os.
Proof.
  revert i. induction os as [|o os IH]; intros i; cbn [check_genesis_outputs pays_wallet]; [done|].
  rewrite <- IH. unfold check_genesis_output. change Genesis.OUTPUT_AMOUNT with 122565.
  case_bool_decide; cbn [negb]; [|naive_solver].
  destruct (Z.eqb_spec (toggle_masked_amount (generate_amount_mask (derivation_to_scalar kd i)) (amount o))
    122565); cbn [negb]; [|naive_solver].
  case_bool_decide; cbn [negb]; naive_solver.
Qed.

(** C14: [check] of a committed transaction succeeds exactly when its
    construction checks and: a user transaction has the minimum proof of work
    and pays at least the fee for its size and its leading zeros; a genesis
    transaction has the configured secret key and all its outputs pay the
    configured wallet the configured amount. *)
Theorem check_transaction_iff t :
  check_transaction t = Some SUCCESS <->
  transaction_check_construction t = SUCCESS /\
  match user_parts t, user_pow_size t with
  | Some (_, body), Some (pow_hash, size) =>
      1 <= leading_zeros pow_hash /\
      exists required, calculate_transaction_fee size (leading_zeros pow_hash) = Some required /\
        required <= fee body
  | _, _ =>
      match t with
      | Genesis_tx tx =>
          genesis_secret_key tx = TX_PRIVATE_KEY /\
          exists spend view, decode Genesis.DESTINATION_WALLET = (SUCCESS, spend, view) /\
            pays_wallet (generate_key_derivation view (genesis_secret_key tx)) spend 0
              (genesis_outputs tx)
      | _ => True
      end
  end.
Proof.
  unfold check_transaction. rewrite check_after_construction;
    [|apply is_error_true_neq|apply transaction_no_error].
  apply and_iff_compat_l.
  destruct t as [tx|tx|tx|tx|tx|tx]; cbn [user_parts user_pow_size];
    try apply check_pow_and_fee_ok; try done.
  unfold check_genesis. split.
  - intros [= Hc]. case_bool_decide as Hk; cbn [negb] in Hc; [|done]. split; [done|].
    destruct (decode _) as [[e s] v] eqn:Hd. destruct (is_error e) eqn:He; [by subst e|].
    exists s, v. apply check_genesis_outputs_ok in Hc. split; [|done].
    by rewrite (decode_no_error _ _ _ _ Hd He).
  - intros (Hk & s & v & -> & Hp). rewrite bool_decide_eq_true_2 by done. cbn [negb].
    rewrite is_error_success. f_equal. by apply check_genesis_outputs_ok.
Qed.
End ValidatorProps.

(** ** Samples and witnesses *)

#[local] Existing Instance toy_crypto.

Module ValidatorSamples.
(** The answer of [validate] for the sample transaction. *)
Definition verdict (l : LMDB) : option ErrorCode :=
  observe id (validate_transaction StorageSamples.store 8 StorageSamples.tx l).
End ValidatorSamples.

(** Valid on an empty chain, refused once its block is stored. *)
Example verdict_before : ValidatorSamples.verdict (StorageSamples.object mem_limit) = Some SUCCESS.
Proof. vm_compute. exact eq_refl. Qed.

Example verdict_after :
  ValidatorSamples.verdict (StorageSamples.after StorageSamples.block [StorageSamples.tx]) =
    Some TX_KEY_IMAGE_ALREADY_EXISTS.
Proof. vm_compute. exact eq_refl. Qed.

Lemma no_double_spend_witness :
  runs (validate_transaction StorageSamples.store 8 StorageSamples.tx)
    (StorageSamples.after StorageSamples.block [StorageSamples.tx])
    (fun e _ => e <> SUCCESS)
    (at_rest (StorageSamples.object mem_limit) 0
       (apply_writes ∅ (block_writes StorageSamples.store StorageSamples.block
          [StorageSamples.tx])) mem_limit).
Proof.
  refine (proj1 (no_double_spend 1 0 StorageSamples.store StorageSamples.block [StorageSamples.tx] ∅
    mem_limit (StorageSamples.object mem_limit) _ StorageSamples.tx x12 8
    (StorageSamples.growth_ok _) (StorageSamples.store_ok _) StorageSamples.full_map_at_rest
    StorageSamples.one_attempt StorageSamples.block_stored _ _) StorageSamples.tx _).
  - by left.
  - cbn. right. by left.
  - cbn. right. by left.
Defined.

Lemma validate_uncommitted_iff_witness :
  runs (validate_uncommitted StorageSamples.store 8 (U_normal UserSamples.normal))
    StorageSamples.chain
    (fun e l' => at_rest StorageSamples.chain 0 StorageSamples.chain_contents mem_limit l' /\
       (e = SUCCESS <-> exists inputs, valid_spend StorageSamples.store
          StorageSamples.chain_contents 8 (U_normal UserSamples.normal) inputs))
    (at_rest StorageSamples.chain 0 StorageSamples.chain_contents mem_limit).
Proof.
  apply validate_uncommitted_iff; [exact StorageSamples.chain_ok|exact StorageSamples.chain_rest].
Defined.

Lemma validate_transaction_iff_witness :
  runs (validate_transaction StorageSamples.store 8 StorageSamples.tx) StorageSamples.chain
    (fun e l' => at_rest StorageSamples.chain 0 StorageSamples.chain_contents mem_limit l' /\
       (e = SUCCESS <-> check_transaction StorageSamples.tx = Some SUCCESS /\
          chain_allows StorageSamples.store StorageSamples.chain_contents StorageSamples.tx))
    (at_rest StorageSamples.chain 0 StorageSamples.chain_contents mem_limit).
Proof.
  apply validate_transaction_iff; [exact StorageSamples.chain_ok|exact StorageSamples.chain_rest].
Defined.
