(* ===== verification/Lifecycle.v ===== *)
(** * The life of a transaction

    What a wallet sends, what the chain stores, and what is refused afterwards:
    the fees ([Fees.v]), the structures ([TxUser.v]), the validator and the
    chain storage put together.  A node validates the uncommitted form; the
    block holds the committed form, which has another size and so another
    fee. *)

From S2P Require Import Prelude Errors Config CryptoLib Codec Concrete TxBase TxUser TxSystem.
From S2P Require Import Block TxTypes Fees Mdb MemDb Program Lmdb Storage Validator.
From Stdlib Require Import Strings.Byte.

Section Lifecycle.
Context {CL : CryptoLib} {M : MDB} {Laws : MDBLaws M} {Codec : CodecLaws CL} {Dedupe : DedupeLaws CL}.
Implicit Types (t : uncommitted_transaction_t).

(** ** From the wallet's form to the chain's *)

(** A transaction of the type that its constructor sets. *)
Definition own_type t : Prop :=
  match t with
  | U_normal tx => l_type tx = TransactionType_value NORMAL
  | U_stake tx => l_type tx = TransactionType_value STAKE
  | U_recall tx => l_type tx = TransactionType_value RECALL_STAKE
  end.

(** The hash that the wallet knows its transaction by. *)
Definition wallet_hash t : crypto_hash_t :=
  match t with
  | U_normal tx => uncommitted_normal_hash tx
  | U_stake tx => uncommitted_stake_hash tx
  | U_recall tx => uncommitted_recall_hash tx
  end.

(** Sizes for which the fees are those of exact arithmetic, and a suffix that
    is not smaller than the two hashes that replace it. *)
Record sized t : Prop := {
  sized_bound : uncommitted_size t <= 2 ^ 29;
  sized_suffix : 64 <= vsize (serialize_uncommitted_suffix (uncommitted_suffix t))
}.

Lemma committed_hash t : own_type t -> transaction_hash (to_committed t) = wallet_hash t.
Proof using Codec.
  destruct (to_committed_same_identity (CL := CL)) as (Hn & Hs & Hr).
  destruct t as [tx|tx|tx]; cbn; intros H; [apply (Hn _ H)|apply (Hs _ H)|apply (Hr _ H)].
Qed.

Lemma committed_key_images t : tx_key_images (to_committed t) = key_images (uncommitted_body t).
Proof using. by destruct t. Qed.

(** The committed form has the proof of work, the fee and no larger a size. *)
Lemma committed_work t :
  own_type t -> sized t -> exists p b size,
    user_parts (to_committed t) = Some (p, b) /\ fee b = fee (uncommitted_body t) /\
    user_pow_size (to_committed t) = Some (uncommitted_pow_hash t, size) /\
    0 <= size <= uncommitted_size t.
Proof using Codec.
  intros Ht [_ Hsuf]. destruct (to_committed_same_identity (CL := CL)) as (Hn & Hs & Hr).
  assert (Hsize : forall body : bytes, let n := vsize body + 32 + 32 in
    0 <= n <= vsize (body ++ serialize_uncommitted_suffix (uncommitted_suffix t)))
    by (intros body; cbn zeta; rewrite length_app, Nat2Z.inj_add; lia).
  destruct t as [tx|tx|tx]; cbn in Ht, Hsize |- *; do 3 eexists; (split; [done|split; [done|]]).
  - destruct (Hn _ Ht) as (_ & -> & ->). split; [done|]. specialize (Hsize (uncommitted_normal_serialize_digest tx)).
    unfold uncommitted_normal_serialize_digest in Hsize. rewrite <- !app_assoc in Hsize. exact Hsize.
  - destruct (Hs _ Ht) as (_ & -> & ->). split; [done|]. specialize (Hsize (uncommitted_stake_serialize_digest tx)).
    unfold uncommitted_stake_serialize_digest in Hsize. rewrite <- !app_assoc in Hsize. exact Hsize.
  - destruct (Hr _ Ht) as (_ & -> & ->). split; [done|]. specialize (Hsize (uncommitted_recall_serialize_digest tx)).
    unfold uncommitted_recall_serialize_digest in Hsize. rewrite <- !app_assoc in Hsize. exact Hsize.
Qed.

Lemma committed_construction t :
  uncommitted_check_construction t = SUCCESS -> transaction_check_construction (to_committed t) = SUCCESS.
Proof using Dedupe.
  assert (Hio : forall p b p' b', inputs_outputs_ok p b -> public_key p' = public_key p ->
    fee b' = fee b -> key_images b' = key_images b -> outputs b' = outputs b -> inputs_outputs_ok p' b').
  { intros p b p' b' [] Hp Hf Hk Ho. split; by rewrite ?Hp, ?Hf, ?Hk, ?Ho. }
  destruct t as [tx|tx|tx]; cbn [uncommitted_check_construction transaction_check_construction to_committed].
  - intros (Hv & Hi & He & _)%uncommitted_normal_check_iff. apply committed_normal_check_iff.
    split; [done|]. split; [by eapply Hio|done].
  - by intros ?%uncommitted_stake_check_fails.
  - intros (Hv & Hi & Hd & _)%uncommitted_recall_check_iff. apply committed_recall_check_iff.
    split; [done|]. split; [by eapply Hio|by destruct Hd].
Qed.

Lemma base_fee_exact size : 0 <= size <= 2 ^ 29 -> calculate_base_transaction_fee size <= 2 ^ 24.
Proof using.
  intros Hs. transitivity (calculate_base_transaction_fee (2 ^ 29)); [|by vm_compute].
  apply base_fee_mono; unfold uintw; lia.
Qed.

(** A transaction that passes [check] passes it in its committed form. *)
Lemma check_commits t :
  own_type t -> sized t -> check_uncommitted t = Some SUCCESS ->
  check_transaction (to_committed t) = Some SUCCESS.
Proof using Codec Dedupe.
  intros Ht Hsz [Hc Hp]%check_uncommitted_ok.
  destruct (committed_work t Ht Hsz) as (p & b & size & Hparts & Hfee & Hpow & Hsize).
  destruct Hsz as [Hbound _].
  unfold check_transaction. rewrite committed_construction by done. rewrite is_error_success, Hparts, Hpow.
  apply check_pow_and_fee_ok in Hp as (Hz & required & Hreq & Hle). apply check_pow_and_fee_ok.
  split; [done|]. change Config.Configuration.Transaction.Fees.MINIMUM_POW_ZEROS with 1 in Hz.
  assert (Hu : forall n, 0 <= n <= 2 ^ 29 -> u64 n) by (unfold uintw; lia).
  assert (leading_zeros (uncommitted_pow_hash t) <= 256) as Hz2.
  { apply Z.nlt_ge. intros Hlt. unfold calculate_transaction_fee in Hreq.
    by rewrite (proj2 (Z.ltb_lt 256 _)) in Hreq. }
  destruct (fee_eq size (leading_zeros (uncommitted_pow_hash t))) as (q & _ & _ & _ & Hq); [apply Hu; lia|lia|].
  eexists. split; [exact Hq|]. rewrite Hfee. etrans; [|exact Hle].
  eapply transaction_fee_grows; [| | | | |exact Hq|exact Hreq]; try (apply Hu); try lia.
  apply base_fee_exact. lia.
Qed.

Lemma checked_inputs t :
  check_uncommitted t = Some SUCCESS -> exists k, k ∈ key_images (uncommitted_body t).
Proof using Dedupe.
  intros [Hs _]%check_uncommitted_ok.
  assert (Hne : forall b : TransactionUserBody, 1 <= vsize (key_images b) -> exists k, k ∈ key_images b).
  { intros b. destruct (key_images b) as [|k ks]; [cbn; lia|]. exists k. by left. }
  destruct t as [tx|tx|tx]; cbn [uncommitted_check_construction] in Hs.
  - apply uncommitted_normal_check_iff in Hs as (_ & Hi & _). by apply Hne, (ok_inputs _ _ Hi).
  - by apply uncommitted_stake_check_fails in Hs.
  - apply uncommitted_recall_check_iff in Hs as (_ & Hi & _). by apply Hne, (ok_inputs _ _ Hi).
Qed.

(** ** Before and after the block *)

(** C22: A transaction that a node validated as the wallet sent it is valid in
    the committed form that a block holds, at every index; and once a block
    with it is stored, it is found under the hash that the wallet knows and
    neither form is validated again. *)
Theorem transaction_lifecycle S index index' t C B l l1 :
  storage_ok l S -> at_rest l 0 C B l -> own_type t -> sized t ->
  validate_uncommitted S index t l = Returned SUCCESS l1 ->
  runs (validate_transaction S index' (to_committed t)) l1
    (fun e l' => e = SUCCESS /\ at_rest l 0 C B l') (at_rest l 0 C B) /\
  forall fuel indeterminate block txs l2,
    1 <= m_growth_factor l <= 2 ^ 20 -> mapsize_limit - B < Z.of_nat fuel ->
    to_committed t ∈ txs -> put_block indeterminate S fuel block txs l1 = Returned SUCCESS l2 ->
    runs (known ← transaction_exists S (wallet_hash t);
          again ← validate_uncommitted S index' t;
          committed ← validate_transaction S index' (to_committed t);
          mret (known, again, committed)) l2
      (fun '(known, again, committed) _ => known = true /\ again <> SUCCESS /\ committed <> SUCCESS)
      (at_rest l 0 (apply_writes C (block_writes S block txs)) B).
Proof using Laws Codec Dedupe.
  intros Hok Hr Ht Hsz Hvalid.
  pose proof (validate_uncommitted_spec l S Hok index t C B l Hr) as Hv.
  unfold runs in Hv. rewrite Hvalid in Hv. destruct Hv as [Hr1 [Hv _]].
  destruct (Hv eq_refl) as [inputs Hspend]. clear Hv. split.
  { eapply runs_weaken; [by eapply (validate_transaction_spec l S Hok)| |done].
    cbn beta. intros e l' [Hl' He]. split; [|done]. apply He.
    split; [by eapply check_commits, (spend_checked _ _ _ _ _ Hspend)|].
    unfold chain_allows. destruct (committed_work t Ht Hsz) as (p & b & size & Hparts & _).
    rewrite Hparts. pose proof (committed_key_images t) as Hk. unfold tx_key_images in Hk.
    rewrite Hparts in Hk. cbn in Hk. rewrite Hk. apply (spend_unspent _ _ _ _ _ Hspend). }
  intros fuel indeterminate block txs l2 Hg Hf Hin Hput. set (C' := apply_writes _ _).
  assert (Hg1 : 1 <= m_growth_factor l1 <= 2 ^ 20) by by rewrite (rest_growth _ _ _ _ _ Hr1).
  pose proof (put_block_contents fuel indeterminate S block txs C B l1 Hg1
    (at_rest_here _ _ _ _ _ Hr1) Hf) as Hs.
  unfold runs in Hs. rewrite Hput in Hs. apply (at_rest_from _ _ _ _ _ _ _ _ _ Hr1) in Hs. fold C' in Hs.
  destruct (checked_inputs t (spend_checked _ _ _ _ _ Hspend)) as [k Hk].
  assert (Hspent : is_Some (C' !! (m_dbi (m_key_images S), put_key k)))
    by (eapply stored_key_image; [exact Hin|]; by rewrite committed_key_images).
  assert (Hknown : is_Some (C' !! (m_dbi (m_transactions S), put_key (wallet_hash t)))).
  { rewrite <- committed_hash by done.
    apply (stored_write S C block txs (to_committed t) (transaction_write S (block_hash block) (to_committed t)));
      [by right|]. unfold transaction_writes. by left. }
  apply runs_bind. eapply runs_weaken; [eapply db_exists_spec; [apply (ok_transactions _ _ Hok)|exact Hs]| |done].
  cbn beta. intros known l3 [Hr3 ->]. rewrite bool_decide_eq_true_2 by done.
  apply runs_bind. eapply runs_weaken; [apply (spent_refused l S Hok index' k C' B l3 Hr3 Hspent), Hk| |done].
  cbn beta. intros again l4 [Hr4 Hagain]. apply runs_bind.
  eapply runs_weaken; [apply (spent_refused l S Hok index' k C' B l4 Hr4 Hspent); by rewrite committed_key_images| |done].
  cbn beta. intros committed l5 [_ Hcommitted]. by apply runs_ret.
Qed.
End Lifecycle.

(** ** Samples and witnesses *)

#[local] Existing Instance toy_crypto.

Module LifecycleSamples.
(** A chain that holds the two ring members of the sample transaction, in
    records that are laid out as they are read. *)
Definition member (o : TransactionOutput (CL := toy_crypto)) : bytes := serialize o ++ put_varint 10.

Definition ring : contents :=
  <[ (6, put_key (x21 : crypto_hash_t)) := member UserSamples.output1 ]>
  (<[ (6, put_key (x22 : crypto_hash_t)) := member UserSamples.output2 ]> ∅).

Definition funded : LMDB (CL := toy_crypto) (M := memdb) :=
  set_env (mk_mem_env ring mem_limit : mdb_env (MDB := memdb)) (StorageSamples.object mem_limit).

Definition sent : uncommitted_transaction_t (CL := toy_crypto) := U_normal UserSamples.normal.

Definition stored : LMDB (CL := toy_crypto) (M := memdb) :=
  match put_block 0 StorageSamples.store 1 StorageSamples.block [StorageSamples.tx] funded with
  | Returned _ l => l
  | _ => funded
  end.

Lemma funded_ok : storage_ok funded StorageSamples.store.
Proof. destruct (StorageSamples.store_ok mem_limit). by split. Qed.

Lemma funded_rest : at_rest funded 0 ring mem_limit funded.
Proof. constructor; try done. eexists. by split. Qed.

Lemma sent_sized : sized sent.
Proof. split; apply Z.leb_le; reflexivity. Qed.

Lemma sent_valid :
  validate_uncommitted StorageSamples.store 8 sent funded = Returned SUCCESS funded.
Proof. reflexivity. Qed.

Lemma sent_stored :
  put_block 0 StorageSamples.store 1 StorageSamples.block [StorageSamples.tx] funded = Returned SUCCESS stored.
Proof. reflexivity. Qed.
End LifecycleSamples.

Lemma transaction_lifecycle_witness :
  runs (known ← transaction_exists StorageSamples.store (wallet_hash LifecycleSamples.sent);
        again ← validate_uncommitted StorageSamples.store 9 LifecycleSamples.sent;
        committed ← validate_transaction StorageSamples.store 9 (to_committed LifecycleSamples.sent);
        mret (known, again, committed)) LifecycleSamples.stored
    (fun '(known, again, committed) _ => known = true /\ again <> SUCCESS /\ committed <> SUCCESS)
    (at_rest LifecycleSamples.funded 0
       (apply_writes LifecycleSamples.ring
          (block_writes StorageSamples.store StorageSamples.block [StorageSamples.tx])) mem_limit).
Proof.
  refine (proj2 (transaction_lifecycle (CL := toy_crypto) (M := memdb) StorageSamples.store 8 9
    LifecycleSamples.sent LifecycleSamples.ring mem_limit LifecycleSamples.funded LifecycleSamples.funded
    LifecycleSamples.funded_ok LifecycleSamples.funded_rest eq_refl LifecycleSamples.sent_sized
    LifecycleSamples.sent_valid) 1%nat 0 StorageSamples.block [StorageSamples.tx] LifecycleSamples.stored
    (StorageSamples.growth_ok _) StorageSamples.one_attempt _ LifecycleSamples.sent_stored).
  by left.
Defined.
