(* ===== verification/Ledger.v ===== *)
(** * The ledger over all histories

    A chain to which blocks are added after their transactions were validated:
    the validator ([src/src/core/transaction_validator.cpp]) and the chain
    storage ([blockchain_storage.cpp]) put together over every sequence of calls
    of [validate] and [put_block], with what was accepted as a record beside
    the database.  No function of the repository makes these calls for a block;
    what is assumed of a caller is that it stores a transaction only when
    [validate] accepted it since the last block was stored. *)

From S2P Require Import Prelude Errors Config CryptoLib Codec Concrete TxBase TxUser TxSystem.
From S2P Require Import Block TxTypes Fees Mdb MemDb Program Lmdb Storage Validator.
From Stdlib Require Import Strings.Byte.

Section Ledger.
Context {CL : CryptoLib} {M : MDB} {Laws : MDBLaws M}.
Context (indeterminate : Z) (S : BlockchainStorage).

(** ** Calls *)

(** The blocks that were stored with their transactions, the newest first. *)
Definition history : Type := list (block_t * list transaction_t).

Definition spent_by (txs : list transaction_t) : list crypto_key_image_t := flat_map tx_key_images txs.
Definition spent_in (h : history) : list crypto_key_image_t := flat_map (fun p => spent_by p.2) h.

(** No two transactions of a block share a key image.  [validate] looks at one
    transaction at a time and [put_block] does not look, so nothing makes this
    so (see [block_spends_twice] below). *)
Fixpoint apart (txs : list transaction_t) : Prop :=
  match txs with
  | [] => True
  | t :: rest => (forall k, k ∈ tx_key_images t -> k ∉ spent_by rest) /\ apart rest
  end.

(** No two blocks share a key image. *)
Fixpoint blocks_apart (h : history) : Prop :=
  match h with
  | [] => True
  | (_, txs) :: earlier => (forall k, k ∈ spent_by txs -> k ∉ spent_in earlier) /\ blocks_apart earlier
  end.

(** The histories of a chain that begins at [start], each with the transactions
    that were found valid since its last block was stored, and a state it can
    lead to.  A call that fails or throws adds nothing. *)
Inductive ledger (start : LMDB) : history -> list transaction_t -> LMDB -> Prop :=
  | ledger_start : ledger start [] [] start
  | ledger_validate h valid l index t error l' :
      ledger start h valid l -> validate_transaction S index t l = Returned error l' ->
      ledger start h (if is_error error then valid else t :: valid) l'
  | ledger_put h valid l fuel block txs error l' :
      ledger start h valid l -> txs ⊆ valid -> mapsize_limit < Z.of_nat fuel ->
      put_block indeterminate S fuel block txs l = Returned error l' ->
      ledger start (if is_error error then h else (block, txs) :: h) (if is_error error then valid else []) l'
  | ledger_validate_thrown h valid l index t l' :
      ledger start h valid l -> validate_transaction S index t l = Thrown l' -> ledger start h valid l'
  | ledger_put_thrown h valid l fuel block txs l' :
      ledger start h valid l -> txs ⊆ valid -> mapsize_limit < Z.of_nat fuel ->
      put_block indeterminate S fuel block txs l = Thrown l' -> ledger start h valid l'.

(** ** The invariant *)

(** A genesis transaction was accepted while there was no block 0. *)
Fixpoint genesis_first (h : history) : Prop :=
  match h with
  | [] => True
  | (_, txs) :: earlier =>
      ((exists tx, Genesis_tx tx ∈ txs) -> Forall (fun p => block_index p.1 <> 0) earlier) /\
      genesis_first earlier
  end.

(** The contents [C] record the history [h]. *)
Record records (h : history) (C : contents) : Prop := {
  records_apart : blocks_apart h;
  records_images : forall k, is_Some (C !! (m_dbi (m_key_images S), put_key k)) <-> k ∈ spent_in h;
  records_checked : forall b txs t, (b, txs) ∈ h -> t ∈ txs -> check_transaction t = Some SUCCESS;
  records_transactions : forall b txs t, (b, txs) ∈ h -> t ∈ txs ->
    is_Some (C !! (m_dbi (m_transactions S), put_key (transaction_hash t)));
  records_indexes : forall b txs, (b, txs) ∈ h ->
    is_Some (C !! (m_dbi (m_block_indexes S), put_uint64 (block_index b)));
  records_genesis : genesis_first h
}.

Lemma elem_of_spent_by k txs : k ∈ spent_by txs <-> exists t, t ∈ txs /\ k ∈ tx_key_images t.
Proof using.
  unfold spent_by. rewrite list_elem_of_In, in_flat_map.
  split; intros (t & Ht & Hk); exists t; by rewrite ?list_elem_of_In in *.
Qed.

Lemma spent_by_nodup txs :
  (forall t, t ∈ txs -> NoDup (tx_key_images t)) -> NoDup (spent_by txs) <-> apart txs.
Proof using.
  induction txs as [|t txs IH]; cbn; [by split; [|constructor]|]. intros Hn.
  rewrite NoDup_app, IH by (intros t' Ht'; apply Hn; by right). split; [tauto|].
  intros [Ht Hr]. split; [apply Hn; by left|by split].
Qed.

(** Blocks apart, a key image is spent twice exactly when two transactions of
    one block share it. *)
Lemma spent_in_nodup h :
  (forall b txs t, (b, txs) ∈ h -> t ∈ txs -> NoDup (tx_key_images t)) -> blocks_apart h ->
  NoDup (spent_in h) <-> Forall (fun p => apart p.2) h.
Proof using.
  induction h as [|[b txs] h IH]; [by split; constructor|]. intros Hn [Hb Hr].
  change (spent_in ((b, txs) :: h)) with (spent_by txs ++ spent_in h).
  rewrite NoDup_app, Forall_cons, IH; [|intros b' txs' t Hin; apply (Hn b'); by right|done].
  rewrite spent_by_nodup; [cbn; tauto|]. intros t. apply (Hn b). by left.
Qed.

Lemma checked_construction t :
  check_transaction t = Some SUCCESS -> transaction_check_construction t = SUCCESS.
Proof using.
  unfold check_transaction. destruct (is_error (transaction_check_construction t)) eqn:E.
  - intros [= H]. by rewrite H in E.
  - intros _. by apply transaction_no_error.
Qed.

(** Within one transaction the check refuses a repeated key image. *)
Lemma checked_nodup `{!DedupeLaws CL} t : check_transaction t = Some SUCCESS -> NoDup (tx_key_images t).
Proof using.
  intros H%checked_construction. unfold tx_key_images.
  destruct t as [tx|tx|tx|tx|tx|tx]; cbn [transaction_check_construction] in H; cbn; try constructor.
  - apply committed_normal_check_iff in H as (_ & Hio & _). apply Hio.
  - apply committed_recall_check_iff in H as (_ & Hio & _). apply Hio.
  - apply committed_stake_check_iff in H as (_ & Hio & _). apply Hio.
Qed.

Variables (l0 : LMDB) (Hok : storage_ok l0 S).
Context {Codec : CodecLaws CL}.

Lemma key_image_key_inj (k k' : crypto_key_image_t) : put_key k = put_key k' -> k = k'.
Proof using Codec.
  intros E. pose proof (get_put_key k []) as H1. pose proof (get_put_key k' []) as H2.
  rewrite E, H2 in H1. by injection H1.
Qed.

Lemma reward_spends_nothing r : tx_key_images (reward_transaction r) = [].
Proof using. by destruct r. Qed.

(** The key images after storing a block: the old ones and the block's. *)
Lemma key_image_written b txs k v :
  (m_dbi (m_key_images S), put_key k, v) ∈ block_writes S b txs -> k ∈ spent_by txs.
Proof using Hok Codec.
  intros Hin. pose proof (ok_distinct _ _ Hok) as Hd.
  repeat (apply NoDup_cons in Hd as [?Hni Hd]; rewrite ?not_elem_of_cons in Hni; destruct_and?).
  unfold block_writes in Hin. rewrite elem_of_app in Hin. destruct Hin as [Hin|Hin].
  - apply list_elem_of_In, in_flat_map in Hin as (t & Ht & Hw). apply list_elem_of_In in Hw, Ht.
    unfold transaction_writes in Hw. rewrite elem_of_cons, elem_of_app, !list_elem_of_fmap in Hw.
    destruct Hw as [Hw|[(k' & Hw & Hk')|(o & Hw & _)]]; [injection Hw; naive_solver| |injection Hw; naive_solver].
    injection Hw as E _. apply key_image_key_inj in E as ->. apply elem_of_spent_by.
    apply elem_of_cons in Ht as [-> | Ht]; [by rewrite reward_spends_nothing in Hk'; apply elem_of_nil in Hk'|].
    by exists t.
  - unfold block_table_writes in Hin. rewrite !elem_of_cons, elem_of_nil in Hin. naive_solver.
Qed.

Lemma key_image_entries C b txs k :
  is_Some (apply_writes C (block_writes S b txs) !! (m_dbi (m_key_images S), put_key k)) <->
  is_Some (C !! (m_dbi (m_key_images S), put_key k)) \/ k ∈ spent_by txs.
Proof using Hok Codec.
  split.
  - intros H. destruct (decide ((m_dbi (m_key_images S), put_key k) ∈ (block_writes S b txs).*1)) as [Hin|Hn].
    + right. apply list_elem_of_fmap in Hin as ([[d k'] v] & E & Hin). cbn in E. injection E as <- <-.
      by eapply key_image_written.
    + left. by rewrite apply_writes_other in H.
  - intros [H|H]; apply apply_writes_Some; [by left|right].
    apply elem_of_spent_by in H as (t & Ht & Hk).
    apply (list_elem_of_fmap_2 fst _ (key_image_write S k)), (transaction_write_in S b txs t); [by right|].
    unfold transaction_writes. rewrite elem_of_cons, elem_of_app. right. left. by apply list_elem_of_fmap_2.
Qed.

(** ** Accepting a block *)

Context {Dedupe : DedupeLaws CL}.

Definition accepted (C : contents) (txs : list transaction_t) : Prop :=
  Forall (fun t => check_transaction t = Some SUCCESS /\ chain_allows S C t) txs.

Lemma validate_answers index t l e l' :
  validate_transaction S index t l = Returned e l' -> is_error e = false -> e = SUCCESS.
Proof using Laws.
  unfold validate_transaction, mbind, prog_bind. destruct (check_transaction t) as [c|] eqn:Ec; cbn; [|done].
  destruct (is_error c) eqn:Hc; [by intros [= <- <-] H; rewrite H in Hc|].
  destruct (user_parts t) as [[p b]|].
  - destruct (key_images_exist S (key_images b) l) as [[]| | |]; by intros [= <- _].
  - destruct t; try (by intros [= <- _]).
    destruct (block_index_exists S 0 l) as [[]| | |]; by intros [= <- _].
Qed.

Lemma accepted_unspent C txs k h :
  records h C -> accepted C txs -> k ∈ spent_by txs -> k ∉ spent_in h.
Proof using.
  intros HC Ha (t & Ht & Hk)%elem_of_spent_by Hin. apply (records_images _ _ HC) in Hin.
  unfold accepted in Ha. rewrite Forall_forall in Ha. destruct (Ha _ Ht) as [_ Hc].
  unfold chain_allows, tx_key_images in *. destruct (user_parts t) as [[p b]|]; [|by apply elem_of_nil in Hk].
  rewrite Forall_forall in Hc. rewrite (Hc _ Hk) in Hin. by destruct Hin.
Qed.

Lemma records_extend h C b txs :
  records h C -> accepted C txs ->
  records ((b, txs) :: h) (apply_writes C (block_writes S b txs)).
Proof using Hok Codec.
  intros HC Ha. pose proof Ha as Hall. unfold accepted in Hall. rewrite Forall_forall in Hall.
  assert (Hkeep : forall k, is_Some (C !! k) -> is_Some (apply_writes C (block_writes S b txs) !! k))
    by (intros k Hk; apply apply_writes_Some; by left).
  split.
  - split; [|apply (records_apart _ _ HC)]. intros k Hk. by eapply accepted_unspent.
  - intros k. rewrite key_image_entries, (records_images _ _ HC).
    change (spent_in ((b, txs) :: h)) with (spent_by txs ++ spent_in h). rewrite elem_of_app. tauto.
  - intros b' txs' t [[= -> ->]|Hin]%elem_of_cons Ht; [by apply Hall|by eapply (records_checked _ _ HC)].
  - intros b' txs' t [[= -> ->]|Hin]%elem_of_cons Ht; [|by eapply Hkeep, (records_transactions _ _ HC)].
    apply (stored_write S C b txs t (transaction_write S (block_hash b) t)); [by right|].
    unfold transaction_writes. by left.
  - intros b' txs' [[= -> ->]|Hin]%elem_of_cons; [|by eapply Hkeep, (records_indexes _ _ HC)].
    by rewrite (stored_index l0 S Hok).
  - split; [|apply (records_genesis _ _ HC)]. intros (tx & Htx). destruct (Hall _ Htx) as [_ Hc].
    apply Forall_forall. intros [b' txs'] Hin Hz. cbn in Hz.
    destruct (records_indexes _ _ HC _ _ Hin) as [v Hv]. unfold chain_allows in Hc. cbn in Hc. by rewrite Hz, Hc in Hv.
Qed.

Variable B : Z.
Hypothesis Hgrowth : 1 <= m_growth_factor l0 <= 2 ^ 20.

(** The state of a ledger with the history [h] and the valid transactions [valid]. *)
Definition holds_history (h : history) (valid : list transaction_t) (l : LMDB) : Prop :=
  exists C, at_rest l0 0 C B l /\ records h C /\ accepted C valid.

Lemma validate_keeps h valid l index t :
  holds_history h valid l ->
  runs (validate_transaction S index t) l
    (fun e => holds_history h (if is_error e then valid else t :: valid)) (holds_history h valid).
Proof using Hok Laws.
  intros (C & Hr & HC & Hv). pose proof (validate_answers index t l) as Ha.
  eapply runs_weaken; [by apply runs_recorded, (validate_transaction_spec l0 S Hok index t C B l Hr)| |].
  - cbn beta. intros e l' (E & Hr' & He). specialize (Ha e l' E). exists C. split; [done|]. split; [done|].
    destruct (is_error e); [done|]. constructor; [by apply He, Ha|done].
  - intros l' [_ Hr']. exists C. by split.
Qed.

Lemma put_keeps h valid l fuel b txs :
  holds_history h valid l -> txs ⊆ valid -> mapsize_limit - B < Z.of_nat fuel ->
  runs (put_block indeterminate S fuel b txs) l
    (fun e => holds_history (if is_error e then h else (b, txs) :: h) (if is_error e then valid else []))
    (holds_history h valid).
Proof using Hok Hgrowth Codec Laws.
  intros (C & Hr & HC & Hv) Hin Hf.
  assert (Hacc : accepted C txs).
  { unfold accepted in *. rewrite Forall_forall in Hv |- *. auto. }
  assert (Hg1 : 1 <= m_growth_factor l <= 2 ^ 20) by by rewrite (rest_growth _ _ _ _ _ Hr).
  eapply runs_weaken; [apply (put_block_contents fuel indeterminate S b txs C B l Hg1); [|done]| |].
  - by eapply at_rest_here.
  - cbn beta. intros e l2 Hr2. pose proof (at_rest_from _ _ _ _ _ _ _ _ _ Hr Hr2) as Hr3.
    destruct (is_error e); [by exists C|]. eexists. split; [exact Hr3|].
    split; [by apply records_extend|constructor].
  - intros l2 Hr2. exists C. split; [|done]. by eapply at_rest_from.
Qed.

Lemma ledger_holds h valid l :
  0 <= B -> holds_history [] [] l0 -> ledger l0 h valid l -> holds_history h valid l.
Proof using Hok Hgrowth Codec Laws.
  intros HB H0.
  induction 1 as [|h valid l index t e l' _ IH E|h valid l fuel b txs e l' _ IH Hin Hf E
    |h valid l index t l' _ IH E|h valid l fuel b txs l' _ IH Hin Hf E]; [done|..].
  all: try (pose proof (validate_keeps h valid l index t IH) as Hrun; unfold runs in Hrun; by rewrite E in Hrun).
  all: pose proof (put_keeps h valid l fuel b txs IH Hin ltac:(lia)) as Hrun; unfold runs in Hrun;
    by rewrite E in Hrun.
Qed.
End Ledger.

(** C2: The histories of a chain that began without key images: every sequence of
    calls of [validate] and [put_block], accepted, refused or interrupted, where a
    block is stored of transactions that [validate] accepted since the last block
    was stored. No two blocks spend the same key image, nor does a transaction
    spend one twice, so every key image is spent at most once exactly
    when no two transactions of the same block share one, which neither call
    checks. The table of key images holds exactly those of the stored
    transactions, each of which passed [check] and is found under its hash; a
    genesis transaction was accepted only while there was no block 0. Another
    call ends, and leads to such a chain again. *)
Theorem ledger_spends_once {CL : CryptoLib} {M : MDB} {Laws : MDBLaws M} {Codec : CodecLaws CL}
    {Dedupe : DedupeLaws CL} indeterminate S start C0 B h valid l :
  1 <= m_growth_factor start <= 2 ^ 20 -> storage_ok start S -> at_rest start 0 C0 B start -> 0 <= B ->
  (forall k, C0 !! (m_dbi (m_key_images S), k) = None) ->
  ledger indeterminate S start h valid l ->
  blocks_apart h /\ (NoDup (spent_in h) <-> Forall (fun p => apart p.2) h) /\ genesis_first h /\
  (forall k, runs (key_image_exists S k) l (fun r _ => r = true <-> k ∈ spent_in h) (fun _ => True)) /\
  (forall b txs t, (b, txs) ∈ h -> t ∈ txs ->
     check_transaction t = Some SUCCESS /\ NoDup (tx_key_images t) /\
     runs (transaction_exists S (transaction_hash t)) l (fun r _ => r = true) (fun _ => True)) /\
  (forall index t,
     runs (validate_transaction S index t) l
       (fun e => ledger indeterminate S start h (if is_error e then valid else t :: valid))
       (ledger indeterminate S start h valid)) /\
  (forall fuel b txs, txs ⊆ valid -> mapsize_limit < Z.of_nat fuel ->
     runs (put_block indeterminate S fuel b txs) l
       (fun e => ledger indeterminate S start (if is_error e then h else (b, txs) :: h)
                   (if is_error e then valid else []))
       (ledger indeterminate S start h valid)).
Proof.
  intros Hg Hok Hr HB Hfresh Hl.
  assert (H0 : holds_history S start B [] [] start).
  { exists C0. split; [done|]. split; [|constructor].
    split; try (by intros b txs Hin; apply elem_of_nil in Hin);
      try (by intros b txs t Hin; apply elem_of_nil in Hin); try done.
    intros k. rewrite Hfresh. split; [by intros [? ?]|by intros ?%elem_of_nil]. }
  pose proof (ledger_holds indeterminate S start Hok B Hg h valid l HB H0 Hl) as Hh.
  pose proof Hh as (C & Hrest & HC & _).
  assert (Hn : forall b txs t, (b, txs) ∈ h -> t ∈ txs -> NoDup (tx_key_images t))
    by (intros b txs t Hb Ht; by eapply checked_nodup, (records_checked _ _ _ HC)).
  split; [apply HC|]. split; [apply spent_in_nodup; [done|apply HC]|]. split; [apply HC|].
  split; [|split; [|split]].
  - intros k. eapply runs_weaken; [eapply db_exists_spec; [apply (ok_key_images _ _ Hok)|exact Hrest]| |done].
    cbn beta. intros r l' [_ ->]. rewrite bool_decide_eq_true. apply (records_images _ _ _ HC).
  - intros b txs t Hb Ht. split; [by eapply (records_checked _ _ _ HC)|]. split; [by eapply Hn|].
    eapply runs_weaken; [eapply db_exists_spec; [apply (ok_transactions _ _ Hok)|exact Hrest]| |done].
    cbn beta. intros r l' [_ ->]. apply bool_decide_eq_true. by eapply (records_transactions _ _ _ HC).
  - intros index t. pose proof (validate_keeps S start Hok B h valid l index t Hh) as Hrun.
    eapply runs_weaken; [by apply runs_recorded, Hrun| |]; cbn beta.
    + intros e l' [E _]. by eapply ledger_validate.
    + intros l' [E _]. by eapply ledger_validate_thrown.
  - intros fuel b txs Hin Hf.
    pose proof (put_keeps indeterminate S start Hok B Hg h valid l fuel b txs Hh Hin ltac:(lia)) as Hrun.
    eapply runs_weaken; [by apply runs_recorded, Hrun| |]; cbn beta.
    + intros e l' [E _]. by eapply ledger_put.
    + intros l' [E _]. by eapply ledger_put_thrown.
Qed.

(** ** Samples and witnesses *)

#[local] Existing Instance toy_crypto.

Module LedgerSamples.
Definition enough : nat := Z.to_nat (mem_limit + 1).
Definition empty_chain : LMDB (CL := toy_crypto) (M := memdb) := StorageSamples.object mem_limit.

(** The state after [validate], and after the first block of a chain is stored. *)
Definition validated : LMDB (CL := toy_crypto) (M := memdb) :=
  match validate_transaction StorageSamples.store 1 StorageSamples.tx empty_chain with
  | Returned _ l => l
  | _ => StorageSamples.object 0
  end.
Definition extended : LMDB (CL := toy_crypto) (M := memdb) :=
  match put_block 0 StorageSamples.store 1 StorageSamples.block [StorageSamples.tx] validated with
  | Returned _ l => l
  | _ => StorageSamples.object 0
  end.

Lemma transaction_accepted :
  validate_transaction StorageSamples.store 1 StorageSamples.tx empty_chain = Returned SUCCESS validated.
Proof. reflexivity. Qed.

Lemma block_accepted :
  put_block 0 StorageSamples.store 1 StorageSamples.block [StorageSamples.tx] validated = Returned SUCCESS extended.
Proof. reflexivity. Qed.

Lemma block_accepted_enough :
  put_block 0 StorageSamples.store enough StorageSamples.block [StorageSamples.tx] validated =
    Returned SUCCESS extended.
Proof.
  eapply put_block_more; [exact block_accepted|]. unfold enough, mem_limit. lia.
Qed.

Lemma one_block :
  ledger 0 StorageSamples.store empty_chain [(StorageSamples.block, [StorageSamples.tx])] [] extended.
Proof.
  refine (ledger_put 0 StorageSamples.store empty_chain [] [StorageSamples.tx] validated enough
    StorageSamples.block [StorageSamples.tx] SUCCESS _ _ _ _ block_accepted_enough); [|done|].
  - exact (ledger_validate 0 StorageSamples.store empty_chain [] [] empty_chain 1 StorageSamples.tx SUCCESS _
      (ledger_start _ _ _) transaction_accepted).
  - unfold enough. rewrite Z2Nat.id by (unfold mem_limit; lia). cbn. lia.
Qed.

(** Another transaction that spends the same outputs, with another nonce, and a
    block with both. *)
Definition again : transaction_t (CL := toy_crypto) :=
  to_committed (U_normal (mk_uncommitted_normal (UserSamples.prefix 2 1)
    (mkTransactionUserBody 208 6 [x11; x12] [UserSamples.output1; UserSamples.output2])
    (mkNormalTransactionData [1; 2; 3]) UserSamples.suffix)).

Definition both : list (transaction_t (CL := toy_crypto)) :=
  if key_ltb (transaction_hash StorageSamples.tx) (transaction_hash again)
  then [StorageSamples.tx; again] else [again; StorageSamples.tx].

Definition double_block : block_t (CL := toy_crypto) :=
  fold_left (fun b t => append_transaction_hash (transaction_hash t) b) both StorageSamples.bare.

Definition double_spend : env_prog (CL := toy_crypto) (M := memdb) (ErrorCode * ErrorCode * ErrorCode) :=
  e1 ← validate_transaction StorageSamples.store 1 StorageSamples.tx;
  e2 ← validate_transaction StorageSamples.store 1 again;
  e3 ← put_block 0 StorageSamples.store 1 double_block both;
  mret (e1, e2, e3).
Definition double_errors : option (ErrorCode * ErrorCode * ErrorCode) := observe id (double_spend empty_chain).
End LedgerSamples.

(** What [apart] guards against: two transactions of one block spend the same
    key images, both are valid on the chain as it is, and the block is stored. *)
Lemma block_spends_twice :
  LedgerSamples.double_errors = Some (SUCCESS, SUCCESS, SUCCESS) /\ ~ apart LedgerSamples.both.
Proof.
  split; [vm_compute; reflexivity|]. unfold LedgerSamples.both.
  assert (H : forall t t' : transaction_t (CL := toy_crypto), tx_key_images t = [x11; x12] ->
    tx_key_images t' = [x11; x12] -> ~ apart [t; t']).
  { intros t t' Ht Ht' [Hk _]. apply (Hk (x11 : crypto_key_image_t (CryptoLib := toy_crypto))); [rewrite Ht; by left|].
    apply elem_of_spent_by. exists t'. split; [by left|]. rewrite Ht'. by left. }
  by case_match; apply H.
Qed.

Lemma ledger_spends_once_witness :
  NoDup (spent_in [(StorageSamples.block, [StorageSamples.tx])]) /\
  runs (key_image_exists StorageSamples.store (x12 : crypto_key_image_t (CryptoLib := toy_crypto))) LedgerSamples.extended
    (fun r _ => r = true) (fun _ => True).
Proof.
  destruct (ledger_spends_once (CL := toy_crypto) (M := memdb) 0 StorageSamples.store
    (StorageSamples.object mem_limit) ∅ mem_limit _ [] LedgerSamples.extended (StorageSamples.growth_ok _)
    (StorageSamples.store_ok _) StorageSamples.full_map_at_rest ltac:(unfold mem_limit; lia)
    ltac:(intros k; apply lookup_empty) LedgerSamples.one_block) as (_ & H1 & _ & H2 & _).
  split.
  - apply H1. constructor; [|constructor]. split; [intros k _ Hk; by apply elem_of_nil in Hk|done].
  - eapply runs_weaken; [apply H2| |done]. cbn beta. intros r _ ->.
    change (spent_in _) with [x11 : crypto_key_image_t (CryptoLib := toy_crypto); x12]. right. by left.
Defined.
