(* ===== verification/Peers.v ===== *)
(** * The peer database

    [src/src/p2p/peer_database.cpp] over the database wrapper.  The time and the
    generator that [std::shuffle] is given are environment: [time n] is what the
    [n]-th reading of a clock in a run gives, and [shuffle seed] the reordering
    for that seed, about which only that it is one is assumed.  Log lines are
    dropped, except that [prune] returns the peers whose deletion it logs as
    failed.  The abstract view of the database is a finite map from peer ids to
    entries ([holds]). *)

From S2P Require Import Prelude Errors Config CryptoLib Concrete Codec Packets Mdb MemDb Program.
From S2P Require Import Lmdb.
From Stdlib Require Import Strings.Byte.
Import Configuration.

Section Peers.
Context {CL : CryptoLib} {IP : IPParser} {M : MDB}.

#[local] Existing Instance key_eq_dec.
#[local] Existing Instance key_countable.

(** The environment object and the number of clock readings so far. *)
Record peer_state : Type := mk_peer_state { ps_env : LMDB; ps_clock : nat }.

Definition peer_prog (A : Type) : Type := prog peer_state A.

Definition on_db {A} (m : env_prog A) : peer_prog A :=
  zoom ps_env (fun l s => mk_peer_state l (ps_clock s)) m.

Record PeerDB : Type := mk_PeerDB { m_database : LMDBDatabase; m_peer_id : crypto_hash_t }.

Variables (time : nat -> Z) (shuffle : Z -> list network_peer_t -> list network_peer_t).
Variables (indeterminate : Z) (fuel walk : nat).

Definition read_clock : peer_prog Z := fun s =>
  Returned (time (ps_clock s)) (mk_peer_state (ps_env s) (S (ps_clock s))).

(** ** Construction *)

Definition PEER_ID_IDENTIFIER : crypto_hash_t :=
  hash_of_hex "5440dd9b6683e3b2b0805eec3514ff3e23b7edea1bf29b434cd7a8447687650d".

(** The part of the constructor after the databases are open: the stored peer
    id, or the random one. *)
Definition new_PeerDB (peerlist info : LMDBDatabase) (random_hash : crypto_hash_t)
  : env_prog PeerDB :=
  '(error, value) ← db_get_as get_key key_default info (put_key PEER_ID_IDENTIFIER);
  let id := if is_error error then random_hash else value in
  db_put fuel indeterminate info (put_key PEER_ID_IDENTIFIER) (put_key id) 0;;
  mret (mk_PeerDB peerlist id).

Context (P : PeerDB).

(** ** Operations *)

(** [time(nullptr) - PEER_PRUNE_TIME], on [uint64_t]. *)
Definition prune_time (now : Z) : Z := wrap64 (now - P2P.PEER_PRUNE_TIME).

Definition add (entry : network_peer_t) : peer_prog ErrorCode :=
  if bool_decide (peer_id entry = m_peer_id P) then mret PEERLIST_ADD_FAILURE
  else
    now ← read_clock;
    if last_seen entry <? prune_time now then mret PEERLIST_ADD_FAILURE
    else
      on_db (db_put fuel indeterminate (m_database P) (put_key (peer_id entry))
               (peer_serialize entry) 0).

Definition count : peer_prog Z := on_db (db_count walk (m_database P)).

Definition del (id : crypto_hash_t) : peer_prog ErrorCode :=
  on_db (db_del fuel indeterminate (m_database P) (put_key id) None).

Definition del_entry (entry : network_peer_t) : peer_prog ErrorCode := del (peer_id entry).

Definition peer_exists (id : crypto_hash_t) : peer_prog bool :=
  on_db (db_exists (m_database P) (put_key id)).

(** An entry that was not found is a default one, made at the current time. *)
Definition get (id : crypto_hash_t) : peer_prog (ErrorCode * network_peer_t) :=
  now ← read_clock;
  on_db (db_get_as peer_deserialize (default_peer now) (m_database P) (put_key id)).

Definition peer_ids : peer_prog (list crypto_hash_t) :=
  on_db (list_keys_as get_key walk (m_database P)).

Definition peers (count : Z) (network_id : crypto_hash_t) : peer_prog (list network_peer_t) :=
  all ← on_db (db_get_all_as peer_deserialize walk (m_database P));
  let selected :=
    if negb (key_empty network_id)
    then List.filter (fun p => bool_decide (peer_network_id p = network_id)) all else all in
  seed ← read_clock;
  let shuffled := shuffle seed selected in
  mret (if negb (count =? 0) && (count <? vsize shuffled)
        then take (Z.to_nat count) shuffled else shuffled).

(** The peers whose deletion failed. *)
Fixpoint prune_loop (prune_before : Z) (all_peers : list network_peer_t)
  : peer_prog (list crypto_hash_t) :=
  match all_peers with
  | [] => mret []
  | peer :: rest =>
      if last_seen peer <? prune_before then
        error ← del (peer_id peer);
        failed ← prune_loop prune_before rest;
        mret (if is_error error then peer_id peer :: failed else failed)
      else prune_loop prune_before rest
  end.

Definition prune : peer_prog (list crypto_hash_t) :=
  all_peers ← peers 0 key_default;
  now ← read_clock;
  prune_loop (prune_time now) all_peers.

Definition set_last_seen (now : Z) (p : network_peer_t) : network_peer_t :=
  mk_peer (peer_address p) (peer_id p) (peer_port p) (peer_network_id p) now.

Definition touch (id : crypto_hash_t) : peer_prog ErrorCode :=
  '(error_get, peer) ← get id;
  if is_error error_get then mret error_get
  else
    now ← read_clock;
    add (set_last_seen now peer).

(** ** The abstract view *)

(** What is stored of an entry. *)
Definition stored (p : network_peer_t) : network_peer_t :=
  mk_peer (mk_ipv6 (components (peer_address p)) (ip_flags (peer_address p)) ip_rest_default)
    (peer_id p) (peer_port p) (peer_network_id p) (last_seen p).

Definition entry_ok (p : network_peer_t) : Prop :=
  ip_normalized (peer_address p) /\ u16 (peer_port p) /\ u64 (last_seen p).

Notation peer_map := (gmap crypto_hash_t network_peer_t).

Record represents (C : contents) (m : peer_map) : Prop := {
  represents_entry : forall h, C !! (m_dbi (m_database P), put_key h) = peer_serialize <$> m !! h;
  represents_key : forall k v, C !! (m_dbi (m_database P), k) = Some v ->
    exists h : crypto_hash_t, k = put_key h;
  represents_ok : forall h p, m !! h = Some p -> peer_id p = h /\ peer_wf p /\ h <> m_peer_id P
}.
End Peers.

(** ** Lemmas: the abstract view *)

Section PeerFacts.
Context {CL : CryptoLib} {IP : IPParser} {M : MDB} {Laws : MDBLaws M} {CLaws : MDBCursorLaws M}.
Context {Codec : CodecLaws CL} {IPL : IPParserLaws IP}.

#[local] Existing Instance key_eq_dec.
#[local] Existing Instance key_countable.

Notation peer_map := (gmap crypto_hash_t network_peer_t).
Implicit Types (C : contents) (m : peer_map) (h : crypto_hash_t) (p : network_peer_t).

Lemma put_key_inj h h' : put_key h = put_key h' -> h = h'.
Proof using Codec.
  intros E. pose proof (get_put_key h []) as H. rewrite E, get_put_key in H. by injection H.
Qed.

Lemma put_key_not_nil h : put_key h <> [].
Proof using Codec. intros E. pose proof (hash_size h) as H. by rewrite E in H. Qed.

Variable P : PeerDB.

Lemma represents_insert C m h p :
  represents P C m -> peer_id p = h -> peer_wf p -> h <> m_peer_id P ->
  represents P (<[(m_dbi (m_database P), put_key h) := peer_serialize p]> C) (<[h := p]> m).
Proof using Codec.
  intros [He Hk Hok] Hid Hwf Hown. split.
  - intros h'. destruct (decide (h = h')) as [->|Hne].
    + by rewrite !lookup_insert_eq.
    + rewrite !lookup_insert_ne; [done..|]. intros [= E%put_key_inj]. done.
  - intros k v. destruct (decide (k = put_key h)) as [->|Hne]; [by exists h|].
    rewrite lookup_insert_ne by congruence. apply Hk.
  - intros h' p' [[<- <-]|[Hne Hl]]%lookup_insert_Some; [done|]. by apply Hok.
Qed.

Lemma represents_delete C m h :
  represents P C m ->
  represents P (delete (m_dbi (m_database P), put_key h) C) (delete h m).
Proof using Codec.
  intros [He Hk Hok]. split.
  - intros h'. destruct (decide (h = h')) as [->|Hne].
    + by rewrite !lookup_delete_eq.
    + rewrite !lookup_delete_ne; [done..|]. intros [= E%put_key_inj]. done.
  - intros k v [Hne Hl]%lookup_delete_Some. by eapply Hk.
  - intros h' p' [Hne Hl]%lookup_delete_Some. by apply Hok.
Qed.

Lemma represents_no_empty C m : represents P C m -> C !! (m_dbi (m_database P), []) = None.
Proof using Codec.
  intros [_ Hk _]. destruct (C !! _) as [v|] eqn:E; [|done].
  destruct (Hk _ _ E) as [h Hh]. by destruct (put_key_not_nil h).
Qed.

(** The pair that is stored for an entry of the map. *)
Definition entry_pair (e : crypto_hash_t * network_peer_t) : bytes * bytes :=
  (put_key e.1, peer_serialize e.2).

(** The pairs of the database are those of the map, in some order. *)
Lemma represents_items C m items :
  represents P C m -> pairs_of C (m_dbi (m_database P)) items ->
  exists l, l ≡ₚ map_to_list m /\ items = entry_pair <$> l.
Proof using Codec.
  intros [He Hk Hok] [Hnd Hin].
  assert (Hp : items ≡ₚ entry_pair <$> map_to_list m).
  { apply NoDup_Permutation; [by eapply NoDup_fmap_1| |].
    - apply NoDup_fmap_2_strong; [|apply NoDup_map_to_list].
      intros [h p] [h' p'] H1%elem_of_map_to_list H2%elem_of_map_to_list [= E%put_key_inj _].
      subst h'. congruence.
    - intros [k v]. rewrite Hin, list_elem_of_fmap. split.
      + intros Hc. destruct (Hk _ _ Hc) as [h ->]. rewrite He in Hc.
        apply fmap_Some in Hc as (p & Hm & ->). exists (h, p).
        split; [done|]. by apply elem_of_map_to_list.
      + intros ([h p] & [= -> ->] & Hm%elem_of_map_to_list). by rewrite He, Hm. }
  apply Permutation_map_inv in Hp as (l & -> & Hl). by exists l.
Qed.

Lemma represents_size C m :
  represents P C m -> size (table C (m_dbi (m_database P))) = size m.
Proof using Codec.
  intros [He Hk Hok]. rewrite <- (length_map_to_list m).
  rewrite <- (length_fmap entry_pair (map_to_list m)). symmetry. apply table_size.
  - apply NoDup_fmap_2_strong; [|apply NoDup_map_to_list].
    intros [h p] [h' p'] H1%elem_of_map_to_list H2%elem_of_map_to_list [= E%put_key_inj _].
    subst h'. congruence.
  - intros k v. rewrite list_elem_of_fmap. split.
    + intros ([h p] & [= -> ->] & Hm%elem_of_map_to_list). by rewrite He, Hm.
    + intros Hc. destruct (Hk _ _ Hc) as [h ->]. rewrite He in Hc.
      apply fmap_Some in Hc as (p & Hm & ->). exists (h, p).
      split; [done|]. by apply elem_of_map_to_list.
Qed.

Lemma peer_get_put p : peer_wf p -> fst <$> peer_deserialize (peer_serialize p) = Some p.
Proof using Codec IPL.
  intros Hwf. pose proof (deserialize_serialize (wf := peer_wf) p [] Hwf) as H.
  rewrite app_nil_r in H. cbn in H. by rewrite H.
Qed.

Lemma stored_serialize p : peer_serialize (stored p) = peer_serialize p.
Proof using. done. Qed.

Lemma stored_wf p : entry_ok p -> peer_wf (stored p).
Proof using. intros (Hn & Hp & Hs). split; [|done]. by split. Qed.

Lemma stored_id p : peer_wf p -> stored p = p.
Proof using.
  destruct p as [[comp fl rest] ? ? ? ?]. intros ([_ Hr] & _). cbn in Hr. by subst rest.
Qed.
End PeerFacts.

(** ** Lemmas: the operations *)

Section PeerSpecs.
Context {CL : CryptoLib} {IP : IPParser} {M : MDB} {Laws : MDBLaws M} {CLaws : MDBCursorLaws M}.
Context {Codec : CodecLaws CL} {IPL : IPParserLaws IP} {Empty : EmptyHashLaws CL}.

#[local] Existing Instance key_eq_dec.
#[local] Existing Instance key_countable.

Notation peer_map := (gmap crypto_hash_t network_peer_t).

Variables (time : nat -> Z) (shuffle : Z -> list network_peer_t -> list network_peer_t).
Variables (indeterminate : Z) (fuel walk : nat) (P : PeerDB) (l0 : LMDB) (B : Z).
Hypothesis time_ok : forall n, u64 (time n).
Hypothesis shuffle_ok : forall seed l, shuffle seed l ≡ₚ l.
Hypothesis Hgrowth : 1 <= m_growth_factor l0 <= 2 ^ 20.
Hypothesis Hdb : registered l0 (m_database P).
Hypothesis Hfuel : mapsize_limit - B < Z.of_nat fuel.

(** The database holds the entries [m], and no transaction is open. *)
Definition holds (m : peer_map) (s : peer_state) : Prop :=
  exists C, at_rest l0 0 C B (ps_env s) /\ represents P C m.

(** An entry that is too old at the time [now]. *)
Definition stale (now : Z) (p : network_peer_t) : Prop := last_seen p < prune_time now.

#[global] Instance stale_dec now p : Decision (stale now p).
Proof. unfold stale. apply _. Defined.

Lemma runs_on_db {A} (m : env_prog A) s (Q : A -> peer_state -> Prop) X :
  runs m (ps_env s) (fun a l => Q a (mk_peer_state l (ps_clock s)))
    (fun l => X (mk_peer_state l (ps_clock s))) ->
  runs (on_db m) s Q X.
Proof using. intros H. by apply runs_zoom. Qed.

Lemma runs_read_clock {A} (f : Z -> peer_prog A) s (Q : A -> peer_state -> Prop) X :
  runs (f (time (ps_clock s))) (mk_peer_state (ps_env s) (S (ps_clock s))) Q X ->
  runs (now ← read_clock time; f now) s Q X.
Proof using. done. Qed.

(** A program on the environment that leaves its contents alone. *)
Lemma on_db_reading {A} (prog : env_prog A) m s (R : A -> Prop) :
  holds m s ->
  (forall C l, at_rest l0 0 C B l -> represents P C m ->
     runs prog l (fun a l' => at_rest l0 0 C B l' /\ R a) (at_rest l0 0 C B)) ->
  runs (on_db prog) s (fun a s' => holds m s' /\ ps_clock s' = ps_clock s /\ R a) (holds m).
Proof using.
  intros (C & Hr & HC) Hp. apply runs_on_db. eapply runs_weaken; [by apply Hp| |].
  - cbn. intros a l' [Hr' HR]. split; [by exists C|]. by split.
  - intros l' Hr'. by exists C.
Qed.

Lemma add_spec m p s :
  holds m s -> entry_ok p ->
  runs (add time indeterminate fuel P p) s
    (fun e s' =>
       if decide (peer_id p = m_peer_id P \/ stale (time (ps_clock s)) p)
       then e = PEERLIST_ADD_FAILURE /\ holds m s'
       else holds (if is_error e then m else <[peer_id p := stored p]> m) s')
    (holds m).
Proof using Codec Hgrowth Hdb Hfuel.
  intros Hh Hok. unfold add. destruct (decide _) as [Hd|Hd].
  - case_bool_decide; [by apply runs_ret|]. destruct Hd as [|Hs]; [done|].
    apply runs_read_clock. unfold stale in Hs. rewrite (proj2 (Z.ltb_lt _ _) Hs).
    by apply runs_ret.
  - apply Decidable.not_or in Hd as [Hid Hs]. rewrite bool_decide_eq_false_2 by done.
    apply runs_read_clock. unfold stale in Hs. rewrite (proj2 (Z.ltb_ge _ _)) by lia.
    destruct Hh as (C & Hr & HC). apply runs_on_db. cbn.
    eapply runs_weaken; [by eapply db_put_spec| |].
    + cbn. intros e l' Hr'. destruct (is_error e); [by exists C|].
      eexists. split; [exact Hr'|]. rewrite <- stored_serialize.
      by apply represents_insert; [| |apply stored_wf|].
    + intros l' Hr'. by exists C.
Qed.

Lemma del_spec m h s :
  holds m s ->
  runs (del indeterminate fuel P h) s
    (fun e s' => holds (if is_error e then m else delete h m) s' /\ ps_clock s' = ps_clock s)
    (holds m).
Proof using Codec Hgrowth Hdb Hfuel.
  intros (C & Hr & HC). apply runs_on_db. eapply runs_weaken; [by eapply db_del_spec| |].
  - cbn. intros e l' Hr'. split; [|done]. destruct (is_error e); [by exists C|].
    eexists. split; [exact Hr'|]. by apply represents_delete.
  - intros l' Hr'. by exists C.
Qed.

Lemma get_spec m h s :
  holds m s ->
  runs (get time P h) s
    (fun r s' => holds m s' /\ ps_clock s' = S (ps_clock s) /\
       match m !! h with
       | Some p => r = (SUCCESS, p)
       | None => is_error (fst r) = true /\ snd r = default_peer (time (ps_clock s))
       end)
    (holds m).
Proof using Codec IPL Hdb.
  intros Hh. unfold get. apply runs_read_clock.
  eapply runs_weaken; [apply (on_db_reading _ m _ (fun r => match m !! h with
       | Some p => r = (SUCCESS, p)
       | None => is_error (fst r) = true /\ snd r = default_peer (time (ps_clock s))
       end))| |done].
  - exact Hh.
  - intros C l Hr HC. eapply runs_conseq; [by eapply db_get_as_spec|]. cbn.
    intros r l' [Hr' Hv]. split; [done|]. rewrite (represents_entry _ _ _ HC) in Hv.
    destruct (m !! h) as [p|] eqn:E; cbn in Hv; [|done].
    destruct Hv as (x & rest & Hx & ->). pose proof (represents_ok _ _ _ HC _ _ E) as (_ & Hwf & _).
    pose proof (peer_get_put p Hwf) as Hp. rewrite Hx in Hp. cbn in Hp. congruence.
  - cbn. done.
Qed.

(** The values that are read back. *)
Lemma all_entries_spec m s :
  holds m s -> (size m < walk)%nat ->
  runs (on_db (db_get_all_as peer_deserialize walk (m_database P))) s
    (fun ps s' => holds m s' /\ ps_clock s' = ps_clock s /\ ps ≡ₚ (map_to_list m).*2) (holds m).
Proof using Codec IPL Hdb CLaws.
  intros Hh Hw. apply on_db_reading; [done|]. intros C l Hr HC. unfold db_get_all_as.
  apply runs_bind. eapply runs_weaken; [eapply db_get_all_spec| |done]; [done|done| |by eapply represents_no_empty|].
  { by rewrite (represents_size _ _ _ HC). }
  cbn. intros vs l' (Hr' & items & Hit & ->).
  destruct (represents_items P C m items HC Hit) as (lm & Hlm & ->).
  assert (Hm : mapM (fun v => fst <$> peer_deserialize v) (entry_pair <$> lm).*2 = Some lm.*2).
  { assert (Hall : forall h p, (h, p) ∈ lm -> peer_wf p).
    { intros h p Hin. rewrite Hlm in Hin. apply elem_of_map_to_list in Hin.
      by apply (represents_ok _ _ _ HC) in Hin as (_ & ? & _). }
    clear -Hall Codec IPL. induction lm as [|[h p] lm IH]; [done|]. cbn.
    pose proof (peer_get_put p (Hall h p ltac:(by left))) as Hp. cbn in Hp. rewrite Hp. cbn.
    rewrite IH; [done|]. intros h' p' Hin. apply (Hall h'). by right. }
  rewrite Hm. apply runs_ret. split; [done|]. by rewrite Hlm.
Qed.

(** The entries of a network, of all when the id is empty. *)
Definition of_network (network_id : crypto_hash_t) (p : network_peer_t) : Prop :=
  key_empty network_id = true \/ peer_network_id p = network_id.

#[global] Instance of_network_dec nid p : Decision (of_network nid p).
Proof. unfold of_network. apply _. Defined.

Lemma select_spec network_id (all : list network_peer_t) :
  (if negb (key_empty network_id)
   then List.filter (fun p => bool_decide (peer_network_id p = network_id)) all else all) =
  filter (of_network network_id) all.
Proof using.
  induction all as [|p all IH]; [by destruct (key_empty _)|]. rewrite filter_cons, <- IH. cbn.
  destruct (decide (of_network network_id p)) as [Hp|Hp]; unfold of_network in Hp.
  - destruct (key_empty network_id); cbn; [done|]. destruct Hp as [|Hp]; [done|].
    by rewrite bool_decide_eq_true_2.
  - destruct (key_empty network_id); cbn; [by destruct Hp; left|].
    rewrite bool_decide_eq_false_2; [done|]. intros ?. apply Hp. by right.
Qed.

Lemma peers_spec m n network_id s :
  holds m s -> (size m < walk)%nat -> 0 <= n ->
  runs (peers time shuffle walk P n network_id) s
    (fun r s' => holds m s' /\ ps_clock s' = S (ps_clock s) /\
       let selected := filter (of_network network_id) (map_to_list m).*2 in
       r ⊆+ selected /\
       vsize r = if n =? 0 then vsize selected else Z.min n (vsize selected))
    (holds m).
Proof using Codec IPL Hdb CLaws shuffle_ok.
  clear Hfuel Hgrowth. intros Hh Hw Hn. unfold peers. apply runs_bind.
  eapply runs_weaken; [by eapply all_entries_spec| |done].
  cbn. intros ps s1 (Hh1 & Hc1 & Hps). rewrite select_spec. apply runs_read_clock, runs_ret.
  split; [exact Hh1|]. split; [cbn; by rewrite Hc1|].
  set (sel := filter (of_network network_id) (map_to_list m).*2).
  set (l := shuffle _ _).
  assert (Hl : l ≡ₚ sel) by (unfold l, sel; by rewrite shuffle_ok, Hps).
  assert (Hlen : vsize l = vsize sel) by (by rewrite Hl).
  destruct (Z.eqb_spec n 0), (Z.ltb_spec n (vsize l)); cbn.
  1,2,4: split; [by rewrite Hl|]; lia.
  split; [rewrite <- Hl; apply sublist_submseteq, sublist_take|]. rewrite length_take. lia.
Qed.

(** What pruning leaves, when the deletions of [failed] failed. *)
Definition pruned (now : Z) (failed : list crypto_hash_t) (m : peer_map) : peer_map :=
  filter (fun e => ~ (stale now e.2 /\ e.1 ∉ failed)) m.

(** What an exception leaves: some old entries may be gone. *)
Definition partly_pruned (now : Z) (m : peer_map) (s : peer_state) : Prop :=
  exists m', holds m' s /\ m' ⊆ m /\
    forall h p, m !! h = Some p -> ~ stale now p -> m' !! h = Some p.

Lemma prune_loop_spec now ps m s :
  holds m s -> NoDup (peer_id <$> ps) ->
  (forall p, p ∈ ps -> m !! peer_id p = Some p) ->
  runs (prune_loop indeterminate fuel P (prune_time now) ps) s
    (fun failed s' => (forall h, h ∈ failed -> h ∈ peer_id <$> ps) /\
       exists m', holds m' s' /\
         forall h, m' !! h = if decide (h ∈ peer_id <$> filter (stale now) ps /\ h ∉ failed)
                             then None else m !! h)
    (partly_pruned now m).
Proof using Codec Hgrowth Hdb Hfuel.
  revert m s. induction ps as [|p ps IH]; intros m s Hh Hnd Hin; cbn [prune_loop].
  { apply runs_ret. split; [done|]. exists m. split; [done|]. intros h. rewrite decide_False; [done|].
    intros [Hf _]. by apply not_elem_of_nil in Hf. }
  cbn in Hnd. apply NoDup_cons in Hnd as [Hp Hnd].
  destruct (Z.ltb_spec (last_seen p) (prune_time now)) as [Hs|Hs].
  - rewrite (filter_cons_True (stale now) p ps Hs). apply runs_bind.
    eapply runs_weaken; [by apply del_spec| |by intros s' Hs'; exists m].
    cbn. intros e s1 [Hh1 _]. apply runs_bind.
    set (m1 := if is_error e then m else delete (peer_id p) m) in *.
    assert (Hm1 : forall h, h <> peer_id p -> m1 !! h = m !! h).
    { intros h Hne. unfold m1. destruct (is_error e); [done|]. by rewrite lookup_delete_ne. }
    eapply runs_weaken; [apply (IH m1 s1 Hh1 Hnd)| |].
    + intros q Hq. rewrite Hm1; [apply Hin; by right|]. intros E. apply Hp. rewrite <- E.
      by apply list_elem_of_fmap_2.
    + cbn. intros failed s2 (Hf & m2 & Hh2 & Hm2). apply runs_ret. split.
      * intros h Hx. destruct (is_error e); [apply elem_of_cons in Hx as [->|Hx]; [by left|]|];
          right; by apply Hf.
      * exists m2. split; [done|]. intros h. rewrite Hm2.
        assert (Hpf : peer_id p ∉ failed) by (intros Hx; by apply Hp, Hf).
        assert (Hps : peer_id p ∉ peer_id <$> filter (stale now) ps).
        { intros (q & E & Hq)%list_elem_of_fmap. apply list_elem_of_filter in Hq as [_ Hq].
          apply Hp. rewrite E. by apply list_elem_of_fmap_2. }
        destruct (decide (h = peer_id p)) as [->|Hne].
        -- rewrite decide_False by tauto. unfold m1. destruct (is_error e).
           ++ rewrite decide_False; [done|]. intros [_ Hx]. apply Hx. by left.
           ++ rewrite decide_True; [apply lookup_delete_eq|]. split; [by left|done].
        -- rewrite (Hm1 h Hne). apply decide_ext.
           destruct (is_error e); cbn; rewrite ?elem_of_cons; tauto.
    + intros s2 (m2 & Hh2 & Hsub & Hfresh). exists m2. split; [done|]. split.
      * transitivity m1; [done|]. unfold m1. destruct (is_error e); [done|]. apply delete_subseteq.
      * intros h q Hq Hst. apply Hfresh; [|done]. rewrite Hm1; [done|]. intros ->. apply Hst.
        rewrite (Hin p) in Hq by by left. by injection Hq as <-.
  - rewrite (filter_cons_False (stale now) p ps) by (unfold stale; lia).
    eapply runs_weaken; [apply (IH m s Hh Hnd)| |done].
    + intros q Hq. apply Hin. by right.
    + cbn. intros failed s1 (Hf & m1 & Hh1 & Hm1). split; [|by exists m1].
      intros h Hx. right. by apply Hf.
Qed.

Lemma prune_spec m s :
  holds m s -> (size m < walk)%nat ->
  runs (prune time shuffle indeterminate fuel walk P) s
    (fun failed s' => holds (pruned (time (S (ps_clock s))) failed m) s')
    (partly_pruned (time (S (ps_clock s))) m).
Proof using Codec IPL Empty Hdb CLaws shuffle_ok Hgrowth Hfuel.
  intros Hh Hw. set (now := time (S (ps_clock s))).
  assert (Hnone : forall s', holds m s' -> partly_pruned now m s') by (intros s' Hs'; by exists m).
  unfold prune. apply runs_bind.
  eapply runs_weaken; [by apply (peers_spec m 0)| |exact Hnone].
  cbn. intros ps s1 (Hh1 & Hc1 & Hsub & Hlen). apply runs_read_clock. rewrite Hc1. fold now.
  assert (Hall : forall l : list network_peer_t, filter (of_network key_default) l = l).
  { intros l. induction l as [|p l IH]; [done|].
    rewrite filter_cons_True, IH; [done|]. left. apply default_hash_empty. }
  rewrite Hall in Hsub, Hlen.
  assert (Hps : ps ≡ₚ (map_to_list m).*2).
  { apply submseteq_length_Permutation; [done|]. lia. }
  destruct Hh1 as (C & Hr & HC).
  assert (Hid : forall h p, m !! h = Some p -> peer_id p = h).
  { intros h p Hp. by destruct (represents_ok _ _ _ HC h p Hp). }
  assert (Hin : forall p, p ∈ ps <-> m !! peer_id p = Some p).
  { intros p. rewrite Hps, list_elem_of_fmap. split.
    - intros ([h q] & -> & Hq%elem_of_map_to_list). cbn. by rewrite (Hid _ _ Hq).
    - intros Hp. exists (peer_id p, p). split; [done|]. by apply elem_of_map_to_list. }
  assert (Hkeys : peer_id <$> (map_to_list m).*2 = (map_to_list m).*1).
  { rewrite <- list_fmap_compose. apply list_fmap_ext. intros _ [h p] Hp%list_elem_of_lookup_2.
    apply elem_of_map_to_list in Hp. by apply Hid. }
  eapply runs_weaken; [apply (prune_loop_spec now ps m)| |done].
  - by exists C.
  - rewrite Hps, Hkeys. apply NoDup_fst_map_to_list.
  - intros p. apply Hin.
  - cbn. intros failed s2 (_ & m' & Hh' & Hm'). replace (pruned now failed m) with m'; [done|].
    apply map_eq. intros h. rewrite Hm'. unfold pruned. destruct (m !! h) as [p|] eqn:E.
    + assert (Hst : h ∈ peer_id <$> filter (stale now) ps <-> stale now p).
      { rewrite list_elem_of_fmap. split.
        - intros (q & -> & [Hq Hqin]%list_elem_of_filter). apply Hin in Hqin. congruence.
        - intros Hp. exists p. pose proof (Hid _ _ E). subst h. split; [done|].
          apply list_elem_of_filter. split; [done|]. by apply Hin. }
      case_decide as Hd.
      * symmetry. apply map_lookup_filter_None. right. intros p' Hp'. cbn.
        assert (p' = p) as -> by congruence. tauto.
      * symmetry. apply map_lookup_filter_Some. split; [done|]. cbn. tauto.
    + symmetry. rewrite (proj2 (map_lookup_filter_None _ _ _)) by by left. by case_decide.
Qed.

(** The entry that [touch] writes was read from the database, so it is whole. *)
Lemma touch_spec m h s :
  holds m s ->
  runs (touch time indeterminate fuel P h) s
    (fun e s' => match m !! h with
       | None => is_error e = true /\ holds m s'
       | Some p => holds (if is_error e then m
                          else <[h := set_last_seen (time (S (ps_clock s))) p]> m) s'
       end)
    (holds m).
Proof using Codec IPL Hgrowth Hdb Hfuel time_ok.
  intros Hh. unfold touch. apply runs_bind. eapply runs_weaken; [by eapply get_spec| |done].
  cbn. intros [e q] s1 (Hh1 & Hc1 & Hr). destruct (m !! h) as [p|] eqn:E.
  - injection Hr as -> ->. cbn [is_error bool_decide]. apply runs_read_clock. rewrite Hc1.
    set (now := time (S (ps_clock s))).
    assert (Hp : peer_id p = h /\ peer_wf p /\ h <> m_peer_id P).
    { destruct Hh1 as (C & _ & HC). by apply (represents_ok _ _ _ HC). }
    destruct Hp as (Hid & (Hip & Hport & Hseen) & Hown).
    eapply runs_conseq; [apply (add_spec m (set_last_seen now p))| ].
    + by destruct Hh1 as (C & Hr & HC); exists C.
    + split; [apply Hip|]. split; [done|]. apply time_ok.
    + cbn. intros e s2. destruct (decide _) as [Hd|Hd].
      * by intros [-> ?].
      * rewrite Hid. rewrite stored_id; [done|]. split; [done|]. split; [done|]. apply time_ok.
  - destruct Hr as [He _]. cbn in He. rewrite He. apply runs_ret. by split.
Qed.

(** The readings that give one answer. *)
Lemma peer_exists_spec m h s :
  holds m s ->
  runs (peer_exists P h) s
    (fun b s' => holds m s' /\ ps_clock s' = ps_clock s /\ b = bool_decide (is_Some (m !! h)))
    (holds m).
Proof using Codec Hdb.
  intros Hh. apply on_db_reading; [done|]. intros C l Hr HC.
  eapply runs_conseq; [by eapply db_exists_spec|]. cbn. intros b l' [Hr' ->]. split; [done|].
  rewrite (represents_entry _ _ _ HC). apply bool_decide_ext. by rewrite fmap_is_Some.
Qed.

Lemma peer_count_spec m s :
  holds m s -> (size m < walk)%nat ->
  runs (count walk P) s
    (fun n s' => holds m s' /\ ps_clock s' = ps_clock s /\ n = Z.of_nat (size m)) (holds m).
Proof using Codec Hdb CLaws.
  intros Hh Hw. apply on_db_reading; [done|]. intros C l Hr HC.
  pose proof (represents_size P C m HC) as Hs.
  eapply runs_conseq; [eapply db_count_spec; [done|done|by rewrite Hs]|]. cbn.
  intros n l' [Hr' ->]. split; [done|]. by rewrite Hs.
Qed.

Lemma peer_ids_spec m s :
  holds m s -> (size m < walk)%nat ->
  runs (peer_ids walk P) s
    (fun ids s' => holds m s' /\ ps_clock s' = ps_clock s /\ ids ≡ₚ (map_to_list m).*1) (holds m).
Proof using Codec Hdb CLaws.
  intros Hh Hw. apply on_db_reading; [done|]. intros C l Hr HC. unfold list_keys_as.
  apply runs_bind. eapply runs_weaken; [eapply list_keys_spec| |done];
    [done|done| |by eapply represents_no_empty|].
  { by rewrite (represents_size _ _ _ HC). }
  cbn. intros ks l' (Hr' & items & Hit & ->).
  destruct (represents_items P C m items HC Hit) as (lm & Hlm & ->).
  assert (Hm : mapM (fun v => fst <$> (get_key : reader crypto_hash_t) v) (entry_pair <$> lm).*1 =
               Some lm.*1).
  { clear Hlm Hit Hr'. induction lm as [|[h p] lm IH]; [done|]. cbn.
    pose proof (get_put_key h []) as Hk. rewrite app_nil_r in Hk. rewrite Hk. cbn. by rewrite IH. }
  rewrite Hm. apply runs_ret. split; [done|]. by rewrite Hlm.
Qed.
End PeerSpecs.

(** ** Properties *)

Section PeerProps.
Context {CL : CryptoLib} {IP : IPParser} {M : MDB} {Laws : MDBLaws M} {CLaws : MDBCursorLaws M}.
Context {Codec : CodecLaws CL} {IPL : IPParserLaws IP} {Empty : EmptyHashLaws CL}.

#[local] Existing Instance key_eq_dec.
#[local] Existing Instance key_countable.

Notation peer_map := (gmap crypto_hash_t network_peer_t).

Variables (time : nat -> Z)
  (indeterminate : Z) (fuel walk : nat) (P : PeerDB) (l0 : LMDB) (B : Z).

(** C25: Adding a peer ends and answers: the node itself and a peer that was last
    seen before the pruning time are refused; otherwise the entry is stored
    whole or not at all, replacing the one of the same id, and every peer is
    then read back as the abstract map says; the node's own id is never
    stored. *)
Theorem peer_add_correct (m : peer_map) p h s :
  1 <= m_growth_factor l0 <= 2 ^ 20 -> registered l0 (m_database P) ->
  mapsize_limit - B < Z.of_nat fuel ->
  holds P l0 B m s -> entry_ok p ->
  runs (e ← add time indeterminate fuel P p; r ← get time P h; mret (e, r)) s
    (fun '(e, r) s' =>
       let m' := if is_error e then m else <[peer_id p := stored p]> m in
       holds P l0 B m' s' /\ m' !! m_peer_id P = None /\
       (peer_id p = m_peer_id P \/ stale (time (ps_clock s)) p -> e = PEERLIST_ADD_FAILURE) /\
       match m' !! h with
       | Some q => r = (SUCCESS, q)
       | None => is_error (fst r) = true
       end)
    (fun s' => holds P l0 B m s' \/ holds P l0 B (<[peer_id p := stored p]> m) s').
Proof using Codec IPL.
  intros Hg Hdb Hf Hh Hok.
  assert (Hown : forall m s, holds P l0 B m s -> m !! m_peer_id P = None).
  { intros m1 s1 (C & _ & HC). destruct (m1 !! _) as [q|] eqn:E; [|done].
    by destruct (represents_ok _ _ _ HC _ _ E) as (_ & _ & ?). }
  assert (Hget : forall (m' : peer_map) s' (e : ErrorCode), holds P l0 B m' s' ->
    runs (r ← get time P h; mret (e, r)) s'
      (fun x s2 => x.1 = e /\ holds P l0 B m' s2 /\
         match m' !! h with Some q => x.2 = (SUCCESS, q) | None => is_error (fst x.2) = true end)
      (holds P l0 B m')).
  { intros m' s' e Hh'. apply runs_bind. eapply runs_conseq; [by eapply get_spec|].
    cbn. intros r s2 (Hh2 & _ & Hr). apply runs_ret. split; [done|]. split; [done|].
    destruct (m' !! h); [done|]. apply Hr. }
  apply runs_bind. eapply runs_weaken; [by eapply add_spec| |by left]. cbn. intros e s1 He.
  set (m' := if is_error e then m else <[peer_id p := stored p]> m).
  assert (Hm' : holds P l0 B m' s1 /\
    (peer_id p = m_peer_id P \/ stale (time (ps_clock s)) p -> e = PEERLIST_ADD_FAILURE)).
  { unfold m'. destruct (decide _) as [Hd|Hd]; [by destruct He as [-> ?]|]. by split. }
  destruct Hm' as [Hm' Hr]. eapply runs_weaken; [by apply Hget| |].
  - cbn. intros [e' r] s2 (He' & Hh2 & Hl). cbn in He', Hl. subst e'. fold m'. split; [done|].
    split; [by eapply Hown|]. by split.
  - cbn. unfold m'. intros s2. destruct (is_error e); tauto.
Qed.

(** C27: Pruning ends and removes exactly the peers last seen before the pruning
    time, except those whose deletion it reports as failed; every other peer
    stays as it is, also when an exception cuts the pruning short. *)
Theorem prune_correct (shuffle : Z -> list network_peer_t -> list network_peer_t) (m : peer_map) s :
  (forall seed l, shuffle seed l ≡ₚ l) ->
  1 <= m_growth_factor l0 <= 2 ^ 20 -> registered l0 (m_database P) ->
  mapsize_limit - B < Z.of_nat fuel -> (size m < walk)%nat ->
  holds P l0 B m s ->
  runs (prune time shuffle indeterminate fuel walk P) s
    (fun failed s' => holds P l0 B (pruned (time (S (ps_clock s))) failed m) s')
    (partly_pruned P l0 B (time (S (ps_clock s))) m).
Proof using Codec IPL Empty CLaws. intros. by apply prune_spec. Qed.

(** The peers handed out are stored ones of the network that was asked for
    (of every network for the empty id), none twice, and as many as were asked
    for or as there are. *)
Theorem peers_selection (shuffle : Z -> list network_peer_t -> list network_peer_t)
    (m : peer_map) n network_id s :
  (forall seed l, shuffle seed l ≡ₚ l) -> registered l0 (m_database P) ->
  holds P l0 B m s -> (size m < walk)%nat -> 0 <= n ->
  runs (peers time shuffle walk P n network_id) s
    (fun r s' => holds P l0 B m s' /\
       (forall p, p ∈ r -> m !! peer_id p = Some p /\
                  (key_empty network_id = true \/ peer_network_id p = network_id)) /\
       NoDup (peer_id <$> r) /\
       let available := vsize (filter (of_network network_id) (map_to_list m).*2) in
       vsize r = if n =? 0 then available else Z.min n available)
    (holds P l0 B m).
Proof using Codec IPL CLaws.
  intros Hsh Hdb Hh Hw Hn.
  assert (Hid : forall h p, m !! h = Some p -> peer_id p = h).
  { destruct Hh as (C & _ & HC). intros h p Hp. by destruct (represents_ok _ _ _ HC h p Hp). }
  eapply runs_conseq; [by eapply peers_spec|]. cbn. intros r s' (Hh' & _ & Hsub & Hlen).
  split; [done|]. split; [|split; [|done]].
  - intros p Hp. eapply elem_of_submseteq in Hp; [|done]. apply list_elem_of_filter in Hp as [Hn' Hp].
    apply list_elem_of_fmap in Hp as ([h q] & -> & Hq%elem_of_map_to_list). cbn.
    split; [by rewrite (Hid _ _ Hq)|done].
  - assert (Hnd : NoDup (peer_id <$> filter (of_network network_id) (map_to_list m).*2)).
    { assert (Hkeys : peer_id <$> (map_to_list m).*2 = (map_to_list m).*1).
      { rewrite <- list_fmap_compose. apply list_fmap_ext. intros _ [h p] Hp%list_elem_of_lookup_2.
        apply elem_of_map_to_list in Hp. by apply Hid. }
      eapply sublist_NoDup; [|apply fmap_sublist, sublist_filter].
      rewrite Hkeys. apply NoDup_fst_map_to_list. }
    apply (fmap_submseteq peer_id) in Hsub. apply submseteq_Permutation in Hsub as [k Hk].
    rewrite Hk in Hnd. by apply NoDup_app in Hnd as [? _].
Qed.

(** A node keeps its peer id: the constructor takes the one that is stored
    and leaves it there, and only when there is none it takes the random one
    and stores it, or nothing. *)
Theorem peer_identity_kept peerlist info random_hash (id : crypto_hash_t) C l :
  1 <= m_growth_factor l0 <= 2 ^ 20 -> registered l0 info -> at_rest l0 0 C B l ->
  mapsize_limit - B < Z.of_nat fuel ->
  let stored_id := C !! (m_dbi info, put_key PEER_ID_IDENTIFIER) in
  stored_id = None \/ stored_id = Some (put_key id) ->
  runs (new_PeerDB indeterminate fuel peerlist info random_hash) l
    (fun P l' => m_database P = peerlist /\
       m_peer_id P = (if stored_id then id else random_hash) /\
       exists C', at_rest l0 0 C' B l' /\
         (C' = C \/ C' = <[(m_dbi info, put_key PEER_ID_IDENTIFIER) := put_key (m_peer_id P)]> C))
    (at_rest l0 0 C B).
Proof using Codec.
  intros Hg Hdb Hr Hf stored_id Hstored. unfold new_PeerDB. apply runs_bind.
  eapply runs_weaken; [by eapply db_get_as_spec| |done].
  cbn. intros [e v] l1 [Hr1 Hv]. fold stored_id in Hv.
  set (key := if is_error e then random_hash else v).
  assert (Hkey : key = if stored_id then id else random_hash).
  { unfold key. destruct Hstored as [E|E]; rewrite E in Hv |- *.
    - destruct Hv as [He _]. cbn in He. by rewrite He.
    - destruct Hv as (x & rest & Hx & [= -> ->]). cbn.
      pose proof (get_put_key id []) as Hk. rewrite app_nil_r in Hk. congruence. }
  apply runs_bind. eapply runs_weaken; [by eapply db_put_spec| |done].
  cbn. intros e2 l2 Hr2. apply runs_ret. cbn. split; [done|]. split; [done|].
  eexists. split; [exact Hr2|]. destruct (is_error e2); [by left|by right].
Qed.
End PeerProps.

(** ** Samples and witnesses *)

Module PeerSamples.
#[local] Existing Instance toy_crypto.
#[local] Existing Instance PacketSamples.toy_ip.
#[local] Existing Instance PacketSamples.toy_ip_laws.
#[local] Existing Instance key_eq_dec.
#[local] Existing Instance key_countable.

Definition peerlist : LMDBDatabase (CL := toy_crypto) := mk_LMDBDatabase (x01 : crypto_hash_t) 1.
Definition local_info : LMDBDatabase (CL := toy_crypto) := mk_LMDBDatabase (x02 : crypto_hash_t) 2.
Definition node : PeerDB (CL := toy_crypto) := mk_PeerDB peerlist (x06 : crypto_hash_t).

Definition object (C : contents) (size : Z) : LMDB (CL := toy_crypto) (M := memdb) :=
  mk_LMDB (x05 : crypto_hash_t) 8 (Some (mk_mem_env C size))
    (<[ (x01 : crypto_hash_t) := peerlist ]> (<[ (x02 : crypto_hash_t) := local_info ]> ∅)) 0.

Definition clock (n : nat) : Z := 1633500000.
Definition in_order (seed : Z) (l : list (network_peer_t (CL := toy_crypto) (IP := PacketSamples.toy_ip))) := l.

(** A peer that was seen two hours ago and one that was not seen for long. *)
Definition fresh_peer := PacketSamples.peer x07 1633492800.
Definition old_peer := PacketSamples.peer x08 1.

Definition known : gmap (crypto_hash_t (CryptoLib := toy_crypto)) network_peer_t :=
  <[ x08 := old_peer ]> (<[ x07 := fresh_peer ]> ∅).
Definition known_contents : contents :=
  <[ (1, put_key (x08 : crypto_hash_t)) := peer_serialize old_peer ]>
    (<[ (1, put_key (x07 : crypto_hash_t)) := peer_serialize fresh_peer ]> ∅).

Definition state : peer_state (CL := toy_crypto) (M := memdb) :=
  mk_peer_state (object known_contents mem_limit) 0.

Lemma known_represented : represents node known_contents known.
Proof.
  assert (Hempty : represents (CL := toy_crypto) node ∅ ∅).
  { split; [done..|]. intros h p Hp. by rewrite lookup_empty in Hp. }
  assert (Hwf : forall id seen, u64 seen -> peer_wf (PacketSamples.peer id seen))
    by exact PacketSamples.peer_sample_wf.
  refine (represents_insert (CL := toy_crypto) node _ _ (x08 : crypto_hash_t) old_peer _ eq_refl _ _).
  - refine (represents_insert (CL := toy_crypto) node _ _ (x07 : crypto_hash_t) fresh_peer Hempty
      eq_refl _ _); [apply Hwf; unfold uintw; lia|done].
  - apply Hwf. unfold uintw. lia.
  - done.
Qed.

Lemma object_at_rest C : at_rest (object C mem_limit) 0 C mem_limit (object C mem_limit).
Proof.
  constructor; try done. eexists. split; [reflexivity|]. split; [done|].
  cbn. unfold mem_mapsize. cbn [mem_size]. unfold mem_limit. lia.
Qed.

Lemma peers_held : holds node (object known_contents mem_limit) mem_limit known state.
Proof. exists known_contents. split; [apply object_at_rest|exact known_represented]. Qed.

Lemma peerlist_registered C : registered (object C mem_limit) peerlist.
Proof. split; [done|]. apply lookup_insert_eq. Qed.

Lemma info_registered C : registered (object C mem_limit) local_info.
Proof. split; [done|]. cbn [object m_databases]. rewrite lookup_insert_ne by done. apply lookup_insert_eq. Qed.

Lemma one_step : mapsize_limit (M := memdb) - mem_limit < Z.of_nat 1.
Proof. cbn. unfold mem_limit. lia. Qed.

Lemma known_size : (size known < 3)%nat.
Proof.
  unfold known. rewrite map_size_insert_None by (by rewrite lookup_insert_ne by done).
  rewrite map_size_insert_None by apply lookup_empty. rewrite map_size_empty. lia.
Qed.
End PeerSamples.

#[local] Existing Instance toy_crypto.
#[local] Existing Instance PacketSamples.toy_ip.
#[local] Existing Instance PacketSamples.toy_ip_laws.
#[local] Existing Instance key_eq_dec.
#[local] Existing Instance key_countable.

(** Refreshing the peer that is known already, and asking for it. *)
Lemma peer_add_correct_witness :
  runs (e ← add PeerSamples.clock 0 1 PeerSamples.node PeerSamples.fresh_peer;
        r ← get PeerSamples.clock PeerSamples.node x07; mret (e, r)) PeerSamples.state
    (fun '(e, r) _ => e = SUCCESS -> r = (SUCCESS, PeerSamples.fresh_peer)) (fun _ => True).
Proof.
  eapply runs_weaken;
    [eapply (peer_add_correct PeerSamples.clock 0 1 PeerSamples.node
       (PeerSamples.object PeerSamples.known_contents mem_limit) mem_limit
       PeerSamples.known PeerSamples.fresh_peer x07 PeerSamples.state)| |done].
  - cbn. lia.
  - apply PeerSamples.peerlist_registered.
  - exact PeerSamples.one_step.
  - exact PeerSamples.peers_held.
  - split; [apply PacketSamples.loopback_wf|]. split; unfold uintw; cbn; lia.
  - intros [e r] s' (_ & _ & _ & H) ->. change (is_error SUCCESS) with false in H. cbv iota in H.
    pose proof (lookup_insert_eq PeerSamples.known (peer_id PeerSamples.fresh_peer)
      (stored PeerSamples.fresh_peer)) as E.
    refine (eq_ind _ (fun o => match o with
      | Some q => r = (SUCCESS, q) | None => is_error (fst r) = true end) _ _ E). exact H.
Defined.

Lemma prune_correct_witness :
  runs (prune PeerSamples.clock PeerSamples.in_order 0 1 3 PeerSamples.node) PeerSamples.state
    (fun failed s' => holds PeerSamples.node (PeerSamples.object PeerSamples.known_contents mem_limit)
       mem_limit (pruned 1633500000 failed PeerSamples.known) s')
    (partly_pruned PeerSamples.node (PeerSamples.object PeerSamples.known_contents mem_limit)
       mem_limit 1633500000 PeerSamples.known).
Proof.
  refine (prune_correct PeerSamples.clock 0 1 3 PeerSamples.node
    (PeerSamples.object PeerSamples.known_contents mem_limit) mem_limit
    PeerSamples.in_order PeerSamples.known PeerSamples.state _ _ _ PeerSamples.one_step
    PeerSamples.known_size PeerSamples.peers_held).
  - done.
  - cbn. lia.
  - apply PeerSamples.peerlist_registered.
Defined.

Lemma peers_selection_witness :
  runs (peers PeerSamples.clock PeerSamples.in_order 3 PeerSamples.node 1 x20) PeerSamples.state
    (fun r _ => forall p, p ∈ r -> PeerSamples.known !! peer_id p = Some p) (fun _ => True).
Proof.
  eapply runs_weaken;
    [eapply (peers_selection PeerSamples.clock 3 PeerSamples.node
       (PeerSamples.object PeerSamples.known_contents mem_limit) mem_limit PeerSamples.in_order
       PeerSamples.known 1 x20 PeerSamples.state)| |done].
  - done.
  - apply PeerSamples.peerlist_registered.
  - exact PeerSamples.peers_held.
  - exact PeerSamples.known_size.
  - lia.
  - intros r s' (_ & H & _) p Hp. by apply H.
Defined.

(** A fresh node takes the random id. *)
Lemma peer_identity_kept_witness :
  runs (new_PeerDB 0 1 PeerSamples.peerlist PeerSamples.local_info x06)
    (PeerSamples.object ∅ mem_limit) (fun P _ => m_peer_id P = x06) (fun _ => True).
Proof.
  eapply runs_weaken;
    [eapply (peer_identity_kept 0 1 (PeerSamples.object ∅ mem_limit) mem_limit
       PeerSamples.peerlist PeerSamples.local_info x06 x06 ∅)| |done].
  - cbn. lia.
  - apply PeerSamples.info_registered.
  - apply PeerSamples.object_at_rest.
  - exact PeerSamples.one_step.
  - by left.
  - intros P l' (_ & H & _). exact H.
Defined.
