(* ===== verification/Process.v ===== *)
(** * The objects of a process

    How the database objects come to be: [LMDB::instance] with the file system,
    [LMDB::open_database] and the constructor of [LMDBDatabase] in
    [src/src/database/db_lmdb.cpp], and the constructors, [instance] functions
    and destructors of [BlockchainStorage], [StakingEngine] and [PeerDB].

    A [process] holds the files, the environment objects by address, and the
    four static maps called [instances].  A [std::shared_ptr] to an environment
    is its address; an address is never used again, because an environment and
    its databases point to each other.  The objects of the other three classes
    do not change after construction and are kept by value.  Creating an
    environment and opening a named database are calls of LMDB that [Mdb.v]
    does not have; with the file system (cppfs) they are parameters here, and
    [MDBOpenLaws] states what is documented about them. *)

From S2P Require Import Prelude Errors CryptoLib Codec Concrete TxBase TxUser Text Packets Mdb MemDb.
From S2P Require Import Program Lmdb Storage Staking Peers.
From Stdlib Require Import Strings.Byte.

(** ** Constants of [lmdb.h] *)

Definition MDB_NOSUBDIR : Z := 0x4000.
Definition MDB_NOTLS : Z := 0x200000.
Definition MDB_CREATE : Z := 0x40000.
Definition MDB_DUPSORT : Z := 0x04.

(** ** The calls

    [world] is what is outside of the process.  [mdb_env_create] fills in the
    handle or leaves it null.  A null name is the unnamed database. *)
Class MDBOpen (M : MDB) : Type := {
  world : Type;
  fs_exists : world -> string -> bool;
  fs_isFile : world -> string -> bool;
  fs_isDirectory : world -> string -> bool;
  fs_createDirectory : world -> string -> world;
  mdb_version : Z * Z * Z;
  mdb_env_create : world -> Z * option mdb_env;
  mdb_env_set_maxdbs : mdb_env -> Z -> Z * mdb_env;
  mdb_env_open : world -> mdb_env -> string -> Z -> Z -> Z * world * mdb_env;
  mdb_dbi_open : mdb_txn -> option string -> Z -> Z * Z * mdb_txn;
  mdb_dbi_close : mdb_env -> Z -> mdb_env
}.

Section Process.
Context {CL : CryptoLib} {IP : IPParser} {M : MDB} {O : MDBOpen M}.

#[local] Existing Instance key_eq_dec.
#[local] Existing Instance key_countable.

(** ** State *)

(** The members that the records of [Storage.v] and [Staking.v] leave out: the
    id and the environment. *)
Record storage_object : Type := mk_storage_object {
  so_id : crypto_hash_t;
  so_env : nat;
  so_databases : BlockchainStorage
}.

Record engine_object : Type := mk_engine_object {
  eo_id : crypto_hash_t;
  eo_env : nat;
  eo_databases : StakingEngine
}.

Record peerdb_object : Type := mk_peerdb_object {
  po_id : crypto_hash_t;
  po_env : nat;
  po_peerdb : PeerDB
}.

Record process : Type := mk_process {
  p_world : world;
  p_lmdbs : list LMDB;
  p_instances : gmap crypto_hash_t nat;
  p_storages : gmap crypto_hash_t storage_object;
  p_engines : gmap crypto_hash_t engine_object;
  p_peerdbs : gmap crypto_hash_t peerdb_object
}.

Definition proc : Type -> Type := prog process.

Definition set_world (w : world) (p : process) : process :=
  mk_process w (p_lmdbs p) (p_instances p) (p_storages p) (p_engines p) (p_peerdbs p).
Definition set_lmdbs (ls : list LMDB) (p : process) : process :=
  mk_process (p_world p) ls (p_instances p) (p_storages p) (p_engines p) (p_peerdbs p).
Definition set_instances (ns : gmap crypto_hash_t nat) (p : process) : process :=
  mk_process (p_world p) (p_lmdbs p) ns (p_storages p) (p_engines p) (p_peerdbs p).
Definition set_storages (ss : gmap crypto_hash_t storage_object) (p : process) : process :=
  mk_process (p_world p) (p_lmdbs p) (p_instances p) ss (p_engines p) (p_peerdbs p).
Definition set_engines (es : gmap crypto_hash_t engine_object) (p : process) : process :=
  mk_process (p_world p) (p_lmdbs p) (p_instances p) (p_storages p) es (p_peerdbs p).
Definition set_peerdbs (ps : gmap crypto_hash_t peerdb_object) (p : process) : process :=
  mk_process (p_world p) (p_lmdbs p) (p_instances p) (p_storages p) (p_engines p) ps.

(** A method of the environment at an address. *)
Definition at_lmdb {A} (a : nat) (m : env_prog A) : proc A := fun p =>
  match p_lmdbs p !! a with
  | None => Undefined
  | Some l =>
      match m l with
      | Returned x l' => Returned x (set_lmdbs (<[a := l']> (p_lmdbs p)) p)
      | Thrown l' => Thrown (set_lmdbs (<[a := l']> (p_lmdbs p)) p)
      | Undefined => Undefined
      | OutOfFuel => OutOfFuel
      end
  end.

(** [Crypto::Hashing::sha3(s.data(), s.size())]. *)
Definition name_id (s : string) : crypto_hash_t := sha3 (char_bytes (to_chars s)).

(** ** [LMDB] *)

Definition erase_instance (id : crypto_hash_t) : proc () :=
  p ← get_state;
  if bool_decide (is_Some (p_instances p !! id)) then
    put_state (set_instances (delete id (p_instances p)) p)
  else mret ().

(** [close] of [Lmdb.v] with its last lines. *)
Definition LMDB_close (a : nat) : proc ErrorCode :=
  error ← at_lmdb a close;
  if is_error error then mret error
  else
    p ← get_state;
    l ← deref (p_lmdbs p !! a);
    erase_instance (lmdb_id l);;
    mret SUCCESS.

(** The destructor of an environment that nothing points to but the local
    variable of [instance]. *)
Definition destroy_LMDB (l : LMDB) : proc () :=
  match close l with
  | Returned error l' => if is_error error then mret () else erase_instance (lmdb_id l')
  | Thrown _ | Undefined => undefined
  | OutOfFuel => fun _ => OutOfFuel
  end.

(** An exception in [instance]: the object is destroyed on the way out. *)
Definition throw_without {A} (l : LMDB) : proc A := destroy_LMDB l;; throw.

Definition version : Z * Z * Z := mdb_version.

(** [instance] for an id. *)
Definition LMDB_instance_of_id (id : crypto_hash_t) : proc nat := fun p =>
  or_throw (p_instances p !! id) p.

(** The part of [instance] that looks at the path. *)
Definition prepare_path (db : LMDB) (path : string) (flags : Z) : proc () :=
  p ← get_state;
  if negb (Z.land flags MDB_NOSUBDIR =? 0) then
    if fs_exists (p_world p) path && negb (fs_isFile (p_world p) path) then throw_without db
    else mret ()
  else if negb (fs_isDirectory (p_world p) path) then
    put_state (set_world (fs_createDirectory (p_world p) path) p)
  else mret ().

(** The calls that set the environment up; when the last one fails the handle
    is closed but not cleared, and the destructor of the object uses it. *)
Definition create_env (db : LMDB) (path : string) (flags mode max_databases : Z) : proc LMDB :=
  p ← get_state;
  let '(success, handle) := mdb_env_create (p_world p) in
  let db1 := mk_LMDB (lmdb_id db) (m_growth_factor db) handle ∅ 0 in
  if negb (success =? MDB_SUCCESS) then throw_without db1
  else
    e ← deref handle;
    let '(success, e1) :=
      mdb_env_set_mapsize e (wrap64 (m_growth_factor db * LMDB_SPACE_MULTIPLIER)) in
    if negb (success =? MDB_SUCCESS) then throw_without (set_env e1 db1)
    else
      let '(success, e2) := mdb_env_set_maxdbs e1 max_databases in
      if negb (success =? MDB_SUCCESS) then throw_without (set_env e2 db1)
      else
        let '(success, w, e3) :=
          mdb_env_open (p_world p) e2 path (Z.lor flags MDB_NOTLS) mode in
        put_state (set_world w p);;
        if negb (success =? MDB_SUCCESS) then undefined
        else mret (set_env e3 db1).

Definition LMDB_instance (path : string) (flags mode growth_factor max_databases : Z) : proc nat :=
  let id := name_id path in
  p ← get_state;
  (if bool_decide (is_Some (p_instances p !! id)) then mret ()
   else
     let db := mk_LMDB id growth_factor None ∅ 0 in
     prepare_path db path flags;;
     db' ← create_env db path flags mode max_databases;
     p' ← get_state;
     put_state (set_instances (<[id := List.length (p_lmdbs p')]> (p_instances p'))
                  (set_lmdbs (p_lmdbs p' ++ [db']) p')));;
  p'' ← get_state;
  or_throw (p_instances p'' !! id).

(** The values that the declaration gives to the arguments left out. *)
Definition LMDB_instance_default (path : string) : proc nat :=
  LMDB_instance path MDB_NOSUBDIR 384 8 8.

(** [LMDB::transaction] asks the registry for the environment of its id. *)
Definition LMDB_transaction (a : nat) (readonly : bool) : proc LMDBTransaction :=
  p ← get_state;
  l ← deref (p_lmdbs p !! a);
  instance ← LMDB_instance_of_id (lmdb_id l);
  at_lmdb instance (env_transaction readonly).

(** ** [LMDBDatabase] *)

(** [name.empty() ? nullptr : name.c_str()]. *)
Definition handle_name (name : string) : option string :=
  if bool_decide (name = EmptyString) then None else Some name.

Definition open_handle (name : string) (flags : Z) (readonly : bool) : txn_prog Z :=
  '(_, x) ← get_state;
  t ← deref (m_txn x);
  let '(success, dbi, t') := mdb_dbi_open t (handle_name name) (Z.lor flags MDB_CREATE) in
  txn_update t';;
  if negb (success =? MDB_SUCCESS) then throw
  else if readonly then mret dbi
  else
    error ← commit;
    if is_error error then throw else mret dbi.

Definition new_LMDBDatabase (indeterminate : Z) (name : string) (flags : Z) : env_prog LMDBDatabase :=
  '(_, env_flags) ← env_get_flags indeterminate;
  let readonly := negb (Z.land env_flags MDB_RDONLY =? 0) in
  dbi ← scoped (txn_setup None readonly) (open_handle name flags readonly);
  mret (mk_LMDBDatabase (hash_of_hex (hash_to_string (name_id name))) dbi).

(** The destructor ends the program when the environment is closed. *)
Definition destroy_LMDBDatabase (db : LMDBDatabase) : env_prog () := fun l =>
  match m_env l with
  | None => Undefined
  | Some e => Returned () (set_env (mdb_dbi_close e (m_dbi db)) l)
  end.

(** [m_databases.insert], which keeps an entry that is there. *)
Definition insert_database (id : crypto_hash_t) (db : LMDBDatabase) : env_prog () := fun l =>
  match m_databases l !! id with
  | Some _ => Returned () l
  | None => Returned () (mk_LMDB (lmdb_id l) (m_growth_factor l) (m_env l)
                           (<[id := db]> (m_databases l)) (m_open_txns l))
  end.

Definition open_database (indeterminate : Z) (a : nat) (name : string) (flags : Z)
  : proc LMDBDatabase :=
  let id := name_id name in
  p ← get_state;
  l ← deref (p_lmdbs p !! a);
  (if bool_decide (is_Some (m_databases l !! id)) then mret ()
   else
     env ← LMDB_instance_of_id (lmdb_id l);
     db ← at_lmdb env (new_LMDBDatabase indeterminate name flags);
     at_lmdb a (insert_database id db));;
  p' ← get_state;
  l' ← deref (p_lmdbs p' !! a);
  or_throw (m_databases l' !! id).

(** ** [BlockchainStorage] *)

Definition new_BlockchainStorage (indeterminate : Z) (db_path : string) : proc storage_object :=
  m_db_env ← LMDB_instance db_path 0 384 16 8;
  m_blocks ← open_database indeterminate m_db_env "blocks" 0;
  m_block_indexes ← open_database indeterminate m_db_env "block_indexes" 0;
  m_block_timestamps ← open_database indeterminate m_db_env "block_timestamps" 0;
  m_transactions ← open_database indeterminate m_db_env "transactions" 0;
  m_key_images ← open_database indeterminate m_db_env "key_images" 0;
  m_transaction_outputs ← open_database indeterminate m_db_env "transaction_outputs" 0;
  mret (mk_storage_object (name_id db_path) m_db_env
          (mk_BlockchainStorage m_blocks m_block_indexes m_block_timestamps m_transactions
             m_key_images m_transaction_outputs)).

Definition BlockchainStorage_instance (indeterminate : Z) (db_path : string) : proc storage_object :=
  let id := name_id db_path in
  p ← get_state;
  (if bool_decide (is_Some (p_storages p !! id)) then mret ()
   else
     db ← new_BlockchainStorage indeterminate db_path;
     p' ← get_state;
     put_state (set_storages (<[id := db]> (p_storages p')) p'));;
  p'' ← get_state;
  or_throw (p_storages p'' !! id).

Definition destroy_BlockchainStorage (s : storage_object) : proc () :=
  p ← get_state;
  if bool_decide (is_Some (p_storages p !! so_id s)) then
    put_state (set_storages (delete (so_id s) (p_storages p)) p)
  else mret ().

(** ** [StakingEngine] *)

Definition new_StakingEngine (indeterminate : Z) (db_path : string) : proc engine_object :=
  m_db_env ← LMDB_instance_default db_path;
  m_db_candidates ← open_database indeterminate m_db_env "candidates" 0;
  m_db_stakes ← open_database indeterminate m_db_env "stakes" (Z.lor MDB_CREATE MDB_DUPSORT);
  mret (mk_engine_object (name_id db_path) m_db_env (mk_StakingEngine m_db_candidates m_db_stakes)).

Definition StakingEngine_instance (indeterminate : Z) (db_path : string) : proc engine_object :=
  let id := name_id db_path in
  p ← get_state;
  (if bool_decide (is_Some (p_engines p !! id)) then mret ()
   else
     db ← new_StakingEngine indeterminate db_path;
     p' ← get_state;
     put_state (set_engines (<[id := db]> (p_engines p')) p'));;
  p'' ← get_state;
  or_throw (p_engines p'' !! id).

Definition destroy_StakingEngine (e : engine_object) : proc () :=
  p ← get_state;
  if bool_decide (is_Some (p_engines p !! eo_id e)) then
    put_state (set_engines (delete (eo_id e) (p_engines p)) p)
  else mret ().

(** ** [PeerDB]

    [random_hash] is what [Crypto::random_hash] gives. *)

Definition make_PeerDB (indeterminate : Z) (fuel : nat) (path : string) (random_hash : crypto_hash_t)
  : proc peerdb_object :=
  m_env ← LMDB_instance_default path;
  m_database ← open_database indeterminate m_env "peerlist" 0;
  info ← open_database indeterminate m_env "local" 0;
  db ← at_lmdb m_env (new_PeerDB indeterminate fuel m_database info random_hash);
  mret (mk_peerdb_object (name_id path) m_env db).

Definition PeerDB_instance (indeterminate : Z) (fuel : nat) (path : string)
  (random_hash : crypto_hash_t) : proc peerdb_object :=
  let id := name_id path in
  p ← get_state;
  (if bool_decide (is_Some (p_peerdbs p !! id)) then mret ()
   else
     db ← make_PeerDB indeterminate fuel path random_hash;
     p' ← get_state;
     put_state (set_peerdbs (<[id := db]> (p_peerdbs p')) p'));;
  p'' ← get_state;
  or_throw (p_peerdbs p'' !! id).

Definition destroy_PeerDB (d : peerdb_object) : proc () :=
  p ← get_state;
  if bool_decide (is_Some (p_peerdbs p !! po_id d)) then
    put_state (set_peerdbs (delete (po_id d) (p_peerdbs p)) p)
  else mret ().
End Process.

(** ** Documented behaviour *)

(** What an environment or a transaction has besides the contents of the open
    databases: their handles by name, what is stored under every name, open or
    not, and whether it can only be read. *)
Record side : Type := mk_side {
  handles : option string -> option Z;
  disk : option string -> bytes -> option bytes;
  read_only : bool
}.

Class MDBOpenLaws (M : MDB) `{!MDBLaws M} (O : MDBOpen M) : Type := {
  env_side : mdb_env -> side;
  txn_handles_of : mdb_txn -> option string -> option Z;
  txn_disk : mdb_txn -> option string -> bytes -> option bytes;
  file_contents : world -> string -> option string -> bytes -> option bytes;
  (* a handle belongs to one name and reaches what is stored under it *)
  handles_distinct : forall e n n' d,
    handles (env_side e) n = Some d -> handles (env_side e) n' = Some d -> n = n';
  handles_nonzero : forall e n d, handles (env_side e) n = Some d -> d <> 0;
  handles_reach : forall e n d k,
    handles (env_side e) n = Some d -> env_contents e !! (d, k) = disk (env_side e) n k;
  (* opening an environment *)
  createDirectory_ok : forall w path, file_contents (fs_createDirectory w path) = file_contents w;
  create_ok : forall w, fst (mdb_env_create w) = MDB_SUCCESS -> is_Some (snd (mdb_env_create w));
  set_maxdbs_ok : forall e n r e', mdb_env_set_maxdbs e n = (r, e') -> env_mapsize e' = env_mapsize e;
  open_ok : forall w e path flags mode w' e',
    mdb_env_open w e path flags mode = (MDB_SUCCESS, w', e') ->
    env_mapsize e <= env_mapsize e' /\ disk (env_side e') = file_contents w path /\
    (Z.land flags MDB_RDONLY = 0 -> read_only (env_side e') = false);
  get_flags_ok : forall e, exists flags, mdb_env_get_flags e = (MDB_SUCCESS, flags) /\
    (Z.land flags MDB_RDONLY =? 0) = negb (read_only (env_side e));
  (* opening a database, which may add its name to the unnamed one; the new handle
     is the environment's after a commit *)
  dbi_open_ok : forall t n flags d t', mdb_dbi_open t n flags = (MDB_SUCCESS, d, t') ->
    txn_handles_of t' n = Some d /\ (forall name, txn_disk t' (Some name) = txn_disk t (Some name)) /\
    forall n' d', txn_handles_of t n' = Some d' -> txn_handles_of t' n' = Some d';
  side_set_mapsize : forall e n r e', mdb_env_set_mapsize e n = (r, e') -> env_side e' = env_side e;
  side_begin : forall e flags r e' t, mdb_txn_begin e flags = (r, e', t) ->
    env_side e' = env_side e /\
    (r = MDB_SUCCESS ->
     txn_handles_of t = handles (env_side e) /\ txn_disk t = disk (env_side e));
  side_abort : forall e t, env_side (mdb_txn_abort e t) = env_side e;
  side_commit : forall e t r e', mdb_txn_commit e t = (r, e') ->
    env_side e' = if decide (r = MDB_SUCCESS)
                  then mk_side (txn_handles_of t) (txn_disk t) (read_only (env_side e))
                  else env_side e;
  handles_put : forall t d k v flags r t',
    mdb_put t d k v flags = (r, t') -> txn_handles_of t' = txn_handles_of t
}.

(** ** Over the in-memory engine

    Every name has its handle from the start, a file is the contents behind
    all of them, and nothing fails. *)

Definition mem_handle (name : option string) : Z := Z.pos (encode name).

Lemma mem_handle_inj n n' : mem_handle n = mem_handle n' -> n = n'.
Proof. intros [= H]. by apply (inj encode) in H. Qed.

#[global] Instance memdb_open : MDBOpen memdb := {|
  world := gmap string contents;
  fs_exists w path := bool_decide (is_Some (w !! path));
  fs_isFile w path := bool_decide (is_Some (w !! path));
  fs_isDirectory _ _ := true;
  fs_createDirectory w _ := w;
  mdb_version := (0, 9, 29);
  mdb_env_create _ := (MDB_SUCCESS, Some (mk_mem_env ∅ 0));
  mdb_env_set_maxdbs e _ := (MDB_SUCCESS, e);
  mdb_env_open w e path _ _ := (MDB_SUCCESS, w, mk_mem_env (w !!! path) (mem_size e));
  mdb_dbi_open t name _ := (MDB_SUCCESS, mem_handle name, t);
  mdb_dbi_close e _ := e
|}.

Definition mem_side (C : contents) : side :=
  mk_side (fun n => Some (mem_handle n)) (fun n k => C !! (mem_handle n, k)) false.

#[global] Instance memdb_open_laws : MDBOpenLaws memdb memdb_open.
Proof.
  refine {| env_side e := mem_side (mem_contents e);
            txn_handles_of _ := handles (mem_side ∅);
            txn_disk t := disk (mem_side (mem_seen t));
            file_contents w path := disk (mem_side (w !!! path)) |}; cbn.
  - intros e n n' d [= <-] H. apply (inj Some) in H. symmetry. by apply mem_handle_inj.
  - by intros e n d [= <-].
  - by intros e n d k [= <-].
  - done.
  - by eexists.
  - by intros e n r e' [= <- <-].
  - intros w e path flags mode w' e' [= <- <-]. by split; [apply Z.le_refl|].
  - intros e. by exists 0.
  - intros t n flags d t' [= <- <-]. done.
  - intros e n r e'. unfold mem_set_mapsize. repeat case_match; by intros [= <- <-].
  - intros e flags r e' t [= <- <- <-]. done.
  - done.
  - intros e t r e' [= <- <-]. by rewrite decide_True.
  - done.
Defined.
