(* ===== verification/ProcessSpecs.v ===== *)
(** * Opening the objects of a process

    What [Process.v] promises: every environment that [LMDB::instance] hands
    out is open, with all its databases under their names and handles of their
    own ([process_ok]), and the three classes construct their objects on such
    environments.  [storage_opened] gives the hypotheses of the theorems of
    [Storage.v] for a storage that was just opened. *)

From S2P Require Import Prelude Errors CryptoLib Codec Concrete TxBase TxUser Text Packets Mdb MemDb.
From S2P Require Import Program Lmdb Storage Staking Peers Process.
From Stdlib Require Import Strings.Byte.

Section Opening.
Context {CL : CryptoLib} {M : MDB} {O : MDBOpen M} {Laws : MDBLaws M} {OLaws : MDBOpenLaws M O}.
Context {HL : HashStringLaws CL}.
#[local] Existing Instance key_eq_dec.
#[local] Existing Instance key_countable.
Implicit Types (l : LMDB) (e : mdb_env) (S : side).

(** ** Opening a database *)

(** The object [l'] is [l] with [n] open writers and another handle, whose
    environment is [S] with a map of at least [B] bytes. *)
Record around l (n : Z) S (B : Z) l' : Prop := {
  around_id : lmdb_id l' = lmdb_id l;
  around_growth : m_growth_factor l' = m_growth_factor l;
  around_databases : m_databases l' = m_databases l;
  around_open : m_open_txns l' = n;
  around_env : exists e, m_env l' = Some e /\ env_side e = S /\ B <= env_mapsize e
}.

(** [S'] has the handles of [S] and maybe more. *)
Definition side_grows S S' : Prop :=
  (forall name, disk S' (Some name) = disk S (Some name)) /\ read_only S' = read_only S /\
  forall n d, handles S n = Some d -> handles S' n = Some d.

Lemma around_set_env l n S B l' e B' S' :
  around l n S B l' -> env_side e = S' -> B' <= env_mapsize e -> around l n S' B' (set_env e l').
Proof. intros [] ? ?. constructor; try done. by exists e. Qed.

Lemma around_set_open l n n' S B l' : around l n S B l' -> around l n' S B (set_open_txns n' l').
Proof. intros []. by constructor. Qed.

Lemma detect_map_size_side l n S B l' :
  around l n S B l' -> runs detect_map_size l' (fun _ => around l n S B) (fun _ => False).
Proof.
  intros Hr. pose proof Hr as [_ _ _ _ (e & Henv & HS & HB)].
  unfold detect_map_size, open_transactions, runs, mbind, prog_bind, mret, prog_ret, get_state, put_state.
  cbn. destruct (negb _); [done|]. rewrite Henv. cbn.
  destruct (mdb_env_set_mapsize e 0) as [r e'] eqn:E.
  pose proof (side_set_mapsize _ _ _ _ E) as HS'. destruct (set_mapsize_ok _ _ _ _ E) as (_ & _ & Hok & Hfail).
  eapply around_set_env; [exact Hr|congruence|].
  destruct (Z.eq_dec r MDB_SUCCESS) as [->|Hne]; [specialize (Hok eq_refl eq_refl); lia|].
  rewrite Hfail; done.
Qed.

Lemma txn_setup_loop_side tries ro l n S B l' :
  (0 < tries)%nat -> around l n S B l' ->
  runs (txn_setup_loop tries ro) l'
    (fun t l1 => around l n S B l1 /\ txn_handles_of t = handles S /\ txn_disk t = disk S)
    (around l n S B).
Proof.
  revert l'. induction tries as [|tries IH]; intros l' Ht Hr; [lia|]. cbn [txn_setup_loop].
  pose proof Hr as [_ _ _ _ (e & Henv & HS & HB)].
  apply runs_bind. eapply runs_env_handle; [done|]. apply runs_bind, runs_get.
  destruct (mdb_txn_begin e _) as [[r e'] t] eqn:E.
  destruct (side_begin _ _ _ _ _ E) as [HS' Hok]. destruct (begin_ok _ _ _ _ _ E) as (_ & Hm & _).
  apply runs_bind, runs_put.
  assert (Hr' : around l n S B (set_env e' l')) by (eapply around_set_env; [exact Hr|congruence|lia]).
  destruct (Z.eqb_spec r MDB_SUCCESS) as [->|_].
  - apply runs_ret. subst S. by destruct (Hok eq_refl) as [-> ->].
  - destruct ((r =? MDB_MAP_RESIZED) && negb (Nat.eqb tries 0)) eqn:Hres; [|by apply runs_throw].
    apply andb_true_iff in Hres as [_ Hn]. apply negb_true_iff, Nat.eqb_neq in Hn.
    apply runs_bind. eapply runs_weaken; [by apply detect_map_size_side| |done].
    cbn. intros _ l1 Hl1. apply IH; [lia|done].
Qed.

(** A transaction that can write, live or over, on an environment [S]. *)
Definition writer l S B (s : LMDB * LMDBTransaction) : Prop :=
  m_readonly (snd s) = false /\
  match m_txn (snd s) with
  | Some _ => around l 1 S B (fst s)
  | None => around l 0 S B (fst s)
  end.

Lemma abort_side l S B s :
  writer l S B s -> runs abort s (fun _ s' => around l 0 S B (fst s')) (fun _ => False).
Proof.
  destruct s as [l' x]. intros [Hro Hw]; cbn in *. unfold runs, abort. cbv beta iota.
  destruct (m_txn x) as [t|] eqn:Ht; [|done]. pose proof Hw as [_ _ _ Hopen (e & Henv & HS & HB)].
  unfold on_env, mbind, prog_bind, mret, prog_ret, get_state, put_state, deref, transaction_unregister.
  cbv beta iota. rewrite Henv. cbn. rewrite Hro. cbn. rewrite Hopen. cbn.
  eapply around_set_open, around_set_env; [exact Hw|by rewrite side_abort|].
  by rewrite (proj2 (abort_ok e t)).
Qed.

Lemma commit_side l S B s t :
  writer l S B s -> m_txn (snd s) = Some t ->
  runs commit s
    (fun error s' => m_txn (snd s') = None /\
       writer l (if is_error error then S
                 else mk_side (txn_handles_of t) (txn_disk t) (read_only S)) B s') (fun _ => False).
Proof.
  destruct s as [l' x]. intros [Hro Hw] Ht; cbn in *. rewrite Ht in Hw.
  unfold runs, commit. cbv beta iota. rewrite Ht. pose proof Hw as [_ _ _ Hopen (e & Henv & HS & HB)].
  unfold on_env, mbind, prog_bind, mret, prog_ret, get_state, put_state, deref, transaction_unregister.
  cbv beta iota. rewrite Henv. cbn. destruct (mdb_txn_commit e t) as [r e'] eqn:E. cbn. rewrite Hro. cbn.
  rewrite Hopen. cbn. split; [done|]. split; [done|]. cbn. eapply around_set_open, around_set_env; [exact Hw| |].
  - rewrite (side_commit _ _ _ _ E), is_error_code_of_int. unfold MDB_SUCCESS.
    destruct (Z.eqb_spec r 0), (decide (r = 0)); cbn; congruence.
  - by rewrite (proj1 (commit_ok _ _ _ _ E)).
Qed.
(** The body of the constructor of a database: a handle that the environment
    keeps, or nothing. *)
Lemma open_handle_side l name flags S B s t :
  writer l S B s -> m_txn (snd s) = Some t -> txn_handles_of t = handles S -> txn_disk t = disk S ->
  runs (open_handle name flags false) s
    (fun dbi s' => exists S', side_grows S S' /\ handles S' (handle_name name) = Some dbi /\
       m_txn (snd s') = None /\ around l 0 S' B (fst s'))
    (writer l S B).
Proof.
  destruct s as [l' x]. intros Hw Ht HN HD. cbn in Ht. unfold open_handle.
  apply runs_bind, runs_get. apply runs_bind. unfold runs at 1, deref. rewrite Ht. cbn.
  destruct (mdb_dbi_open t _ _) as [[r dbi] t'] eqn:E. apply runs_bind. unfold runs at 1, txn_update. cbn.
  assert (Hw' : writer l S B (l', set_txn (Some t') x))
    by (destruct Hw as [Hro Hw]; split; [done|]; cbn in *; by rewrite Ht in Hw).
  destruct (Z.eqb_spec r MDB_SUCCESS) as [->|_]; [|by apply runs_throw]. cbn.
  destruct (dbi_open_ok _ _ _ _ _ E) as (Hname & Hdisk & Hkeep).
  apply runs_bind. eapply runs_weaken; [by eapply commit_side| |done].
  cbn. intros error [l1 x1] [Hover Hw1]. destruct (is_error error); [by apply runs_throw|].
  apply runs_ret. exists (mk_side (txn_handles_of t') (txn_disk t') (read_only S)).
  split; [|split; [exact Hname|split; [done|]]].
  - split; [intros n; cbn; by rewrite Hdisk, HD|]. split; [done|]. intros n d Hn. apply Hkeep. by rewrite HN.
  - destruct Hw1 as [_ Hw1]. by rewrite Hover in Hw1.
Qed.

Lemma new_LMDBDatabase_side indeterminate l name flags e :
  m_env l = Some e -> m_open_txns l = 0 -> read_only (env_side e) = false ->
  runs (new_LMDBDatabase indeterminate name flags) l
    (fun db l' => db_id db = name_id name /\ exists S', side_grows (env_side e) S' /\
       handles S' (handle_name name) = Some (m_dbi db) /\ around l 0 S' (env_mapsize e) l')
    (around l 0 (env_side e) (env_mapsize e)).
Proof.
  intros He Hopen Hro. set (S := env_side e). set (B := env_mapsize e).
  assert (Hr : around l 0 S B l) by (constructor; try done; by exists e).
  unfold new_LMDBDatabase, env_get_flags. apply runs_bind. unfold runs at 1. rewrite He.
  destruct (get_flags_ok e) as (fl & -> & Hfl). rewrite Hro in Hfl. rewrite Hfl. cbn [negb].
  apply runs_bind. unfold runs at 1, scoped.
  assert (Hnew : runs (txn_setup None false) l
    (fun x l' => writer l S B (l', x) /\ exists t, m_txn x = Some t /\
       txn_handles_of t = handles S /\ txn_disk t = disk S) (around l 0 S B)).
  { unfold txn_setup. apply runs_bind.
    eapply runs_weaken; [apply (txn_setup_loop_side 3 false l 0 S B l ltac:(lia) Hr)| |done].
    cbn. intros t l1 [Hr1 Ht]. unfold transaction_register, runs, mbind, prog_bind, mret, prog_ret. cbn.
    split; [|by exists t]. split; [done|]. cbn.
    rewrite (around_open _ _ _ _ _ Hr1). by eapply around_set_open. }
  unfold runs in Hnew. destruct (txn_setup None false l) as [x l1|l1| |]; try done.
  destruct Hnew as (Hw & t & Ht & HN & HD).
  pose proof (open_handle_side l name flags S B (l1, x) t Hw Ht HN HD) as Hbody.
  unfold runs in Hbody. destruct (open_handle name flags false (l1, x)) as [dbi [l2 x2]|s2| |]; try done.
  - destruct Hbody as (S' & Hg & Hh & Hover & Hr2). unfold abort. cbn in Hover. rewrite Hover.
    cbn. split; [apply hash_of_to_string|]. by exists S'.
  - pose proof (abort_side l S B s2 Hbody) as Ha. unfold runs in Ha. by destruct (abort s2) as [? []| | |].
Qed.

(** ** Environments in order *)

(** The databases of the three classes. *)
Definition database_names : list string :=
  ["blocks"; "block_indexes"; "block_timestamps"; "transactions"; "key_images";
   "transaction_outputs"; "candidates"; "stakes"; "peerlist"; "local"].

(** The registered databases have the id and the handle of their name. *)
Definition databases_named (ds : gmap crypto_hash_t LMDBDatabase) (S : side) : Prop :=
  forall id db, ds !! id = Some db -> exists name, name ∈ database_names /\
    id = name_id name /\ db_id db = id /\ handles S (handle_name name) = Some (m_dbi db).

Record env_ok l e : Prop := {
  ok_env : m_env l = Some e;
  ok_open : m_open_txns l = 0;
  ok_growth : 1 <= m_growth_factor l <= 2 ^ 20;
  ok_writable : read_only (env_side e) = false;
  ok_databases : databases_named (m_databases l) (env_side e)
}.

Lemma env_ok_rest l e : env_ok l e -> at_rest l 0 (env_contents e) (env_mapsize e) l.
Proof. intros []. constructor; try done. by exists e. Qed.

Lemma named_registered l e id db : env_ok l e -> m_databases l !! id = Some db -> registered l db.
Proof.
  intros Hok Hdb. destruct (ok_databases _ _ Hok _ _ Hdb) as (name & _ & -> & Hid & Hh).
  split; [by eapply handles_nonzero|]. by rewrite Hid.
Qed.

(** The hashes of the names do not collide. *)
Hypothesis Hnames : NoDup (name_id <$> database_names).

Lemma name_id_inj n n' :
  n ∈ database_names -> n' ∈ database_names -> name_id n = name_id n' -> n = n'.
Proof using Hnames.
  intros [i Hi]%list_elem_of_lookup [j Hj]%list_elem_of_lookup Hid.
  assert (i = j) as ->; [|congruence]. eapply (NoDup_lookup _ i j (name_id n)); [exact Hnames| |].
  - by rewrite list_lookup_fmap, Hi.
  - by rewrite list_lookup_fmap, Hj, Hid.
Qed.

Lemma handle_name_inj n n' : handle_name n = handle_name n' -> n = n'.
Proof using. unfold handle_name. repeat case_bool_decide; congruence. Qed.

(** Different databases have different handles. *)
Lemma named_distinct l e dbs :
  env_ok l e -> Forall (fun db => m_databases l !! db_id db = Some db) dbs ->
  NoDup (db_id <$> dbs) -> NoDup (m_dbi <$> dbs).
Proof using.
  intros Hok. induction dbs as [|db dbs IH]; [intros; constructor|].
  intros [Hdb Hdbs]%Forall_cons Hnd. apply NoDup_cons in Hnd as [Hni Hnd]. cbn. apply NoDup_cons. split; [|by apply IH].
  intros (db' & Heq & Hin)%list_elem_of_fmap. apply Hni.
  pose proof Hdbs as Hdb'. rewrite Forall_forall in Hdb'. specialize (Hdb' _ Hin).
  destruct (ok_databases _ _ Hok _ _ Hdb) as (n & _ & Hid & _ & Hh).
  destruct (ok_databases _ _ Hok _ _ Hdb') as (n' & _ & Hid' & _ & Hh').
  rewrite Heq in Hh. pose proof (handle_name_inj _ _ (handles_distinct _ _ _ _ Hh Hh')) as ->.
  apply list_elem_of_fmap. exists db'. split; [congruence|done].
Qed.
(** ** Processes in order *)

(** The environment [l], with the handle [e], lives at [a] and is the one that
    [instance] gives for its id. *)
Definition environment (p : process) (a : nat) l e : Prop :=
  p_lmdbs p !! a = Some l /\ p_instances p !! lmdb_id l = Some a /\ env_ok l e.

Definition environments_ok (p : process) : Prop := forall id a, p_instances p !! id = Some a ->
  exists l e, p_lmdbs p !! a = Some l /\ lmdb_id l = id /\ env_ok l e.

(** [l'] is [l] with more databases. *)
Definition older l l' : Prop :=
  lmdb_id l' = lmdb_id l /\ m_growth_factor l' = m_growth_factor l /\ m_databases l ⊆ m_databases l'.

(** What opening things does to a process. *)
Record opens (p p' : process) : Prop := {
  opens_ok : environments_ok p -> environments_ok p';
  opens_environment : forall a l e, environment p a l e ->
    exists l' e', environment p' a l' e' /\ older l l';
  opens_storages : p_storages p' = p_storages p;
  opens_engines : p_engines p' = p_engines p;
  opens_peerdbs : p_peerdbs p' = p_peerdbs p
}.

#[local] Instance older_preorder : PreOrder older.
Proof.
  split; [by intros l|]. intros l1 l2 l3 (? & ? & ?) (? & ? & ?).
  split; [congruence|]. split; [congruence|]. by etrans.
Qed.

#[local] Instance opens_preorder : PreOrder opens.
Proof.
  split.
  - intros p. split; [done| |done..]. intros a l e H. by exists l, e.
  - intros p1 p2 p3 [] []. split; [auto| |congruence..]. intros a l e H.
    destruct (opens_environment0 _ _ _ H) as (l2 & e2 & H2 & Ho2).
    destruct (opens_environment1 _ _ _ H2) as (l3 & e3 & H3 & Ho3).
    exists l3, e3. split; [done|]. by etrans.
Qed.

Lemma opens_world w p : opens p (set_world w p).
Proof.
  split; [| |done..].
  - intros H id a Hin. exact (H id a Hin).
  - intros a l e H. by exists l, e.
Qed.

(** A method of an environment that leaves it in order. *)
Lemma runs_at_lmdb {A} (m : env_prog A) p a l e (Q : A -> LMDB -> mdb_env -> Prop) :
  environment p a l e ->
  runs m l (fun x l' => exists e', env_ok l' e' /\ older l l' /\ Q x l' e')
    (fun l' => exists e', env_ok l' e' /\ older l l') ->
  runs (at_lmdb a m) p
    (fun x p' => opens p p' /\ exists l' e', environment p' a l' e' /\ older l l' /\ Q x l' e')
    (opens p).
Proof using.
  intros (Ha & Hid & Hok) Hm.
  assert (Hopens : forall l' e', env_ok l' e' -> older l l' ->
    let p' := set_lmdbs (<[a := l']> (p_lmdbs p)) p in opens p p' /\ environment p' a l' e').
  { intros l' e' Hok' Ho p'. pose proof Ho as (Hid' & _ & _).
    assert (Ha' : p_lmdbs p' !! a = Some l')
      by (apply list_lookup_insert_eq; eauto using lookup_lt_Some).
    split; [|split; [done|split; [by rewrite Hid'|done]]].
    split; [| |done..].
    - intros Hp id b Hb. destruct (decide (b = a)) as [->|Hne].
      + exists l', e'. split; [done|]. split; [|done]. destruct (Hp _ _ Hb) as (l2 & e2 & Hl2 & <- & _). congruence.
      + destruct (Hp _ _ Hb) as (l2 & e2 & Hl2 & Hrest). exists l2, e2. split; [|done].
        cbn. by rewrite list_lookup_insert_ne.
    - intros b l2 e2 (Hb & Hreg & Hok2). destruct (decide (b = a)) as [->|Hne].
      + assert (l2 = l) as -> by congruence. exists l', e'. split; [|done]. split; [done|]. by rewrite Hid'.
      + exists l2, e2. split; [|done]. split; [|done]. cbn. by rewrite list_lookup_insert_ne. }
  unfold runs, at_lmdb in *. rewrite Ha. destruct (m l) as [x l'|l'| |]; try done.
  - destruct Hm as (e' & Hok' & Ho & HQ). destruct (Hopens l' e' Hok' Ho) as [H1 H2]. eauto 6.
  - destruct Hm as (e' & Hok' & Ho). by destruct (Hopens l' e' Hok' Ho).
Qed.

(** ** [open_database] *)

Definition same_env e e' : Prop :=
  side_grows (env_side e) (env_side e') /\ env_mapsize e <= env_mapsize e'.

#[local] Instance same_env_preorder : PreOrder same_env.
Proof.
  split; [intros e; split; [by split_and!|lia]|]. intros e1 e2 e3 [(? & ? & ?) ?] [(? & ? & ?) ?].
  split; [|lia]. split; [congruence|]. split; [congruence|]. auto.
Qed.

Lemma databases_named_grows ds S S' : databases_named ds S -> side_grows S S' -> databases_named ds S'.
Proof using.
  intros H (_ & _ & Hg) id db Hdb. destruct (H _ _ Hdb) as (name & ? & ? & ? & ?).
  exists name. split_and!; auto.
Qed.

Lemma new_LMDBDatabase_ok indeterminate l name flags e :
  env_ok l e ->
  runs (new_LMDBDatabase indeterminate name flags) l
    (fun db l' => exists e', env_ok l' e' /\ older l l' /\ same_env e e' /\
       m_databases l' = m_databases l /\ db_id db = name_id name /\
       handles (env_side e') (handle_name name) = Some (m_dbi db))
    (fun l' => exists e', env_ok l' e' /\ older l l').
Proof using HL.
  intros [He Hopen Hg Hro Hdb].
  assert (Hok : forall S' l', side_grows (env_side e) S' -> around l 0 S' (env_mapsize e) l' ->
    exists e', env_ok l' e' /\ older l l' /\ same_env e e' /\ m_databases l' = m_databases l /\
      env_side e' = S').
  { intros S' l' HS [Hid Hgr Hds Ho (e' & He' & HSe & HB)]. exists e'.
    split; [|split; [|split; [split; [by rewrite HSe|done]|done]]].
    - split; [done|done|by rewrite Hgr| |].
      + rewrite HSe. destruct HS as (_ & -> & _). done.
      + rewrite Hds, HSe. by eapply databases_named_grows.
    - split; [done|]. split; [done|]. by rewrite Hds. }
  eapply runs_weaken; [by eapply new_LMDBDatabase_side| |].
  - cbn. intros db l' (Hid & S' & HS & Hh & Hr). destruct (Hok _ _ HS Hr) as (e' & ? & ? & ? & ? & <-).
    exists e'. by split_and!.
  - intros l' Hr. destruct (Hok (env_side e) l') as (e' & ? & ? & _); [by split_and!|done|].
    by exists e'.
Qed.

Lemma insert_database_ok l e id db name :
  env_ok l e -> name ∈ database_names -> id = name_id name -> db_id db = id ->
  handles (env_side e) (handle_name name) = Some (m_dbi db) -> m_databases l !! id = None ->
  runs (insert_database id db) l
    (fun _ l' => env_ok l' e /\ older l l' /\ m_databases l' !! id = Some db) (fun _ => False).
Proof using.
  intros [] Hn -> Hid Hh Hnone. unfold runs, insert_database. rewrite Hnone. split; [|split].
  - split; [done..|]. cbn. intros i d [[<- <-]|[_ Hd]]%lookup_insert_Some; [by exists name|eauto].
  - split; [done|]. split; [done|]. by apply insert_subseteq.
  - apply lookup_insert_eq.
Qed.

Lemma open_database_spec indeterminate p a l e name flags :
  environment p a l e -> name ∈ database_names ->
  runs (open_database indeterminate a name flags) p
    (fun db p' => opens p p' /\ exists l' e', environment p' a l' e' /\ older l l' /\ same_env e e' /\
       m_databases l' !! db_id db = Some db /\ db_id db = name_id name /\
       handles (env_side e') (handle_name name) = Some (m_dbi db))
    (opens p).
Proof using Hnames HL.
  intros Hp Hn. pose proof Hp as (Ha & Hreg & Hok). unfold open_database.
  apply runs_bind, runs_get, runs_bind. unfold runs at 1, deref. rewrite Ha. cbn.
  apply runs_bind. case_bool_decide as Hin.
  - apply runs_ret, runs_bind, runs_get, runs_bind. unfold runs at 1, deref. rewrite Ha. cbn.
    destruct Hin as [db Hdb]. rewrite Hdb. apply runs_ret. split; [done|]. exists l, e.
    destruct (ok_databases _ _ Hok _ _ Hdb) as (name' & Hn' & Hid & Hdbid & Hh).
    apply name_id_inj in Hid as <-; [|done..]. rewrite Hdbid. by split_and!.
  - apply eq_None_not_Some in Hin.
    apply runs_bind. unfold LMDB_instance_of_id. unfold runs at 1. rewrite Hreg. cbn.
    apply runs_bind. eapply runs_weaken.
    { eapply (runs_at_lmdb _ _ _ _ _ (fun db l' e' => same_env e e' /\ m_databases l' = m_databases l /\
        db_id db = name_id name /\ handles (env_side e') (handle_name name) = Some (m_dbi db))); [exact Hp|].
      by apply new_LMDBDatabase_ok. }
    2: done.
    cbn. intros db p1 (Ho1 & l1 & e1 & Hp1 & Hold1 & Hs1 & Hds & Hid & Hh).
    eapply runs_weaken.
    { eapply (runs_at_lmdb _ _ _ _ _ (fun _ l' e' => e' = e1 /\ m_databases l' !! db_id db = Some db)); [exact Hp1|].
      eapply runs_weaken; [eapply (insert_database_ok l1 e1 _ db name); try done; [apply Hp1|by rewrite Hds]| |done].
      cbn. intros _ l' (? & ? & ?). exists e1. rewrite Hid. by split_and!. }
    2: intros p2 Ho2; by etrans.
    cbn. intros _ p2 (Ho2 & l2 & e2 & Hp2 & Hold2 & -> & Hdb2).
    apply runs_bind, runs_get, runs_bind. unfold runs at 1, deref. rewrite (proj1 Hp2). cbn.
    rewrite <- Hid, Hdb2. apply runs_ret. split; [by etrans|]. exists l2, e1. split_and!; try done. by etrans.
Qed.
(** ** [LMDB::instance] *)

(** The destructor of an object that is not registered changes nothing. *)
Lemma throw_without_ok {A} l p (Q : A -> process -> Prop) (X : process -> Prop) :
  p_instances p !! lmdb_id l = None -> X p -> runs (throw_without l) p Q X.
Proof using.
  intros Hnone HX. apply runs_bind.
  assert (Herase : forall id, id = lmdb_id l ->
    runs (erase_instance id) p (fun _ s => runs (@throw _ A) s Q X) X).
  { intros id ->. apply runs_bind, runs_get. rewrite Hnone.
    rewrite bool_decide_eq_false_2 by by apply eq_None_not_Some. apply runs_ret. by apply runs_throw. }
  unfold destroy_LMDB, close, flush, mbind, prog_bind, get_state, put_state, mret, prog_ret.
  destruct (m_env l) as [e|]; [|by apply runs_throw]. destruct (mdb_env_sync e true) as [r e'].
  destruct (is_error (code_of_int r)) eqn:Hr; cbn; [rewrite Hr; by apply runs_throw|]. by apply Herase.
Qed.

(** What [mdb_env_open] answers for the environment that [create_env] makes;
    [None] when it does not come to that call. *)
Definition env_open_answer (path : string) (flags mode growth max_databases : Z) (w : world) : option Z :=
  match mdb_env_create w with
  | (r, Some e) =>
      let '(r1, e1) := mdb_env_set_mapsize e (wrap64 (growth * LMDB_SPACE_MULTIPLIER)) in
      let '(r2, e2) := mdb_env_set_maxdbs e1 max_databases in
      if (r =? MDB_SUCCESS) && (r1 =? MDB_SUCCESS) && (r2 =? MDB_SUCCESS) then
        let '(r3, _, _) := mdb_env_open w e2 path (Z.lor flags MDB_NOTLS) mode in Some r3
      else None
  | _ => None
  end.

(** [LMDB::instance] has to open the file of the path, and LMDB refuses. *)
Definition open_refused (path : string) (flags mode growth max_databases : Z) (p : process) : bool :=
  match p_instances p !! name_id path with
  | Some _ => false
  | None =>
      match prepare_path (mk_LMDB (name_id path) growth None ∅ 0) path flags p with
      | Returned _ p1 =>
          match env_open_answer path flags mode growth max_databases (p_world p1) with
          | Some r => negb (r =? MDB_SUCCESS)
          | None => false
          end
      | _ => false
      end
  end.

(** LMDB opens the file of the path when it is asked to, with the mode and the
    number of databases that every caller leaves as declared. *)
Definition can_open (path : string) (flags growth : Z) (p : process) : Prop :=
  open_refused path flags 384 growth 8 p = false.

Lemma prepare_path_ok db path flags p :
  p_instances p !! lmdb_id db = None ->
  runs (prepare_path db path flags) p
    (fun _ p' => exists w, file_contents w = file_contents (p_world p) /\ p' = set_world w p)
    (fun p' => p' = p).
Proof using OLaws.
  intros Hnone. unfold prepare_path. apply runs_bind, runs_get.
  assert (Hp : p = set_world (p_world p) p) by by destruct p.
  destruct (negb (Z.land flags MDB_NOSUBDIR =? 0)).
  - destruct (fs_exists _ _ && _); [by apply throw_without_ok|]. apply runs_ret. by exists (p_world p).
  - destruct (negb (fs_isDirectory _ _)).
    + apply runs_put. eexists. split; [|done]. apply createDirectory_ok.
    + apply runs_ret. by exists (p_world p).
Qed.

Lemma create_env_ok db path flags mode max_databases p :
  p_instances p !! lmdb_id db = None ->
  match env_open_answer path flags mode (m_growth_factor db) max_databases (p_world p) with
  | Some r => negb (r =? MDB_SUCCESS)
  | None => false
  end = false ->
  1 <= m_growth_factor db <= 2 ^ 20 -> Z.land (Z.lor flags MDB_NOTLS) MDB_RDONLY = 0 -> m_open_txns db = 0 ->
  runs (create_env db path flags mode max_databases) p
    (fun l p' => (exists w, p' = set_world w p) /\ lmdb_id l = lmdb_id db /\
       m_growth_factor l = m_growth_factor db /\ m_databases l = ∅ /\ exists e, env_ok l e /\
       disk (env_side e) = file_contents (p_world p) path /\
       m_growth_factor db * LMDB_SPACE_MULTIPLIER <= env_mapsize e)
    (fun p' => p' = p).
Proof using OLaws.
  intros Hnone Hopen Hg Hro Htxns. unfold create_env. apply runs_bind, runs_get. unfold env_open_answer in Hopen.
  pose proof (create_ok (p_world p)) as Hcreate. destruct (mdb_env_create (p_world p)) as [r handle].
  destruct (Z.eqb_spec r MDB_SUCCESS) as [->|_]; [|by apply throw_without_ok].
  destruct (Hcreate eq_refl) as [e Hhandle]. cbn in Hhandle. subst handle. cbn [negb].
  apply runs_bind. unfold runs at 1, deref. cbn.
  cbn beta iota in Hopen. destruct (mdb_env_set_mapsize e _) as [r1 e1] eqn:E1.
  destruct (Z.eqb_spec r1 MDB_SUCCESS) as [->|_]; [|by apply throw_without_ok]. cbn [negb].
  destruct (mdb_env_set_maxdbs e1 _) as [r2 e2] eqn:E2.
  destruct (Z.eqb_spec r2 MDB_SUCCESS) as [->|_]; [|by apply throw_without_ok]. cbn [negb].
  cbn in Hopen. destruct (mdb_env_open (p_world p) e2 path _ mode) as [[r3 w] e3] eqn:E3.
  apply negb_false_iff, Z.eqb_eq in Hopen as ->.
  apply runs_bind, runs_put. cbn. apply runs_ret.
  destruct (open_ok _ _ _ _ _ _ _ E3) as (Hm3 & Hdisk & Hro3). specialize (Hro3 Hro).
  pose proof (set_maxdbs_ok _ _ _ _ E2) as Hm2.
  destruct (set_mapsize_ok _ _ _ _ E1) as (_ & Hm1 & _).
  unfold LMDB_SPACE_MULTIPLIER in *. rewrite wrap64_id in Hm1 by (unfold uintw; lia).
  specialize (Hm1 eq_refl ltac:(lia)).
  split; [by exists w|]. split; [done|]. split; [done|]. split; [done|]. exists e3.
  split; [|split; [done|lia]]. split; [done|done|done|done|]. intros id d Hd. cbn in Hd. by rewrite lookup_empty in Hd.
Qed.

(** What [instance] gives for a path that was not open. *)
Definition fresh_environment (p : process) (path : string) (growth : Z) l e : Prop :=
  m_growth_factor l = growth /\ disk (env_side e) = file_contents (p_world p) path /\
  growth * LMDB_SPACE_MULTIPLIER <= env_mapsize e.

Lemma LMDB_instance_spec path flags mode growth max_databases p :
  environments_ok p -> open_refused path flags mode growth max_databases p = false ->
  1 <= growth <= 2 ^ 20 -> Z.land (Z.lor flags MDB_NOTLS) MDB_RDONLY = 0 ->
  runs (LMDB_instance path flags mode growth max_databases) p
    (fun a p' => opens p p' /\ exists l e, environment p' a l e /\ lmdb_id l = name_id path /\
       (p_instances p !! name_id path = None -> m_databases l = ∅ /\ fresh_environment p path growth l e))
    (opens p).
Proof using OLaws.
  intros Hp Hopen Hg Hro. unfold LMDB_instance. apply runs_bind, runs_get, runs_bind. case_bool_decide as Hin.
  - apply runs_ret, runs_bind, runs_get. destruct Hin as [a Ha]. rewrite Ha. apply runs_ret.
    split; [done|]. destruct (Hp _ _ Ha) as (l & e & Hl & Hid & Hok). exists l, e.
    split; [split; [done|]; split; [by rewrite Hid|done]|]. by split.
  - apply eq_None_not_Some in Hin. apply runs_bind. unfold open_refused in Hopen. rewrite Hin in Hopen.
    eapply runs_weaken; [by apply runs_recorded, prepare_path_ok| |by intros ? [_ ->]].
    cbn. intros [] p1 (E1 & w1 & Hw1 & ->). rewrite E1 in Hopen.
    apply runs_bind. eapply runs_weaken; [by apply create_env_ok| |intros ? ->; apply opens_world].
    cbn. intros l p2 ([w2 ->] & Hid & Hgr & Hds & e & Hok & Hdisk & Hm).
    apply runs_bind, runs_get, runs_put, runs_bind, runs_get. cbn. rewrite lookup_insert_eq. apply runs_ret.
    assert (Hnew : (p_lmdbs p ++ [l]) !! List.length (p_lmdbs p) = Some l) by by apply list_lookup_middle.
    split.
    + split; [| |done..].
      * intros _ id a. cbn. intros [[<- <-]|[_ Ha]]%lookup_insert_Some; [by exists l, e|].
        destruct (Hp _ _ Ha) as (l' & e' & Hl' & ?). exists l', e'. split; [by apply lookup_app_l_Some|done].
      * intros a l' e' (Hl' & Ha & Hok'). exists l', e'. split; [|done]. split; [by apply lookup_app_l_Some|].
        split; [|done]. cbn. rewrite lookup_insert_ne; [done|]. intros Heq. cbn in *. congruence.
    + exists l, e. split; [split; [done|]; split; [|done]; cbn; rewrite Hid; apply lookup_insert_eq|].
      split; [done|]. intros _. split; [done|]. split; [done|]. split; [|done]. rewrite Hdisk. cbn. by rewrite Hw1.
Qed.
(** ** Reading and writing keep the handles *)

Section Frame.
Variable N : option string -> option Z.

Definition env_frame l : Prop :=
  exists e, m_env l = Some e /\ handles (env_side e) = N /\ read_only (env_side e) = false.

Definition txn_frame (s : LMDB * LMDBTransaction) : Prop :=
  env_frame (fst s) /\ forall t, m_txn (snd s) = Some t -> txn_handles_of t = N.

Lemma env_frame_set l e e' :
  m_env l = Some e -> env_frame l -> env_side e' = env_side e -> env_frame (set_env e' l).
Proof using. intros He (e0 & He0 & HN & Hro) Hs. exists e'. rewrite Hs. split; [done|]. by simplify_eq. Qed.

(** The opening moves of the next proofs. *)
Ltac run := unfold may, mbind, prog_bind, mret, prog_ret, get_state, put_state, deref, open_transactions; cbn.
Ltac frame He := pose proof He as (?e & ?Henv & ?HN & ?Hro).

Lemma set_mapsize_frame l e n :
  m_env l = Some e -> env_frame l -> env_frame (set_env (snd (mdb_env_set_mapsize e n)) l).
Proof using.
  intros He Hl. eapply env_frame_set; [done..|]. destruct (mdb_env_set_mapsize e n) as [r e'] eqn:E.
  by eapply side_set_mapsize.
Qed.

Lemma detect_map_size_frame l :
  env_frame l -> may detect_map_size l (fun _ => env_frame) env_frame.
Proof using.
  intros H. frame H. unfold detect_map_size. run. destruct (negb _); [done|]. rewrite Henv. cbn.
  pose proof (set_mapsize_frame l e 0 Henv H) as Hs. by destruct (mdb_env_set_mapsize e 0).
Qed.

Lemma expand_frame indeterminate l :
  env_frame l -> may (expand indeterminate) l (fun _ => env_frame) env_frame.
Proof using.
  intros H. frame H. unfold expand, memory_to_pages, expand_pages. run.
  rewrite (stats_open indeterminate l e Henv). cbn. destruct (negb _); [done|]. rewrite (info_open indeterminate l e Henv). cbn.
  rewrite (stats_open indeterminate l e Henv). cbn. rewrite Henv. cbn.
  match goal with |- context [mdb_env_set_mapsize e ?n] =>
    pose proof (set_mapsize_frame l e n Henv H) as Hs; by destruct (mdb_env_set_mapsize e n) end.
Qed.

Lemma txn_setup_frame db ro l :
  env_frame l -> may (txn_setup db ro) l (fun x l' => txn_frame (l', x)) env_frame.
Proof using.
  intros H. unfold txn_setup. apply may_bind.
  apply (may_weaken _ _ (fun t l' => env_frame l' /\ txn_handles_of t = N) _ env_frame); [| |done].
  - generalize 3%nat as tries. intros tries. revert l H. induction tries as [|tries IH]; intros l H; [done|].
    frame H. cbn [txn_setup_loop]. apply may_bind. unfold may at 1, env_handle, or_throw. rewrite Henv. cbn.
    apply may_bind, may_get. destruct (mdb_txn_begin e _) as [[r e'] t] eqn:E.
    destruct (side_begin _ _ _ _ _ E) as [Hs Ht]. apply may_bind, may_put.
    assert (H' : env_frame (set_env e' l)) by by eapply env_frame_set.
    destruct (Z.eqb_spec r MDB_SUCCESS) as [->|_].
    + apply may_ret. split; [done|]. destruct (Ht eq_refl) as [-> _]. done.
    + destruct (_ && _); [|by apply may_throw]. apply may_bind.
      eapply may_weaken; [by apply detect_map_size_frame| |done]. cbn. auto.
  - cbn. intros t l' [Hl Ht]. unfold transaction_register. run.
    destruct ro; cbn; (split; [done|]; cbn; by intros t' [= <-]).
Qed.

Lemma unregister_frame ro l : env_frame l -> may (transaction_unregister ro) l (fun _ => env_frame) env_frame.
Proof using. intros H. unfold transaction_unregister, may. destruct ro; [done|]. by destruct (0 <? m_open_txns l). Qed.

Lemma abort_frame s : txn_frame s -> may abort s (fun _ => txn_frame) txn_frame.
Proof using.
  destruct s as [l x]. intros [H Ht]. frame H. unfold abort. unfold may. cbv beta iota.
  destruct (m_txn x) as [t|] eqn:Hx; [|split; [done|]; cbn; by rewrite Hx].
  unfold on_env. run. cbn in Henv. rewrite Henv. cbn.
  pose proof (unregister_frame (m_readonly x) (set_env (mdb_txn_abort e t) l)
    ltac:(eapply env_frame_set; [done..|apply side_abort])) as Hu.
  unfold may in Hu. by destruct (transaction_unregister _ _).
Qed.

Lemma commit_frame s : txn_frame s -> may commit s (fun _ => txn_frame) txn_frame.
Proof using.
  destruct s as [l x]. intros [H Ht]. frame H. unfold commit. unfold may. cbv beta iota.
  destruct (m_txn x) as [t|] eqn:Hx; [|split; [done|]; cbn; by rewrite Hx].
  unfold on_env. run. cbn in Henv. rewrite Henv. cbn. destruct (mdb_txn_commit e t) as [r e'] eqn:E. cbn.
  assert (H' : env_frame (set_env e' l)).
  { exists e'. rewrite (side_commit _ _ _ _ E). destruct (decide _); [|done]. cbn. by rewrite (Ht _ Hx). }
  pose proof (unregister_frame (m_readonly x) _ H') as Hu. unfold may in Hu.
  by destruct (transaction_unregister _ _).
Qed.

Lemma txn_put_frame k v flags s : txn_frame s -> may (txn_put k v flags) s (fun _ => txn_frame) txn_frame.
Proof using.
  destruct s as [l x]. intros [H Ht]. unfold txn_put, txn_handles, txn_update. run. cbn in Ht.
  destruct (m_txn x) as [t|]; [|done]. cbn. destruct (txn_db x); [|done]. cbn.
  destruct (mdb_put t _ _ _ _) as [r t'] eqn:E. cbn. split; [done|]. cbn. intros t2 [= <-].
  rewrite (handles_put _ _ _ _ _ _ _ E). by apply Ht.
Qed.

Lemma txn_get_frame k s : txn_frame s -> may (txn_get k) s (fun _ => txn_frame) txn_frame.
Proof using.
  destruct s as [l x]. intros H. unfold txn_get, txn_handles. run.
  destruct (m_txn x); [|done]. cbn. destruct (txn_db x); [|done]. cbn. by destruct (mdb_get _ _ _).
Qed.

Lemma CHECK_frame indeterminate error s :
  txn_frame s -> may (MDB_CHECK_TXN_EXPAND indeterminate error) s (fun _ => txn_frame) txn_frame.
Proof using.
  intros H. unfold MDB_CHECK_TXN_EXPAND. destruct (_ || _); [|done]. apply may_bind.
  eapply may_weaken; [by apply abort_frame| |done]. cbn. intros _ [l x] [Hl Hx]. apply may_bind.
  pose proof (expand_frame indeterminate l Hl) as He. unfold may, on_env in *. by destruct (expand indeterminate l).
Qed.

Lemma checked_frame indeterminate m k s :
  (forall s, txn_frame s -> may m s (fun _ => txn_frame) txn_frame) ->
  (forall s, txn_frame s -> may k s (fun _ => txn_frame) txn_frame) ->
  txn_frame s -> may (checked indeterminate m k) s (fun _ => txn_frame) txn_frame.
Proof using.
  intros Hm Hk H. unfold checked. apply may_bind. eapply may_weaken; [by apply Hm| |done].
  cbn. intros error s1 H1. apply may_bind. eapply may_weaken; [by apply CHECK_frame| |done].
  cbn. intros [] s2 H2; [done|]. destruct (is_error error); [done|]. by apply Hk.
Qed.

Lemma scoped_frame {A} new (body : txn_prog A) l :
  may new l (fun x l' => txn_frame (l', x)) env_frame ->
  (forall s, txn_frame s -> may body s (fun _ => txn_frame) txn_frame) ->
  may (scoped new body) l (fun _ => env_frame) env_frame.
Proof using.
  intros Hnew Hbody. unfold may, scoped in *. destruct (new l) as [x l1|l1| |]; try done.
  specialize (Hbody _ Hnew). destruct (body (l1, x)) as [a s|s| |]; try done;
    pose proof (abort_frame s Hbody) as Ha; unfold may in Ha;
    by destruct (abort s) as [_ [l2 ?]|[l2 ?]| |]; try destruct Ha.
Qed.

Lemma db_transaction_frame db ro l :
  env_frame l -> may (db_transaction db ro) l (fun x l' => txn_frame (l', x)) env_frame.
Proof using.
  intros H. unfold db_transaction. destruct (m_dbi db =? 0); [done|]. apply may_bind.
  unfold get_database. unfold may at 1. destruct (m_databases l !! db_id db); [|done]. cbn.
  by apply txn_setup_frame.
Qed.

Lemma checked_commit_frame indeterminate s :
  txn_frame s -> may (checked_commit indeterminate) s (fun _ => txn_frame) txn_frame.
Proof using.
  intros Hs. apply may_bind. eapply may_weaken; [by apply commit_frame| |done]. cbn. intros error s1 H1.
  apply may_bind. eapply may_weaken; [by apply CHECK_frame| |done]. by intros [].
Qed.

Lemma try_again_frame fuel new body l :
  (forall l, env_frame l -> may new l (fun x l' => txn_frame (l', x)) env_frame) ->
  (forall s, txn_frame s -> may body s (fun _ => txn_frame) txn_frame) ->
  env_frame l -> may (try_again fuel new body) l (fun _ => env_frame) env_frame.
Proof using.
  intros Hnew Hbody. revert l. induction fuel as [|fuel IH]; intros l H; [done|]. cbn [try_again].
  apply may_bind. eapply may_weaken; [apply scoped_frame; [by apply Hnew|exact Hbody]| |done].
  cbn. intros [error|] l1 H1; [done|]. by apply IH.
Qed.

Lemma db_put_frame fuel indeterminate db k v flags l :
  env_frame l -> may (db_put fuel indeterminate db k v flags) l (fun _ => env_frame) env_frame.
Proof using.
  apply try_again_frame; [intros; by apply db_transaction_frame|]. intros s.
  apply checked_frame; [intros; by apply txn_put_frame|intros; by apply checked_commit_frame].
Qed.

Lemma db_get_as_frame {V} (rd : reader V) dflt db k l :
  env_frame l -> may (db_get_as rd dflt db k) l (fun _ => env_frame) env_frame.
Proof using.
  intros H. unfold db_get_as. apply may_bind.
  eapply may_weaken; [apply scoped_frame; [by apply db_transaction_frame|apply txn_get_frame]| |done].
  cbn. intros [error value] l1 H1. destruct (is_error error); [done|]. apply may_bind, may_or_throw; done.
Qed.
End Frame.
(** ** Objects in order *)

Context {IP : IPParser}.

Definition storage_databases (s : BlockchainStorage) : list (string * LMDBDatabase) :=
  [("blocks", m_blocks s); ("block_indexes", m_block_indexes s);
   ("block_timestamps", m_block_timestamps s); ("transactions", m_transactions s);
   ("key_images", m_key_images s); ("transaction_outputs", m_transaction_outputs s)].

(** A database that is registered under the id of its name. *)
Definition is_named l (entry : string * LMDBDatabase) : Prop :=
  m_databases l !! db_id entry.2 = Some entry.2 /\ db_id entry.2 = name_id entry.1.

Definition storage_in (p : process) (s : storage_object) : Prop := exists l e,
  environment p (so_env s) l e /\ Forall (is_named l) (storage_databases (so_databases s)).

Definition engine_in (p : process) (E : engine_object) : Prop := exists l e,
  environment p (eo_env E) l e /\ registered l (m_db_candidates (eo_databases E)) /\
  registered l (m_db_stakes (eo_databases E)) /\
  m_dbi (m_db_candidates (eo_databases E)) <> m_dbi (m_db_stakes (eo_databases E)).

Definition peerdb_in (p : process) (d : peerdb_object) : Prop := exists l e,
  environment p (po_env d) l e /\ registered l (m_database (po_peerdb d)).

Record process_ok (p : process) : Prop := {
  process_environments : environments_ok p;
  process_storages : forall id s, p_storages p !! id = Some s -> storage_in p s;
  process_engines : forall id E, p_engines p !! id = Some E -> engine_in p E;
  process_peerdbs : forall id d, p_peerdbs p !! id = Some d -> peerdb_in p d
}.

Lemma registered_older l l' db : older l l' -> registered l db -> registered l' db.
Proof using. intros (_ & _ & Hds) [? ?]. split; [done|]. by eapply lookup_weaken. Qed.

Lemma is_named_older l l' entry : older l l' -> is_named l entry -> is_named l' entry.
Proof using. intros (_ & _ & Hds) [? ?]. split; [|done]. by eapply lookup_weaken. Qed.

Lemma storage_in_opens p p' s : opens p p' -> storage_in p s -> storage_in p' s.
Proof using.
  intros Ho (l & e & Hp & Hok). destruct (opens_environment _ _ Ho _ _ _ Hp) as (l' & e' & Hp' & Hold).
  exists l', e'. split; [done|]. eapply Forall_impl; [exact Hok|]. intros entry. by apply is_named_older.
Qed.

Lemma engine_in_opens p p' E : opens p p' -> engine_in p E -> engine_in p' E.
Proof using.
  intros Ho (l & e & Hp & H1 & H2 & Hne).
  destruct (opens_environment _ _ Ho _ _ _ Hp) as (l' & e' & Hp' & Hold).
  exists l', e'. split; [done|]. by split_and!; [eapply registered_older..|].
Qed.

Lemma peerdb_in_opens p p' d : opens p p' -> peerdb_in p d -> peerdb_in p' d.
Proof using.
  intros Ho (l & e & Hp & H1). destruct (opens_environment _ _ Ho _ _ _ Hp) as (l' & e' & Hp' & Hold).
  exists l', e'. split; [done|]. by eapply registered_older.
Qed.

Lemma process_ok_opens p p' : process_ok p -> opens p p' -> process_ok p'.
Proof using.
  intros [He Hs HE Hd] Ho. split.
  - by apply (opens_ok _ _ Ho).
  - intros id s. rewrite (opens_storages _ _ Ho). eauto using storage_in_opens.
  - intros id s. rewrite (opens_engines _ _ Ho). eauto using engine_in_opens.
  - intros id s. rewrite (opens_peerdbs _ _ Ho). eauto using peerdb_in_opens.
Qed.

(** ** Opening several databases of one environment *)

Definition is_database l e (entry : string * LMDBDatabase) : Prop :=
  m_databases l !! db_id entry.2 = Some entry.2 /\ db_id entry.2 = name_id entry.1 /\
  handles (env_side e) (handle_name entry.1) = Some (m_dbi entry.2).

Lemma is_database_named l e entry : is_database l e entry -> is_named l entry.
Proof using. by intros (? & ? & _). Qed.

(** In an environment in order the handle is the one of the name. *)
Lemma named_is_database l e entry :
  env_ok l e -> entry.1 ∈ database_names -> is_named l entry -> is_database l e entry.
Proof using Hnames.
  intros Hok Hn [Hdb Hid]. split; [done|]. split; [done|].
  destruct (ok_databases _ _ Hok _ _ Hdb) as (name & Hn' & Hid' & _ & Hh).
  by rewrite (name_id_inj entry.1 name Hn Hn') by congruence.
Qed.

(** In [p] the databases [dbs] of the environment at [a] are open; it was [l0]
    with the handle [e0] at first. *)
Definition opened (p : process) (a : nat) l0 e0 (dbs : list (string * LMDBDatabase)) : Prop :=
  exists l e, environment p a l e /\ older l0 l /\ same_env e0 e /\ Forall (is_database l e) dbs.

Lemma open_next {A} indeterminate (k : LMDBDatabase -> proc A) p a l0 e0 dbs name flags
    (Q : A -> process -> Prop) (X : process -> Prop) :
  opened p a l0 e0 dbs -> name ∈ database_names ->
  (forall db p', opens p p' -> opened p' a l0 e0 (dbs ++ [(name, db)]) -> runs (k db) p' Q X) ->
  (forall p', opens p p' -> X p') ->
  runs (open_database indeterminate a name flags ≫= k) p Q X.
Proof using Hnames HL.
  intros (l & e & Hp & Hold & Hsame & Hdbs) Hn Hk HX. apply runs_bind.
  eapply runs_weaken; [by apply open_database_spec| |done]. cbn.
  intros db p' (Ho & l' & e' & Hp' & Hold' & Hsame' & Hdb). apply Hk; [done|].
  exists l', e'. split; [done|]. split; [by etrans|]. split; [by etrans|].
  apply Forall_app. split; [|by apply Forall_singleton].
  eapply Forall_impl; [exact Hdbs|]. intros [n d] (H1 & H2 & H3). split; [|split; [done|]].
  - eapply lookup_weaken; [exact H1|]. apply Hold'.
  - by apply Hsame'.
Qed.

Lemma opened_registered l e dbs :
  env_ok l e -> Forall (is_database l e) dbs -> Forall (registered l) dbs.*2.
Proof using.
  intros Hok Hdbs. apply Forall_fmap. eapply Forall_impl; [exact Hdbs|]. intros [n d] (H & _ & _).
  by eapply named_registered.
Qed.

Lemma opened_distinct l e dbs :
  env_ok l e -> Forall (is_database l e) dbs -> dbs.*1 ⊆+ database_names -> NoDup (m_dbi <$> dbs.*2).
Proof using Hnames.
  intros Hok Hdbs Hin. eapply named_distinct; [exact Hok| |].
  - apply Forall_fmap. eapply Forall_impl; [exact Hdbs|]. by intros [n d] (H & _ & _).
  - replace (db_id <$> dbs.*2) with (name_id <$> dbs.*1).
    + apply (fmap_submseteq name_id) in Hin. apply submseteq_Permutation in Hin as [k Hk].
      rewrite Hk in Hnames. by apply NoDup_app in Hnames as [? _].
    + clear Hin. induction Hdbs as [|[n d] dbs (_ & Hid & _) _ IH]; [done|]. cbn in *. by rewrite Hid, IH.
Qed.

Lemma named_databases l e (s : BlockchainStorage) :
  env_ok l e -> Forall (is_named l) (storage_databases s) ->
  Forall (is_database l e) (storage_databases s).
Proof using Hnames.
  intros Hok. unfold storage_databases. rewrite !Forall_cons. intros Hdbs. destruct_and? Hdbs.
  split_and!; try (apply named_is_database; [done|by apply (bool_decide_unpack _)|done]). by apply Forall_nil.
Qed.

Lemma named_storage_ok l e (s : BlockchainStorage) :
  env_ok l e -> Forall (is_named l) (storage_databases s) -> storage_ok l s.
Proof using Hnames.
  intros Hok Hn. pose proof (named_databases _ _ _ Hok Hn) as Hdbs.
  pose proof (opened_registered _ _ _ Hok Hdbs) as Hreg. cbn in Hreg.
  rewrite !Forall_cons in Hreg. destruct Hreg as (? & ? & ? & ? & ? & ? & _). split; try done.
  apply (opened_distinct _ _ _ Hok Hdbs). by apply (bool_decide_unpack _).
Qed.

(** The contents of an open database are what the file holds under its name. *)
Lemma opened_contents l e e0 dbs name db k :
  same_env e0 e -> Forall (is_database l e) dbs -> (name, db) ∈ dbs -> name <> EmptyString ->
  env_contents e !! (m_dbi db, k) = disk (env_side e0) (Some name) k.
Proof using.
  intros [(Hdisk & _) _] Hdbs Hin Hne. rewrite Forall_forall in Hdbs. destruct (Hdbs _ Hin) as (_ & _ & Hh).
  rewrite (handles_reach _ _ _ _ Hh). unfold handle_name. cbn. by rewrite bool_decide_eq_false_2, Hdisk.
Qed.
(** ** The three classes *)

(** One more database of the constructor; [H] says what was done so far. *)
Ltac open_one H :=
  eapply open_next; [eassumption|by apply (bool_decide_unpack _)| |by intros; etrans; [exact H|]];
  let db := fresh "db" in let q := fresh "q" in let Ho := fresh "Ho" in let Hq := fresh "Hq" in
  intros db q Ho Hq; cbn [app] in Hq; apply (transitivity H) in Ho; clear H; rename Ho into H.

Lemma new_BlockchainStorage_spec indeterminate path p :
  environments_ok p -> can_open path 0 16 p ->
  runs (new_BlockchainStorage indeterminate path) p
    (fun s p' => opens p p' /\ exists l e l0 e0, environment p' (so_env s) l e /\
       Forall (is_database l e) (storage_databases (so_databases s)) /\
       older l0 l /\ same_env e0 e /\
       (p_instances p !! name_id path = None -> fresh_environment p path 16 l0 e0))
    (opens p).
Proof using Hnames HL OLaws.
  intros Hp Hopen. unfold new_BlockchainStorage. apply runs_bind.
  eapply runs_weaken; [by apply LMDB_instance_spec| |done].
  cbn. intros a p1 (Ho1 & l0 & e0 & Hp1 & _ & Hfresh).
  assert (H0 : opened p1 a l0 e0 []) by (exists l0, e0; split_and!; try done; constructor).
  do 6 open_one Ho1. apply runs_ret. split; [done|].
  destruct Hq4 as (l & e & Hl & Hold & Hsame & Hdbs). exists l, e, l0, e0. cbn [so_env so_databases].
  split_and!; try done. intros Hnone. by apply Hfresh.
Qed.

Lemma storage_instance_again indeterminate path p s :
  p_storages p !! name_id path = Some s -> BlockchainStorage_instance indeterminate path p = Returned s p.
Proof using.
  intros Hs. unfold BlockchainStorage_instance, mbind, prog_bind, get_state.
  rewrite bool_decide_eq_true_2 by by eexists. unfold mret, prog_ret. cbn. by rewrite Hs.
Qed.

(** [instance] has to construct a storage on a file that LMDB refuses to open. *)
Definition storage_refused (path : string) (p : process) : bool :=
  match p_storages p !! name_id path with
  | Some _ => false
  | None => open_refused path 0 384 16 8 p
  end.

Lemma refused_undefined path flags mode growth max_databases p :
  open_refused path flags mode growth max_databases p = true ->
  LMDB_instance path flags mode growth max_databases p = Undefined.
Proof using.
  unfold open_refused, env_open_answer. intros H. destruct (p_instances p !! name_id path) eqn:Hnone; [done|].
  unfold LMDB_instance, create_env, mbind, prog_bind, get_state, put_state, mret, prog_ret.
  rewrite bool_decide_eq_false_2 by by apply eq_None_not_Some.
  destruct (prepare_path _ _ _ p) as [x p1| | |]; try done. cbn.
  destruct (mdb_env_create (p_world p1)) as [r [e|]]; [|done].
  destruct (mdb_env_set_mapsize e _) as [r1 e1] eqn:E1. destruct (mdb_env_set_maxdbs e1 _) as [r2 e2] eqn:E2.
  destruct (r =? MDB_SUCCESS); [|done]. cbn. rewrite E1. destruct (r1 =? MDB_SUCCESS); [|done]. cbn. rewrite E2.
  destruct (r2 =? MDB_SUCCESS); [|done]. cbn in H |- *.
  destruct (mdb_env_open (p_world p1) e2 _ _ _) as [[r3 w] e3]. by rewrite H.
Qed.

Lemma storage_refused_undefined indeterminate path p :
  storage_refused path p = true -> BlockchainStorage_instance indeterminate path p = Undefined.
Proof using.
  unfold storage_refused. intros H. destruct (p_storages p !! name_id path) eqn:Hs; [done|].
  unfold BlockchainStorage_instance, new_BlockchainStorage, mbind, prog_bind, get_state.
  rewrite Hs, bool_decide_eq_false_2 by by apply eq_None_not_Some. by rewrite refused_undefined.
Qed.

Lemma storage_instance_spec indeterminate path p :
  process_ok p -> storage_refused path p = false ->
  runs (BlockchainStorage_instance indeterminate path) p
    (fun s p' => process_ok p' /\ storage_in p' s /\
       BlockchainStorage_instance indeterminate path p' = Returned s p' /\
       (p_storages p !! name_id path = None -> p_instances p !! name_id path = None ->
        exists l e, environment p' (so_env s) l e /\ m_growth_factor l = 16 /\
          storage_ok l (so_databases s) /\
          at_rest l 0 (env_contents e) (16 * LMDB_SPACE_MULTIPLIER) l /\
          forall name db k, (name, db) ∈ storage_databases (so_databases s) ->
            env_contents e !! (m_dbi db, k) = file_contents (p_world p) path (Some name) k))
    (fun p' => process_ok p' /\ p_storages p' = p_storages p).
Proof using Hnames HL OLaws.
  intros Hp Hopen. unfold storage_refused in Hopen. destruct (p_storages p !! name_id path) as [s|] eqn:Hs.
  - unfold runs. rewrite (storage_instance_again _ _ _ _ Hs). split; [done|].
    split; [by eapply process_storages|]. by split; [apply storage_instance_again|].
  - unfold BlockchainStorage_instance at 1. apply runs_bind, runs_get, runs_bind. rewrite Hs.
    rewrite bool_decide_eq_false_2 by by apply eq_None_not_Some. apply runs_bind.
    eapply runs_weaken; [apply new_BlockchainStorage_spec; [apply Hp|done]| |].
    2: intros p' Ho; split; [by eapply process_ok_opens|apply (opens_storages _ _ Ho)].
    cbn. intros s p1 (Ho & l & e & l0 & e0 & Hl & Hdbs & (_ & Hg & _) & Hsame & Hfresh).
    apply runs_bind, runs_get, runs_put, runs_bind, runs_get. cbn. rewrite lookup_insert_eq. apply runs_ret.
    pose proof (process_ok_opens _ _ Hp Ho) as [He Hss HE Hd].
    assert (Hnamed : Forall (is_named l) (storage_databases (so_databases s)))
      by (eapply Forall_impl; [exact Hdbs|]; intros entry; apply is_database_named).
    assert (Hin : storage_in p1 s) by by exists l, e.
    split; [split; [exact He| |exact HE|exact Hd]|].
    { cbn. intros id s' [[_ <-]|[_ Hs']]%lookup_insert_Some; [exact Hin|exact (Hss _ _ Hs')]. }
    split; [exact Hin|]. split; [apply storage_instance_again, lookup_insert_eq|].
    intros _ Hnone. destruct (Hfresh Hnone) as (Hgr & Hdisk & Hsize). exists l, e. split; [exact Hl|].
    split; [congruence|]. split; [eapply named_storage_ok; [apply Hl|done]|]. split.
    + eapply at_rest_weaken; [apply env_ok_rest, Hl|]. destruct Hsame as [_ ?]. lia.
    + intros name db k Hdb. rewrite (opened_contents _ _ _ _ _ _ _ Hsame Hdbs Hdb), Hdisk; [done|].
      intros ->. unfold storage_databases in Hdb. set_solver.
Qed.

(** C26: A chain storage is opened whole or not at all, once per path. When the
    path is not open yet and [mdb_env_open] refuses the environment that was made
    for it, the code runs into undefined behaviour. In every other case [instance]
    returns or throws: the storage that it returns has all its databases open in
    the registered environment, it is what [instance] returns from then on, and
    one that was opened now is [storage_ok] and shows what the file holds under the names
    of its tables; after an exception no storage was added. *)
Theorem storage_opened indeterminate path p :
  process_ok p ->
  if storage_refused path p then BlockchainStorage_instance indeterminate path p = Undefined
  else
    runs (BlockchainStorage_instance indeterminate path) p
      (fun s p' => process_ok p' /\ storage_in p' s /\
         BlockchainStorage_instance indeterminate path p' = Returned s p' /\
         (p_storages p !! name_id path = None -> p_instances p !! name_id path = None ->
          exists l e, environment p' (so_env s) l e /\ m_growth_factor l = 16 /\
            storage_ok l (so_databases s) /\
            at_rest l 0 (env_contents e) (16 * LMDB_SPACE_MULTIPLIER) l /\
            forall name db k, (name, db) ∈ storage_databases (so_databases s) ->
              env_contents e !! (m_dbi db, k) = file_contents (p_world p) path (Some name) k))
      (fun p' => process_ok p' /\ p_storages p' = p_storages p).
Proof using Hnames HL OLaws.
  intros Hp. destruct (storage_refused path p) eqn:Hr; [by apply storage_refused_undefined|].
  by apply storage_instance_spec.
Qed.

(** The staking engine: both databases are open and differ. *)
Lemma new_StakingEngine_spec indeterminate path p :
  environments_ok p -> can_open path MDB_NOSUBDIR 8 p ->
  runs (new_StakingEngine indeterminate path) p (fun E p' => opens p p' /\ engine_in p' E) (opens p).
Proof using Hnames HL OLaws.
  intros Hp Hopen. unfold new_StakingEngine, LMDB_instance_default. apply runs_bind.
  eapply runs_weaken; [by apply LMDB_instance_spec| |done].
  cbn. intros a p1 (Ho1 & l0 & e0 & Hp1 & _ & _).
  assert (H0 : opened p1 a l0 e0 []) by (exists l0, e0; split_and!; try done; constructor).
  do 2 open_one Ho1. apply runs_ret. split; [done|].
  destruct Hq0 as (l & e & Hl & Hold & Hsame & Hdbs). exists l, e.
  pose proof (opened_registered _ _ _ (proj2 (proj2 Hl)) Hdbs) as Hreg. cbn in Hreg.
  rewrite !Forall_cons in Hreg. destruct Hreg as (? & ? & _).
  pose proof (opened_distinct _ _ _ (proj2 (proj2 Hl)) Hdbs ltac:(by apply (bool_decide_unpack _))) as Hnd.
  cbn in Hnd. apply NoDup_cons in Hnd as [Hni _]. split_and!; try done. cbn. set_solver.
Qed.

Theorem engine_opened indeterminate path p :
  process_ok p -> can_open path MDB_NOSUBDIR 8 p ->
  runs (StakingEngine_instance indeterminate path) p
    (fun E p' => process_ok p' /\ engine_in p' E /\ p_engines p' !! name_id path = Some E)
    (fun p' => process_ok p' /\ p_engines p' = p_engines p).
Proof using Hnames HL OLaws.
  intros Hp Hopen. unfold StakingEngine_instance. apply runs_bind, runs_get, runs_bind. case_bool_decide as Hs.
  - apply runs_ret, runs_bind, runs_get. destruct Hs as [E HE]. rewrite HE. apply runs_ret.
    split; [done|]. split; [by eapply process_engines|done].
  - apply runs_bind. eapply runs_weaken; [apply new_StakingEngine_spec; [apply Hp|done]| |].
    2: intros p' Ho; split; [by eapply process_ok_opens|apply (opens_engines _ _ Ho)].
    cbn. intros E p1 [Ho Hin]. pose proof (process_ok_opens _ _ Hp Ho) as [He Hss HE Hd].
    apply runs_bind, runs_get, runs_put, runs_bind, runs_get. cbn. rewrite lookup_insert_eq. apply runs_ret.
    split; [split; [exact He|exact Hss| |exact Hd]|by split; [exact Hin|apply lookup_insert_eq]].
    cbn. intros id E' [[_ <-]|[_ HE']]%lookup_insert_Some; [exact Hin|exact (HE _ _ HE')].
Qed.

(** The peer database, which also reads and writes the peer id. *)
Lemma rest_env_ok l e C B l' :
  env_ok l e -> at_rest l 0 C B l' -> env_frame (handles (env_side e)) l' ->
  exists e', env_ok l' e' /\ older l l'.
Proof using.
  intros [He Hopen Hg Hro Hdb] [Hid Hgr Hds Ho _] (e' & He' & Hh & Hro'). exists e'. split.
  - split; [done|done|by rewrite Hgr|done|]. rewrite Hds. intros id db Hin.
    destruct (Hdb _ _ Hin) as (name & ? & ? & ? & ?). exists name. by rewrite Hh.
  - split; [done|]. split; [done|]. by rewrite Hds.
Qed.

Lemma new_PeerDB_ok indeterminate fuel peerlist local random_hash l e :
  env_ok l e -> registered l local -> mapsize_limit < Z.of_nat fuel ->
  runs (new_PeerDB indeterminate fuel peerlist local random_hash) l
    (fun P l' => exists e', env_ok l' e' /\ older l l' /\ m_database P = peerlist)
    (fun l' => exists e', env_ok l' e' /\ older l l').
Proof using.
  intros Hok Hdb Hf. pose proof (env_ok_rest _ _ Hok) as Hr.
  assert (Hframe : env_frame (handles (env_side e)) l) by (exists e; destruct Hok; by split_and!).
  pose proof (mapsize_range e). unfold new_PeerDB. apply runs_bind.
  eapply runs_weaken; [eapply runs_may; [by eapply db_get_as_spec|by apply db_get_as_frame]| |].
  2: cbn; intros l' [Hr' Hf']; by eapply rest_env_ok.
  cbn. intros [error value] l1 [[Hr1 _] Hf1]. apply runs_bind.
  eapply runs_weaken; [eapply runs_may; [eapply db_put_spec; [apply Hok|done|exact Hr1|lia]|by apply db_put_frame]| |].
  2: cbn; intros l' [Hr' Hf']; by eapply rest_env_ok.
  cbn. intros err l2 [Hr2 Hf2]. apply runs_ret. destruct (rest_env_ok _ _ _ _ _ Hok Hr2 Hf2) as (e' & ? & ?).
  by exists e'.
Qed.

Lemma make_PeerDB_spec indeterminate fuel path random_hash p :
  environments_ok p -> can_open path MDB_NOSUBDIR 8 p -> mapsize_limit < Z.of_nat fuel ->
  runs (make_PeerDB indeterminate fuel path random_hash) p
    (fun d p' => opens p p' /\ peerdb_in p' d) (opens p).
Proof using Hnames HL OLaws.
  intros Hp Hopen Hf. unfold make_PeerDB, LMDB_instance_default. apply runs_bind.
  eapply runs_weaken; [by apply LMDB_instance_spec| |done].
  cbn. intros a p1 (Ho1 & l0 & e0 & Hp1 & _ & _).
  assert (H0 : opened p1 a l0 e0 []) by (exists l0, e0; split_and!; try done; constructor).
  do 2 open_one Ho1. destruct Hq0 as (l & e & Hl & Hold & Hsame & Hdbs).
  pose proof (opened_registered _ _ _ (proj2 (proj2 Hl)) Hdbs) as Hreg. cbn in Hreg.
  rewrite !Forall_cons in Hreg. destruct Hreg as (Hpeers & Hlocal & _). apply runs_bind.
  eapply runs_weaken.
  { eapply (runs_at_lmdb _ _ _ _ _ (fun P _ _ => m_database P = db)); [exact Hl|].
    eapply new_PeerDB_ok; [apply Hl|exact Hlocal|exact Hf]. }
  2: cbn; intros p' Ho; by etrans.
  cbn. intros P p' (Ho & l' & e' & Hl' & Hold' & HP). apply runs_ret. split; [by etrans|].
  exists l', e'. split; [done|]. cbn. rewrite HP. by eapply registered_older.
Qed.

Theorem peerdb_opened indeterminate fuel path random_hash p :
  process_ok p -> can_open path MDB_NOSUBDIR 8 p -> mapsize_limit < Z.of_nat fuel ->
  runs (PeerDB_instance indeterminate fuel path random_hash) p
    (fun d p' => process_ok p' /\ peerdb_in p' d /\ p_peerdbs p' !! name_id path = Some d)
    (fun p' => process_ok p' /\ p_peerdbs p' = p_peerdbs p).
Proof using Hnames HL OLaws.
  intros Hp Hopen Hf. unfold PeerDB_instance. apply runs_bind, runs_get, runs_bind. case_bool_decide as Hs.
  - apply runs_ret, runs_bind, runs_get. destruct Hs as [E HE]. rewrite HE. apply runs_ret.
    split; [done|]. split; [by eapply process_peerdbs|done].
  - apply runs_bind. eapply runs_weaken; [apply make_PeerDB_spec; [apply Hp|done|done]| |].
    2: intros p' Ho; split; [by eapply process_ok_opens|apply (opens_peerdbs _ _ Ho)].
    cbn. intros d p1 [Ho Hin]. pose proof (process_ok_opens _ _ Hp Ho) as [He Hss HE Hd].
    apply runs_bind, runs_get, runs_put, runs_bind, runs_get. cbn. rewrite lookup_insert_eq. apply runs_ret.
    split; [split; [exact He|exact Hss|exact HE|]|by split; [exact Hin|apply lookup_insert_eq]].
    cbn. intros id d' [[_ <-]|[_ Hd']]%lookup_insert_Some; [exact Hin|exact (Hd _ _ Hd')].
Qed.
(** ** Failures *)

(** [LMDB::instance] for a file that LMDB refuses to open does not throw: it
    runs into undefined behaviour, since the destructor of the half-made object
    syncs the handle that was just closed. *)
Theorem failed_open_undefined path flags mode growth max_databases p p1 e e1 e2 r w' e3 :
  let db := mk_LMDB (name_id path) growth None ∅ 0 in
  p_instances p !! name_id path = None ->
  prepare_path db path flags p = Returned () p1 ->
  mdb_env_create (p_world p1) = (MDB_SUCCESS, Some e) ->
  mdb_env_set_mapsize e (wrap64 (growth * LMDB_SPACE_MULTIPLIER)) = (MDB_SUCCESS, e1) ->
  mdb_env_set_maxdbs e1 max_databases = (MDB_SUCCESS, e2) ->
  mdb_env_open (p_world p1) e2 path (Z.lor flags MDB_NOTLS) mode = (r, w', e3) ->
  r <> MDB_SUCCESS ->
  LMDB_instance path flags mode growth max_databases p = Undefined.
Proof using.
  intros db Hnone Hprep Hc Hs Hm Ho Hr. subst db. unfold LMDB_instance, create_env, mbind, prog_bind, get_state, mret, prog_ret.
  rewrite bool_decide_eq_false_2 by by apply eq_None_not_Some. rewrite Hprep. cbn.
  rewrite Hc. cbn. rewrite Hs. cbn. rewrite Hm. cbn. rewrite Ho. cbn.
  rewrite (proj2 (Z.eqb_neq _ _) Hr). done.
Qed.

(** The transactions of [Lmdb.v] are those of the code as long as the
    environment is the registered one; after a close they throw. *)
Theorem transaction_of_registered p a l e ro :
  environment p a l e -> LMDB_transaction a ro p = at_lmdb a (env_transaction ro) p.
Proof using.
  intros (Ha & Hid & _). unfold LMDB_transaction, LMDB_instance_of_id, mbind, prog_bind, get_state.
  cbn. rewrite Ha. cbn. by rewrite Hid.
Qed.

Theorem closed_is_unregistered p a l e p' ro :
  environment p a l e -> LMDB_close a p = Returned SUCCESS p' ->
  p_instances p' !! lmdb_id l = None /\ LMDB_transaction a ro p' = Thrown p'.
Proof using.
  intros (Ha & Hid & Hok). unfold LMDB_close, at_lmdb, mbind at 1, prog_bind at 1. rewrite Ha.
  unfold close, flush, mbind, prog_bind, get_state, put_state, mret, prog_ret. rewrite (ok_env _ _ Hok).
  destruct (mdb_env_sync e true) as [r e']. destruct (is_error (code_of_int r)) eqn:Hr.
  { cbn. rewrite Hr. intros [= Heq]. by rewrite Heq in Hr. }
  cbn. rewrite list_lookup_insert_eq by eauto using lookup_lt_Some. cbn.
  unfold erase_instance, mbind, prog_bind, get_state. cbn. rewrite Hid.
  rewrite bool_decide_eq_true_2 by by eexists. unfold put_state. intros [= <-]. cbn.
  split; [apply lookup_delete_eq|].
  unfold LMDB_transaction, LMDB_instance_of_id, mbind, prog_bind, get_state. cbn.
  rewrite list_lookup_insert_eq by eauto using lookup_lt_Some. cbn. by rewrite lookup_delete_eq.
Qed.
End Opening.

(** ** Samples and witnesses *)

Module ProcessSamples.
#[local] Existing Instance toy_crypto.
#[local] Existing Instance key_eq_dec.
#[local] Existing Instance key_countable.

(** One file, with an entry among the blocks. *)
Definition files : gmap string contents :=
  {[ "chain" := {[ (mem_handle (Some "blocks"), [1]) := [10] ]} ]}.

Definition started : process (CL := toy_crypto) (M := memdb) :=
  mk_process (files : world) [] ∅ ∅ ∅ ∅.

Lemma names_apart : NoDup (name_id (CL := toy_crypto) <$> database_names).
Proof. apply (bool_decide_unpack _). vm_compute. exact I. Qed.

Lemma started_ok : process_ok started.
Proof. split; intros ? ? H; cbn in H; by rewrite lookup_empty in H. Qed.

Lemma any_file_opens path flags growth p : can_open (CL := toy_crypto) (M := memdb) path flags growth p.
Proof.
  unfold can_open, open_refused. destruct (p_instances p !! _); [done|].
  destruct (prepare_path _ _ _ p); [|done..]. unfold env_open_answer. cbn.
  by destruct (mem_set_mapsize _ _) as [r1 e1], (_ && _).
Qed.

Lemma started_not_refused path : storage_refused path started = false.
Proof. unfold storage_refused. cbn [p_storages started]. rewrite lookup_empty. apply any_file_opens. Qed.

(** An engine that refuses to open any file. *)
Definition refusing : MDBOpen memdb := {|
  world := gmap string contents;
  fs_exists := fs_exists;
  fs_isFile := fs_isFile;
  fs_isDirectory := fs_isDirectory;
  fs_createDirectory := fs_createDirectory;
  mdb_version := mdb_version;
  mdb_env_create := mdb_env_create;
  mdb_env_set_maxdbs := mdb_env_set_maxdbs;
  mdb_env_open w e _ _ _ := (13, w, e);
  mdb_dbi_open := mdb_dbi_open;
  mdb_dbi_close := mdb_dbi_close
|}.

Example open_fails_undefined :
  BlockchainStorage_instance (CL := toy_crypto) (O := refusing) 0 "chain"
    (mk_process (O := refusing) files [] ∅ ∅ ∅ ∅) = Undefined.
Proof.
  apply storage_refused_undefined. unfold storage_refused, open_refused. cbn [p_storages p_instances].
  rewrite !lookup_empty. reflexivity.
Qed.
End ProcessSamples.

#[local] Existing Instance toy_crypto.

Lemma storage_opened_witness :
  runs (BlockchainStorage_instance 0 "chain") ProcessSamples.started
    (fun s p' => process_ok p' /\ storage_in p' s /\
       BlockchainStorage_instance 0 "chain" p' = Returned s p' /\
       (p_storages ProcessSamples.started !! name_id "chain" = None ->
        p_instances ProcessSamples.started !! name_id "chain" = None ->
        exists l e, environment p' (so_env s) l e /\ m_growth_factor l = 16 /\
          storage_ok l (so_databases s) /\
          at_rest l 0 (env_contents e) (16 * LMDB_SPACE_MULTIPLIER) l /\
          forall name db k, (name, db) ∈ storage_databases (so_databases s) ->
            env_contents e !! (m_dbi db, k) =
              file_contents (p_world ProcessSamples.started) "chain" (Some name) k))
    (fun p' => process_ok p' /\ p_storages p' = p_storages ProcessSamples.started).
Proof.
  pose proof (storage_opened (CL := toy_crypto) (M := memdb) ProcessSamples.names_apart 0 "chain"
    ProcessSamples.started ProcessSamples.started_ok) as H.
  rewrite ProcessSamples.started_not_refused in H. exact H.
Defined.
