(* ===== verification/Restart.v ===== *)
(** * Across a restart

    What a process stored in the chain is there for the next process that
    opens the file: the registries and constructors of [Process.v], the
    transactions of [Lmdb.v] and the chain storage put together.  A commit of
    LMDB is durable, so the file holds what the environment had committed;
    the new process gives the databases other handles. *)

From S2P Require Import Prelude Errors CryptoLib Codec Concrete TxBase TxUser TxSystem Block TxTypes.
From S2P Require Import Text Packets Mdb MemDb Program Lmdb Storage Staking Peers Process ProcessSpecs.
From Stdlib Require Import Strings.Byte.

Create HintDb framed.

Section Restart.
Context {CL : CryptoLib} {IP : IPParser} {M : MDB} {O : MDBOpen M}.
Context {Laws : MDBLaws M} {OLaws : MDBOpenLaws M O} {HL : HashStringLaws CL}.
#[local] Existing Instance key_eq_dec.
#[local] Existing Instance key_countable.

(** ** Storing a block keeps the handles *)

Section Frame.
Variable N : option string -> option Z.

(** A program in a transaction that keeps the handles [N]. *)
Definition framed {A} (m : txn_prog A) : Prop :=
  forall s, txn_frame N s -> may m s (fun _ => txn_frame N) (txn_frame N).

Lemma framed_bind {A B} (m : txn_prog A) (k : A -> txn_prog B) :
  framed m -> (forall x, framed (k x)) -> framed (m ≫= k).
Proof using.
  intros Hm Hk s Hs. apply may_bind. eapply may_weaken; [by apply Hm| |done]. cbn. intros x s'. apply Hk.
Qed.

Lemma framed_ret {A} (x : A) : framed (mret x).
Proof using. by intros s Hs. Qed.

Lemma framed_set_database db : framed (set_database db).
Proof using. by intros [l x] Hs. Qed.

Lemma framed_put k v flags : framed (txn_put k v flags).
Proof using. intros s. by apply txn_put_frame. Qed.

Lemma framed_for_each {A} (f : A -> txn_prog ErrorCode) xs :
  (forall x, framed (f x)) -> framed (for_each f xs).
Proof using.
  intros Hf. induction xs as [|x xs IH]; [apply framed_ret|]. apply framed_bind; [done|].
  intros error. destruct (is_error error); [apply framed_ret|done].
Qed.

Lemma framed_checked indeterminate m k : framed m -> framed k -> framed (checked indeterminate m k).
Proof using. intros Hm Hk s. by apply checked_frame. Qed.

Lemma framed_checked_each {A} indeterminate (f : A -> txn_prog ErrorCode) xs k :
  (forall x, framed (f x)) -> framed k -> framed (checked_each indeterminate f xs k).
Proof using. intros Hf Hk. induction xs; [done|]. by apply framed_checked. Qed.

Lemma framed_commit indeterminate : framed (checked_commit indeterminate).
Proof using. intros s. by apply checked_commit_frame. Qed.

#[local] Hint Resolve framed_bind framed_ret framed_set_database framed_put framed_for_each
  framed_checked framed_checked_each framed_commit : framed.
#[local] Hint Extern 1 (framed (match ?x with _ => _ end)) => destruct x : framed.

Lemma framed_put_transaction S t h : framed (put_transaction S t h).
Proof using.
  unfold put_transaction, put_transaction_data, put_transaction_outputs, put_key_image, put_transaction_output.
  auto 12 with framed.
Qed.

Lemma framed_put_block_attempt indeterminate S b txs : framed (put_block_attempt indeterminate S b txs).
Proof using.
  assert (forall h t, framed ('(error, _) ← put_transaction S t h; mret error)) as Hstore
    by (intros; apply framed_bind; [apply framed_put_transaction|intros [? ?]; apply framed_ret]).
  unfold put_block_attempt. auto 20 with framed.
Qed.

Lemma put_block_frame indeterminate S fuel b txs l :
  env_frame N l -> may (put_block indeterminate S fuel b txs) l (fun _ => env_frame N) (env_frame N).
Proof using.
  intros H. unfold put_block. destruct (negb _); [done|]. destruct (negb _); [done|].
  apply try_again_frame; [intros; by apply txn_setup_frame|apply framed_put_block_attempt|done].
Qed.
End Frame.

(** ** The next process *)

(** The hashes of the names do not collide. *)
Hypothesis Hnames : NoDup (name_id <$> database_names).

(** A process [q] that starts with the file of the environment at [a] of [p]
    as LMDB leaves it: with everything that was committed. *)
Definition starts_after (p : process) (a : nat) (path : string) (q : process) : Prop :=
  process_ok q /\ p_instances q !! name_id path = None /\ p_storages q !! name_id path = None /\
  forall l e, environment p a l e -> file_contents (p_world q) path = disk (env_side e).

Lemma runs_at {A} a (m : env_prog A) p l (Q : A -> process -> Prop) (X : LMDB -> Prop) :
  p_lmdbs p !! a = Some l ->
  runs m l (fun x l' => Q x (set_lmdbs (<[a := l']> (p_lmdbs p)) p)) X ->
  runs (at_lmdb a m) p Q (fun _ => True).
Proof using. intros Ha Hm. unfold runs, at_lmdb in *. rewrite Ha. by destruct (m l). Qed.

(** What storing a block does to the process. *)
Lemma put_block_at indeterminate fuel s block txs p p1 :
  storage_in p s ->
  at_lmdb (so_env s) (put_block indeterminate (so_databases s) fuel block txs) p = Returned SUCCESS p1 ->
  exists l e C, environment p1 (so_env s) l e /\ storage_ok l (so_databases s) /\
    Forall (is_database l e) (storage_databases (so_databases s)) /\
    env_contents e = apply_writes C (block_writes (so_databases s) block txs).
Proof using Hnames OLaws.
  intros (l & e & (Ha & Hid & Hok) & Hn) Hput. unfold at_lmdb in Hput. rewrite Ha in Hput.
  pose proof (env_ok_rest _ _ Hok) as Hr. pose proof (mapsize_range e).
  assert (Hframe : env_frame (handles (env_side e)) l) by (exists e; destruct Hok; by split_and!).
  set (enough := Nat.max fuel (Z.to_nat (mapsize_limit + 1))).
  pose proof (put_block_contents enough indeterminate (so_databases s) block txs _ _ l
    (ok_growth _ _ Hok) Hr ltac:(lia)) as Hrun.
  pose proof (put_block_frame _ indeterminate (so_databases s) fuel block txs l Hframe) as Hmay.
  destruct (put_block _ _ fuel _ _ l) as [x l'|l'| |] eqn:E; try done. injection Hput as -> <-.
  unfold may in Hmay. rewrite E in Hmay. unfold runs in Hrun. rewrite (put_block_more fuel enough _ _ _ _ _ _ _ E) in Hrun by lia.
  cbn [is_error] in Hrun. destruct (rest_env_ok _ _ _ _ _ Hok Hrun Hmay) as (e' & Hok' & Hold).
  pose proof (rest_env _ _ _ _ _ Hrun) as (e2 & He2 & HC & _).
  assert (e2 = e') as -> by (pose proof (ok_env _ _ Hok'); congruence).
  assert (Hn' : Forall (is_named l') (storage_databases (so_databases s)))
    by (eapply Forall_impl; [exact Hn|]; intros entry; by apply is_named_older).
  exists l', e', (env_contents e). split; [|split; [by eapply named_storage_ok|split; [by apply named_databases|exact HC]]].
  split; [by apply list_lookup_insert_eq, (lookup_lt_Some _ _ _ Ha)|]. split; [|done].
  cbn. by rewrite (proj1 Hold).
Qed.

(** The records of the old databases under the names of the new ones. *)
Lemma same_records l e e' (s s' : BlockchainStorage) :
  Forall (is_database l e) (storage_databases s) ->
  (forall name db k, (name, db) ∈ storage_databases s' ->
     env_contents e' !! (m_dbi db, k) = disk (env_side e) (Some name) k) ->
  forall n name db db', storage_databases s !! n = Some (name, db) ->
    storage_databases s' !! n = Some (name, db') ->
    forall k, env_contents e' !! (m_dbi db', k) = env_contents e !! (m_dbi db, k).
Proof using.
  clear Hnames HL. intros Hdbs Hnew n name db db' Hdb Hdb' k.
  rewrite (Hnew name db' k) by by eapply list_elem_of_lookup_2.
  pose proof (Forall_lookup_1 _ _ _ _ Hdbs Hdb) as (_ & _ & Hh).
  rewrite (handles_reach _ _ _ _ Hh). unfold handle_name. cbn [fst].
  rewrite bool_decide_eq_false_2; [done|]. intros ->. apply list_elem_of_lookup_2 in Hdb.
  unfold storage_databases in Hdb. set_solver.
Qed.

End Restart.

(** ** Samples and witnesses *)

Module RestartSamples.
#[local] Existing Instance toy_crypto.
#[local] Existing Instance key_eq_dec.
#[local] Existing Instance key_countable.

(** A process that opens the chain of a file and stores the sample block. *)
Definition opening : outcome (process (CL := toy_crypto) (M := memdb)) (storage_object (CL := toy_crypto)) :=
  BlockchainStorage_instance 0 "chain" ProcessSamples.started.

Definition first_process : process (CL := toy_crypto) (M := memdb) :=
  match opening with Returned _ p => p | _ => ProcessSamples.started end.

Definition chain_object : storage_object (CL := toy_crypto) :=
  match opening with
  | Returned s _ => s
  | _ => mk_storage_object x01 0 StorageSamples.store
  end.

Definition storing : outcome (process (CL := toy_crypto) (M := memdb)) ErrorCode :=
  at_lmdb (so_env chain_object)
    (put_block 0 (so_databases chain_object) 1 StorageSamples.block [StorageSamples.tx]) first_process.

Definition stored_process : process (CL := toy_crypto) (M := memdb) :=
  match storing with Returned _ p => p | _ => first_process end.

(** The process after it: the file holds what the first environment had. *)
Definition left_behind : contents :=
  match p_lmdbs stored_process !! 0%nat with
  | Some l => match m_env l with Some e => mem_contents e | None => ∅ end
  | None => ∅
  end.

Definition next_process : process (CL := toy_crypto) (M := memdb) :=
  mk_process ({[ "chain" := left_behind ]} : world) [] ∅ ∅ ∅ ∅.

Lemma opened_first : opening = Returned chain_object first_process.
Proof.
  assert (observe (fun _ => true) opening = Some true) as (x & p & E & _)%observe_Some
    by (vm_compute; exact eq_refl).
  unfold chain_object, first_process. rewrite E. exact eq_refl.
Qed.

Lemma chain_stored : storing = Returned SUCCESS stored_process.
Proof.
  assert (observe id storing = Some SUCCESS) as (x & p & E & Hx)%observe_Some
    by (vm_compute; exact eq_refl).
  cbn in Hx. subst x.
  unfold stored_process. rewrite E. exact eq_refl.
Qed.
Lemma storage_there : storage_in first_process chain_object.
Proof.
  pose proof (storage_instance_spec (CL := toy_crypto) (M := memdb) ProcessSamples.names_apart 0 "chain"
    ProcessSamples.started ProcessSamples.started_ok (ProcessSamples.started_not_refused "chain")) as H.
  unfold runs in H. change (BlockchainStorage_instance 0 "chain" ProcessSamples.started) with opening in H.
  rewrite opened_first in H. apply H.
Qed.

Lemma block_wf_sample : block_wf StorageSamples.block.
Proof.
  destruct StorageSamples.bare_wf. split; try done. repeat constructor.
Qed.

Lemma first_address : so_env chain_object = 0%nat.
Proof. vm_compute. exact eq_refl. Qed.

Lemma next_starts : starts_after stored_process (so_env chain_object) "chain" next_process.
Proof.
  split; [split; intros ? ? H; cbn in H; by rewrite lookup_empty in H|]. split; [apply lookup_empty|].
  split; [apply lookup_empty|]. intros l e (Ha & _ & Hok).
  assert (left_behind = mem_contents e) as Hleft.
  { unfold left_behind. rewrite first_address in Ha. rewrite Ha, (ok_env _ _ Hok). exact eq_refl. }
  change (disk (mem_side (({[ "chain" := left_behind ]} : gmap string contents) !!! "chain")) =
          disk (mem_side (mem_contents e))).
  by rewrite lookup_total_singleton, Hleft.
Qed.
End RestartSamples.

#[local] Existing Instance toy_crypto.

