(* ===== verification/Zmq.v ===== *)
(** * Messaging over ZeroMQ

    [src/src/networking/zmq_shared.cpp], [zmq_server.cpp], [zmq_client.cpp],
    [zmq_publisher.cpp] and [zmq_subscriber.cpp].  ZeroMQ itself is not in the
    tree: the class [ZmqLib] has the socket calls, a socket being an abstract
    state, and [ZmqRouting] what a router socket does with a message of two
    parts.  The body of each thread's loop is one program ([..._turn]); the
    thread repeats it, sleeping in between, until it is stopped.  An exception
    other than [zmq::error_t] leaves a thread function ([Thrown]). *)

From S2P Require Import Prelude Errors Config CryptoLib Concrete Codec Packets Text Program Mdb.
From S2P Require Import Containers Upnp.
From Stdlib Require Import Strings.Ascii Strings.Byte.
Import Configuration.

(** ** ZeroMQ *)

Inductive socket_type : Set := router | dealer | pub | sub.

Inductive socket_option : Set :=
  | curve_secretkey (k : string) | curve_publickey (k : string) | curve_serverkey (k : string)
  | curve_server (b : bool) | immediate (b : bool) | routing_id (id : bytes)
  | router_mandatory (b : bool) | ipv6_option (b : bool) | linger (n : Z)
  | connect_timeout (n : Z) | probe_router (b : bool)
  | subscribe_option (subject : bytes) | unsubscribe_option (subject : bytes).

(** What the monitor of a socket reports. *)
Inductive monitor_event : Set :=
  | Connected | ConnectDelayed | ConnectRetried | Listening | Accepted | Closed | Disconnected
  | HandshakeSucceeded | HandshakeFailedAuth | HandshakeFailedProtocol | HandshakeFailedNoDetail.

(** A received part with its metadata; a property that is absent throws. *)
Record zmq_message_t : Type := mk_message { msg_data : bytes; msg_gets : string -> option string }.

(** [None] and [false] are a [zmq::error_t]. *)
Class ZmqLib : Type := {
  socket_t : Type;
  new_socket : socket_type -> socket_t;
  socket_set : socket_option -> socket_t -> socket_t;
  socket_connect : string -> socket_t -> option socket_t;
  socket_disconnect : string -> socket_t -> option socket_t;
  socket_bind : string -> socket_t -> option socket_t;
  (* a part of a message, and whether more parts follow *)
  socket_send : bytes -> bool -> socket_t -> bool * socket_t;
  (* the next message with all its parts, none when there is no message *)
  socket_receive : socket_t -> option (list zmq_message_t) * socket_t;
  zmq_curve_public : string -> option string;
  (* what the monitor reports while a connection attempt is waited for *)
  connection_events : socket_t -> list (monitor_event * string)
}.

Definition socket_sets {Q : ZmqLib} (options : list socket_option) (s : socket_t) : socket_t :=
  fold_left (fun s o => socket_set o s) options s.

Section Zmq.
Context {CL : CryptoLib} {IP : IPParser} {Q : ZmqLib} {U : MiniUPnP}.

(** ** Keys *)

(** The pair that [zmq_curve_keypair] made, if it did. *)
Definition zmq_generate_keypair (keypair : option (string * string)) : ErrorCode * string * string :=
  match keypair with
  | None => (ZMQ_GENERIC_ERROR, EmptyString, EmptyString)
  | Some (public_key, secret_key) => (SUCCESS, public_key, secret_key)
  end.

Definition zmq_generate_public_key (secret_key : string) : ErrorCode * string :=
  match zmq_curve_public secret_key with
  | None => (ZMQ_GENERIC_ERROR, EmptyString)
  | Some public_key => (SUCCESS, public_key)
  end.

(** ** The monitor of a socket *)

Record zmq_connection_monitor : Type := mk_monitor {
  mon_running : bool;
  mon_listening : bool;
  m_connected_peers : list string;
  m_delayed_peers : list string;
  m_retried_peers : list string
}.

Definition new_monitor : zmq_connection_monitor := mk_monitor false false [] [] [].

Definition monitor_start (m : zmq_connection_monitor) : zmq_connection_monitor :=
  if negb (mon_running m)
  then mk_monitor true (mon_listening m) (m_connected_peers m) (m_delayed_peers m) (m_retried_peers m)
  else m.

Notation monitor_prog := (prog zmq_connection_monitor).

Definition connected_peers {A} : prog (list string) A -> monitor_prog A :=
  zoom m_connected_peers (fun l m =>
    mk_monitor (mon_running m) (mon_listening m) l (m_delayed_peers m) (m_retried_peers m)).
Definition delayed_peers {A} : prog (list string) A -> monitor_prog A :=
  zoom m_delayed_peers (fun l m =>
    mk_monitor (mon_running m) (mon_listening m) (m_connected_peers m) l (m_retried_peers m)).
Definition retried_peers {A} : prog (list string) A -> monitor_prog A :=
  zoom m_retried_peers (fun l m =>
    mk_monitor (mon_running m) (mon_listening m) (m_connected_peers m) (m_delayed_peers m) l).

(** The host with its port that an event is about. *)
Definition event_host (addr : string) : option string :=
  '(host, port, _) ← normalize_host_port addr;
  Some (host ++ ":" ++ to_string port)%string.

Definition on_event_connected (addr : string) : monitor_prog () :=
  host ← or_throw (event_host addr);
  connected_peers (set_insert string_ltb host);;
  delayed_peers (set_erase string_ltb host);;
  retried_peers (set_erase string_ltb host).

Definition on_event_connect_delayed (addr : string) : monitor_prog () :=
  host ← or_throw (event_host addr);
  delayed_peers (set_insert string_ltb host);;
  retried_peers (set_erase string_ltb host);;
  connected_peers (set_erase string_ltb host).

Definition on_event_connect_retried (addr : string) : monitor_prog () :=
  host ← or_throw (event_host addr);
  retried_peers (set_insert string_ltb host);;
  delayed_peers (set_erase string_ltb host);;
  connected_peers (set_erase string_ltb host).

Definition on_event_listening (addr : string) : monitor_prog () := fun m =>
  Returned ()
    (mk_monitor (mon_running m) true (m_connected_peers m) (m_delayed_peers m) (m_retried_peers m)).

Definition on_event_closed (addr : string) : monitor_prog () :=
  host ← or_throw (event_host addr);
  connected_peers (set_erase string_ltb host).

Definition on_event_disconnected (addr : string) : monitor_prog () :=
  host ← or_throw (event_host addr);
  connected_peers (set_erase string_ltb host).

Definition on_event (e : monitor_event * string) : monitor_prog () :=
  let '(event, addr) := e in
  match event with
  | Connected => on_event_connected addr
  | ConnectDelayed => on_event_connect_delayed addr
  | ConnectRetried => on_event_connect_retried addr
  | Listening => on_event_listening addr
  | Closed => on_event_closed addr
  | Disconnected => on_event_disconnected addr
  | Accepted | HandshakeSucceeded | HandshakeFailedAuth | HandshakeFailedProtocol
  | HandshakeFailedNoDetail => mret ()
  end.

(** The listener thread handles the events one after the other. *)
Fixpoint listener (events : list (monitor_event * string)) : monitor_prog () :=
  match events with
  | [] => mret ()
  | e :: events' => on_event e;; listener events'
  end.

(** ** Messages *)

(** Two parts, for a router or a publisher: whether they were sent. *)
Definition send_parts (first payload : bytes) : prog socket_t bool := fun s =>
  let '(sent, s1) := socket_send first true s in
  if negb sent then Returned false s1
  else let '(sent, s2) := socket_send payload false s1 in Returned sent s2.

Definition send_part (payload : bytes) : prog socket_t bool := fun s =>
  let '(sent, s1) := socket_send payload false s in Returned sent s1.

Definition receive : prog socket_t (option (list zmq_message_t)) := fun s =>
  let '(received, s1) := socket_receive s in Returned received s1.

Definition nonempty_payload (m : zmq_message_envelope_t) : bool := negb (bool_decide (env_payload m = [])).

(** [tcp://] with a host and a port. *)
Definition tcp_endpoint (host : string) (port : Z) : string :=
  ("tcp://" ++ host ++ ":" ++ to_string port)%string.

(** ** The server *)

Record ZMQServer : Type := mk_server {
  sv_port : Z;
  sv_identity : crypto_hash_t;
  sv_running : bool;
  sv_socket : socket_t;
  sv_connections : list (crypto_hash_t * string);
  sv_incoming : list zmq_message_envelope_t;
  sv_outgoing : list zmq_message_envelope_t;
  sv_upnp : option UPNP;
  sv_gateway : gateway_t;
  sv_monitor : zmq_connection_monitor
}.

(** The random identity is a parameter, and so is the network's gateway. *)
Definition new_server (bind_port : Z) (random_hash : crypto_hash_t) (gateway : gateway_t) : ZMQServer :=
  let socket := socket_sets
    [curve_secretkey ZMQ.SERVER_SECRET_KEY; curve_server true; immediate true;
     routing_id (hash_data random_hash); router_mandatory true; ipv6_option true; linger 0]
    (new_socket router) in
  mk_server bind_port random_hash false socket [] [] [] None gateway (monitor_start new_monitor).

Notation server_prog := (prog ZMQServer).

Definition server_socket {A} : prog socket_t A -> server_prog A :=
  zoom sv_socket (fun k s => mk_server (sv_port s) (sv_identity s) (sv_running s) k
    (sv_connections s) (sv_incoming s) (sv_outgoing s) (sv_upnp s) (sv_gateway s) (sv_monitor s)).
Definition server_connections {A} : prog (list (crypto_hash_t * string)) A -> server_prog A :=
  zoom sv_connections (fun c s => mk_server (sv_port s) (sv_identity s) (sv_running s) (sv_socket s)
    c (sv_incoming s) (sv_outgoing s) (sv_upnp s) (sv_gateway s) (sv_monitor s)).
Definition server_messages {A} : prog (list zmq_message_envelope_t) A -> server_prog A :=
  zoom sv_incoming (fun q s => mk_server (sv_port s) (sv_identity s) (sv_running s) (sv_socket s)
    (sv_connections s) q (sv_outgoing s) (sv_upnp s) (sv_gateway s) (sv_monitor s)).
Definition server_outgoing {A} : prog (list zmq_message_envelope_t) A -> server_prog A :=
  zoom sv_outgoing (fun q s => mk_server (sv_port s) (sv_identity s) (sv_running s) (sv_socket s)
    (sv_connections s) (sv_incoming s) q (sv_upnp s) (sv_gateway s) (sv_monitor s)).
Definition server_gateway {A} : prog gateway_t A -> server_prog A :=
  zoom sv_gateway (fun g s => mk_server (sv_port s) (sv_identity s) (sv_running s) (sv_socket s)
    (sv_connections s) (sv_incoming s) (sv_outgoing s) (sv_upnp s) g (sv_monitor s)).

Definition server_bind : server_prog ErrorCode := fun s =>
  match socket_bind ("tcp://*:" ++ to_string (sv_port s)) (sv_socket s) with
  | None => Returned ZMQ_BIND_ERROR s
  | Some socket =>
      (server_socket (put_state socket);;
       if sv_running s then mret SUCCESS
       else
         upnp ← server_gateway
           (new_UPNP (sv_port s) (Version.PROJECT_NAME ++ ": ZMQ Server") 1000 false);
         s ← get_state;
         put_state (mk_server (sv_port s) (sv_identity s) true (sv_socket s) (sv_connections s)
           (sv_incoming s) (sv_outgoing s) (Some upnp) (sv_gateway s) (sv_monitor s));;
         mret SUCCESS) s
  end.

Definition server_connected : server_prog (list string) := fun s =>
  Returned ((sv_connections s).*2) s.

Definition server_connection_count : server_prog Z := server_connections map_size.

Definition server_external_address (s : ZMQServer) : string :=
  match sv_upnp s with None => EmptyString | Some upnp => external_address upnp end.

Definition server_upnp_active (s : ZMQServer) : bool :=
  match sv_upnp s with None => false | Some upnp => active upnp end.

(** One turn of [incoming_thread]. *)
Definition server_incoming_turn : server_prog () :=
  s ← get_state;
  received ← server_socket receive;
  match received with
  | Some [ident; message] =>
      if bool_decide (msg_data message = []) then mret ()
      else
        from ← or_throw (hash_of_bytes (msg_data ident));
        match msg_gets message "Peer-Address" with
        | None => mret ()
        | Some unsafe_host =>
            '(host, _, _) ← or_throw (normalize_host_port unsafe_host);
            let routable_msg :=
              mk_envelope (sv_identity s) from key_default host (msg_data message) in
            known ← server_connections (map_contains key_ltb from);
            (if known : bool then mret () else server_connections (map_insert key_ltb from host));;
            server_messages (queue_push routable_msg)
        end
  | _ => mret ()
  end.

(** The destinations that the socket refused. *)
Fixpoint broadcast (payload : bytes) (connections : list (crypto_hash_t * string))
  : server_prog (list crypto_hash_t) :=
  match connections with
  | [] => mret []
  | (to, _) :: rest =>
      sent ← server_socket (send_parts (hash_data to) payload);
      to_delete ← broadcast payload rest;
      mret (if sent : bool then to_delete else to :: to_delete)
  end.

Fixpoint unregister (to_delete : list crypto_hash_t) : server_prog () :=
  match to_delete with
  | [] => mret ()
  | identity :: rest => server_connections (map_erase key_ltb identity);; unregister rest
  end.

(** One message of [outgoing_thread]. *)
Definition server_outgoing_message : server_prog () :=
  message ← server_outgoing queue_pop;
  if negb (nonempty_payload message) then mret ()
  else
    s ← get_state;
    to_delete ←
      (if key_empty (env_to message) then broadcast (env_payload message) (sv_connections s)
       else
         sent ← server_socket (send_parts (hash_data (env_to message)) (env_payload message));
         mret (if sent : bool then [] else [env_to message]));
    unregister to_delete.

(** One turn of [outgoing_thread]. *)
Definition server_outgoing_turn (fuel : nat) : server_prog () :=
  while_loop fuel
    (empty ← server_outgoing queue_empty; s ← get_state; mret (negb empty && sv_running s))
    server_outgoing_message.

Definition server_send (message : zmq_message_envelope_t) : server_prog () :=
  s ← get_state;
  if nonempty_payload message && sv_running s then server_outgoing (queue_push message) else mret ().

(** The destructor stops the threads; what is queued is not sent any more. *)
Definition server_destroy : server_prog () :=
  s ← get_state;
  put_state (mk_server (sv_port s) (sv_identity s) false (sv_socket s) (sv_connections s)
    (sv_incoming s) (sv_outgoing s) None (sv_gateway s) (sv_monitor s));;
  match sv_upnp s with None => mret () | Some upnp => server_gateway (upnp_destroy upnp) end.

(** ** The client *)

Record ZMQClient : Type := mk_client {
  cl_identity : crypto_hash_t;
  cl_running : bool;
  cl_socket : socket_t;
  cl_incoming : list zmq_message_envelope_t;
  cl_outgoing : list zmq_message_envelope_t;
  cl_monitor : zmq_connection_monitor
}.

(** [None]: the constructor throws. *)
Definition new_client (timeout : Z) (random_hash : crypto_hash_t) (keypair : option (string * string))
  : option ZMQClient :=
  let '(error, server_key) := zmq_generate_public_key ZMQ.SERVER_SECRET_KEY in
  if is_error error then None
  else
    let '(error, public_key, secret_key) := zmq_generate_keypair keypair in
    if is_error error then None
    else
      let socket := socket_sets
        [curve_serverkey server_key; curve_publickey public_key; curve_secretkey secret_key;
         connect_timeout timeout; immediate false; routing_id (hash_data random_hash);
         ipv6_option true; linger 0; probe_router true] (new_socket dealer) in
      Some (mk_client random_hash false socket [] [] (monitor_start new_monitor)).

Notation client_prog := (prog ZMQClient).

Definition client_socket {A} : prog socket_t A -> client_prog A :=
  zoom cl_socket (fun k c =>
    mk_client (cl_identity c) (cl_running c) k (cl_incoming c) (cl_outgoing c) (cl_monitor c)).
Definition client_messages {A} : prog (list zmq_message_envelope_t) A -> client_prog A :=
  zoom cl_incoming (fun q c =>
    mk_client (cl_identity c) (cl_running c) (cl_socket c) q (cl_outgoing c) (cl_monitor c)).
Definition client_outgoing {A} : prog (list zmq_message_envelope_t) A -> client_prog A :=
  zoom cl_outgoing (fun q c =>
    mk_client (cl_identity c) (cl_running c) (cl_socket c) (cl_incoming c) q (cl_monitor c)).
Definition client_monitor {A} : monitor_prog A -> client_prog A :=
  zoom cl_monitor (fun m c =>
    mk_client (cl_identity c) (cl_running c) (cl_socket c) (cl_incoming c) (cl_outgoing c) m).

(** Whether an event wakes the thread that waits for a connection. *)
Definition notifies (e : monitor_event * string) : bool :=
  match e with (Connected, _) => true | _ => false end.

Definition client_connect (host : string) (port : Z) : client_prog ErrorCode :=
  c ← get_state;
  match socket_connect (tcp_endpoint host port) (cl_socket c) with
  | None => mret ZMQ_CONNECT_ERROR
  | Some socket =>
      client_socket (put_state socket);;
      let events := connection_events socket in
      client_monitor (listener events);;
      if negb (existsb notifies events) then mret ZMQ_CONNECT_ERROR
      else
        c ← get_state;
        put_state (mk_client (cl_identity c) true (cl_socket c) (cl_incoming c) (cl_outgoing c)
          (cl_monitor c));;
        mret SUCCESS
  end.

Definition client_connected (c : ZMQClient) : list string := m_connected_peers (cl_monitor c).

Definition is_connected (c : ZMQClient) : bool :=
  negb (bool_decide (m_connected_peers (cl_monitor c) = [])).

(** One turn of [incoming_thread]. *)
Definition client_incoming_turn : client_prog () :=
  c ← get_state;
  received ← client_socket receive;
  match received with
  | Some [message] =>
      if bool_decide (msg_data message = []) then mret ()
      else
        match msg_gets message "Identity" with
        | None => mret ()
        | Some ident_data =>
            from ← or_throw (hash_of_bytes (char_bytes (to_chars ident_data)));
            match msg_gets message "Peer-Address" with
            | None => mret ()
            | Some unsafe_host =>
                '(host, _, _) ← or_throw (normalize_host_port unsafe_host);
                client_messages (queue_push
                  (mk_envelope (cl_identity c) from key_default host (msg_data message)))
            end
        end
  | _ => mret ()
  end.

Definition client_outgoing_message : client_prog () :=
  message ← client_outgoing queue_pop;
  if negb (nonempty_payload message) then mret ()
  else client_socket (send_part (env_payload message));; mret ().

(** One turn of [outgoing_thread]. *)
Definition client_outgoing_turn (fuel : nat) : client_prog () :=
  while_loop fuel (empty ← client_outgoing queue_empty; mret (negb empty)) client_outgoing_message.

Definition client_send (message : zmq_message_envelope_t) : client_prog () :=
  c ← get_state;
  if nonempty_payload message && cl_running c then client_outgoing (queue_push message) else mret ().

(** ** The publisher *)

Record ZMQPublisher : Type := mk_publisher {
  pb_port : Z;
  pb_running : bool;
  pb_socket : socket_t;
  pb_outgoing : list zmq_message_envelope_t;
  pb_upnp : option UPNP;
  pb_gateway : gateway_t;
  pb_monitor : zmq_connection_monitor
}.

Definition new_publisher (bind_port : Z) (gateway : gateway_t) : ZMQPublisher :=
  let socket := socket_sets
    [curve_secretkey ZMQ.SERVER_SECRET_KEY; curve_server true; immediate true; ipv6_option true;
     linger 0] (new_socket pub) in
  mk_publisher bind_port false socket [] None gateway (monitor_start new_monitor).

Notation publisher_prog := (prog ZMQPublisher).

Definition publisher_socket {A} : prog socket_t A -> publisher_prog A :=
  zoom pb_socket (fun k p => mk_publisher (pb_port p) (pb_running p) k (pb_outgoing p) (pb_upnp p)
    (pb_gateway p) (pb_monitor p)).
Definition publisher_outgoing {A} : prog (list zmq_message_envelope_t) A -> publisher_prog A :=
  zoom pb_outgoing (fun q p => mk_publisher (pb_port p) (pb_running p) (pb_socket p) q (pb_upnp p)
    (pb_gateway p) (pb_monitor p)).
Definition publisher_gateway {A} : prog gateway_t A -> publisher_prog A :=
  zoom pb_gateway (fun g p => mk_publisher (pb_port p) (pb_running p) (pb_socket p) (pb_outgoing p)
    (pb_upnp p) g (pb_monitor p)).

Definition publisher_bind : publisher_prog ErrorCode := fun p =>
  match socket_bind ("tcp://*:" ++ to_string (pb_port p)) (pb_socket p) with
  | None => Returned ZMQ_BIND_ERROR p
  | Some socket =>
      (publisher_socket (put_state socket);;
       if pb_running p then mret SUCCESS
       else
         upnp ← publisher_gateway
           (new_UPNP (pb_port p) (Version.PROJECT_NAME ++ ": ZMQ Publisher") 1000 false);
         p ← get_state;
         put_state (mk_publisher (pb_port p) true (pb_socket p) (pb_outgoing p) (Some upnp)
           (pb_gateway p) (pb_monitor p));;
         mret SUCCESS) p
  end.

Definition publisher_connected (p : ZMQPublisher) : list string := m_connected_peers (pb_monitor p).

Definition publisher_external_address (p : ZMQPublisher) : string :=
  match pb_upnp p with None => EmptyString | Some upnp => external_address upnp end.

Definition publisher_upnp_active (p : ZMQPublisher) : bool :=
  match pb_upnp p with None => false | Some upnp => active upnp end.

(** A message is published under its subject. *)
Definition publisher_outgoing_message : publisher_prog () :=
  message ← publisher_outgoing queue_pop;
  if negb (nonempty_payload message) then mret ()
  else
    publisher_socket (send_parts (hash_data (env_subject message)) (env_payload message));; mret ().

(** One turn of [outgoing_thread]. *)
Definition publisher_outgoing_turn (fuel : nat) : publisher_prog () :=
  while_loop fuel
    (empty ← publisher_outgoing queue_empty; p ← get_state; mret (negb empty && pb_running p))
    publisher_outgoing_message.

Definition publisher_send (message : zmq_message_envelope_t) : publisher_prog () :=
  p ← get_state;
  if nonempty_payload message && pb_running p then publisher_outgoing (queue_push message) else mret ().

(** ** The subscriber *)

Record ZMQSubscriber : Type := mk_subscriber {
  sb_identity : crypto_hash_t;
  sb_running : bool;
  sb_socket : socket_t;
  sb_incoming : list zmq_message_envelope_t;
  sb_monitor : zmq_connection_monitor
}.

(** [None]: the constructor throws. *)
Definition new_subscriber (timeout : Z) (random_hash : crypto_hash_t)
  (keypair : option (string * string)) : option ZMQSubscriber :=
  let '(error, server_key) := zmq_generate_public_key ZMQ.SERVER_SECRET_KEY in
  if is_error error then None
  else
    let '(error, public_key, secret_key) := zmq_generate_keypair keypair in
    if is_error error then None
    else
      let socket := socket_sets
        [curve_serverkey server_key; curve_publickey public_key; curve_secretkey secret_key;
         connect_timeout timeout; immediate true; ipv6_option true; linger 0] (new_socket sub) in
      Some (mk_subscriber random_hash false socket [] (monitor_start new_monitor)).

Notation subscriber_prog := (prog ZMQSubscriber).

Definition subscriber_socket {A} : prog socket_t A -> subscriber_prog A :=
  zoom sb_socket (fun k s =>
    mk_subscriber (sb_identity s) (sb_running s) k (sb_incoming s) (sb_monitor s)).
Definition subscriber_messages {A} : prog (list zmq_message_envelope_t) A -> subscriber_prog A :=
  zoom sb_incoming (fun q s =>
    mk_subscriber (sb_identity s) (sb_running s) (sb_socket s) q (sb_monitor s)).
Definition subscriber_monitor {A} : monitor_prog A -> subscriber_prog A :=
  zoom sb_monitor (fun m s =>
    mk_subscriber (sb_identity s) (sb_running s) (sb_socket s) (sb_incoming s) m).

Definition subscriber_connect (host : string) (port : Z) : subscriber_prog ErrorCode :=
  s ← get_state;
  match socket_connect (tcp_endpoint host port) (sb_socket s) with
  | None => mret ZMQ_CONNECT_ERROR
  | Some socket =>
      subscriber_socket (put_state socket);;
      let events := connection_events socket in
      subscriber_monitor (listener events);;
      if negb (existsb notifies events) then mret ZMQ_CONNECT_ERROR
      else
        s ← get_state;
        put_state (mk_subscriber (sb_identity s) true (sb_socket s) (sb_incoming s) (sb_monitor s));;
        mret SUCCESS
  end.

Definition subscriber_connected (s : ZMQSubscriber) : list string := m_connected_peers (sb_monitor s).

Definition subscriber_is_connected (s : ZMQSubscriber) : bool :=
  negb (bool_decide (m_connected_peers (sb_monitor s) = [])).

(** A disconnect that fails is ignored. *)
Definition subscriber_disconnect (host : string) (port : Z) : subscriber_prog () :=
  s ← get_state;
  match socket_disconnect (tcp_endpoint host port) (sb_socket s) with
  | None => mret ()
  | Some socket => subscriber_socket (put_state socket)
  end.

(** One turn of [incoming_thread]. *)
Definition subscriber_incoming_turn : subscriber_prog () :=
  s ← get_state;
  received ← subscriber_socket receive;
  match received with
  | Some [first; message] =>
      if bool_decide (msg_data message = []) then mret ()
      else
        subject ← or_throw (hash_of_bytes (msg_data first));
        match msg_gets message "Peer-Address" with
        | None => mret ()
        | Some unsafe_host =>
            '(host, _, _) ← or_throw (normalize_host_port unsafe_host);
            subscriber_messages (queue_push
              (mk_envelope (sb_identity s) key_default subject host (msg_data message)))
        end
  | _ => mret ()
  end.

Definition subscribe (subject : crypto_hash_t) : subscriber_prog () :=
  subscriber_socket (fun k => Returned () (socket_set (subscribe_option (hash_data subject)) k)).

Definition unsubscribe (subject : crypto_hash_t) : subscriber_prog () :=
  subscriber_socket (fun k => Returned () (socket_set (unsubscribe_option (hash_data subject)) k)).
End Zmq.

(** A router, or a publisher, sends a message of two parts as a whole or not at
    all: [routed] are the messages it took, each with its first part. *)
Class ZmqRouting (Q : ZmqLib) : Type := {
  routed : socket_t -> list (bytes * bytes);
  routed_parts : forall first payload s,
    let '(sent, s1) := socket_send first true s in
    if sent then
      let '(sent, s2) := socket_send payload false s1 in
      routed s2 = routed s ++ if sent then [(first, payload)] else []
    else routed s1 = routed s
}.

(** ** Lemmas: the monitor *)

Section MonitorFacts.
Context {CL : CryptoLib} {IP : IPParser} {Q : ZmqLib}.

(** The reference: the state of a host is what the last event said that was
    about it. *)
Inductive host_status : Set := Idle | InConnected | InDelayed | InRetried.

Definition next_status (event : monitor_event) (old : host_status) : host_status :=
  match event, old with
  | Connected, _ => InConnected
  | ConnectDelayed, _ => InDelayed
  | ConnectRetried, _ => InRetried
  | (Closed | Disconnected), InConnected => Idle
  | _, _ => old
  end.

Definition step_status (st : string -> host_status) (e : monitor_event * string) (h : string)
  : host_status :=
  if bool_decide (event_host e.2 = Some h) then next_status e.1 (st h) else st h.

Definition status_after (events : list (monitor_event * string)) : string -> host_status :=
  fold_left step_status events (fun _ => Idle).

Definition tracks (m : zmq_connection_monitor) (st : string -> host_status) : Prop := forall h,
  (h ∈ m_connected_peers m <-> st h = InConnected) /\
  (h ∈ m_delayed_peers m <-> st h = InDelayed) /\
  (h ∈ m_retried_peers m <-> st h = InRetried).

Lemma elem_of_erase h k (l : list string) :
  h ∈ List.filter (fun x => negb (same_key string_ltb k x)) l <-> h <> k /\ h ∈ l.
Proof.
  rewrite list_elem_of_In, filter_In, <- list_elem_of_In, negb_true_iff.
  pose proof (same_key_spec _ string_order k h) as Hk.
  destruct (same_key string_ltb k h); [|naive_solver]. split; [naive_solver|].
  intros [Hne _]. by destruct Hne, Hk as [-> _].
Qed.

(** Every event keeps the sets in step with the reference. *)
Lemma on_event_tracks m st e :
  tracks m st -> is_Some (event_host e.2) ->
  runs (on_event e) m (fun _ m' => tracks m' (step_status st e)) (fun _ => False).
Proof.
  intros Ht [k Hk]. destruct e as [event addr]. cbn in Hk.
  assert (Hst : forall h, step_status st (event, addr) h = if decide (h = k) then next_status event (st h) else st h).
  { intros h. unfold step_status. cbn. rewrite Hk. case_bool_decide; case_decide; congruence. }
  unfold runs. destruct event; cbn; unfold on_event_connected, on_event_connect_delayed,
    on_event_connect_retried, on_event_closed, on_event_disconnected, on_event_listening;
    rewrite ?Hk; cbn; intros h; specialize (Ht h); rewrite Hst; cbn;
    rewrite ?(elem_of_set_insert _ string_order), ?elem_of_erase;
    destruct (decide (h = k)) as [->|Hne]; destruct (st _) eqn:Hs; cbn; naive_solver.
Qed.

Lemma listener_tracks events m st :
  tracks m st -> (forall e, e ∈ events -> is_Some (event_host e.2)) ->
  runs (listener events) m (fun _ m' => tracks m' (fold_left step_status events st)) (fun _ => False).
Proof.
  revert m st. induction events as [|e events IH]; intros m st Ht He; [by apply runs_ret|].
  cbn [listener fold_left]. apply runs_bind. eapply runs_conseq.
  - apply on_event_tracks; [done|]. apply He. by left.
  - cbn. intros _ m' Hm'. apply IH; [done|]. intros e' Hin. apply He. by right.
Qed.
End MonitorFacts.

(** ** Lemmas: the client ends its calls *)

Section ClientFacts.
Context {CL : CryptoLib} {IP : IPParser} {Q : ZmqLib}.

Lemma on_event_total e m : runs (on_event e) m (fun _ _ => True) (fun _ => True).
Proof.
  destruct e as [event addr]. unfold runs. destruct event; cbn; try done;
    unfold on_event_connected, on_event_connect_delayed, on_event_connect_retried, on_event_closed,
      on_event_disconnected; by destruct (event_host addr).
Qed.

Lemma listener_total events m : runs (listener events) m (fun _ _ => True) (fun _ => True).
Proof.
  revert m. induction events as [|e events IH]; intros m; [done|]. apply runs_bind.
  eapply runs_conseq; [apply on_event_total|]. intros _ m' _. apply IH.
Qed.

Lemma client_connect_total host port c :
  runs (client_connect host port) c (fun _ _ => True) (fun _ => True).
Proof.
  unfold client_connect. apply runs_bind, runs_get. destruct (socket_connect _ _) as [k|]; [|done].
  apply runs_bind, runs_zoom, runs_put, runs_bind, runs_zoom.
  eapply runs_conseq; [apply listener_total|]. intros _ m' _. by destruct (negb _).
Qed.

Lemma client_send_total message c : runs (client_send message) c (fun _ _ => True) (fun _ => False).
Proof.
  unfold client_send. apply runs_bind, runs_get. destruct (_ && _); [by apply runs_zoom|done].
Qed.
End ClientFacts.

(** ** Lemmas: what a server sends *)

Section ServerFacts.
Context {CL : CryptoLib} {IP : IPParser} {Q : ZmqLib} {U : MiniUPnP}.
Context {Codec : CodecLaws CL} {Data : HashDataLaws CL} {R : ZmqRouting Q}.

#[local] Existing Instance key_eq_dec.

(** What of [log] was sent to a client, and what of [ms] is for it. *)
Definition sent_to (to : crypto_hash_t) (log : list (bytes * bytes)) : list bytes :=
  (filter (fun p => p.1 = hash_data to) log).*2.

Definition is_for (to : crypto_hash_t) (m : zmq_message_envelope_t) : Prop :=
  env_payload m <> [] /\ (key_empty (env_to m) = true \/ env_to m = to).

#[global] Instance is_for_dec to m : Decision (is_for to m).
Proof. unfold is_for. apply _. Defined.

Definition queued_for (to : crypto_hash_t) (ms : list zmq_message_envelope_t) : list bytes :=
  env_payload <$> filter (is_for to) ms.

Lemma hash_data_inj a b : hash_data a = hash_data b -> a = b.
Proof using Data. intros E. pose proof (hash_of_data a) as H. rewrite E, hash_of_data in H. congruence. Qed.

Lemma sent_to_app to l1 l2 : sent_to to (l1 ++ l2) = sent_to to l1 ++ sent_to to l2.
Proof using. unfold sent_to. by rewrite filter_app, fmap_app. Qed.

Lemma sent_to_one to d payload :
  sent_to to [(hash_data d, payload)] = if decide (d = to) then [payload] else [].
Proof using Data.
  unfold sent_to. rewrite filter_cons. cbn. destruct (decide (d = to)) as [->|Hne].
  - by rewrite decide_True.
  - rewrite decide_False; [done|]. by intros E%hash_data_inj.
Qed.

(** Only the socket differs. *)
Definition resocketed (s s' : ZMQServer) : Prop :=
  s' = mk_server (sv_port s) (sv_identity s) (sv_running s) (sv_socket s') (sv_connections s)
         (sv_incoming s) (sv_outgoing s) (sv_upnp s) (sv_gateway s) (sv_monitor s).

Lemma send_spec d payload s :
  runs (server_socket (send_parts d payload)) s
    (fun sent s' => resocketed s s' /\
       routed (sv_socket s') = routed (sv_socket s) ++ if sent : bool then [(d, payload)] else [])
    (fun _ => False).
Proof using.
  apply runs_zoom. unfold runs, send_parts.
  pose proof (routed_parts d payload (sv_socket s)) as H.
  destruct (socket_send d true (sv_socket s)) as [[] k]; cbn.
  - destruct (socket_send payload false k) as [sent k2]. by split.
  - split; [done|]. cbn. by rewrite app_nil_r.
Qed.

Lemma broadcast_spec payload (conns : list (crypto_hash_t * string)) s :
  NoDup conns.*1 ->
  runs (broadcast payload conns) s
    (fun failed s' => resocketed s s' /\ exists log,
       routed (sv_socket s') = routed (sv_socket s) ++ log /\
       (forall to, to ∈ failed -> to ∈ conns.*1) /\
       forall to, sent_to to log =
         if decide (to ∈ conns.*1 /\ to ∉ failed) then [payload] else [])
    (fun _ => False).
Proof using Data.
  revert s. induction conns as [|[d addr] conns IH]; intros s Hnd; cbn [broadcast].
  - apply runs_ret. split; [by destruct s|]. exists []. split; [by rewrite app_nil_r|].
    split; [done|]. intros to. rewrite decide_False; [done|]. intros [H _]. by apply not_elem_of_nil in H.
  - cbn in Hnd. apply NoDup_cons in Hnd as [Hd Hnd].
    apply runs_bind. eapply runs_conseq; [apply send_spec|]. cbn. intros sent s1 [Hs1 Hr1].
    apply runs_bind. eapply runs_conseq; [by apply IH|]. cbn.
    intros failed s2 (Hs2 & log & Hr2 & Hf & Hlog). apply runs_ret.
    split; [unfold resocketed in *; rewrite Hs1 in Hs2; exact Hs2|].
    exists ((if sent then [(hash_data d, payload)] else []) ++ log).
    split; [by rewrite Hr2, Hr1, <- app_assoc|].
    assert (Hdf : d ∉ failed) by (intros H; by apply Hd, Hf).
    split.
    { intros to Hin. destruct sent; [right; by apply Hf|].
      apply elem_of_cons in Hin as [->|Hin]; [by left|]. right. by apply Hf. }
    intros to. rewrite sent_to_app, Hlog. destruct (decide (to = d)) as [->|Hne].
    + rewrite (decide_False (P := d ∈ conns.*1 /\ _)) by tauto. rewrite app_nil_r.
      destruct sent.
      * rewrite sent_to_one, decide_True by done. rewrite decide_True; [done|]. split; [by left|done].
      * rewrite decide_False; [done|]. intros [_ H]. apply H. by left.
    + assert (Hsame : sent_to to (if sent then [(hash_data d, payload)] else []) = []).
      { destruct sent; [rewrite sent_to_one; by rewrite decide_False|done]. }
      rewrite Hsame. cbn [app]. apply decide_ext. cbn.
      destruct sent; rewrite ?elem_of_cons; tauto.
Qed.

(** The registered clients, in the order of the map. *)
Definition clients_ok (s : ZMQServer) : Prop := strictly_sorted key_ltb fst (sv_connections s).

Lemma unregister_spec failed s :
  clients_ok s ->
  runs (unregister failed) s
    (fun _ s' => clients_ok s' /\ sv_socket s' = sv_socket s /\ sv_outgoing s' = sv_outgoing s /\
       sv_incoming s' = sv_incoming s /\ sv_running s' = sv_running s /\
       forall e, e ∈ sv_connections s' <-> e ∈ sv_connections s /\ e.1 ∉ failed)
    (fun _ => False).
Proof using Codec.
  revert s. induction failed as [|d failed IH]; intros s Hs; cbn [unregister].
  - apply runs_ret. do 5 (split; [done|]). intros e.
    split; [intros He; split; [done|apply not_elem_of_nil]|tauto].
  - apply runs_bind, runs_zoom. unfold runs, map_erase. cbn. fold (runs (unregister failed)).
    eapply runs_conseq; [apply IH; apply sorted_filter; exact Hs|]. cbn.
    intros _ s2 (H1 & H2 & H3 & H4 & H5 & H6).
    do 5 (split; [done|]). intros e. rewrite H6.
    rewrite list_elem_of_In, filter_In, <- list_elem_of_In, negb_true_iff, elem_of_cons.
    pose proof (same_key_spec (key_ltb (K := crypto_hash_t)) key_order d e.1) as Hk.
    destruct (same_key key_ltb d e.1).
    + destruct Hk as [Hk _]. specialize (Hk eq_refl). split; [by intros [[_ ?] _]|].
      intros [_ Hn]. destruct Hn. by left.
    + assert (e.1 <> d) by (intros E; symmetry in E; by apply Hk in E). tauto.
Qed.

Notation clients s := ((sv_connections s).*1).

(** What a stretch of sending, over the messages [ms], did to the server. *)
Record sending (ms : list zmq_message_envelope_t) (s s' : ZMQServer) : Prop := {
  sending_ok : clients_ok s';
  sending_same : sv_incoming s' = sv_incoming s /\ sv_running s' = sv_running s;
  sending_subset : forall to, to ∈ clients s' -> to ∈ clients s;
  sending_log : exists log, routed (sv_socket s') = routed (sv_socket s) ++ log /\
    (forall to, sent_to to log `sublist_of` queued_for to ms) /\
    forall to, to ∈ clients s -> to ∈ clients s' <-> sent_to to log = queued_for to ms
}.

Lemma queued_for_one to m :
  queued_for to [m] = if decide (is_for to m) then [env_payload m] else [].
Proof using. unfold queued_for. rewrite filter_cons. by case_decide. Qed.

Lemma elem_of_clients to s : to ∈ clients s <-> exists addr, (to, addr) ∈ sv_connections s.
Proof using.
  rewrite list_elem_of_fmap. split.
  - intros ([d a] & -> & H). by exists a.
  - intros [a H]. by exists (to, a).
Qed.

(** One message, after which the refused destinations are unregistered. *)
Lemma sending_one m (failed : list crypto_hash_t) log s1 s2 s3 :
  clients_ok s3 -> sv_incoming s3 = sv_incoming s1 -> sv_running s3 = sv_running s1 ->
  sv_connections s2 = sv_connections s1 -> sv_socket s3 = sv_socket s2 ->
  routed (sv_socket s2) = routed (sv_socket s1) ++ log ->
  (forall e, e ∈ sv_connections s3 <-> e ∈ sv_connections s2 /\ e.1 ∉ failed) ->
  (forall to, sent_to to log = [] \/ (sent_to to log = [env_payload m] /\ is_for to m)) ->
  (forall to, to ∈ clients s1 -> to ∉ failed <-> sent_to to log = queued_for to [m]) ->
  sending [m] s1 s3.
Proof using.
  intros Hok Hin Hrun Hc Hsk Hr Hconn Hlog Hf.
  assert (Hcl : forall to, to ∈ clients s3 <-> to ∈ clients s1 /\ to ∉ failed).
  { intros to. rewrite !elem_of_clients. setoid_rewrite Hconn. rewrite Hc. cbn. naive_solver. }
  split; [done|done|intros to H; by apply Hcl in H as [? _]|].
  exists log. split; [by rewrite Hsk|]. split.
  - intros to. rewrite queued_for_one. destruct (Hlog to) as [->|[-> ?]].
    + apply sublist_nil_l.
    + by rewrite decide_True.
  - intros to Hto. rewrite Hcl, <- Hf by done. tauto.
Qed.

Lemma pop_spec m rest s (P : zmq_message_envelope_t -> ZMQServer -> Prop) X :
  sv_outgoing s = m :: rest ->
  P m (mk_server (sv_port s) (sv_identity s) (sv_running s) (sv_socket s) (sv_connections s)
         (sv_incoming s) rest (sv_upnp s) (sv_gateway s) (sv_monitor s)) ->
  runs (server_outgoing queue_pop) s P X.
Proof using. intros E H. apply runs_zoom. rewrite E. exact H. Qed.

Lemma server_outgoing_message_spec m rest s :
  clients_ok s -> sv_outgoing s = m :: rest ->
  runs server_outgoing_message s (fun _ s' => sv_outgoing s' = rest /\ sending [m] s s') (fun _ => False).
Proof using Codec Data.
  intros Hok Hout. unfold server_outgoing_message.
  apply runs_bind. eapply pop_spec; [exact Hout|].
  set (s0 := mk_server _ _ _ _ _ _ rest _ _ _).
  unfold nonempty_payload. destruct (bool_decide (env_payload m = [])) eqn:Hp; cbn [negb].
  - apply bool_decide_eq_true in Hp. apply runs_ret. split; [done|].
    assert (Hnf : forall to, ~ is_for to m) by (intros to [H _]; done).
    apply (sending_one m [] [] s s s0); try done.
    + by rewrite app_nil_r.
    + intros e. split; [intros He; split; [done|apply not_elem_of_nil]|by intros [? _]].
    + intros to. by left.
    + intros to _. rewrite queued_for_one, decide_False by done. split; [done|]. intros _.
      apply not_elem_of_nil.
  - apply bool_decide_eq_false in Hp. apply runs_bind, runs_get, runs_bind.
    destruct (key_empty (env_to m)) eqn:Hto.
    + eapply runs_conseq; [apply broadcast_spec; by apply (strictly_sorted_NoDup _ key_order)|].
      cbn beta. intros failed s2 (Hs2 & log & Hr & Hfin & Hlog).
      eapply runs_conseq; [apply unregister_spec; unfold clients_ok; by rewrite Hs2|].
      cbn beta. intros _ s3 (Hok3 & Hsk & Ho & Hi & Hrn & Hc). split; [by rewrite Ho, Hs2|].
      apply (sending_one m failed log s s2 s3); try done.
      * by rewrite Hi, Hs2.
      * by rewrite Hrn, Hs2.
      * by rewrite Hs2.
      * intros to. rewrite Hlog. case_decide; [right|by left]. split; [done|]. split; [done|by left].
      * intros to Hin. rewrite Hlog, queued_for_one, (decide_True (P := is_for to m)) by (split; [done|by left]).
        change (sv_connections s0) with (sv_connections s).
        case_decide as Hd; split; [done|by intros _; apply Hd|by intros ?; destruct Hd|done].
    + apply runs_bind. eapply runs_conseq; [apply send_spec|]. cbn beta. intros sent s2 [Hs2 Hr].
      apply runs_ret.
      eapply runs_conseq; [apply unregister_spec; unfold clients_ok; by rewrite Hs2|].
      cbn beta. intros _ s3 (Hok3 & Hsk & Ho & Hi & Hrn & Hc). split; [by rewrite Ho, Hs2|].
      eapply (sending_one m _ _ s s2 s3); try done.
      * by rewrite Hi, Hs2.
      * by rewrite Hrn, Hs2.
      * by rewrite Hs2.
      * intros to. destruct sent; [rewrite sent_to_one; case_decide|]; [right|by left..].
        split; [done|]. split; [done|by right].
      * intros to _. rewrite queued_for_one. destruct sent; [rewrite sent_to_one|].
        -- destruct (decide (env_to m = to)) as [E|E].
           ++ rewrite decide_True; [|split; [done|by right]]. split; [done|]. intros _. apply not_elem_of_nil.
           ++ rewrite decide_False; [|intros [_ [?|?]]; congruence]. split; [done|]. intros _. apply not_elem_of_nil.
        -- rewrite list_elem_of_singleton. destruct (decide (env_to m = to)) as [E|E].
           ++ rewrite decide_True; [|split; [done|by right]]. cbn. split; [intros H; by symmetry in E|done].
           ++ rewrite decide_False; [|intros [_ [?|?]]; congruence]. cbn.
              split; [done|]. intros _ ->. done.
Qed.

Lemma queued_for_app to ms1 ms2 : queued_for to (ms1 ++ ms2) = queued_for to ms1 ++ queued_for to ms2.
Proof using. unfold queued_for. by rewrite filter_app, fmap_app. Qed.

Lemma sending_none s : clients_ok s -> sending [] s s.
Proof using.
  intros Hs. split; [done|done|done|]. exists []. split; [by rewrite app_nil_r|]. split; [done|done].
Qed.

Lemma sublist_full {A} (l1 l2 : list A) :
  l1 `sublist_of` l2 -> (List.length l2 <= List.length l1)%nat -> l1 = l2.
Proof using.
  induction 1 as [|x l1 l2 Hs IH|x l1 l2 Hs IH]; cbn; [done| |].
  - intros. f_equal. apply IH. lia.
  - intros. apply sublist_length in Hs. lia.
Qed.

(** Two stretches, one after the other. *)
Lemma sending_app ms1 ms2 s1 s2 s3 :
  sending ms1 s1 s2 -> sending ms2 s2 s3 -> sending (ms1 ++ ms2) s1 s3.
Proof using.
  intros [Hok1 [Hi1 Hr1] Hsub1 (l1 & Hl1 & Hsl1 & Hc1)] [Hok2 [Hi2 Hr2] Hsub2 (l2 & Hl2 & Hsl2 & Hc2)].
  split; [done|by rewrite Hi2, Hr2|auto|]. exists (l1 ++ l2). split; [by rewrite Hl2, Hl1, app_assoc|].
  split.
  - intros to. rewrite sent_to_app, queued_for_app. by apply sublist_app.
  - intros to Hto. rewrite sent_to_app, queued_for_app. split.
    + intros H3. pose proof (Hsub2 _ H3) as H2. f_equal; [by apply Hc1|by apply Hc2].
    + intros E. assert (E1 : sent_to to l1 = queued_for to ms1).
      { apply (sublist_full _ _ (Hsl1 to)). apply (f_equal List.length) in E.
        rewrite !length_app in E. pose proof (sublist_length _ _ (Hsl2 to)). lia. }
      rewrite E1 in E. apply app_inv_head in E. apply Hc2; [|done]. by apply Hc1.
Qed.

Lemma turn_condition s (P : bool -> ZMQServer -> Prop) X :
  P (negb (bool_decide (sv_outgoing s = [])) && sv_running s) s ->
  runs (empty ← server_outgoing queue_empty; s ← get_state; mret (negb empty && sv_running s)) s P X.
Proof using. by destruct s. Qed.

Lemma server_outgoing_turn_spec fuel ms s :
  clients_ok s -> sv_running s = true -> sv_outgoing s = ms -> (List.length ms < fuel)%nat ->
  runs (server_outgoing_turn fuel) s (fun _ s' => sv_outgoing s' = [] /\ sending ms s s') (fun _ => False).
Proof using Codec Data.
  revert fuel s. induction ms as [|m ms IH]; intros fuel s Hok Hrun Hout Hf;
    (destruct fuel as [|fuel]; [cbn in Hf; lia|]); unfold server_outgoing_turn; cbn [while_loop];
    apply runs_bind, turn_condition; rewrite Hout, Hrun; cbn [negb andb bool_decide].
  - apply runs_ret. split; [done|]. by apply sending_none.
  - apply runs_bind. eapply runs_conseq; [by eapply server_outgoing_message_spec|].
    cbn beta. intros _ s1 [Hout1 H1].
    eapply runs_conseq; [apply IH|]; [apply H1| |done|cbn in Hf; lia|].
    + destruct (sending_same _ _ _ H1) as [_ ->]. exact Hrun.
    + cbn beta. intros _ s2 [Hout2 H2]. split; [done|]. by apply (sending_app [m] ms s s1 s2).
Qed.
End ServerFacts.

(** ** Lemmas: who a server is *)

Section ServerFrames.
Context {CL : CryptoLib} {IP : IPParser} {Q : ZmqLib} {U : MiniUPnP}.

(** The threads and the calls never change the server's identity. *)
Lemma broadcast_keeps payload conns : keeps sv_identity (broadcast payload conns).
Proof.
  induction conns as [|[to addr] conns IH]; cbn [broadcast]; unfold server_socket; eauto 10 with keeps.
Qed.

Lemma unregister_keeps ids : keeps sv_identity (unregister ids).
Proof. induction ids as [|id ids IH]; cbn [unregister]; unfold server_connections; eauto 10 with keeps. Qed.

#[local] Hint Resolve broadcast_keeps unregister_keeps : keeps.

Lemma server_send_keeps message : keeps sv_identity (server_send message).
Proof. unfold server_send, server_outgoing. eauto 10 with keeps. Qed.

Lemma server_outgoing_turn_keeps fuel : keeps sv_identity (server_outgoing_turn fuel).
Proof.
  unfold server_outgoing_turn, server_outgoing_message, server_outgoing, server_socket.
  apply keeps_while; eauto 20 with keeps.
Qed.

Lemma server_incoming_turn_keeps : keeps sv_identity server_incoming_turn.
Proof.
  unfold server_incoming_turn, server_messages, server_connections, server_socket.
  apply keeps_bind; [apply keeps_get|]. intros s. apply keeps_bind; [eauto with keeps|].
  intros [[|ident [|message [|]]]|]; eauto 2 with keeps.
  destruct (bool_decide _); [eauto with keeps|]. apply keeps_bind; [eauto with keeps|]. intros from.
  destruct (msg_gets message _); [|eauto with keeps]. apply keeps_bind; [eauto with keeps|].
  intros [[host port] hash]. apply keeps_bind; [eauto with keeps|]. intros [];
    (apply keeps_bind; [eauto with keeps|]); eauto with keeps.
Qed.
End ServerFrames.

(** ** Properties *)

Section ZmqProps.
Context {CL : CryptoLib} {IP : IPParser} {Q : ZmqLib} {U : MiniUPnP}.

#[local] Existing Instance key_eq_dec.
#[local] Existing Instance key_countable.

(** C30: After any events whose addresses can be read, a host with its port is in
    the connected set exactly when the last event about it was a connection, in
    the delayed set when it was a delay, and in the retried set when it was a
    retry, so it is never in two of them; a close or a disconnect takes it out of
    the connected set only. *)
Theorem monitor_tracks_hosts events :
  (forall e, e ∈ events -> is_Some (event_host e.2)) ->
  runs (listener events) new_monitor
    (fun _ m => forall h,
       (h ∈ m_connected_peers m <-> status_after events h = InConnected) /\
       (h ∈ m_delayed_peers m <-> status_after events h = InDelayed) /\
       (h ∈ m_retried_peers m <-> status_after events h = InRetried))
    (fun _ => False).
Proof.
  intros He. apply listener_tracks; [|done]. intros h. cbn.
  repeat split; (intros H; by apply not_elem_of_nil in H) || done.
Qed.

(** C11: A running server sends everything that is queued and comes to an end.
    Every client is sent, in order, only messages that were queued for it or for
    everyone, and a client is still registered afterwards exactly when it was
    sent all of those; nothing else of the server changes. *)
Theorem server_delivery `{!CodecLaws CL, !HashDataLaws CL} {R : ZmqRouting Q} fuel s :
  clients_ok s -> sv_running s = true -> (List.length (sv_outgoing s) < fuel)%nat ->
  runs (server_outgoing_turn fuel) s
    (fun _ s' => sv_outgoing s' = [] /\ sv_incoming s' = sv_incoming s /\
       sv_running s' = true /\ clients_ok s' /\
       exists log, routed (sv_socket s') = routed (sv_socket s) ++ log /\
         (forall to, sent_to to log `sublist_of` queued_for to (sv_outgoing s)) /\
         forall to, to ∈ (sv_connections s').*1 <->
           to ∈ (sv_connections s).*1 /\ sent_to to log = queued_for to (sv_outgoing s))
    (fun _ => False).
Proof.
  intros Hok Hrun Hf. eapply runs_conseq; [by eapply server_outgoing_turn_spec|].
  cbn beta. intros _ s' [Hout [Hok' [Hi Hr] Hsub (log & Hlog & Hsl & Hc)]].
  split; [done|]. split; [done|]. split; [by rewrite Hr|]. split; [done|].
  exists log. split; [done|]. split; [done|]. intros to. split.
  - intros H. pose proof (Hsub _ H). split; [done|]. by apply Hc.
  - intros [Hin E]. by apply Hc.
Qed.

(** What a server accepts: two parts, of which the second is not empty, the
    first is a hash, and whose peer address can be read. *)
Definition accepted (s : ZMQServer) (m : zmq_message_envelope_t) : Prop :=
  exists ident message unsafe_host port hash,
    fst (socket_receive (sv_socket s)) = Some [ident; message] /\ msg_data message <> [] /\
    hash_of_bytes (msg_data ident) = Some (env_from m) /\
    msg_gets message "Peer-Address" = Some unsafe_host /\
    normalize_host_port unsafe_host = Some (env_peer_address m, port, hash) /\
    env_to m = sv_identity s /\ env_subject m = key_default /\ env_payload m = msg_data message.

(** C37: A turn of the receiving thread either takes nothing over or queues one
    accepted message behind the others and registers its sender, an already
    registered one keeping its address; when it is left by an exception the
    queue and the clients are as before. *)
Theorem server_reception `{!CodecLaws CL} s :
  clients_ok s ->
  let untouched (s' : ZMQServer) :=
    sv_incoming s' = sv_incoming s /\ sv_connections s' = sv_connections s in
  runs server_incoming_turn s
    (fun _ s' => sv_outgoing s' = sv_outgoing s /\ clients_ok s' /\
       (untouched s' \/ exists m, accepted s m /\ sv_incoming s' = sv_incoming s ++ [m] /\
          map_of (sv_connections s') =
            match map_of (sv_connections s) !! env_from m with
            | Some _ => map_of (sv_connections s)
            | None => <[env_from m := env_peer_address m]> (map_of (sv_connections s))
            end))
    untouched.
Proof.
  intros Hok untouched. unfold server_incoming_turn. apply runs_bind, runs_get.
  apply runs_bind, runs_zoom. unfold runs at 1, receive.
  destruct (socket_receive (sv_socket s)) as [received k] eqn:Hrec.
  set (s1 := mk_server _ _ _ k _ _ _ _ _ _).
  assert (Hnone : runs (mret ()) s1
    (fun _ s' => sv_outgoing s' = sv_outgoing s /\ clients_ok s' /\ (untouched s' \/ exists m, accepted s m /\
       sv_incoming s' = sv_incoming s ++ [m] /\ map_of (sv_connections s') =
            match map_of (sv_connections s) !! env_from m with
            | Some _ => map_of (sv_connections s)
            | None => <[env_from m := env_peer_address m]> (map_of (sv_connections s))
            end)) untouched).
  { apply runs_ret. split; [done|]. split; [done|]. by left. }
  destruct received as [[|ident [|message [|]]]|]; try exact Hnone.
  destruct (bool_decide (msg_data message = [])) eqn:He; [exact Hnone|].
  apply bool_decide_eq_false in He. apply runs_bind.
  destruct (hash_of_bytes (msg_data ident)) as [from|] eqn:Hfrom; [apply runs_ret|by apply runs_throw].
  destruct (msg_gets message "Peer-Address") as [unsafe_host|] eqn:Hg; [|exact Hnone].
  apply runs_bind. destruct (normalize_host_port unsafe_host) as [[[host port] hash]|] eqn:Hn;
    [apply runs_ret|by apply runs_throw].
  apply runs_bind, runs_zoom. unfold runs at 1, map_contains.
  set (m := mk_envelope (sv_identity s) from key_default host (msg_data message)).
  assert (Ha : accepted s m).
  { exists ident, message, unsafe_host, port, hash. by rewrite Hrec. }
  pose proof (map_of_find key_ltb key_order (sv_connections s) from Hok) as Hfind.
  change (sv_connections s1) with (sv_connections s). rewrite Hfind.
  destruct (map_of (sv_connections s) !! from) as [a|] eqn:Hm; cbn [fmap option_fmap option_map].
  - apply runs_bind, runs_ret. apply runs_zoom. split; [done|]. split; [done|]. right.
    exists m. split; [done|]. split; [done|]. cbn. by rewrite Hm.
  - apply runs_bind, runs_zoom. apply runs_zoom.
    destruct (map_insert_spec key_ltb key_order (sv_connections s) from host Hok) as [Hs Hmap].
    rewrite Hm in Hmap. split; [done|]. split; [exact Hs|]. right.
    exists m. split; [done|]. split; [done|]. cbn. rewrite Hm. exact Hmap.
Qed.
End ZmqProps.

(** ** Samples and witnesses *)

Module ZmqSamples.
(** A socket with the clients it reaches, an unfinished message, what it sent,
    and what there is to receive. *)
Record toy_socket : Type := mk_toy_socket {
  toy_reachable : list bytes;
  toy_first : option bytes;
  toy_sent : list (bytes * bytes);
  toy_inbox : list (list zmq_message_t)
}.

Definition toy_send (part : bytes) (more : bool) (s : toy_socket) : bool * toy_socket :=
  match more, toy_first s with
  | true, _ =>
      if bool_decide (part ∈ toy_reachable s)
      then (true, mk_toy_socket (toy_reachable s) (Some part) (toy_sent s) (toy_inbox s)) else (false, s)
  | false, Some first =>
      (true, mk_toy_socket (toy_reachable s) None (toy_sent s ++ [(first, part)]) (toy_inbox s))
  | false, None => (true, s)
  end.

Definition toy_zmq : ZmqLib := {|
  socket_t := toy_socket;
  new_socket _ := mk_toy_socket [] None [] [];
  socket_set _ s := s;
  socket_connect _ s := Some s;
  socket_disconnect _ s := Some s;
  socket_bind _ s := Some s;
  socket_send := toy_send;
  socket_receive s :=
    match toy_inbox s with
    | m :: rest => (Some m, mk_toy_socket (toy_reachable s) (toy_first s) (toy_sent s) rest)
    | [] => (Some [], s)
    end;
  zmq_curve_public k := Some k;
  connection_events _ := [(Connected, "127.0.0.1"%string)]
|}.

Definition toy_routing : ZmqRouting toy_zmq.
Proof.
  refine {| routed := toy_sent : socket_t (ZmqLib := toy_zmq) -> list (bytes * bytes) |}.
  intros first payload s. cbn. unfold toy_send. case_bool_decide; cbn; done.
Defined.

#[local] Existing Instance toy_crypto.
#[local] Existing Instance toy_zmq.
#[local] Existing Instance UpnpSamples.toy_upnp.

(** Two registered clients, of which the second cannot be reached, and a message
    for everyone. *)
Definition first_client : crypto_hash_t (CryptoLib := toy_crypto) := x07.
Definition second_client : crypto_hash_t (CryptoLib := toy_crypto) := x08.

Definition server (outgoing : list (zmq_message_envelope_t (CL := toy_crypto))) (inbox : list (list zmq_message_t))
  : ZMQServer (CL := toy_crypto) (Q := toy_zmq) (U := UpnpSamples.toy_upnp) :=
  mk_server 12897 (x05 : crypto_hash_t) true
    (mk_toy_socket [hash_data first_client] None [] inbox : socket_t)
    [(first_client, "[127.0.0.1]"%string); (second_client, "[127.0.0.1]"%string)]
    [] outgoing None (([] : list string) : gateway_t) new_monitor.

Definition greeting : zmq_message_envelope_t (CL := toy_crypto) :=
  mk_envelope key_default key_default key_default EmptyString [1; 2; 3].

(** A message of a client that is not registered yet. *)
Definition arrival : list zmq_message_t :=
  [mk_message (toy_put_key x09) (fun _ => None); mk_message [1; 2; 3] (fun _ => Some "127.0.0.1"%string)].

Lemma server_clients outgoing inbox : clients_ok (server outgoing inbox).
Proof. repeat constructor. Qed.
End ZmqSamples.

#[local] Existing Instance toy_crypto.
#[local] Existing Instance PacketSamples.toy_ip.
#[local] Existing Instance ZmqSamples.toy_zmq.
#[local] Existing Instance UpnpSamples.toy_upnp.

Lemma monitor_tracks_hosts_witness :
  (forall e, e ∈ [(Connected, "127.0.0.1"%string)] -> is_Some (event_host e.2)) /\
  runs (listener [(Connected, "127.0.0.1"%string)]) new_monitor
    (fun _ m => "[127.0.0.1]:0"%string ∈ m_connected_peers m) (fun _ => False).
Proof.
  assert (He : forall e, e ∈ [(Connected, "127.0.0.1"%string)] -> is_Some (event_host e.2)).
  { intros e H. apply list_elem_of_singleton in H. rewrite H. eexists. vm_compute. reflexivity. }
  split; [exact He|].
  eapply runs_conseq; [exact (monitor_tracks_hosts [(Connected, "127.0.0.1"%string)] He)|].
  cbn beta. intros _ m Hm. apply Hm. vm_compute. reflexivity.
Defined.

Lemma server_delivery_witness :
  runs (server_outgoing_turn 2) (ZmqSamples.server [ZmqSamples.greeting] [])
    (fun _ s' => sv_outgoing s' = []) (fun _ => False).
Proof.
  eapply runs_conseq;
    [apply (server_delivery (R := ZmqSamples.toy_routing) 2 (ZmqSamples.server [ZmqSamples.greeting] []))|].
  - apply ZmqSamples.server_clients.
  - reflexivity.
  - cbn. lia.
  - intros _ s' [H _]. exact H.
Defined.

Lemma server_reception_witness :
  runs server_incoming_turn (ZmqSamples.server [] [ZmqSamples.arrival])
    (fun _ s' => sv_outgoing s' = []) (fun s' => sv_incoming s' = []).
Proof.
  eapply runs_weaken; [apply (server_reception (ZmqSamples.server [] [ZmqSamples.arrival]))| |].
  - apply ZmqSamples.server_clients.
  - intros _ s' [H _]. exact H.
  - intros s' [H _]. exact H.
Defined.
