(* ===== verification/Threads.v ===== *)
(** * The threads of a server, step by step

    The two threads of [src/src/networking/zmq_server.cpp] with the locks they
    take: [m_socket_mutex] and the lock of the map of connections
    ([include/tools/thread_safe_map.h]), which [each] holds, shared, for its whole
    loop.  A step of a thread is what it does between two points where the other
    threads can act; every operation of a queue or of the map is one.  [Zmq.v] has
    the turns of the same threads as programs; here they are interleaved with each
    other, with the callers of [send] and with the one thread that takes the
    messages out (the poller of [src/src/p2p/p2p_node.cpp]). *)

From S2P Require Import Prelude Errors CryptoLib Concrete Codec Packets Text Program Mdb.
From S2P Require Import Containers Upnp Zmq.
From stdpp Require Import relations.
From Stdlib Require Import Strings.Byte.

Section Threads.
Context {CL : CryptoLib} {IP : IPParser} {Q : ZmqLib} {U : MiniUPnP}.

Notation server_prog := (prog ZMQServer).
Notation envelope := zmq_message_envelope_t.
Notation client := (crypto_hash_t * string)%type.

(** ** Where a thread is *)

Inductive incoming_pc : Type :=
  | I_loop                  (* [while (m_running)] *)
  | I_lock                  (* the lock of the socket *)
  | I_receive
  | I_contains (m : envelope)
  | I_insert (m : envelope)
  | I_push (m : envelope)
  | I_unlock                (* the end of the [try] *)
  | I_sleep
  | I_ended.

(** [O_broadcast] is in the loop of [each]: the clients that are left and
    [to_delete]. *)
Inductive outgoing_pc : Type :=
  | O_loop
  | O_test                  (* [while (!m_outgoing_msgs.empty())] *)
  | O_check                 (* [if (!m_running)] *)
  | O_pop
  | O_each (m : envelope)
  | O_broadcast (m : envelope) (rest : list client) (to_delete : list crypto_hash_t)
  | O_send_each (m : envelope) (to : crypto_hash_t) (rest : list client) (to_delete : list crypto_hash_t)
  | O_lock (m : envelope)
  | O_send (m : envelope)
  | O_erase (to_delete : list crypto_hash_t)
  | O_sleep
  | O_ended.

(** [while (!messages().empty())] and [messages().pop()] of the reader. *)
Inductive reader_pc : Type := R_test | R_pop.

Inductive holder : Set := Incoming | Outgoing.

(** [th_shared]: the outgoing thread is in [each]. *)
Record server_threads : Type := mk_server_threads {
  th_server : ZMQServer;
  th_mutex : option holder;
  th_shared : bool;
  th_in : incoming_pc;
  th_out : outgoing_pc;
  th_reader : reader_pc
}.

Inductive stepped : Type :=
  | Next (t : server_threads)
  | Blocked                 (* it waits for a lock *)
  | Ended                   (* the thread has returned *)
  | Terminated              (* an exception rest the thread *)
  | Wrong.                  (* undefined behaviour *)

(** A step whose action on the server is a program. *)
Definition acts {A} (m : server_prog A) (t : server_threads) (next : A -> ZMQServer -> server_threads) : stepped :=
  match m (th_server t) with
  | Returned a s => Next (next a s)
  | Thrown _ => Terminated
  | Undefined | OutOfFuel => Wrong
  end.

(** ** The incoming thread *)

(** What is received, when it is a message to take over. *)
Definition receive_message : server_prog (option envelope) :=
  s ← get_state;
  received ← server_socket receive;
  match received with
  | Some [ident; message] =>
      if bool_decide (msg_data message = []) then mret None
      else
        from ← or_throw (hash_of_bytes (msg_data ident));
        match msg_gets message "Peer-Address" with
        | None => mret None
        | Some unsafe_host =>
            '(host, _, _) ← or_throw (normalize_host_port unsafe_host);
            mret (Some (mk_envelope (sv_identity s) from key_default host (msg_data message)))
        end
  | _ => mret None
  end.

Definition at_in (t : server_threads) (mutex : option holder) (pc : incoming_pc) (s : ZMQServer) : server_threads :=
  mk_server_threads s mutex (th_shared t) pc (th_out t) (th_reader t).

(** [woken]: [thread_sleep] did not time out. *)
Definition incoming_step (woken : bool) (t : server_threads) : stepped :=
  let s := th_server t in
  let go pc := Next (at_in t (th_mutex t) pc s) in
  match th_in t with
  | I_loop => go (if sv_running s then I_lock else I_ended)
  | I_lock => if th_mutex t then Blocked else Next (at_in t (Some Incoming) I_receive s)
  | I_receive =>
      acts receive_message t (fun received =>
        at_in t (th_mutex t) (match received with Some m => I_contains m | None => I_unlock end))
  | I_contains m =>
      acts (server_connections (map_contains key_ltb (env_from m))) t (fun known =>
        at_in t (th_mutex t) (if known : bool then I_push m else I_insert m))
  | I_insert m =>
      if th_shared t then Blocked
      else acts (server_connections (map_insert key_ltb (env_from m) (env_peer_address m))) t (fun _ =>
             at_in t (th_mutex t) (I_push m))
  | I_push m => acts (server_messages (queue_push m)) t (fun _ => at_in t (th_mutex t) I_unlock)
  | I_unlock => Next (at_in t None I_sleep s)
  | I_sleep => go (if woken then I_ended else I_loop)
  | I_ended => Ended
  end.

(** ** The outgoing thread *)

Definition at_out (t : server_threads) (mutex : option holder) (shared : bool) (pc : outgoing_pc) (s : ZMQServer) : server_threads :=
  mk_server_threads s mutex shared (th_in t) pc (th_reader t).

Definition outgoing_step (woken : bool) (t : server_threads) : stepped :=
  let s := th_server t in
  let goes mutex shared pc := Next (at_out t mutex shared pc s) in
  let go := goes (th_mutex t) (th_shared t) in
  match th_out t with
  | O_loop => go (if sv_running s then O_test else O_ended)
  | O_test => acts (server_outgoing queue_empty) t (fun empty =>
      at_out t (th_mutex t) (th_shared t) (if empty : bool then O_sleep else O_check))
  | O_check => go (if sv_running s then O_pop else O_sleep)
  | O_pop => acts (server_outgoing queue_pop) t (fun m =>
      at_out t (th_mutex t) (th_shared t)
        (if negb (nonempty_payload m) then O_test else if key_empty (env_to m) then O_each m else O_lock m))
  | O_each m => goes (th_mutex t) true (O_broadcast m (sv_connections s) [])
  | O_broadcast m [] to_delete => goes (th_mutex t) false (O_erase to_delete)
  | O_broadcast m ((to, _) :: rest) to_delete =>
      if th_mutex t then Blocked else goes (Some Outgoing) (th_shared t) (O_send_each m to rest to_delete)
  | O_send_each m to rest to_delete =>
      acts (server_socket (send_parts (hash_data to) (env_payload m))) t (fun sent =>
        at_out t None (th_shared t) (O_broadcast m rest (if sent : bool then to_delete else to_delete ++ [to])))
  | O_lock m => if th_mutex t then Blocked else goes (Some Outgoing) (th_shared t) (O_send m)
  | O_send m =>
      acts (server_socket (send_parts (hash_data (env_to m)) (env_payload m))) t (fun sent =>
        at_out t None (th_shared t) (O_erase (if sent : bool then [] else [env_to m])))
  | O_erase [] => go O_test
  | O_erase (identity :: to_delete) =>
      if th_shared t then Blocked
      else acts (server_connections (map_erase key_ltb identity)) t (fun _ =>
             at_out t (th_mutex t) (th_shared t) (O_erase to_delete))
  | O_sleep => go (if woken then O_ended else O_loop)
  | O_ended => Ended
  end.

(** ** The other threads *)

Definition with_server (t : server_threads) (s : ZMQServer) : server_threads :=
  mk_server_threads s (th_mutex t) (th_shared t) (th_in t) (th_out t) (th_reader t).

Definition send_step (m : envelope) (t : server_threads) : stepped := acts (server_send m) t (fun _ => with_server t).

Definition reader_step (t : server_threads) : stepped :=
  let at_reader pc s := mk_server_threads s (th_mutex t) (th_shared t) (th_in t) (th_out t) pc in
  match th_reader t with
  | R_test => acts (server_messages queue_empty) t (fun empty => at_reader (if empty : bool then R_test else R_pop))
  | R_pop => acts (server_messages queue_pop) t (fun _ => at_reader R_test)
  end.

(** The destructor's first action. *)
Definition stop_step (t : server_threads) : stepped :=
  let s := th_server t in
  Next (with_server t (mk_server (sv_port s) (sv_identity s) false (sv_socket s) (sv_connections s)
    (sv_incoming s) (sv_outgoing s) (sv_upnp s) (sv_gateway s) (sv_monitor s))).

Inductive action : Type :=
  | In (woken : bool) | Out (woken : bool) | Sends (m : envelope) | Reads | Stops.

Definition any_step (a : action) (t : server_threads) : stepped :=
  match a with
  | In woken => incoming_step woken t
  | Out woken => outgoing_step woken t
  | Sends m => send_step m t
  | Reads => reader_step t
  | Stops => stop_step t
  end.

(** One step of some thread; an exception that leaves a thread ends the process. *)
Definition interleaved (t t' : server_threads) : Prop := exists a, any_step a t = Next t'.

(** Some steps in a given order, to evaluate. *)
Fixpoint schedule (actions : list action) (t : server_threads) : stepped :=
  match actions with
  | [] => Next t
  | a :: rest => match any_step a t with Next t' => schedule rest t' | r => r end
  end.

(** When [bind] has started the threads. *)
Definition threads_started (s : ZMQServer) : server_threads := mk_server_threads s None false I_loop O_loop R_test.
End Threads.

(** ** The invariant *)

Section ThreadFacts.
Context {CL : CryptoLib} {IP : IPParser} {Q : ZmqLib} {U : MiniUPnP}.
Context {Codec : CodecLaws CL}.

Definition holds_in (pc : incoming_pc) : bool :=
  match pc with I_receive | I_contains _ | I_insert _ | I_push _ | I_unlock => true | _ => false end.

Definition holds_out (pc : outgoing_pc) : bool :=
  match pc with O_send_each _ _ _ _ | O_send _ => true | _ => false end.

Definition in_each (pc : outgoing_pc) : bool :=
  match pc with O_broadcast _ _ _ | O_send_each _ _ _ _ => true | _ => false end.

(** What the loop of [each] has still to visit is the end of the map. *)
Definition visits (connections : list (crypto_hash_t * string)) (pc : outgoing_pc) : Prop :=
  match pc with
  | O_broadcast _ rest _ => exists visited, connections = visited ++ rest
  | O_send_each _ to rest _ => exists visited addr, connections = visited ++ (to, addr) :: rest
  | _ => True
  end.

Record locks_ok (t : server_threads) : Prop := {
  ok_mutex : match th_mutex t with
             | Some Incoming => holds_in (th_in t) = true /\ holds_out (th_out t) = false
             | Some Outgoing => holds_in (th_in t) = false /\ holds_out (th_out t) = true
             | None => holds_in (th_in t) = false /\ holds_out (th_out t) = false
             end;
  ok_shared : th_shared t = in_each (th_out t);
  ok_pop : th_out t = O_check \/ th_out t = O_pop -> sv_outgoing (th_server t) <> [];
  ok_reader : th_reader t = R_pop -> sv_incoming (th_server t) <> [];
  ok_clients : clients_ok (th_server t);
  ok_visits : visits (sv_connections (th_server t)) (th_out t)
}.

Definition safe (r : stepped) : Prop :=
  match r with Next t => locks_ok t | Wrong => False | _ => True end.

Lemma acts_safe {A} (m : prog ZMQServer A) t next :
  runs m (th_server t) (fun a s => locks_ok (next a s)) (fun _ => True) -> safe (acts m t next).
Proof using. unfold runs, acts. by destruct (m (th_server t)). Qed.

Lemma receive_frame s : runs receive_message s (fun _ s' => resocketed s s') (resocketed s).
Proof using.
  unfold receive_message. apply runs_bind, runs_get. apply runs_bind, runs_zoom. unfold runs at 1, receive.
  destruct (socket_receive (sv_socket s)) as [received k].
  destruct received as [[|ident [|message [|]]]|]; try done.
  destruct (bool_decide _); [done|]. apply runs_bind. destruct (hash_of_bytes _); [|done]. apply runs_ret.
  destruct (msg_gets message _); [|done]. apply runs_bind. destruct (normalize_host_port _) as [[[? ?] ?]|]; done.
Qed.

Lemma send_frame d payload s :
  runs (server_socket (send_parts d payload)) s (fun _ s' => resocketed s s') (fun _ => False).
Proof using.
  apply runs_zoom. unfold runs, send_parts. destruct (socket_send d true (sv_socket s)) as [[] k]; [|done].
  by destruct (socket_send payload false k).
Qed.

(** What did not change stays as it is. *)
#[local] Ltac keep_ok := split; cbn in *; try done; solve [by intros [? | ?] | tauto].

Lemma incoming_safe woken t : locks_ok t -> safe (incoming_step woken t).
Proof using Codec.
  intros [Hm Hs Hp Hr Hc Hv]. destruct t as [s mutex shared pc out rd]. cbn in *. subst shared.
  unfold incoming_step. cbn [th_in th_server th_mutex th_shared]. destruct pc as [| | |m|m|m| | |]; cbn [holds_in] in Hm.
  - destruct (sv_running s); keep_ok.
  - destruct mutex as [[]|]; try done. keep_ok.
  - apply acts_safe. eapply runs_weaken; [apply receive_frame| |done]. cbn. intros received s' ->.
    destruct received; keep_ok.
  - apply acts_safe, runs_zoom. unfold runs, map_contains. cbn. destruct s; cbn in *. destruct (find _ _); keep_ok.
  - destruct (in_each out) eqn:He; [done|]. apply acts_safe, runs_zoom. unfold runs. cbn.
    destruct (map_insert_spec key_ltb key_order (sv_connections s) (env_from m) (env_peer_address m) Hc) as [Hs' _].
    split; cbn; try done. by destruct out.
  - apply acts_safe, runs_zoom. unfold runs. cbn. split; cbn; try done. intros _ E. by destruct (sv_incoming s).
  - destruct mutex as [[]|]; destruct Hm; try done.
  - destruct woken; keep_ok.
  - done.
Qed.

(** The operations on the map of connections by the outgoing thread. *)
Lemma erase_safe t identity to_delete :
  locks_ok t -> th_out t = O_erase (identity :: to_delete) ->
  safe (acts (server_connections (map_erase key_ltb identity)) t (fun _ =>
          at_out t (th_mutex t) (th_shared t) (O_erase to_delete))).
Proof using Codec.
  intros [Hm Hs Hp Hr Hc Hv] E. destruct t as [s mutex shared pc out rd]. cbn in *. subst.
  split; cbn; try done; [by intros [? | ?]|by apply sorted_filter].
Qed.

Lemma outgoing_safe woken t : locks_ok t -> safe (outgoing_step woken t).
Proof using Codec.
  intros Hok. pose proof Hok as [Hm Hs Hp Hr Hc Hv]. destruct t as [s mutex shared pc out rd]. cbn in *. subst shared.
  unfold outgoing_step. cbn [th_out th_server th_mutex th_shared].
  destruct out as [| | | |m|m [|[to addr] rest] del|m to rest del|m|m|[|identity del]| |]; cbn [holds_out in_each] in *.
  - destruct (sv_running s); keep_ok.
  - apply acts_safe, runs_zoom. unfold runs. cbn. destruct s as [? ? ? ? ? ? [|x l] ? ? ?]; keep_ok.
  - destruct (sv_running s); keep_ok.
  - apply acts_safe, runs_zoom. unfold runs. cbn. destruct (sv_outgoing s) as [|m l] eqn:E; [by apply Hp; [right|]|].
    cbn. destruct (negb _); [|destruct (key_empty _)]; keep_ok.
  - split; cbn; try done; [by intros [? | ?]|by exists []].
  - split; cbn; try done; by intros [? | ?].
  - destruct mutex as [[]|]; try done. destruct Hm, Hv as [visited E].
    split; cbn; try done; [by intros [? | ?]|]. exists visited, addr. exact E.
  - apply acts_safe. eapply runs_weaken; [apply send_frame| |done]. cbn. intros sent s' ->.
    destruct Hv as (visited & addr & E). destruct mutex as [[]|]; destruct Hm; try done.
    split; cbn; try done; [by intros [? | ?]|]. exists (visited ++ [(to, addr)]). by rewrite E, <- app_assoc.
  - destruct mutex as [[]|]; try done. split; cbn; try done; [tauto|by intros [? | ?]].
  - apply acts_safe. eapply runs_weaken; [apply send_frame| |done]. cbn. intros sent s' ->.
    destruct mutex as [[]|]; destruct Hm; try done. split; cbn; try done; by intros [? | ?].
  - keep_ok.
  - by apply erase_safe.
  - destruct woken; keep_ok.
  - done.
Qed.

Lemma send_safe m t : locks_ok t -> safe (send_step m t).
Proof using.
  intros [Hm Hs Hp Hr Hc Hv]. destruct t as [s mutex shared pc out rd]. cbn in *.
  unfold send_step. apply acts_safe. unfold server_send. apply runs_bind, runs_get.
  destruct (_ && _); [|by apply runs_ret; split]. apply runs_zoom. unfold runs. cbn.
  split; cbn; try done. intros _ E. by destruct (sv_outgoing s).
Qed.

Lemma reader_safe t : locks_ok t -> safe (reader_step t).
Proof using.
  intros [Hm Hs Hp Hr Hc Hv]. destruct t as [s mutex shared pc out rd]. cbn in *.
  unfold reader_step. cbn [th_reader]. destruct rd; apply acts_safe, runs_zoom; unfold runs; cbn.
  - destruct s as [? ? ? ? ? [|x l] ? ? ? ?]; split; done.
  - destruct (sv_incoming s) as [|x l] eqn:E; [by apply Hr|]. by split.
Qed.

Lemma step_safe a t : locks_ok t -> safe (any_step a t).
Proof using Codec.
  intros Hok. destruct a; cbn [any_step].
  - by apply incoming_safe.
  - by apply outgoing_safe.
  - by apply send_safe.
  - by apply reader_safe.
  - destruct Hok. by split.
Qed.

Lemma reachable_locks_ok t t' : locks_ok t -> rtc interleaved t t' -> locks_ok t'.
Proof using Codec.
  intros Hok. induction 1 as [|t t1 t' [a Ha] _ IH]; [done|]. apply IH.
  pose proof (step_safe a t Hok) as Hs. by rewrite Ha in Hs.
Qed.

Lemma threads_started_ok s : clients_ok s -> locks_ok (threads_started s).
Proof using. intros Hc. split; try done; by intros [? | ?]. Qed.

(** ** Deadlock *)

(** The incoming thread has the socket and waits for the map; the outgoing thread
    has the map and waits for the socket. *)
Definition deadlocked (t : server_threads) : Prop :=
  (exists m, th_in t = I_insert m) /\ (exists m client rest del, th_out t = O_broadcast m (client :: rest) del).

Lemma acts_not_blocked {A} (m : prog ZMQServer A) t next : acts m t next <> Blocked.
Proof using. unfold acts. by destruct (m (th_server t)). Qed.

#[local] Ltac not_blocked H :=
  solve [by apply acts_not_blocked in H | discriminate H].

(** Who waits, and for what. *)
Lemma incoming_waits t :
  locks_ok t -> incoming_step false t = Blocked ->
  (th_in t = I_lock /\ holds_out (th_out t) = true) \/ (exists m, th_in t = I_insert m) /\ in_each (th_out t) = true.
Proof using.
  intros [Hm Hs _ _ _ _] E. unfold incoming_step in E. destruct (th_in t) eqn:Hpc; cbn in E; try not_blocked E.
  - left. split; [done|]. destruct (th_mutex t) as [[]|]; by destruct Hm.
  - right. split; [by eexists|]. rewrite <- Hs. destruct (th_shared t); [done|]. not_blocked E.
Qed.

Lemma outgoing_waits t :
  locks_ok t -> outgoing_step false t = Blocked ->
  holds_in (th_in t) = true /\
  ((exists m, th_out t = O_lock m) \/ exists m client rest del, th_out t = O_broadcast m (client :: rest) del).
Proof using.
  intros [Hm Hs _ _ _ _] E. unfold outgoing_step in E.
  destruct (th_out t) as [| | | |m|m [|[to addr] rest] del|m to rest del|m|m|[|identity del]| |] eqn:Hpc; cbn in E, Hm;
    try not_blocked E.
  - destruct (th_mutex t) as [[]|]; [|by destruct Hm|done]. split; [by destruct Hm|]. right. by repeat eexists.
  - destruct (th_mutex t) as [[]|]; [|by destruct Hm|done]. split; [by destruct Hm|]. left. by eexists.
  - rewrite Hs in E. cbn in E. not_blocked E.
Qed.

(** The locks keep both threads from moving in no other way. *)
Lemma blocked_iff_deadlocked t :
  locks_ok t ->
  ((forall woken, incoming_step woken t = Blocked) /\ (forall woken, outgoing_step woken t = Blocked)) <-> deadlocked t.
Proof using.
  intros Hok. pose proof Hok as [Hm Hs _ _ _ _]. split.
  - intros [Hi Ho]. specialize (Hi false). specialize (Ho false).
    apply (incoming_waits t Hok) in Hi. apply (outgoing_waits t Hok) in Ho as [Hh Ho].
    destruct Hi as [[E _]|[Hi He]]; [by rewrite E in Hh|]. split; [done|].
    destruct Ho as [[m E]|Ho]; [by rewrite E in He|done].
  - intros [[m Ei] (m' & [to addr] & rest & del & Eo)]. rewrite Ei, Eo in Hm. rewrite Eo in Hs.
    unfold incoming_step, outgoing_step. rewrite Ei, Eo, Hs. split; intros woken; [done|].
    by destruct (th_mutex t) as [[]|]; destruct Hm.
Qed.

(** A deadlock stays: nothing is sent, received or registered any more. *)
Lemma deadlock_stays t t' :
  locks_ok t -> deadlocked t -> rtc interleaved t t' ->
  deadlocked t' /\ sv_socket (th_server t') = sv_socket (th_server t) /\
  sv_connections (th_server t') = sv_connections (th_server t).
Proof using Codec.
  intros Hok Hd H. revert Hok Hd. induction H as [|t t1 t' [a Ha] _ IH]; intros Hok Hd; [done|].
  assert (H1 : locks_ok t1) by (pose proof (step_safe a t Hok) as Hs; by rewrite Ha in Hs).
  apply (blocked_iff_deadlocked t Hok) in Hd as Hb. destruct Hb as [Hi Ho].
  assert (Hsame : th_in t1 = th_in t /\ th_out t1 = th_out t /\ sv_socket (th_server t1) = sv_socket (th_server t) /\
    sv_connections (th_server t1) = sv_connections (th_server t)).
  { destruct a; cbn [any_step] in Ha; [by rewrite Hi in Ha|by rewrite Ho in Ha|..].
    - unfold send_step, acts, server_send, mbind, prog_bind, get_state, server_outgoing, zoom in Ha. cbn in Ha.
      destruct (nonempty_payload m && _); injection Ha as <-; done.
    - unfold reader_step, acts, server_messages, zoom in Ha. destruct (th_reader t); [by injection Ha as <-|].
      unfold queue_pop in Ha. destruct (sv_incoming _); [done|]. by injection Ha as <-.
    - by injection Ha as <-. }
  destruct Hsame as (E1 & E2 & E3 & E4). rewrite <- E3, <- E4. apply IH; [done|]. unfold deadlocked. by rewrite E1, E2.
Qed.

Lemma schedule_interleaved actions t t' : schedule actions t = Next t' -> rtc interleaved t t'.
Proof using.
  revert t. induction actions as [|a rest IH]; cbn; intros t E; [injection E as ->; apply rtc_refl|].
  destruct (any_step a t) as [t1| | | |] eqn:Ha; try done. eapply rtc_l; [by exists a|by apply IH].
Qed.

Lemma accepted_received s m : accepted s m -> exists k, receive_message s = Returned (Some m)
  (mk_server (sv_port s) (sv_identity s) (sv_running s) k (sv_connections s) (sv_incoming s) (sv_outgoing s)
    (sv_upnp s) (sv_gateway s) (sv_monitor s)).
Proof using.
  intros (ident & message & host & port & hash & Hr & Hd & Hf & Hg & Hn & Hto & Hsub & Hp).
  unfold receive_message, mbind, prog_bind, get_state, server_socket, zoom, receive.
  destruct (socket_receive (sv_socket s)) as [r k]. cbn in Hr. subst r. exists k.
  rewrite bool_decide_eq_false_2, Hf by done. cbn. rewrite Hg. unfold mbind, prog_bind. rewrite Hn. cbn.
  rewrite <- Hto, <- Hsub, <- Hp. by destruct m.
Qed.

#[local] Ltac go a tac := eapply rtc_l; [exists a; cbn -[receive_message acts sorted_find]; tac; reflexivity|]; cbn -[receive_message acts].
#[local] Ltac go_in tac := go (In false) tac.
#[local] Ltac go_out tac := go (Out false) tac.

(** A message for everyone is sent while the first message of a client arrives. *)
Lemma deadlock_reached s client clients m queued arrived :
  sv_running s = true -> sv_connections s = client :: clients -> sv_outgoing s = m :: queued ->
  env_payload m <> [] -> key_empty (env_to m) = true ->
  accepted s arrived -> env_from arrived ∉ (sv_connections s).*1 ->
  exists t, rtc interleaved (threads_started s) t /\ deadlocked t.
Proof using Codec.
  intros Hrun Hc Ho Hp Hto Ha Hnew.
  assert (Hfind : sorted_find key_ltb fst (env_from arrived) (sv_connections s) = None).
  { destruct (sorted_find _ _ _ _) as [e|] eqn:E; [|done].
    apply (sorted_find_Some _ _ key_order) in E as [Hin Hk]. destruct Hnew. rewrite <- Hk. by apply list_elem_of_fmap_2. }
  destruct (accepted_received s arrived Ha) as [k Hr].
  eexists. split.
  - go_in ltac:(rewrite Hrun). go_in idtac.
    go_in ltac:(unfold acts; cbn; rewrite Hr).
    go_in ltac:(unfold acts, server_connections, zoom, map_contains; cbn -[sorted_find]; rewrite Hfind).
    go_out ltac:(rewrite ?Hrun). go_out ltac:(unfold acts; cbn; rewrite Ho). go_out ltac:(rewrite ?Hrun).
    go_out ltac:(unfold acts; cbn; rewrite ?Ho; cbn; unfold nonempty_payload; rewrite bool_decide_eq_false_2, Hto by done).
    go_out ltac:(rewrite ?Hc). apply rtc_refl.
  - destruct client as [to addr]. split; [by eexists|]. by repeat eexists.
Qed.

(** ** A thread that is not interrupted

    It does what its turn in [Zmq.v] does. *)

(** What a turn that began in [s] leads to. *)
Definition leads (o : outcome ZMQServer ()) (next : ZMQServer -> server_threads) : stepped :=
  match o with Returned _ s => Next (next s) | Thrown _ => Terminated | Undefined | OutOfFuel => Wrong end.

Lemma schedule_app l1 l2 t :
  schedule (l1 ++ l2) t = match schedule l1 t with Next t' => schedule l2 t' | r => r end.
Proof using. revert t. induction l1 as [|a l1 IH]; intros t; cbn; [done|]. by destruct (any_step a t). Qed.

Lemma schedule_S a n t :
  schedule (repeat a (S n)) t = match any_step a t with Next t' => schedule (repeat a n) t' | r => r end.
Proof using. reflexivity. Qed.

Lemma turn_receives s :
  server_incoming_turn s =
    (received ← receive_message;
     match received with
     | Some m =>
         known ← server_connections (map_contains key_ltb (env_from m));
         (if known : bool then mret () else server_connections (map_insert key_ltb (env_from m) (env_peer_address m)));;
         server_messages (queue_push m)
     | None => mret ()
     end) s.
Proof using.
  unfold server_incoming_turn, receive_message, mbind, prog_bind, get_state.
  destruct (server_socket receive s) as [received s1| | |]; try done.
  destruct received as [[|ident [|message [|]]]|]; try done. destruct (bool_decide _); [done|].
  destruct (hash_of_bytes _); [|done]. cbn. destruct (msg_gets message _); [|done].
  unfold prog_bind. by destruct (normalize_host_port _) as [[[host port] hash]|].
Qed.

Lemma incoming_alone s out rd :
  exists n, schedule (repeat (In false) n) (mk_server_threads s None false I_lock out rd) =
    leads (server_incoming_turn s) (fun s' => mk_server_threads s' None false I_sleep out rd).
Proof using.
  rewrite turn_receives. unfold mbind, prog_bind.
  destruct (receive_message s) as [[m|] s1|s1| |] eqn:Hr.
  - destruct (sorted_find key_ltb fst (env_from m) (sv_connections s1)) as [e|] eqn:E.
    + exists 5%nat. cbn -[receive_message acts]. unfold acts at 1. cbn -[receive_message acts]. rewrite Hr.
      cbn -[acts sorted_find]. unfold acts at 1, server_connections, zoom, map_contains. cbn -[acts sorted_find].
      rewrite E. by destruct s1.
    + exists 6%nat. cbn -[receive_message acts]. unfold acts at 1. cbn -[receive_message acts]. rewrite Hr.
      cbn -[acts sorted_find]. unfold acts at 1, server_connections, zoom, map_contains. cbn -[acts sorted_find].
      rewrite E. by destruct s1.
  - exists 3%nat. cbn -[receive_message]. unfold acts. cbn -[receive_message]. by rewrite Hr.
  - exists 2%nat. cbn -[receive_message]. unfold acts. cbn -[receive_message]. by rewrite Hr.
  - exists 2%nat. cbn -[receive_message]. unfold acts. cbn -[receive_message]. by rewrite Hr.
  - exists 2%nat. cbn -[receive_message]. unfold acts. cbn -[receive_message]. by rewrite Hr.
Qed.

Lemma erase_alone del s pc rd :
  schedule (repeat (Out false) (S (List.length del))) (mk_server_threads s None false pc (O_erase del) rd) =
    leads (unregister del s) (fun s' => mk_server_threads s' None false pc O_test rd).
Proof using.
  revert s. induction del as [|id del IH]; intros s; [done|]. cbn [List.length]. rewrite schedule_S.
  exact (IH _).
Qed.

Lemma broadcast_alone m rest del s pc rd :
  schedule (repeat (Out false) (S (List.length rest + List.length rest))) (mk_server_threads s None true pc (O_broadcast m rest del) rd) =
    match broadcast (env_payload m) rest s with
    | Returned failed s' => Next (mk_server_threads s' None false pc (O_erase (del ++ failed)) rd)
    | Thrown _ => Terminated
    | Undefined | OutOfFuel => Wrong
    end.
Proof using.
  revert s del. induction rest as [|[to addr] rest IH]; intros s del; [cbn; by rewrite app_nil_r|].
  cbn [List.length broadcast]. rewrite Nat.add_succ_r, Nat.add_succ_l, schedule_S.
  cbn -[schedule repeat server_socket]. rewrite schedule_S. unfold mbind, prog_bind. cbn -[schedule repeat server_socket].
  unfold acts. cbn -[schedule repeat server_socket].
  destruct (server_socket _ s) as [sent s1|s1| |]; try done.
  unfold at_out. cbn [th_in th_reader th_shared]. rewrite IH.
  destruct (broadcast (env_payload m) rest s1) as [failed s2| | |]; try done.
  destruct sent; [done|]. by rewrite <- app_assoc.
Qed.

Lemma outgoing_alone s pc rd :
  exists n, schedule (repeat (Out false) n) (mk_server_threads s None false pc O_pop rd) =
    leads (server_outgoing_message s) (fun s' => mk_server_threads s' None false pc O_test rd).
Proof using.
  unfold server_outgoing_message, mbind, prog_bind.
  destruct (server_outgoing queue_pop s) as [m s1|s1| |] eqn:E.
  2-4: exists 1%nat; cbn -[server_outgoing]; unfold acts; cbn -[server_outgoing]; by rewrite E.
  assert (H1 : forall n, schedule (repeat (Out false) (S n)) (mk_server_threads s None false pc O_pop rd) =
    schedule (repeat (Out false) n) (mk_server_threads s1 None false pc
      (if negb (nonempty_payload m) then O_test else if key_empty (env_to m) then O_each m else O_lock m) rd)).
  { intros n. rewrite schedule_S. cbn -[schedule repeat server_outgoing]. unfold acts. cbn -[schedule repeat server_outgoing]. by rewrite E. }
  destruct (negb (nonempty_payload m)); [by exists 1%nat; rewrite H1|]. unfold get_state. destruct (key_empty (env_to m)).
  - set (visiting := S (List.length (sv_connections s1) + List.length (sv_connections s1))).
    set (erasing := match broadcast (env_payload m) (sv_connections s1) s1 with Returned failed _ => S (List.length failed) | _ => 0%nat end).
    exists (S (S (visiting + erasing))). rewrite H1, schedule_S. cbn -[schedule repeat Nat.add visiting].
    rewrite repeat_app, schedule_app. unfold at_out. cbn [th_in th_reader]. unfold visiting, erasing.
    rewrite broadcast_alone. destruct (broadcast _ _ s1) as [failed s2|s2| |]; try done. apply erase_alone.
  - set (erasing := match server_socket (send_parts (hash_data (env_to m)) (env_payload m)) s1 with
                    | Returned true _ => 1%nat | Returned false _ => 2%nat | _ => 0%nat end).
    exists (S (S (S erasing))). rewrite H1, schedule_S. cbn -[schedule repeat server_socket erasing]. rewrite schedule_S.
    cbn -[schedule repeat server_socket erasing]. unfold acts, erasing. cbn -[schedule repeat server_socket].
    destruct (server_socket _ s1) as [sent s2|s2| |]; try done.
    destruct sent; [exact (erase_alone [] s2 pc rd)|exact (erase_alone [env_to m] s2 pc rd)].
Qed.
End ThreadFacts.

(** ** Theorems *)

(** A thread that no other one interrupts does what its turn in [Zmq.v] does:
    the incoming thread from its lock to its sleep, the outgoing thread with one
    message. *)
Theorem turns_undisturbed {CL : CryptoLib} {IP : IPParser} {Q : ZmqLib} {U : MiniUPnP} s :
  (forall out rd, exists n, schedule (repeat (In false) n) (mk_server_threads s None false I_lock out rd) =
     leads (server_incoming_turn s) (fun s' => mk_server_threads s' None false I_sleep out rd)) /\
  (forall pc rd, exists n, schedule (repeat (Out false) n) (mk_server_threads s None false pc O_pop rd) =
     leads (server_outgoing_message s) (fun s' => mk_server_threads s' None false pc O_test rd)).
Proof. split; [apply incoming_alone|apply outgoing_alone]. Qed.

(** C7: However the threads of a server, the callers of [send] and the reader are
    interleaved, no step is undefined (no empty queue is popped), the two threads
    never have the socket at once, and [each] visits the clients that are
    registered.  Neither thread can move exactly when the incoming one is about to
    register a client while the outgoing one is sending to everyone: each then
    has the lock that the other one waits for, and this lasts whatever the others
    do.  It is reached from every server with a client and a queued message for
    everyone when the first message of another client arrives. *)
Theorem server_threads_deadlock {CL : CryptoLib} {IP : IPParser} {Q : ZmqLib} {U : MiniUPnP} {Codec : CodecLaws CL} s :
  clients_ok s ->
  (forall t, rtc interleaved (threads_started s) t ->
     (forall a, any_step a t <> Wrong) /\
     ~ (holds_in (th_in t) = true /\ holds_out (th_out t) = true) /\
     visits (sv_connections (th_server t)) (th_out t) /\
     (((forall woken, incoming_step woken t = Blocked) /\ (forall woken, outgoing_step woken t = Blocked)) <->
        deadlocked t) /\
     (deadlocked t -> forall t', rtc interleaved t t' ->
        deadlocked t' /\ sv_socket (th_server t') = sv_socket (th_server t) /\
        sv_connections (th_server t') = sv_connections (th_server t))) /\
  (forall client clients m queued arrived,
     sv_running s = true -> sv_connections s = client :: clients -> sv_outgoing s = m :: queued ->
     env_payload m <> [] -> key_empty (env_to m) = true ->
     accepted s arrived -> env_from arrived ∉ (sv_connections s).*1 ->
     exists t, rtc interleaved (threads_started s) t /\ deadlocked t).
Proof.
  intros Hs. split.
  - intros t Ht. pose proof (reachable_locks_ok _ _ (threads_started_ok s Hs) Ht) as Hok. split; [|split; [|split; [|split]]].
    + intros a E. pose proof (step_safe a t Hok) as H. by rewrite E in H.
    + intros [H1 H2]. pose proof (ok_mutex t Hok) as Hm. destruct (th_mutex t) as [[]|], Hm; congruence.
    + by apply ok_visits.
    + by apply blocked_iff_deadlocked.
    + intros Hd t'. by apply deadlock_stays.
  - intros. by eapply deadlock_reached.
Qed.

(** ** Samples and witnesses *)

#[local] Existing Instance toy_crypto.
#[local] Existing Instance PacketSamples.toy_ip.
#[local] Existing Instance ZmqSamples.toy_zmq.
#[local] Existing Instance UpnpSamples.toy_upnp.

Module ThreadSamples.
(** A server with two clients and a message for everyone, at which the message of
    a third client arrives. *)
Definition server : ZMQServer := ZmqSamples.server [ZmqSamples.greeting] [ZmqSamples.arrival].

Definition arrived : zmq_message_envelope_t :=
  mk_envelope (x05 : crypto_hash_t) (x09 : crypto_hash_t) key_default
    (match normalize_host_port "127.0.0.1" with Some (host, _, _) => host | None => EmptyString end) [1; 2; 3]%Z.

Lemma arrived_accepted : accepted server arrived.
Proof.
  exists (mk_message (toy_put_key x09) (fun _ => None)), (mk_message [1; 2; 3]%Z (fun _ => Some "127.0.0.1"%string)),
    "127.0.0.1"%string.
  unfold arrived. destruct (normalize_host_port "127.0.0.1") as [[[host port] hash]|] eqn:E;
    [|vm_compute in E; discriminate E].
  exists port, hash. repeat split; try done.
Qed.

(** Whether the two threads can move after some steps. *)
Definition moving (actions : list action) : option (bool * bool) :=
  match schedule actions (threads_started server) with
  | Next t =>
      Some (match incoming_step false t with Blocked => false | _ => true end,
            match outgoing_step false t with Blocked => false | _ => true end)
  | _ => None
  end.
End ThreadSamples.

(** The deadlock, and how the same steps in another order go on. *)
Example deadlock_sample :
  ThreadSamples.moving (repeat (In false) 4 ++ repeat (Out false) 5) = Some (false, false) /\
  ThreadSamples.moving (repeat (In false) 4 ++ repeat (Out false) 5 ++ [Sends ZmqSamples.greeting; Reads; Stops]) =
    Some (false, false) /\
  ThreadSamples.moving (repeat (In false) 4 ++ repeat (Out false) 4 ++ repeat (In false) 3 ++ repeat (Out false) 3) =
    Some (true, true).
Proof. vm_compute. repeat split. Qed.

Lemma server_threads_deadlock_witness :
  exists t, rtc interleaved (threads_started ThreadSamples.server) t /\ deadlocked t.
Proof.
  destruct (server_threads_deadlock ThreadSamples.server ltac:(apply ZmqSamples.server_clients)) as [_ H].
  eapply H; try reflexivity; [done|exact ThreadSamples.arrived_accepted|].
  cbn. rewrite !not_elem_of_cons. repeat split; try done. apply not_elem_of_nil.
Defined.
