(* ===== verification/Node.v ===== *)
(** * The peer-to-peer node

    [src/src/p2p/p2p_node.cpp]: the packet handlers, the poller, the connection
    manager and the periodic messages, over the peer database, the ZeroMQ server
    and its clients.  A handler is one program on the node's state; the threads
    of the node are the actions of [node_step], which may follow each other in
    any order.  Randomness is a parameter: the [n]-th client that is made in a
    run has the identity [random_hash n] and the key pair [keypairs n].  The
    fuel [walk] bounds the loops over the database and over the queues. *)

From S2P Require Import Prelude Errors Config CryptoLib Concrete Codec Packets Text Mdb MemDb Program.
From S2P Require Import Containers Upnp Zmq Lmdb Peers.
From Stdlib Require Import Strings.Byte.
Import Configuration.

Section Node.
Context {CL : CryptoLib} {IP : IPParser} {M : MDB} {Q : ZmqLib} {U : MiniUPnP}.

#[local] Existing Instance key_eq_dec.
#[local] Existing Instance key_countable.

(** ** State *)

Record network_msg_t : Type := mk_network_msg {
  msg_from : crypto_hash_t;
  msg_packet : packet_data_t;
  msg_is_server : bool
}.

(** [m_server], [m_clients], [m_completed_handshake] and [m_messages]; the peer
    database with the clock; and how many clients were made so far. *)
Record Node : Type := mk_Node {
  n_running : bool;
  n_peer_state : peer_state;
  n_server : ZMQServer;
  n_clients : list (crypto_hash_t * ZMQClient);
  n_completed : list crypto_hash_t;
  n_messages : list network_msg_t;
  n_made : nat
}.

Notation node_prog := (prog Node).

Definition m_peer_db {A} : peer_prog A -> node_prog A :=
  zoom n_peer_state (fun p s => mk_Node (n_running s) p (n_server s) (n_clients s) (n_completed s)
    (n_messages s) (n_made s)).
Definition m_server {A} : prog ZMQServer A -> node_prog A :=
  zoom n_server (fun v s => mk_Node (n_running s) (n_peer_state s) v (n_clients s) (n_completed s)
    (n_messages s) (n_made s)).
Definition m_clients {A} : prog (list (crypto_hash_t * ZMQClient)) A -> node_prog A :=
  zoom n_clients (fun c s => mk_Node (n_running s) (n_peer_state s) (n_server s) c (n_completed s)
    (n_messages s) (n_made s)).
Definition m_completed_handshake {A} : prog (list crypto_hash_t) A -> node_prog A :=
  zoom n_completed (fun c s => mk_Node (n_running s) (n_peer_state s) (n_server s) (n_clients s) c
    (n_messages s) (n_made s)).
Definition m_messages {A} : prog (list network_msg_t) A -> node_prog A :=
  zoom n_messages (fun q s => mk_Node (n_running s) (n_peer_state s) (n_server s) (n_clients s)
    (n_completed s) q (n_made s)).
Definition m_running {A} : prog bool A -> node_prog A :=
  zoom n_running (fun r s => mk_Node r (n_peer_state s) (n_server s) (n_clients s) (n_completed s)
    (n_messages s) (n_made s)).

Variables (time : nat -> Z) (shuffle : Z -> list network_peer_t -> list network_peer_t).
Variables (indeterminate : Z) (fuel : nat) (P : PeerDB).
Variables (m_seed_mode : bool) (m_network_id : crypto_hash_t).
Variables (random_hash : nat -> crypto_hash_t) (keypairs : nat -> option (string * string)).
Variable walk : nat.

(** ** Packets of our own *)

Definition build_peer_list : node_prog (list network_peer_t) :=
  results ← m_peer_db (peers time shuffle walk P 0 key_default);
  mret (if P2P.MAXIMUM_PEERS_EXCHANGED <? vsize results
        then take (Z.to_nat P2P.MAXIMUM_PEERS_EXCHANGED) results else results).

Definition build_handshake : node_prog packet_handshake_t :=
  s ← get_state;
  let packet := new_handshake (m_peer_id P) (sv_port (n_server s)) m_network_id in
  list ← build_peer_list;
  mret (mk_handshake (hs_base packet) (hs_peer_id packet) (hs_peer_port packet)
          (hs_network_id packet) list).

(** ** Sending *)

Definition reply (message : zmq_message_envelope_t) : node_prog () := m_server (server_send message).

Definition reply_data (to : crypto_hash_t) (packet : packet_data_t) : node_prog () :=
  reply (envelope_to to packet).

(** The loop of [send] over the clients. *)
Fixpoint send_each (message : zmq_message_envelope_t) : prog (list (crypto_hash_t * ZMQClient)) () :=
  fun clients =>
  match clients with
  | [] => Returned () []
  | (id, client) :: rest =>
      match client_send message client with
      | Returned _ client' =>
          match send_each message rest with
          | Returned _ rest' => Returned () ((id, client') :: rest')
          | Thrown rest' => Thrown ((id, client') :: rest')
          | Undefined => Undefined
          | OutOfFuel => OutOfFuel
          end
      | Thrown client' => Thrown ((id, client') :: rest)
      | Undefined => Undefined
      | OutOfFuel => OutOfFuel
      end
  end.

Definition send (message : zmq_message_envelope_t) : node_prog () := m_clients (send_each message).

Definition send_data (packet : packet_data_t) : node_prog () := send (envelope_of packet).

(** ** The handlers *)

(** The entries of a packet, except the sender's own. *)
Fixpoint add_peers (sender : crypto_hash_t) (ps : list network_peer_t) : node_prog () :=
  match ps with
  | [] => mret ()
  | peer :: rest =>
      if bool_decide (peer_id peer = sender) then add_peers sender rest
      else m_peer_db (add time indeterminate fuel P peer);; add_peers sender rest
  end.

(** The sender itself, at the address it was seen at. *)
Definition add_sender (peer_address : string) (sender : crypto_hash_t) (port : Z)
  (network_id : crypto_hash_t) : node_prog () :=
  address ← or_throw (ip_address_of_string peer_address);
  now ← m_peer_db (read_clock time);
  m_peer_db (add time indeterminate fuel P (new_peer now address sender port network_id));;
  mret ().

Definition handle_handshake (from : crypto_hash_t) (peer_address : string)
  (packet : packet_handshake_t) (is_server : bool) : node_prog () :=
  completed ← m_completed_handshake (set_contains key_ltb from);
  if is_server && completed then mret ()
  else
    s ← get_state;
    if bool_decide (from = sv_identity (n_server s)) || bool_decide (hs_peer_id packet = m_peer_id P)
    then mret ()
    else if packet_version packet <? P2P.MINIMUM_VERSION then mret ()
    else if P2P.MAXIMUM_PEERS_EXCHANGED <? vsize (hs_peers packet) then mret ()
    else
      add_sender peer_address (hs_peer_id packet) (hs_peer_port packet) (hs_network_id packet);;
      add_peers (hs_peer_id packet) (hs_peers packet);;
      if is_server then
        reply_handshake ← build_handshake;
        reply (envelope_to from reply_handshake);;
        m_completed_handshake (set_insert key_ltb from)
      else mret ().

Definition handle_data (from : crypto_hash_t) (peer_address : string)
  (packet : packet_data_t) (is_server : bool) : node_prog () :=
  if m_seed_mode then mret ()
  else if negb (bool_decide (da_network_id packet = m_network_id)) then mret ()
  else
    completed ← m_completed_handshake (set_contains key_ltb from);
    if negb completed then mret ()
    else
      s ← get_state;
      if bool_decide (from = sv_identity (n_server s)) then mret ()
      else if packet_version packet <? P2P.MINIMUM_VERSION then mret ()
      else m_messages (queue_push (mk_network_msg from packet is_server)).

Definition handle_keepalive (from : crypto_hash_t) (peer_address : string)
  (packet : packet_keepalive_t) (is_server : bool) : node_prog () :=
  if negb is_server then
    m_peer_db (touch time indeterminate fuel P (ka_peer_id packet));; mret ()
  else
    completed ← m_completed_handshake (set_contains key_ltb from);
    if negb completed then mret ()
    else
      s ← get_state;
      if bool_decide (from = sv_identity (n_server s)) || bool_decide (ka_peer_id packet = m_peer_id P)
      then mret ()
      else if packet_version packet <? P2P.MINIMUM_VERSION then mret ()
      else
        reply (envelope_to from (new_keepalive (m_peer_id P)));;
        m_peer_db (touch time indeterminate fuel P (ka_peer_id packet));; mret ().

Definition handle_peer_exchange (from : crypto_hash_t) (peer_address : string)
  (packet : packet_peer_exchange_t) (is_server : bool) : node_prog () :=
  completed ← m_completed_handshake (set_contains key_ltb from);
  if is_server && negb completed then mret ()
  else
    s ← get_state;
    if bool_decide (from = sv_identity (n_server s)) || bool_decide (ex_peer_id packet = m_peer_id P)
    then mret ()
    else if packet_version packet <? P2P.MINIMUM_VERSION then mret ()
    else
      add_sender peer_address (ex_peer_id packet) (ex_peer_port packet) (ex_network_id packet);;
      add_peers (ex_peer_id packet) (ex_peers packet);;
      if is_server then
        let exchange := new_exchange (m_peer_id P) (sv_port (n_server s)) m_network_id in
        list ← build_peer_list;
        reply (envelope_to from
          (mk_exchange (ex_base exchange) (ex_peer_id exchange) (ex_peer_port exchange)
             (ex_network_id exchange) list))
      else mret ().

(** The type is looked at without being consumed; every exception is caught. *)
Definition handle_incoming_message (message : zmq_message_envelope_t) (is_server : bool)
  : node_prog () :=
  try_catch
    (type ← or_throw (peek_varint (env_payload message));
     let from := env_from message in
     let address := env_peer_address message in
     if type =? packet_type_value NETWORK_HANDSHAKE then
       '(packet, _) ← or_throw (handshake_deserialize (env_payload message));
       handle_handshake from address packet is_server
     else if type =? packet_type_value NETWORK_PEER_EXCHANGE then
       '(packet, _) ← or_throw (exchange_deserialize (env_payload message));
       handle_peer_exchange from address packet is_server
     else if type =? packet_type_value NETWORK_KEEPALIVE then
       '(packet, _) ← or_throw (keepalive_deserialize (env_payload message));
       handle_keepalive from address packet is_server
     else if type =? packet_type_value NETWORK_DATA then
       '(packet, _) ← or_throw (data_deserialize (env_payload message));
       handle_data from address packet is_server
     else throw).

(** ** The poller *)

(** A program on the client with an identifier, which is there. *)
Definition with_client {A} (id : crypto_hash_t) (m : prog ZMQClient A) : node_prog A := fun s =>
  match sorted_find key_ltb fst id (n_clients s) with
  | None => Undefined
  | Some (_, client) =>
      m_clients (fun clients =>
        let replaced client' :=
          (fun e => if same_key key_ltb id (fst e) then (fst e, client') else e) <$> clients in
        match m client with
        | Returned a client' => Returned a (replaced client')
        | Thrown client' => Thrown (replaced client')
        | Undefined => Undefined
        | OutOfFuel => OutOfFuel
        end) s
  end.

Definition poll_server : node_prog () :=
  message ← m_server (server_messages queue_pop);
  handle_incoming_message message true.

Definition poll_client (id : crypto_hash_t) : node_prog () :=
  message ← with_client id (client_messages queue_pop);
  handle_incoming_message message false.

Definition drain_server : node_prog () :=
  while_loop walk (empty ← m_server (server_messages queue_empty); mret (negb empty)) poll_server.

Definition drain_client (id : crypto_hash_t) : node_prog () :=
  while_loop walk (empty ← with_client id (client_messages queue_empty); mret (negb empty))
    (poll_client id).

Fixpoint drain_clients (ids : list crypto_hash_t) : node_prog () :=
  match ids with
  | [] => mret ()
  | id :: rest => drain_client id;; drain_clients rest
  end.

(** One turn of [poller]. *)
Definition poller_turn : node_prog () :=
  drain_server;;
  s ← get_state;
  drain_clients ((n_clients s).*1).

(** ** Connections *)

(** A program on an object that is not shared yet. *)
Definition on_local {A} (m : prog ZMQClient A) (client : ZMQClient) : node_prog (A * ZMQClient) := fun s =>
  match m client with
  | Returned a client' => Returned (a, client') s
  | Thrown _ => Thrown s
  | Undefined => Undefined
  | OutOfFuel => OutOfFuel
  end.

Definition make_client : node_prog ZMQClient := fun s =>
  let n := n_made s in
  let s' := mk_Node (n_running s) (n_peer_state s) (n_server s) (n_clients s) (n_completed s)
              (n_messages s) (S n) in
  match new_client DEFAULT_CONNECTION_TIMEOUT (random_hash n) (keypairs n) with
  | Some client => Returned client s'
  | None => Thrown s'
  end.

Definition connect (unsafe_host : string) (unsafe_port : Z) : node_prog ErrorCode :=
  '(host, port, hash) ← or_throw (normalize_host_with_port unsafe_host unsafe_port);
  dupe ← m_clients (map_contains key_ltb hash);
  if dupe : bool then mret P2P_DUPE_CONNECT
  else
    client ← make_client;
    '(error, client) ← on_local (client_connect host port) client;
    if is_error error then mret error
    else
      packet ← build_handshake;
      '(_, client) ← on_local (client_send (envelope_of packet)) client;
      m_clients (map_insert key_ltb hash client);;
      mret SUCCESS.

Fixpoint erase_clients (ids : list crypto_hash_t) : node_prog () :=
  match ids with
  | [] => mret ()
  | id :: rest => m_clients (map_erase key_ltb id);; erase_clients rest
  end.

Fixpoint connect_peers (ps : list network_peer_t) : node_prog () :=
  match ps with
  | [] => mret ()
  | peer :: rest =>
      if bool_decide (peer_id peer = m_peer_id P) then connect_peers rest
      else connect (ip_to_string (peer_address peer)) (peer_port peer);; connect_peers rest
  end.

Definition outgoing_connections : node_prog Z := m_clients map_size.

(** One turn of [connection_manager]; the difference is one of [size_t] values. *)
Definition connection_manager_turn : node_prog () :=
  s ← get_state;
  erase_clients (List.filter (fun id => negb (match sorted_find key_ltb fst id (n_clients s) with
                                              | Some (_, client) => is_connected client
                                              | None => true end)) ((n_clients s).*1));;
  outgoing ← outgoing_connections;
  let delta_connections := wrap64 (P2P.DEFAULT_CONNECTION_COUNT - outgoing) in
  if 0 <? delta_connections then
    ps ← m_peer_db (peers time shuffle walk P delta_connections
                      (if m_seed_mode then key_default else m_network_id));
    connect_peers ps
  else mret ().

(** One turn of [send_keepalives] and of [send_peer_exchanges]. *)
Definition send_keepalive_turn : node_prog () :=
  let packet := new_keepalive (m_peer_id P) in
  send (envelope_of packet);;
  reply (envelope_of packet).

Definition send_peer_exchange_turn : node_prog () :=
  s ← get_state;
  send (envelope_of (new_exchange (m_peer_id P) (sv_port (n_server s)) m_network_id)).

(** ** Life cycle *)

(** The peer database exists already; the constructor prunes it. *)
Definition new_Node (peer_state : peer_state) (bind_port : Z) (identity : crypto_hash_t)
  (gateway : gateway_t) : outcome Node () :=
  match prune time shuffle indeterminate fuel walk P peer_state with
  | Returned _ ps => Returned () (mk_Node false ps (new_server bind_port identity gateway) [] [] [] 0)
  | Thrown ps => Thrown (mk_Node false ps (new_server bind_port identity gateway) [] [] [] 0)
  | Undefined => Undefined
  | OutOfFuel => OutOfFuel
  end.

(** Whether a connection was made, after earlier ones or not. *)
Definition seed_reached (error : ErrorCode) (before : bool) : bool :=
  if negb (is_error error) && negb (int_of_code error =? int_of_code P2P_DUPE_CONNECT) then true
  else before.

Fixpoint connect_seeds (seeds : list (string * Z)) (connected_to_seed : bool) : node_prog bool :=
  match seeds with
  | [] => mret connected_to_seed
  | (host, port) :: rest =>
      error ← connect host port;
      connect_seeds rest (seed_reached error connected_to_seed)
  end.

Fixpoint connect_alternates (seed_nodes : list string) (connected_to_seed : bool) : node_prog bool :=
  match seed_nodes with
  | [] => mret connected_to_seed
  | seed_node :: rest =>
      seed ← or_throw (ip_address_of_string seed_node);
      error ← connect (ip_to_string seed)
        (if negb (ip_port seed =? 0) then ip_port seed else P2P.P2P_DEFAULT_BIND_PORT);
      connect_alternates rest (seed_reached error connected_to_seed)
  end.

(** The threads that it starts are the actions below. *)
Definition start (seed_nodes : list string) : node_prog ErrorCode :=
  running ← m_running get_state;
  if running : bool then mret SUCCESS
  else
    error ← m_server server_bind;
    if is_error error then mret error
    else
      m_running (put_state true);;
      compiled_in ← connect_seeds P2P.SEED_NODES false;
      connected_to_seed ← connect_alternates seed_nodes compiled_in;
      known ← (if negb m_seed_mode && negb connected_to_seed
               then m_peer_db (count walk P) else mret 1);
      if known =? 0 then m_running (put_state false);; mret P2P_SEED_CONNECT
      else mret SUCCESS.

(** The destructor: nothing is sent or answered any more. *)
Definition stop : node_prog () :=
  m_running (put_state false);;
  m_server server_destroy;;
  m_clients map_clear.

(** ** Accessors *)

Definition node_external_address (s : Node) : string := server_external_address (n_server s).
Definition incoming_connected (s : Node) : list string := (sv_connections (n_server s)).*2.
Definition incoming_connections : node_prog Z := m_server server_connection_count.
Definition outgoing_connected (s : Node) : list string :=
  concat ((fun e => client_connected e.2) <$> n_clients s).
Definition node_peer_id : crypto_hash_t := m_peer_id P.
Definition node_port (s : Node) : Z := sv_port (n_server s).

(** ** The threads *)

(** The turns of the node's own threads and of the threads of its sockets, and
    the calls of the program that uses the node. *)
Inductive node_action : Type :=
  | PollServer
  | PollClient (id : crypto_hash_t)
  | ServerReceives
  | ServerSends
  | ClientReceives (id : crypto_hash_t)
  | ClientSends (id : crypto_hash_t)
  | MonitorReports (id : crypto_hash_t) (event : monitor_event * string)
  | SendKeepalives
  | SendPeerExchanges
  | ManageConnections
  | UserConnects (host : string) (port : Z)
  | UserTakes
  | UserSends (packet : packet_data_t)
  | UserReplies (to : crypto_hash_t) (packet : packet_data_t).

(** A queue that the threads look at before they take from it. *)
Definition unless_empty {A} (empty : node_prog bool) (m : node_prog A) : node_prog () :=
  nothing ← empty; if nothing : bool then mret () else m;; mret ().

Definition perform (a : node_action) : node_prog () :=
  match a with
  | PollServer => unless_empty (m_server (server_messages queue_empty)) poll_server
  | PollClient id => unless_empty (with_client id (client_messages queue_empty)) (poll_client id)
  | ServerReceives => m_server server_incoming_turn
  | ServerSends => m_server (server_outgoing_turn walk)
  | ClientReceives id => with_client id client_incoming_turn
  | ClientSends id => with_client id (client_outgoing_turn walk)
  | MonitorReports id event => with_client id (client_monitor (on_event event))
  | SendKeepalives => send_keepalive_turn
  | SendPeerExchanges => send_peer_exchange_turn
  | ManageConnections => connection_manager_turn
  | UserConnects host port => connect host port;; mret ()
  | UserTakes => unless_empty (m_messages queue_empty) (m_messages queue_pop)
  | UserSends packet => send_data packet
  | UserReplies to packet => reply_data to packet
  end.
End Node.

(** What a program does with every large enough fuel. *)
Definition settles {S A} (m : nat -> prog S A) (s : S) (o : outcome S A) : Prop :=
  exists enough, forall walk, (enough <= walk)%nat -> m walk s = o.
