(* ===== verification/NodeSpecs.v ===== *)
(** * What a node guarantees

    The lemmas on the programs of [Node.v], from the frames of the small ones to
    the handlers, the poller and the connection manager, the invariant that
    every action keeps ([node_ok]), and the node's properties. *)

From S2P Require Import Prelude Errors Config CryptoLib Concrete Codec Packets Text Mdb MemDb Program.
From S2P Require Import Containers Upnp Zmq Lmdb Peers Node.
From Stdlib Require Import Strings.Byte.
Import Configuration.

(** ** Lemmas: frames *)

Section NodeSpecs.
Context {CL : CryptoLib} {IP : IPParser} {M : MDB} {Q : ZmqLib} {U : MiniUPnP}.
Context {Laws : MDBLaws M} {CLaws : MDBCursorLaws M} {Codec : CodecLaws CL} {IPL : IPParserLaws IP}.
Context {Empty : EmptyHashLaws CL}.

#[local] Existing Instance key_eq_dec.
#[local] Existing Instance key_countable.

Notation peer_map := (gmap crypto_hash_t network_peer_t).
Notation node_prog := (prog Node).

Variables (time : nat -> Z) (shuffle : Z -> list network_peer_t -> list network_peer_t).
Variables (indeterminate : Z) (fuel : nat) (P : PeerDB) (l0 : LMDB) (B : Z).
Variables (m_seed_mode : bool) (m_network_id : crypto_hash_t).
Variables (random_hash : nat -> crypto_hash_t) (keypairs : nat -> option (string * string)).
Hypothesis time_ok : forall n, u64 (time n).
Hypothesis shuffle_ok : forall seed l, shuffle seed l ≡ₚ l.
Hypothesis Hgrowth : 1 <= m_growth_factor l0 <= 2 ^ 20.
Hypothesis Hdb : registered l0 (m_database P).
Hypothesis Hfuel : mapsize_limit - B < Z.of_nat fuel.

(** The peer database of a node holds the entries [m]. *)
Definition known (m : peer_map) (s : Node) : Prop := holds P l0 B m (n_peer_state s).

(** Only the peer database and the clock differ; or the outgoing queue as well. *)
Definition db_only (s s' : Node) : Prop :=
  s' = mk_Node (n_running s) (n_peer_state s') (n_server s) (n_clients s) (n_completed s)
         (n_messages s) (n_made s).

Lemma db_only_refl s : db_only s s.
Proof using. by destruct s. Qed.

Lemma db_only_trans s1 s2 s3 : db_only s1 s2 -> db_only s2 s3 -> db_only s1 s3.
Proof using. unfold db_only. intros E1 E2. rewrite E1 in E2. exact E2. Qed.

Lemma runs_peer_db {A} (m : peer_prog A) s (R : A -> Node -> Prop) X :
  runs m (n_peer_state s)
    (fun a p => forall s', db_only s s' -> n_peer_state s' = p -> R a s')
    (fun p => forall s', db_only s s' -> n_peer_state s' = p -> X s') ->
  runs (m_peer_db m) s R X.
Proof using.
  intros H. apply runs_zoom. eapply runs_weaken; [exact H| |]; cbn.
  - intros a p Hp. by apply Hp.
  - intros p Hp. by apply Hp.
Qed.

(** The map after entries of [ps] were added: nothing else is new, nothing is
    lost. *)
Definition learned (m m' : peer_map) (ps : list network_peer_t) : Prop :=
  (forall h p, m' !! h = Some p -> m !! h = Some p \/ exists q, q ∈ ps /\ peer_id q = h /\ p = stored q) /\
  (forall h, is_Some (m !! h) -> is_Some (m' !! h)).

Lemma learned_nothing m ps : learned m m ps.
Proof using. split; [by left|done]. Qed.

Lemma learned_one m p ps : p ∈ ps -> learned m (<[peer_id p := stored p]> m) ps.
Proof using.
  intros Hp. split.
  - intros h q [[<- <-]|[_ H]]%lookup_insert_Some; [right; by exists p|by left].
  - intros h H. destruct (decide (peer_id p = h)) as [->|Hne]; [by rewrite lookup_insert_eq|].
    by rewrite lookup_insert_ne.
Qed.

Lemma learned_trans m1 m2 m3 ps1 ps2 :
  learned m1 m2 ps1 -> learned m2 m3 ps2 -> learned m1 m3 (ps1 ++ ps2).
Proof using.
  intros [H1 K1] [H2 K2]. split; [|auto]. intros h p Hp.
  destruct (H2 h p Hp) as [Hm|(q & Hq & E)].
  - destruct (H1 h p Hm) as [?|(q & Hq & E)]; [by left|]. right. exists q. split; [|done].
    apply elem_of_app. by left.
  - right. exists q. split; [|done]. apply elem_of_app. by right.
Qed.

Lemma learned_size m m' ps : learned m m' ps -> (size m' <= size m + List.length ps)%nat.
Proof using.
  intros [H _]. rewrite <- !length_map_to_list.
  rewrite <- (length_fmap fst (map_to_list m)), <- (length_fmap peer_id ps), <- length_app.
  rewrite <- (length_fmap fst (map_to_list m')).
  apply submseteq_length, NoDup_submseteq; [apply NoDup_fst_map_to_list|].
  intros h ([h' p] & -> & Hp%elem_of_map_to_list)%list_elem_of_fmap. apply elem_of_app. cbn.
  destruct (H h' p Hp) as [Hm|(q & Hq & <- & _)]; [left|right; by apply list_elem_of_fmap_2].
  apply list_elem_of_fmap. exists (h', p). split; [done|]. by apply elem_of_map_to_list.
Qed.

(** ** Lemmas: learning peers *)

(** What [add] does not take up: an entry of our own, and a stale one. *)
Definition entry_refused (p : peer_state) (q : network_peer_t) : Prop :=
  peer_id q = m_peer_id P \/ stale (time (ps_clock p)) q.

(** The entries [ps] were handed to [add], one after the other: the runs that were
    made, with their answers.  An entry that is answered with an error leaves the
    map as it was, and any other is in it afterwards. *)
Inductive fed : list network_peer_t -> peer_map -> peer_state ->
    list ErrorCode -> peer_map -> peer_state -> Prop :=
  | fed_nil m p : fed [] m p [] m p
  | fed_cons q ps m p e p1 es m' p' :
      add time indeterminate fuel P q p = Returned e p1 ->
      (entry_refused p q -> e = PEERLIST_ADD_FAILURE) ->
      fed ps (if is_error e then m else <[peer_id q := stored q]> m) p1 es m' p' ->
      fed (q :: ps) m p (e :: es) m' p'.

(** The same, up to a run of [add] that threw. *)
Inductive cut_short : list network_peer_t -> peer_map -> peer_state -> peer_map -> peer_state -> Prop :=
  | cut_here q ps m p p' :
      add time indeterminate fuel P q p = Thrown p' -> cut_short (q :: ps) m p m p'
  | cut_later q ps m p e p1 m' p' :
      add time indeterminate fuel P q p = Returned e p1 ->
      (entry_refused p q -> e = PEERLIST_ADD_FAILURE) ->
      cut_short ps (if is_error e then m else <[peer_id q := stored q]> m) p1 m' p' ->
      cut_short (q :: ps) m p m' p'.

Lemma learned_step e q m m' ps :
  learned (if is_error e then m else <[peer_id q := stored q]> m) m' ps -> learned m m' (q :: ps).
Proof using.
  intros H. apply (learned_trans m (if is_error e then m else <[peer_id q := stored q]> m) m' [q] ps); [|exact H].
  destruct (is_error e).
  - split; [by left|done].
  - apply learned_one. by left.
Qed.

Lemma fed_learned ps m p es m' p' : fed ps m p es m' p' -> learned m m' ps.
Proof using. induction 1; [apply learned_nothing|by eapply learned_step]. Qed.

Lemma cut_learned ps m p m' p' : cut_short ps m p m' p' -> learned m m' ps.
Proof using. induction 1; [split; [by left|done]|by eapply learned_step]. Qed.

(** Every entry is answered, and known afterwards unless the answer is an error;
    nothing else is new and nothing is lost. *)
Definition taken_up (ps : list network_peer_t) (m : peer_map) (es : list ErrorCode) (m' : peer_map) : Prop :=
  List.length es = List.length ps /\
  (forall i q e, ps !! i = Some q -> es !! i = Some e -> is_error e = false -> is_Some (m' !! peer_id q)) /\
  learned m m' ps.

Lemma fed_taken_up ps m p es m' p' : fed ps m p es m' p' -> taken_up ps m es m'.
Proof using.
  intros Hf. split; [|split; [|by eapply fed_learned]].
  { induction Hf; cbn; congruence. }
  induction Hf as [|q ps m p e p1 es m' p' _ _ H IH]; [done|].
  intros [|i] q' e'; cbn; [|by apply IH]. intros [= <-] [= <-] He. rewrite He in H.
  apply (proj2 (fed_learned _ _ _ _ _ _ H)). by rewrite lookup_insert_eq.
Qed.

Lemma node_add_spec m q s :
  known m s -> entry_ok q ->
  runs (m_peer_db (add time indeterminate fuel P q)) s
    (fun e s' => add time indeterminate fuel P q (n_peer_state s) = Returned e (n_peer_state s') /\
       (entry_refused (n_peer_state s) q -> e = PEERLIST_ADD_FAILURE) /\ db_only s s' /\
       known (if is_error e then m else <[peer_id q := stored q]> m) s')
    (fun s' => add time indeterminate fuel P q (n_peer_state s) = Thrown (n_peer_state s') /\
       db_only s s' /\ known m s').
Proof using Codec Hgrowth Hdb Hfuel.
  intros Hk Hok. apply runs_peer_db.
  eapply runs_weaken; [by apply runs_recorded; eapply add_spec| |]; cbn beta.
  - intros e p' [E H] s' Hs' <-. split; [exact E|]. unfold entry_refused, known.
    destruct (decide _) as [Hd|Hd] in H.
    + destruct H as [-> H]. done.
    + by split.
  - intros p' [E H] s' Hs' <-. by split.
Qed.

Lemma add_peers_spec sender ps m s :
  known m s -> Forall entry_ok ps ->
  let ps' := filter (fun p => peer_id p <> sender) ps in
  runs (add_peers time indeterminate fuel P sender ps) s
    (fun _ s' => db_only s s' /\ exists es m', known m' s' /\
       fed ps' m (n_peer_state s) es m' (n_peer_state s'))
    (fun s' => db_only s s' /\ exists m', known m' s' /\
       cut_short ps' m (n_peer_state s) m' (n_peer_state s')).
Proof using Codec Hgrowth Hdb Hfuel.
  revert m s. induction ps as [|p ps IH]; intros m s Hk Hok; cbn [add_peers].
  - apply runs_ret. split; [apply db_only_refl|]. exists [], m. split; [done|constructor].
  - apply Forall_cons in Hok as [Hp Hok]. case_bool_decide as Hs.
    + rewrite (filter_cons_False (fun p => peer_id p <> sender)) by (intros H; by apply H). by apply IH.
    + rewrite (filter_cons_True (fun p => peer_id p <> sender)) by done.
      apply runs_bind. eapply runs_weaken; [by apply (node_add_spec m p)| |]; cbn beta.
      * intros e s1 (E & Hr & Hd1 & Hk1).
        eapply runs_weaken; [by apply IH| |]; cbn beta.
        -- intros _ s2 (Hd2 & es & m2 & Hk2 & H2). split; [by eapply db_only_trans|].
           exists (e :: es), m2. split; [done|]. by eapply fed_cons.
        -- intros s2 (Hd2 & m2 & Hk2 & H2). split; [by eapply db_only_trans|].
           exists m2. split; [done|]. by eapply cut_later.
      * intros s1 (E & Hd1 & Hk1). split; [done|]. exists m. split; [done|]. by apply cut_here.
Qed.

(** ** Lemmas: what a packet brings *)

Definition with_peers (s : Node) (p : peer_state) : Node :=
  mk_Node (n_running s) p (n_server s) (n_clients s) (n_completed s) (n_messages s) (n_made s).

(** The state after the clock was read. *)
Definition clock_read (p : peer_state) : peer_state := mk_peer_state (ps_env p) (S (ps_clock p)).

(** The entries of a packet in the order they are added: the sender itself, at
    the address it was seen at, and the others that the packet names. *)
Definition offered (address : ip_address_t) (sender : crypto_hash_t) (port : Z) (network_id : crypto_hash_t)
  (ps : list network_peer_t) (p : peer_state) : list network_peer_t :=
  new_peer (time (ps_clock p)) address sender port network_id ::
  filter (fun q => peer_id q <> sender) ps.

(** What a packet brings: every entry it offers is added, and [es] are the answers. *)
Definition brought (seen_at : string) (sender : crypto_hash_t) (port : Z) (network_id : crypto_hash_t)
  (ps : list network_peer_t) (m : peer_map) (p : peer_state) (es : list ErrorCode)
  (m' : peer_map) (p' : peer_state) : Prop :=
  exists address, ip_address_of_string seen_at = Some address /\
    fed (offered address sender port network_id ps p) m (clock_read p) es m' p'.

(** The address is none, or a run of [add] threw. *)
Definition broken_off (seen_at : string) (sender : crypto_hash_t) (port : Z) (network_id : crypto_hash_t)
  (ps : list network_peer_t) (m : peer_map) (p : peer_state) (m' : peer_map) (p' : peer_state) : Prop :=
  match ip_address_of_string seen_at with
  | None => m' = m /\ p' = p
  | Some address => cut_short (offered address sender port network_id ps p) m (clock_read p) m' p'
  end.

Lemma offered_size address sender port network_id ps p :
  (List.length (offered address sender port network_id ps p) <= 1 + List.length ps)%nat.
Proof using.
  clear Hfuel. cbn. pose proof (length_filter (fun q => peer_id q <> sender) ps). lia.
Qed.

Lemma brought_taken_up seen_at sender port network_id ps m p es m' p' :
  brought seen_at sender port network_id ps m p es m' p' ->
  forall address, ip_address_of_string seen_at = Some address ->
    taken_up (offered address sender port network_id ps p) m es m'.
Proof using. intros (a & Ha & Hf) address E. rewrite Ha in E. injection E as <-. by eapply fed_taken_up. Qed.

Lemma brought_size seen_at sender port network_id ps m p es m' p' :
  brought seen_at sender port network_id ps m p es m' p' ->
  (size m' <= size m + (1 + List.length ps))%nat.
Proof using.
  clear Hfuel. intros (address & _ & H%fed_learned%learned_size).
  pose proof (offered_size address sender port network_id ps p). lia.
Qed.

Lemma broken_off_size seen_at sender port network_id ps m p m' p' :
  broken_off seen_at sender port network_id ps m p m' p' ->
  (size m' <= size m + (1 + List.length ps))%nat.
Proof using.
  clear Hfuel. unfold broken_off. destruct (ip_address_of_string seen_at) as [address|].
  - intros H%cut_learned%learned_size. pose proof (offered_size address sender port network_id ps p). lia.
  - intros [-> _]. lia.
Qed.

(** The part of the handlers that adds the sender and the entries it sent. *)
Lemma bring_spec seen_at sender port network_id ps m s (R : () -> Node -> Prop) X (k : node_prog ()) :
  known m s -> u16 port -> Forall peer_wf ps ->
  (forall es m' s', db_only s s' -> known m' s' ->
     brought seen_at sender port network_id ps m (n_peer_state s) es m' (n_peer_state s') -> runs k s' R X) ->
  (forall m' s', db_only s s' -> known m' s' ->
     broken_off seen_at sender port network_id ps m (n_peer_state s) m' (n_peer_state s') -> X s') ->
  runs (add_sender time indeterminate fuel P seen_at sender port network_id;;
        add_peers time indeterminate fuel P sender ps;; k) s R X.
Proof using Codec IPL Hgrowth Hdb Hfuel time_ok.
  intros Hk Hport Hps HR HX. unfold add_sender. apply runs_bind, runs_bind.
  destruct (ip_address_of_string seen_at) as [address|] eqn:Ha.
  2: { apply runs_throw. apply (HX m); [apply db_only_refl|done|]. unfold broken_off. by rewrite Ha. }
  apply runs_ret, runs_bind, runs_peer_db. cbn. intros s1 Hd1 E1.
  assert (Hk1 : known m s1).
  { destruct Hk as (C & Hr & HC). exists C. by rewrite E1. }
  set (now := time _). set (q := new_peer now address sender port network_id).
  apply runs_bind. eapply runs_weaken; [apply (node_add_spec m q s1 Hk1)| |]; cbn beta.
  - unfold ip_address_of_string in Ha. destruct (str_to_ip seen_at) as [addr|] eqn:Hs; [|done].
    injection Ha as <-. destruct (parsed_address _ _ Hs) as (Hl & Hc & Hf).
    split; [by apply normalize_normalized|]. split; [done|apply time_ok].
  - intros e s2 (Ea & Hr & Hd2 & Hk2). rewrite E1 in Ea, Hr. apply runs_ret, runs_bind.
    pose proof (db_only_trans _ _ _ Hd1 Hd2) as Hd.
    eapply runs_weaken; [apply (add_peers_spec sender ps _ s2 Hk2)| |]; cbn beta.
    + eapply Forall_impl; [exact Hps|]. intros p ([Hx _] & Hp & Hl). by split.
    + intros _ s3 (Hd3 & es & m' & Hk' & H). apply (HR (e :: es) m'); [by eapply db_only_trans|done|].
      exists address. split; [done|]. by eapply fed_cons.
    + intros s3 (Hd3 & m' & Hk' & H). apply (HX m'); [by eapply db_only_trans|done|].
      unfold broken_off. rewrite Ha. by eapply cut_later.
  - intros s2 (Ea & Hd2 & Hk2). rewrite E1 in Ea. apply (HX m); [by eapply db_only_trans|done|].
    unfold broken_off. rewrite Ha. by apply cut_here.
Qed.

(** ** Lemmas: our own packets *)

Lemma build_peer_list_spec walk m s :
  known m s -> (size m < walk)%nat ->
  runs (build_peer_list time shuffle P walk) s
    (fun ps s' => db_only s s' /\ known m s' /\ vsize ps <= P2P.MAXIMUM_PEERS_EXCHANGED /\
       forall p, p ∈ ps -> m !! peer_id p = Some p)
    (fun s' => db_only s s' /\ known m s').
Proof using Codec IPL CLaws Hdb shuffle_ok Empty.
  clear Hfuel Hgrowth time_ok. intros Hk Hw. unfold build_peer_list. apply runs_bind, runs_peer_db.
  eapply runs_weaken; [by apply (peers_spec time shuffle walk P l0 B shuffle_ok Hdb m 0)| |];
    cbn beta.
  - intros r p (Hh & _ & Hsub & _) s1 Hd1 E1. subst p. apply runs_ret. split; [done|]. split; [done|].
    assert (Hin : forall p, p ∈ r -> m !! peer_id p = Some p).
    { intros p Hp. eapply elem_of_submseteq in Hp; [|done]. apply list_elem_of_filter in Hp as [_ Hp].
      apply list_elem_of_fmap in Hp as ([h q] & -> & Hq%elem_of_map_to_list). cbn.
      destruct Hh as (C & _ & HC). by rewrite (proj1 (represents_ok _ _ _ HC h q Hq)). }
    destruct (Z.ltb_spec P2P.MAXIMUM_PEERS_EXCHANGED (vsize r)).
    + rewrite length_take. split; [unfold P2P.MAXIMUM_PEERS_EXCHANGED; lia|]. intros p Hp. apply Hin.
      by eapply elem_of_take in Hp as (i & Hi%list_elem_of_lookup_2 & _).
    + split; [lia|done].
  - intros p Hh s1 Hd1 E1. subst p. by split.
Qed.

Lemma build_handshake_spec walk m s :
  known m s -> (size m < walk)%nat ->
  runs (build_handshake time shuffle P m_network_id walk) s
    (fun h s' => db_only s s' /\ known m s' /\
       hs_base h = new_packet_base NETWORK_HANDSHAKE /\ hs_peer_id h = m_peer_id P /\
       hs_peer_port h = sv_port (n_server s) /\ hs_network_id h = m_network_id /\
       vsize (hs_peers h) <= P2P.MAXIMUM_PEERS_EXCHANGED /\
       forall p, p ∈ hs_peers h -> m !! peer_id p = Some p)
    (fun s' => db_only s s' /\ known m s').
Proof using Codec IPL CLaws Hdb shuffle_ok Empty.
  clear Hfuel Hgrowth time_ok. intros Hk Hw. unfold build_handshake. apply runs_bind, runs_get, runs_bind.
  eapply runs_conseq; [by apply build_peer_list_spec|]. cbn beta.
  intros ps s1 (Hd1 & Hk1 & Hn & Hin). apply runs_ret. done.
Qed.

(** ** Lemmas: the handlers *)

(** The node after the messages [ms] were queued for sending and the packets
    [new] for processing. *)
Definition after (s : Node) (p : peer_state) (ms : list zmq_message_envelope_t)
  (completed : list crypto_hash_t) (new : list network_msg_t) : Node :=
  let v := n_server s in
  mk_Node (n_running s) p
    (mk_server (sv_port v) (sv_identity v) (sv_running v) (sv_socket v) (sv_connections v)
       (sv_incoming v) (sv_outgoing v ++ ms) (sv_upnp v) (sv_gateway v) (sv_monitor v))
    (n_clients s) completed (n_messages s ++ new) (n_made s).

Lemma after_db s s' : db_only s s' -> s' = after s (n_peer_state s') [] (n_completed s) [].
Proof using. intros E. rewrite E. unfold after. cbn. rewrite !app_nil_r. by destruct (n_server s). Qed.

Lemma after_nothing s : s = after s (n_peer_state s) [] (n_completed s) [].
Proof using. apply after_db, db_only_refl. Qed.

Lemma runs_completed from s (R : bool -> Node -> Prop) X :
  R (bool_decide (from ∈ n_completed s)) s ->
  runs (m_completed_handshake (set_contains key_ltb from)) s R X.
Proof using Codec.
  intros H. apply runs_zoom. unfold runs, set_contains.
  replace (match sorted_find key_ltb id from (n_completed s) with Some _ => true | None => false end)
    with (bool_decide (from ∈ n_completed s)); [by destruct s|].
  destruct (sorted_find key_ltb id from (n_completed s)) as [x|] eqn:E.
  - apply (sorted_find_Some _ _ key_order) in E as [Hin Hx]. unfold id in Hx. subst x.
    by apply bool_decide_eq_true.
  - rewrite (sorted_find_None _ _ key_order) in E. apply bool_decide_eq_false. intros Hin.
    by apply (E _ Hin).
Qed.

(** What a server queues of a message: nothing when it does not run. *)
Definition if_running (s : Node) (ms : list zmq_message_envelope_t) : list zmq_message_envelope_t :=
  if sv_running (n_server s) then ms else [].

Lemma runs_reply message s (R : () -> Node -> Prop) X :
  env_payload message <> [] ->
  R () (after s (n_peer_state s) (if_running s [message]) (n_completed s) []) ->
  runs (reply message) s R X.
Proof using.
  intros Hp H. apply runs_zoom. unfold server_send, nonempty_payload. apply runs_bind, runs_get.
  rewrite bool_decide_eq_false_2 by done. unfold after, if_running in H.
  rewrite app_nil_r in H. destruct s as [r p [? ? [] ? ? ? ? ? ? ?] c d q n]; cbn in *.
  - apply runs_zoom. exact H.
  - apply runs_ret. rewrite app_nil_r in H. exact H.
Qed.

Lemma key_payload_not_nil (a b : bytes) (k : crypto_hash_t) (r : bytes) : a ++ b ++ put_key k ++ r <> [].
Proof using Codec.
  clear Hfuel. intros E. apply (f_equal List.length) in E. rewrite !length_app in E.
  pose proof (hash_size k). cbn in E. lia.
Qed.

(** A handshake that is not taken up. *)
Definition handshake_refused (s : Node) (from : crypto_hash_t) (packet : packet_handshake_t)
  (is_server : bool) : Prop :=
  (is_server = true /\ from ∈ n_completed s) \/ from = sv_identity (n_server s) \/
  hs_peer_id packet = m_peer_id P \/ packet_version packet < P2P.MINIMUM_VERSION \/
  P2P.MAXIMUM_PEERS_EXCHANGED < vsize (hs_peers packet).

#[global] Instance handshake_refused_dec s from packet is_server :
  Decision (handshake_refused s from packet is_server).
Proof. unfold handshake_refused. apply _. Defined.

(** Our own handshake, with entries of [m]. *)
Definition own_handshake (s : Node) (m : peer_map) (h : packet_handshake_t) : Prop :=
  hs_base h = new_packet_base NETWORK_HANDSHAKE /\ hs_peer_id h = m_peer_id P /\
  hs_peer_port h = sv_port (n_server s) /\ hs_network_id h = m_network_id /\
  vsize (hs_peers h) <= P2P.MAXIMUM_PEERS_EXCHANGED /\
  forall p, p ∈ hs_peers h -> m !! peer_id p = Some p.

(** What cut a handler short: the part that adds the entries, or the answer. *)
Definition interrupted {A} (seen_at : string) (sender : crypto_hash_t) (port : Z)
  (network_id : crypto_hash_t) (ps : list network_peer_t) (is_server : bool) (answer : node_prog A)
  (m : peer_map) (s : Node) (m' : peer_map) (s' : Node) : Prop :=
  broken_off seen_at sender port network_id ps m (n_peer_state s) m' (n_peer_state s') \/
  is_server = true /\ exists es p1,
    brought seen_at sender port network_id ps m (n_peer_state s) es m' p1 /\
    answer (with_peers s p1) = Thrown s'.

Lemma interrupted_size {A} seen_at sender port network_id ps is_server (answer : node_prog A) m s m' s' :
  interrupted seen_at sender port network_id ps is_server answer m s m' s' ->
  (size m' <= size m + (1 + List.length ps))%nat.
Proof using.
  clear Hfuel. intros [H|(_ & es & p1 & H & _)]; [by apply broken_off_size in H|by apply brought_size in H].
Qed.

Lemma db_only_with_peers s s' : db_only s s' -> s' = with_peers s (n_peer_state s').
Proof using. done. Qed.

Lemma handle_handshake_spec walk from seen_at packet is_server m s :
  known m s -> u16 (hs_peer_port packet) -> Forall peer_wf (hs_peers packet) ->
  (size m + 1 + List.length (hs_peers packet) < walk)%nat ->
  let brings := brought seen_at (hs_peer_id packet) (hs_peer_port packet) (hs_network_id packet)
                  (hs_peers packet) m (n_peer_state s) in
  let answer := build_handshake time shuffle P m_network_id walk in
  runs (handle_handshake time shuffle indeterminate fuel P m_network_id walk from seen_at packet is_server) s
    (fun _ s' =>
       if decide (handshake_refused s from packet is_server) then s' = s
       else exists m' es p1, known m' s' /\ brings es m' p1 /\
         if is_server
         then exists h, own_handshake s m' h /\
           answer (with_peers s p1) = Returned h (with_peers s (n_peer_state s')) /\
           s' = after s (n_peer_state s') (if_running s [envelope_to from h])
                  (sorted_insert key_ltb id from (n_completed s)) []
         else s' = with_peers s p1)
    (fun s' => ~ handshake_refused s from packet is_server /\
       exists m', known m' s' /\ db_only s s' /\
         interrupted seen_at (hs_peer_id packet) (hs_peer_port packet) (hs_network_id packet)
           (hs_peers packet) is_server answer m s m' s').
Proof using Codec IPL CLaws Hdb shuffle_ok Empty Hgrowth Hfuel time_ok.
  intros Hk Hport Hps Hw brings answer. unfold handle_handshake. apply runs_bind, runs_completed.
  destruct (is_server && bool_decide (from ∈ n_completed s)) eqn:E1.
  { apply andb_true_iff in E1 as [E1 E2%bool_decide_eq_true]. apply runs_ret.
    rewrite decide_True; [done|]. by left. }
  apply runs_bind, runs_get.
  destruct (bool_decide (from = sv_identity (n_server s)) || bool_decide (hs_peer_id packet = m_peer_id P)) eqn:E2.
  { apply runs_ret. rewrite decide_True; [done|]. right.
    apply orb_true_iff in E2 as [E2%bool_decide_eq_true|E2%bool_decide_eq_true]; [by left|right; by left]. }
  destruct (Z.ltb_spec (packet_version packet) P2P.MINIMUM_VERSION) as [E3|E3].
  { apply runs_ret. rewrite decide_True; [done|]. do 3 right. by left. }
  destruct (Z.ltb_spec P2P.MAXIMUM_PEERS_EXCHANGED (vsize (hs_peers packet))) as [E4|E4].
  { apply runs_ret. rewrite decide_True; [done|]. by do 4 right. }
  assert (Hacc : ~ handshake_refused s from packet is_server).
  { apply orb_false_iff in E2 as [E2%bool_decide_eq_false E2'%bool_decide_eq_false].
    intros [[H1 H2]|[H|[H|[H|H]]]]; [|done|done|lia|lia].
    rewrite H1 in E1. cbn in E1. by apply bool_decide_eq_false in E1. }
  destruct (decide (handshake_refused s from packet is_server)) as [|_]; [done|].
  apply (bring_spec _ _ _ _ _ m s); [done|done|done| |].
  2: { intros m' s' Hd Hk' Hb. split; [done|]. exists m'. split; [done|]. split; [done|]. by left. }
  intros es m' s1 Hd1 Hk1 Hb. pose proof (db_only_with_peers _ _ Hd1) as E1'. destruct is_server.
  - apply runs_bind.
    eapply runs_weaken; [apply runs_recorded, (build_handshake_spec walk m' s1 Hk1)| |]; cbn beta.
    { apply brought_size in Hb. lia. }
    + intros h s2 (E2' & Hd2 & Hk2 & Hh). apply runs_bind. apply runs_reply.
      { cbn. unfold handshake_serialize. apply key_payload_not_nil. }
      pose proof (db_only_trans _ _ _ Hd1 Hd2) as Hd.
      assert (Ha : answer (with_peers s (n_peer_state s1)) = Returned h (with_peers s (n_peer_state s2))).
      { unfold answer. rewrite <- E1', <- (db_only_with_peers _ _ Hd). exact E2'. }
      apply runs_zoom. exists m', es, (n_peer_state s1). split; [exact Hk2|]. split; [exact Hb|]. exists h.
      split; [unfold own_handshake; by rewrite Hd1 in Hh|].
      split; [exact Ha|].
      cbn. unfold after, if_running. cbn. rewrite Hd. done.
    + intros s2 (E2' & Hd2 & Hk2). split; [done|]. exists m'. split; [done|].
      split; [by eapply db_only_trans|]. right. split; [done|]. exists es, (n_peer_state s1).
      split; [done|]. unfold answer. by rewrite <- E1'.
  - apply runs_ret. by exists m', es, (n_peer_state s1).
Qed.

Definition exchange_refused (s : Node) (from : crypto_hash_t) (packet : packet_peer_exchange_t)
  (is_server : bool) : Prop :=
  (is_server = true /\ from ∉ n_completed s) \/ from = sv_identity (n_server s) \/
  ex_peer_id packet = m_peer_id P \/ packet_version packet < P2P.MINIMUM_VERSION.

#[global] Instance exchange_refused_dec s from packet is_server :
  Decision (exchange_refused s from packet is_server).
Proof. unfold exchange_refused. apply _. Defined.

Definition own_exchange (s : Node) (m : peer_map) (x : packet_peer_exchange_t) : Prop :=
  ex_base x = new_packet_base NETWORK_PEER_EXCHANGE /\ ex_peer_id x = m_peer_id P /\
  ex_peer_port x = sv_port (n_server s) /\ ex_network_id x = m_network_id /\
  vsize (ex_peers x) <= P2P.MAXIMUM_PEERS_EXCHANGED /\
  forall p, p ∈ ex_peers x -> m !! peer_id p = Some p.

Lemma handle_peer_exchange_spec walk from seen_at packet is_server m s :
  known m s -> u16 (ex_peer_port packet) -> Forall peer_wf (ex_peers packet) ->
  (size m + 1 + List.length (ex_peers packet) < walk)%nat ->
  let brings := brought seen_at (ex_peer_id packet) (ex_peer_port packet) (ex_network_id packet)
                  (ex_peers packet) m (n_peer_state s) in
  let answer := build_peer_list time shuffle P walk in
  runs (handle_peer_exchange time shuffle indeterminate fuel P m_network_id walk from seen_at packet is_server) s
    (fun _ s' =>
       if decide (exchange_refused s from packet is_server) then s' = s
       else exists m' es p1, known m' s' /\ brings es m' p1 /\
         if is_server
         then exists x, own_exchange s m' x /\
           answer (with_peers s p1) = Returned (ex_peers x) (with_peers s (n_peer_state s')) /\
           s' = after s (n_peer_state s') (if_running s [envelope_to from x]) (n_completed s) []
         else s' = with_peers s p1)
    (fun s' => ~ exchange_refused s from packet is_server /\
       exists m', known m' s' /\ db_only s s' /\
         interrupted seen_at (ex_peer_id packet) (ex_peer_port packet) (ex_network_id packet)
           (ex_peers packet) is_server answer m s m' s').
Proof using Codec IPL CLaws Hdb shuffle_ok Empty Hgrowth Hfuel time_ok.
  intros Hk Hport Hps Hw brings answer. unfold handle_peer_exchange. apply runs_bind, runs_completed.
  destruct (is_server && negb (bool_decide (from ∈ n_completed s))) eqn:E1.
  { apply andb_true_iff in E1 as [E1 E2%negb_true_iff%bool_decide_eq_false]. apply runs_ret.
    rewrite decide_True; [done|]. by left. }
  apply runs_bind, runs_get.
  destruct (bool_decide (from = sv_identity (n_server s)) || bool_decide (ex_peer_id packet = m_peer_id P)) eqn:E2.
  { apply runs_ret. rewrite decide_True; [done|]. right.
    apply orb_true_iff in E2 as [E2%bool_decide_eq_true|E2%bool_decide_eq_true]; [by left|right; by left]. }
  destruct (Z.ltb_spec (packet_version packet) P2P.MINIMUM_VERSION) as [E3|E3].
  { apply runs_ret. rewrite decide_True; [done|]. by do 3 right. }
  assert (Hacc : ~ exchange_refused s from packet is_server).
  { apply orb_false_iff in E2 as [E2%bool_decide_eq_false E2'%bool_decide_eq_false].
    intros [[H1 H2]|[H|[H|H]]]; [|done|done|lia].
    rewrite H1, bool_decide_eq_false_2 in E1 by done. done. }
  destruct (decide (exchange_refused s from packet is_server)) as [|_]; [done|].
  apply (bring_spec _ _ _ _ _ m s); [done|done|done| |].
  2: { intros m' s' Hd Hk' Hb. split; [done|]. exists m'. split; [done|]. split; [done|]. by left. }
  intros es m' s1 Hd1 Hk1 Hb. pose proof (db_only_with_peers _ _ Hd1) as E1'. destruct is_server.
  - apply runs_bind.
    eapply runs_weaken; [apply runs_recorded, (build_peer_list_spec walk m' s1 Hk1)| |]; cbn beta.
    { apply brought_size in Hb. lia. }
    + intros ps s2 (E2' & Hd2 & Hk2 & Hn & Hin). apply runs_reply.
      { cbn. unfold exchange_serialize. apply key_payload_not_nil. }
      pose proof (db_only_trans _ _ _ Hd1 Hd2) as Hd.
      assert (Ha : answer (with_peers s (n_peer_state s1)) = Returned ps (with_peers s (n_peer_state s2))).
      { unfold answer. rewrite <- E1', <- (db_only_with_peers _ _ Hd). exact E2'. }
      exists m', es, (n_peer_state s1). split; [exact Hk2|]. split; [exact Hb|]. eexists (mk_exchange _ _ _ _ ps).
      split; [by unfold own_exchange|].
      split; [exact Ha|].
      cbn. unfold after, if_running. cbn. by rewrite Hd.
    + intros s2 (E2' & Hd2 & Hk2). split; [done|]. exists m'. split; [done|].
      split; [by eapply db_only_trans|]. right. split; [done|]. exists es, (n_peer_state s1).
      split; [done|]. unfold answer. by rewrite <- E1'.
  - apply runs_ret. by exists m', es, (n_peer_state s1).
Qed.

(** [touch] changes the time of at most one entry. *)
Lemma node_touch_spec h m s :
  known m s ->
  runs (m_peer_db (touch time indeterminate fuel P h)) s
    (fun _ s' => db_only s s' /\ exists m' : peer_map, known m' s' /\ size m' = size m)
    (fun s' => db_only s s' /\ known m s').
Proof using Codec IPL Hdb Hgrowth Hfuel time_ok.
  intros Hk. apply runs_peer_db. eapply runs_weaken; [by eapply touch_spec| |]; cbn beta.
  - intros e p H s' Hd E. subst p. split; [done|]. destruct (m !! h) as [q|] eqn:Hm.
    + eexists. split; [exact H|]. destruct (is_error e); [done|].
      apply map_size_insert_Some. by exists q.
    + exists m. split; [apply H|done].
  - intros p H s' Hd E. by subst p.
Qed.

Definition keepalive_refused (s : Node) (from : crypto_hash_t) (packet : packet_keepalive_t) : Prop :=
  from ∉ n_completed s \/ from = sv_identity (n_server s) \/ ka_peer_id packet = m_peer_id P \/
  packet_version packet < P2P.MINIMUM_VERSION.

#[global] Instance keepalive_refused_dec s from packet : Decision (keepalive_refused s from packet).
Proof. unfold keepalive_refused. apply _. Defined.

(** On the client's side a keepalive is not checked at all. *)
Lemma handle_keepalive_spec from seen_at packet (is_server : bool) m s :
  known m s ->
  let answer := if_running s [envelope_to from (new_keepalive (m_peer_id P))] in
  let touched (s' : Node) := exists m' : peer_map, known m' s' /\ size m' = size m /\
    s' = after s (n_peer_state s') (if is_server then answer else []) (n_completed s) [] in
  runs (handle_keepalive time indeterminate fuel P from seen_at packet is_server) s
    (fun _ s' => if is_server && bool_decide (keepalive_refused s from packet) then s' = s else touched s')
    touched.
Proof using Codec IPL Hdb Hgrowth Hfuel time_ok.
  intros Hk answer touched. unfold handle_keepalive. destruct is_server; cbn [negb andb].
  - apply runs_bind, runs_completed.
    destruct (bool_decide (from ∈ n_completed s)) eqn:E1; cbn [negb].
    2: { apply bool_decide_eq_false in E1. apply runs_ret. rewrite bool_decide_eq_true_2; [done|by left]. }
    apply bool_decide_eq_true in E1. apply runs_bind, runs_get.
    destruct (bool_decide (from = sv_identity (n_server s)) || bool_decide (ka_peer_id packet = m_peer_id P)) eqn:E2.
    { apply runs_ret. rewrite bool_decide_eq_true_2; [done|]. right.
      apply orb_true_iff in E2 as [E2%bool_decide_eq_true|E2%bool_decide_eq_true]; [by left|right; by left]. }
    destruct (Z.ltb_spec (packet_version packet) P2P.MINIMUM_VERSION) as [E3|E3].
    { apply runs_ret. rewrite bool_decide_eq_true_2; [done|]. by do 3 right. }
    apply orb_false_iff in E2 as [E2%bool_decide_eq_false E2'%bool_decide_eq_false].
    rewrite bool_decide_eq_false_2.
    2: { intros [H|[H|[H|H]]]; [done|done|done|lia]. }
    apply runs_bind, runs_reply.
    { cbn. unfold keepalive_serialize. rewrite <- (app_nil_r (put_key _)). apply key_payload_not_nil. }
    fold answer. set (s1 := after s _ answer _ _).
    apply runs_bind. eapply runs_weaken; [apply (node_touch_spec _ m s1); exact Hk| |]; cbn beta.
    + intros _ s2 (Hd & m' & Hk' & Hdom). apply runs_ret. exists m'. split; [done|]. split; [done|].
      rewrite Hd. done.
    + intros s2 [Hd Hk']. exists m. split; [done|]. split; [done|]. rewrite Hd. done.
  - apply runs_bind. eapply runs_weaken; [by apply (node_touch_spec _ m s)| |]; cbn beta.
    + intros _ s2 (Hd & m' & Hk' & Hdom). apply runs_ret. exists m'. split; [done|]. split; [done|].
      by apply after_db.
    + intros s2 [Hd Hk']. exists m. split; [done|]. split; [done|]. by apply after_db.
Qed.

(** What a data packet must satisfy to be processed. *)
Definition acceptable (s : Node) (msg : network_msg_t) : Prop :=
  m_seed_mode = false /\ da_network_id (msg_packet msg) = m_network_id /\
  msg_from msg ∈ n_completed s /\ msg_from msg <> sv_identity (n_server s) /\
  P2P.MINIMUM_VERSION <= packet_version (msg_packet msg).

#[global] Instance acceptable_dec s msg : Decision (acceptable s msg).
Proof. unfold acceptable. apply _. Defined.

Lemma handle_data_spec from seen_at packet is_server s :
  let msg := mk_network_msg from packet is_server in
  runs (handle_data m_seed_mode m_network_id from seen_at packet is_server) s
    (fun _ s' => s' = if decide (acceptable s msg)
                      then after s (n_peer_state s) [] (n_completed s) [msg] else s)
    (fun _ => False).
Proof using Codec.
  clear Hfuel Hgrowth time_ok. intros msg. unfold handle_data.
  destruct m_seed_mode eqn:E0.
  { apply runs_ret. rewrite decide_False; [done|]. intros [H _]. congruence. }
  case_bool_decide as E1; cbn [negb].
  2: { apply runs_ret. rewrite decide_False; [done|]. by intros (_ & H & _). }
  apply runs_bind, runs_completed. case_bool_decide as E2; cbn [negb].
  2: { apply runs_ret. rewrite decide_False; [done|]. by intros (_ & _ & H & _). }
  apply runs_bind, runs_get. case_bool_decide as E3.
  { apply runs_ret. rewrite decide_False; [done|]. by intros (_ & _ & _ & H & _). }
  destruct (Z.ltb_spec (packet_version packet) P2P.MINIMUM_VERSION) as [E4|E4].
  { apply runs_ret. rewrite decide_False; [done|]. intros (_ & _ & _ & _ & H). cbn in H. lia. }
  apply runs_zoom. unfold runs, queue_push.
  rewrite decide_True by (unfold acceptable; cbn; done).
  unfold after. cbn. rewrite app_nil_r. by destruct (n_server s).
Qed.

(** How many entries a message can add to the database. *)
Definition entries_in (payload : bytes) : nat :=
  1 + match handshake_deserialize payload with Some (p, _) => List.length (hs_peers p) | None => 0 end
    + match exchange_deserialize payload with Some (p, _) => List.length (ex_peers p) | None => 0 end.

(** What handling a message does: replies go to its sender, handshakes are only
    remembered of the sender and on the server's side, and only an acceptable
    packet of the sender is queued for processing. *)
Record handled (message : zmq_message_envelope_t) (is_server : bool) (s s' : Node) : Prop := {
  handled_state : exists ms completed new,
    s' = after s (n_peer_state s') ms completed new /\
    Forall (fun r => env_to r = env_from message) ms /\
    (forall h, h ∈ n_completed s -> h ∈ completed) /\
    (forall h, h ∈ completed -> h ∈ n_completed s \/
       (is_server = true /\ h = env_from message /\ h <> sv_identity (n_server s))) /\
    Forall (fun msg => msg_from msg = env_from message /\ acceptable s msg) new
}.

Lemma handled_db message is_server s s' : db_only s s' -> handled message is_server s s'.
Proof using.
  intros Hd. split. exists [], (n_completed s), []. split; [by apply after_db|].
  split; [constructor|]. split; [done|]. split; [by left|constructor].
Qed.

Lemma handled_reply message is_server s s' r :
  env_to r = env_from message ->
  s' = after s (n_peer_state s') (if_running s [r]) (n_completed s) [] -> handled message is_server s s'.
Proof using.
  intros Hr E. split. exists (if_running s [r]), (n_completed s), []. split; [exact E|].
  split; [unfold if_running; by destruct (sv_running _); repeat constructor|].
  split; [done|]. split; [by left|constructor].
Qed.

(** A message that was dealt with, also when an exception cut it short. *)
Definition dealt_with (message : zmq_message_envelope_t) (is_server : bool) (m : peer_map)
  (n : nat) (s s' : Node) : Prop :=
  handled message is_server s s' /\
  exists m' : peer_map, known m' s' /\ (size m' <= size m + n)%nat.

Lemma dealt_with_db message is_server (m m' : peer_map) n s s' :
  db_only s s' -> known m' s' -> (size m' <= size m + n)%nat -> dealt_with message is_server m n s s'.
Proof using. intros Hd Hk' Hs. split; [by apply handled_db|by exists m']. Qed.

Lemma dealt_with_refl message is_server (m : peer_map) n s : known m s -> dealt_with message is_server m n s s.
Proof using. clear Hfuel. intros Hk. apply (dealt_with_db _ _ m m); [apply db_only_refl|done|lia]. Qed.

Lemma dealt_with_reply message is_server (m m' : peer_map) n s s' r :
  env_to r = env_from message -> known m' s' -> (size m' <= size m + n)%nat ->
  s' = after s (n_peer_state s') (if_running s [r]) (n_completed s) [] ->
  dealt_with message is_server m n s s'.
Proof using. intros Hr Hk' Hs E. split; [by eapply handled_reply|by exists m']. Qed.

Section Dealing.
Variables (walk : nat) (message : zmq_message_envelope_t) (is_server : bool) (m : peer_map) (s : Node).
Hypothesis Hk : known m s.

Notation from := (env_from message).
Notation address := (env_peer_address message).
Notation deals n := (dealt_with message is_server m n s).

Lemma deal_with_handshake packet :
  u16 (hs_peer_port packet) -> Forall peer_wf (hs_peers packet) ->
  let n := (1 + List.length (hs_peers packet))%nat in
  (size m + n < walk)%nat ->
  runs (handle_handshake time shuffle indeterminate fuel P m_network_id walk from address packet is_server) s
    (fun _ => deals n) (deals n).
Proof using Codec IPL CLaws Hdb shuffle_ok Empty Hgrowth Hfuel time_ok Hk.
  intros Hport Hps n Hw.
  eapply runs_weaken; [apply (handle_handshake_spec walk _ _ packet is_server m s Hk Hport Hps); lia| |];
    cbn beta.
  - intros _ s' H. destruct (decide _) as [Hd|Hd]; [subst s'; by apply dealt_with_refl|].
    destruct H as (m' & es & p1 & Hk' & Hb & H). apply brought_size in Hb.
    destruct is_server; [|apply (dealt_with_db _ _ m m'); [by subst s'|done|done]].
    destruct H as (h & Hh & _ & E). split; [|by exists m'].
    split. eexists _, _, []. split; [exact E|].
    split; [unfold if_running; by destruct (sv_running _); repeat constructor|].
    split; [intros k Hin; rewrite (elem_of_set_insert _ key_order); by right|].
    split; [|constructor]. intros k. rewrite (elem_of_set_insert _ key_order).
    intros [->|?]; [right|by left]. split; [done|]. split; [done|].
    intros Hid. apply Hd. right. by left.
  - intros s' (_ & m' & Hk' & Hd & Hb). apply interrupted_size in Hb. by apply (dealt_with_db _ _ m m').
Qed.

Lemma deal_with_exchange packet :
  u16 (ex_peer_port packet) -> Forall peer_wf (ex_peers packet) ->
  let n := (1 + List.length (ex_peers packet))%nat in
  (size m + n < walk)%nat ->
  runs (handle_peer_exchange time shuffle indeterminate fuel P m_network_id walk from address packet is_server) s
    (fun _ => deals n) (deals n).
Proof using Codec IPL CLaws Hdb shuffle_ok Empty Hgrowth Hfuel time_ok Hk.
  intros Hport Hps n Hw.
  eapply runs_weaken; [apply (handle_peer_exchange_spec walk _ _ packet is_server m s Hk Hport Hps); lia| |];
    cbn beta.
  - intros _ s' H. destruct (decide _) as [Hd|Hd]; [subst s'; by apply dealt_with_refl|].
    destruct H as (m' & es & p1 & Hk' & Hb & H). apply brought_size in Hb.
    destruct is_server; [|apply (dealt_with_db _ _ m m'); [by subst s'|done|done]].
    destruct H as (x & Hx & _ & E). by apply (dealt_with_reply _ _ m m' n s s' (envelope_to from x)).
  - intros s' (_ & m' & Hk' & Hd & Hb). apply interrupted_size in Hb. by apply (dealt_with_db _ _ m m').
Qed.

Lemma deal_with_keepalive packet n :
  runs (handle_keepalive time indeterminate fuel P from address packet is_server) s
    (fun _ => deals n) (deals n).
Proof using Codec IPL Hdb Hgrowth Hfuel time_ok Hk.
  set (answer := envelope_to from (new_keepalive (m_peer_id P))).
  assert (Ht : forall s', (exists m' : peer_map, known m' s' /\ size m' = size m /\
    s' = after s (n_peer_state s') (if is_server then if_running s [answer] else [])
      (n_completed s) []) -> deals n s').
  { intros s' (m' & Hk' & Hs & E). destruct is_server.
    - apply (dealt_with_reply _ _ m m' n s s' answer); [done|done|lia|done].
    - split; [|exists m'; split; [done|lia]]. split. exists [], (n_completed s), [].
      split; [exact E|]. split; [constructor|]. split; [done|]. split; [by left|constructor]. }
  eapply runs_weaken; [by apply (handle_keepalive_spec _ _ packet is_server m s)| |exact Ht]. cbn beta.
  intros _ s' H. destruct (is_server && _); [subst s'; by apply dealt_with_refl|by apply Ht].
Qed.

Lemma deal_with_data packet n :
  runs (handle_data m_seed_mode m_network_id from address packet is_server) s (fun _ => deals n) (deals n).
Proof using Codec Hk.
  eapply runs_weaken; [apply (handle_data_spec _ _ packet is_server s)| |done]. cbn beta.
  intros _ s' ->. destruct (decide _) as [Hd|Hd]; [|by apply dealt_with_refl].
  clear Hfuel. split; [|exists m; split; [done|lia]]. split. exists [], (n_completed s). eexists. split; [done|].
  split; [constructor|]. split; [done|]. split; [by left|]. constructor; [done|constructor].
Qed.

(** Whatever a message holds, it is dealt with and no exception is left. *)
Lemma handle_incoming_spec :
  let n := entries_in (env_payload message) in
  (size m + n < walk)%nat ->
  runs (handle_incoming_message time shuffle indeterminate fuel P m_seed_mode m_network_id walk
          message is_server) s
    (fun _ => deals n) (fun _ => False).
Proof using Codec IPL CLaws Hdb shuffle_ok Empty Hgrowth Hfuel time_ok Hk.
  intros n Hw. apply runs_try. pose proof (dealt_with_refl message is_server m n s Hk) as Hsame.
  assert (Hmore : forall n1 (f : node_prog ()), (n1 <= n)%nat ->
    runs f s (fun _ => deals n1) (deals n1) -> runs f s (fun _ => deals n) (deals n)).
  { clear -Hk. intros n1 f Hn H. assert (Hd : forall s', deals n1 s' -> deals n s')
      by (intros s' (Hh & m' & Hk' & Hs); split; [done|exists m'; split; [done|lia]]).
    eapply runs_weaken; [exact H|by intros []; apply Hd|exact Hd]. }
  apply runs_bind. destruct (peek_varint _) as [type|]; [apply runs_ret|by apply runs_throw]. cbv zeta.
  unfold entries_in in n.
  destruct (type =? packet_type_value NETWORK_HANDSHAKE);
    [|destruct (type =? packet_type_value NETWORK_PEER_EXCHANGE);
      [|destruct (type =? packet_type_value NETWORK_KEEPALIVE);
        [|destruct (type =? packet_type_value NETWORK_DATA); [|by apply runs_throw]]]]; apply runs_bind.
  - destruct (handshake_deserialize (env_payload message)) as [[packet rest]|] eqn:E;
      [apply runs_ret|by apply runs_throw].
    apply handshake_deserialize_wf in E as [Hport Hps].
    eapply Hmore; [|apply deal_with_handshake]; [unfold n; lia|done|done|lia].
  - destruct (exchange_deserialize (env_payload message)) as [[packet rest]|] eqn:E;
      [apply runs_ret|by apply runs_throw].
    apply exchange_deserialize_wf in E as [Hport Hps].
    eapply Hmore; [|apply deal_with_exchange]; [unfold n; lia|done|done|lia].
  - destruct (keepalive_deserialize _) as [[packet rest]|]; [apply runs_ret|by apply runs_throw].
    apply deal_with_keepalive.
  - destruct (data_deserialize _) as [[packet rest]|]; [apply runs_ret|by apply runs_throw].
    apply deal_with_data.
Qed.
End Dealing.

(** ** Lemmas: the poller *)

Notation handle walk := (handle_incoming_message time shuffle indeterminate fuel P m_seed_mode
  m_network_id walk).

(** How many entries a queue of messages can add. *)
Definition entries (ms : list zmq_message_envelope_t) : nat :=
  sum_list ((fun message => entries_in (env_payload message)) <$> ms).

Lemma entries_cons message q : entries (message :: q) = (entries_in (env_payload message) + entries q)%nat.
Proof using. done. Qed.

Definition set_incoming (q : list zmq_message_envelope_t) (v : ZMQServer) : ZMQServer :=
  mk_server (sv_port v) (sv_identity v) (sv_running v) (sv_socket v) (sv_connections v) q
    (sv_outgoing v) (sv_upnp v) (sv_gateway v) (sv_monitor v).

Definition set_server (v : ZMQServer) (s : Node) : Node :=
  mk_Node (n_running s) (n_peer_state s) v (n_clients s) (n_completed s) (n_messages s) (n_made s).

Definition set_clients (c : list (crypto_hash_t * ZMQClient)) (s : Node) : Node :=
  mk_Node (n_running s) (n_peer_state s) (n_server s) c (n_completed s) (n_messages s) (n_made s).

Definition clients_sorted (s : Node) : Prop := strictly_sorted key_ltb fst (n_clients s).

Definition replace_client (id : crypto_hash_t) (c : ZMQClient) (l : list (crypto_hash_t * ZMQClient))
  : list (crypto_hash_t * ZMQClient) :=
  (fun e => if same_key key_ltb id (fst e) then (fst e, c) else e) <$> l.

Definition set_client_incoming (q : list zmq_message_envelope_t) (c : ZMQClient) : ZMQClient :=
  mk_client (cl_identity c) (cl_running c) (cl_socket c) q (cl_outgoing c) (cl_monitor c).

(** A message is taken from the head of the queue of the server, or of a client,
    and nothing else changes. *)
Inductive taken : zmq_message_envelope_t -> bool -> Node -> Node -> Prop :=
  | taken_server message q s :
      sv_incoming (n_server s) = message :: q ->
      taken message true s (set_server (set_incoming q (n_server s)) s)
  | taken_client id c message q s :
      map_of (n_clients s) !! id = Some c -> cl_incoming c = message :: q ->
      taken message false s
        (set_clients (replace_client id (set_client_incoming q c) (n_clients s)) s).

(** Messages that are taken and dealt with, one after the other: the runs of
    [handle_incoming_message] with the side that each message came from. *)
Inductive polled (walk : nat) : list (zmq_message_envelope_t * bool) -> Node -> Node -> Prop :=
  | polled_nil s : polled walk [] s s
  | polled_cons message is_server rest s s1 s2 s' :
      taken message is_server s s1 ->
      handle walk message is_server s1 = Returned () s2 ->
      handled message is_server s1 s2 ->
      polled walk rest s2 s' ->
      polled walk ((message, is_server) :: rest) s s'.

Lemma polled_app walk l1 l2 s1 s2 s3 : polled walk l1 s1 s2 -> polled walk l2 s2 s3 -> polled walk (l1 ++ l2) s1 s3.
Proof using. induction 1; [done|]. intros H'. eapply polled_cons; eauto. Qed.

Definition from_server (ms : list zmq_message_envelope_t) : list (zmq_message_envelope_t * bool) :=
  (fun message => (message, true)) <$> ms.
Definition from_clients (ms : list zmq_message_envelope_t) : list (zmq_message_envelope_t * bool) :=
  (fun message => (message, false)) <$> ms.

(** Dealing with messages leaves what was received and the clients alone. *)
Lemma handled_queues message is_server s s' :
  handled message is_server s s' ->
  sv_incoming (n_server s') = sv_incoming (n_server s) /\ n_clients s' = n_clients s.
Proof using. by intros [(ms & c & new & -> & _)]. Qed.

Lemma server_queue_test s (R : bool -> Node -> Prop) X :
  R (negb (bool_decide (sv_incoming (n_server s) = []))) s ->
  runs (empty ← m_server (server_messages queue_empty); mret (negb empty)) s R X.
Proof using. by destruct s as [? ? [] ? ? ? ?]. Qed.

Lemma drain_server_spec walk k q m s :
  known m s -> sv_incoming (n_server s) = q -> (List.length q < k)%nat ->
  (size m + entries q < walk)%nat ->
  runs (while_loop k (empty ← m_server (server_messages queue_empty); mret (negb empty))
          (poll_server time shuffle indeterminate fuel P m_seed_mode m_network_id walk)) s
    (fun _ s' => sv_incoming (n_server s') = [] /\ n_clients s' = n_clients s /\
       polled walk (from_server q) s s' /\
       exists m' : peer_map, known m' s' /\ (size m' <= size m + entries q)%nat)
    (fun _ => False).
Proof using Codec IPL CLaws Hdb shuffle_ok Empty Hgrowth Hfuel time_ok.
  revert k m s. induction q as [|message q IH]; intros k m s Hk Hq Hlen Hw;
    (destruct k as [|k]; [cbn in Hlen; lia|]); cbn [while_loop]; apply runs_bind.
  - apply server_queue_test. rewrite Hq. cbn [negb bool_decide]. apply runs_ret. split; [done|]. split; [done|].
    split; [constructor|]. exists m. split; [done|lia].
  - apply server_queue_test. rewrite Hq. cbn [negb bool_decide].
    apply runs_bind. unfold poll_server. apply runs_bind.
    set (s1 := set_server (set_incoming q (n_server s)) s).
    assert (Hp : m_server (server_messages queue_pop) s = Returned message s1).
    { destruct s as [? ? [] ? ? ? ?]. cbn in Hq. subst. reflexivity. }
    unfold runs at 1. rewrite Hp. cbn in Hlen. rewrite entries_cons in Hw |- *.
    eapply runs_weaken; [apply runs_recorded, (handle_incoming_spec walk message true m s1 Hk); lia| |].
    2: { by intros s2 [_ []]. }
    cbn beta. intros [] s2 (E2 & Hh & m2 & Hk2 & Hs2). pose proof Hh as [Hi Hcl]%handled_queues.
    eapply runs_conseq; [apply (IH k m2 s2 Hk2 Hi); lia|].
    cbn beta. intros _ s3 (Hi3 & Hc3 & Hp3 & m3 & Hk3 & Hs3). split; [done|]. split; [by rewrite Hc3, Hcl|].
    split; [by eapply polled_cons; [apply taken_server| | |]|]. exists m3. split; [done|lia].
Qed.

Lemma replace_client_spec id c s :
  clients_sorted s -> is_Some (map_of (n_clients s) !! id) ->
  let l := replace_client id c (n_clients s) in
  strictly_sorted key_ltb fst l /\ map_of l = <[id := c]> (map_of (n_clients s)) /\
  l.*1 = (n_clients s).*1.
Proof using Codec.
  intros Hs Hid l. destruct (map_assign_spec key_ltb key_order (n_clients s) id c Hs Hid) as [H1 H2].
  split; [exact H1|]. split; [exact H2|]. unfold l, replace_client. rewrite <- list_fmap_compose.
  apply list_fmap_ext. intros _ e _. cbn. by destruct (same_key _ _ _).
Qed.

Lemma runs_with_client {A} id c (f : prog ZMQClient A) s (R : A -> Node -> Prop) X :
  clients_sorted s -> map_of (n_clients s) !! id = Some c ->
  runs f c (fun a c' => R a (set_clients (replace_client id c' (n_clients s)) s))
    (fun c' => X (set_clients (replace_client id c' (n_clients s)) s)) ->
  runs (with_client id f) s R X.
Proof using Codec.
  intros Hs Hc H. unfold runs, with_client.
  rewrite (map_of_find key_ltb key_order (n_clients s) id Hs), Hc. cbn.
  unfold runs in H. unfold m_clients, zoom. cbn. destruct (f c); exact H.
Qed.

(** What is left to be read from a client. *)
Definition queue_of (s : Node) (id : crypto_hash_t) : list zmq_message_envelope_t :=
  match map_of (n_clients s) !! id with Some c => cl_incoming c | None => [] end.

(** The queue of [id] is replaced by [q], and nothing else of what was received. *)
Definition requeued (id : crypto_hash_t) (q : list zmq_message_envelope_t) (s s' : Node) : Prop :=
  sv_incoming (n_server s') = sv_incoming (n_server s) /\ clients_sorted s' /\
  (n_clients s').*1 = (n_clients s).*1 /\
  forall id', queue_of s' id' = if decide (id' = id) then q else queue_of s id'.

Lemma requeued_replace id c s :
  clients_sorted s -> is_Some (map_of (n_clients s) !! id) ->
  requeued id (cl_incoming c) s (set_clients (replace_client id c (n_clients s)) s).
Proof using Codec.
  intros Hs Hid. destruct (replace_client_spec id c s Hs Hid) as (H1 & H2 & H3).
  split; [done|]. split; [exact H1|]. split; [exact H3|]. intros id'. unfold queue_of. cbn [n_clients set_clients].
  rewrite H2. case_decide as E; [subst; by rewrite lookup_insert_eq|by rewrite lookup_insert_ne].
Qed.

Lemma requeued_trans id q1 q2 s1 s2 s3 : requeued id q1 s1 s2 -> requeued id q2 s2 s3 -> requeued id q2 s1 s3.
Proof using.
  intros (A1 & A2 & A3 & A4) (B1 & B2 & B3 & B4). split; [congruence|]. split; [done|]. split; [congruence|].
  intros id'. rewrite B4. case_decide; [done|]. rewrite A4. by rewrite decide_False.
Qed.

Lemma requeued_handled id q message is_server s1 s2 s3 :
  requeued id q s1 s2 -> handled message is_server s2 s3 -> requeued id q s1 s3.
Proof using.
  intros (A1 & A2 & A3 & A4) H. apply handled_queues in H as [Hi Hc]. unfold requeued, clients_sorted, queue_of.
  rewrite Hi, Hc. done.
Qed.

Lemma client_present id s : clients_sorted s -> id ∈ (n_clients s).*1 -> exists c, map_of (n_clients s) !! id = Some c.
Proof using Codec.
  intros Hs ([k c] & -> & Hin)%list_elem_of_fmap. exists c. by apply (map_of_elem key_ltb key_order).
Qed.

Lemma replace_client_same id c l :
  strictly_sorted key_ltb fst l -> map_of l !! id = Some c -> replace_client id c l = l.
Proof using Codec.
  intros Hs Hc. unfold replace_client. rewrite <- (list_fmap_id l) at 2. apply list_fmap_ext.
  intros i [k c'] He%list_elem_of_lookup_2. cbn.
  destruct (same_key key_ltb id k) eqn:E; [|done]. apply (same_key_spec _ key_order) in E. subst k.
  apply (map_of_elem key_ltb key_order l id c' Hs) in He. congruence.
Qed.

(** Taking one message of a client. *)
Lemma client_pop_spec id message q s :
  clients_sorted s -> id ∈ (n_clients s).*1 -> queue_of s id = message :: q ->
  runs (with_client id (client_messages queue_pop)) s
    (fun x s' => x = message /\ taken message false s s' /\ requeued id q s s' /\
       n_peer_state s' = n_peer_state s) (fun _ => False).
Proof using Codec.
  intros Hs Hid Hq. destruct (client_present id s Hs Hid) as [c Hc]. unfold queue_of in Hq. rewrite Hc in Hq.
  apply (runs_with_client id c); [done|done|]. apply runs_zoom. rewrite Hq.
  unfold runs, queue_pop. split; [done|]. split; [by apply taken_client|]. split; [|done].
  by apply (requeued_replace id (mk_client _ _ _ q _ _)).
Qed.

Lemma client_queue_test id s (R : bool -> Node -> Prop) :
  clients_sorted s -> id ∈ (n_clients s).*1 ->
  R (negb (bool_decide (queue_of s id = []))) s ->
  runs (empty ← with_client id (client_messages queue_empty); mret (negb empty)) s R (fun _ => False).
Proof using Codec.
  intros Hs Hid H. destruct (client_present id s Hs Hid) as [c Hc]. apply runs_bind.
  apply (runs_with_client id c); [done|done|]. apply runs_zoom. unfold runs, queue_empty.
  unfold queue_of in H. rewrite Hc in H. apply runs_ret.
  replace (set_clients _ s) with s; [done|]. rewrite replace_client_same; [by destruct s|done|].
  rewrite Hc. by destruct c.
Qed.

Lemma drain_client_spec walk id k q m s :
  known m s -> clients_sorted s -> id ∈ (n_clients s).*1 -> queue_of s id = q ->
  (List.length q < k)%nat -> (size m + entries q < walk)%nat ->
  runs (while_loop k (empty ← with_client id (client_messages queue_empty); mret (negb empty))
          (poll_client time shuffle indeterminate fuel P m_seed_mode m_network_id walk id)) s
    (fun _ s' => requeued id [] s s' /\ polled walk (from_clients q) s s' /\
       exists m' : peer_map, known m' s' /\ (size m' <= size m + entries q)%nat)
    (fun _ => False).
Proof using Codec IPL CLaws Hdb shuffle_ok Empty Hgrowth Hfuel time_ok.
  revert k m s. induction q as [|message q IH]; intros k m s Hk Hs Hid Hq Hlen Hw;
    (destruct k as [|k]; [cbn in Hlen; lia|]); cbn [while_loop]; apply runs_bind;
    (apply client_queue_test; [done|done|]); rewrite Hq; cbn [negb bool_decide].
  - apply runs_ret. split; [|split; [constructor|exists m; split; [done|lia]]].
    split; [done|]. split; [done|]. split; [done|]. intros id'. by case_decide as E; [subst|].
  - apply runs_bind, runs_bind. eapply runs_conseq; [by apply (client_pop_spec id message q s)|].
    cbn beta. intros x s2 (-> & Htk & H2 & E2). assert (Hk2 : known m s2) by (unfold known; by rewrite E2).
    cbn in Hlen. rewrite entries_cons in Hw |- *.
    eapply runs_weaken; [apply runs_recorded, (handle_incoming_spec walk message false m s2 Hk2); lia| |].
    2: { by intros s3 [_ []]. }
    cbn beta. intros [] s3 (E3 & Hh & m3 & Hk3 & Hs3).
    pose proof (requeued_handled _ _ _ _ _ _ _ H2 Hh) as H3.
    eapply runs_conseq; [apply (IH k m3 s3 Hk3)|].
    + apply H3.
    + destruct H3 as (_ & _ & E & _). by rewrite E.
    + destruct H3 as (_ & _ & _ & E). by rewrite E, decide_True.
    + lia.
    + lia.
    + cbn beta. intros _ s4 (H4 & Hp4 & m4 & Hk4 & Hs4). split; [by eapply requeued_trans|].
      split; [by eapply polled_cons|]. exists m4. split; [done|lia].
Qed.

(** The messages that are waiting at the clients [ids]. *)
Definition waiting (s : Node) (ids : list crypto_hash_t) : list zmq_message_envelope_t :=
  concat (queue_of s <$> ids).

Lemma entries_app q1 q2 : entries (q1 ++ q2) = (entries q1 + entries q2)%nat.
Proof using. unfold entries. rewrite fmap_app. apply sum_list_with_app || (induction q1; cbn in *; lia). Qed.

Lemma waiting_ext s s' ids : (forall id, id ∈ ids -> queue_of s' id = queue_of s id) -> waiting s' ids = waiting s ids.
Proof using.
  intros H. unfold waiting. f_equal. apply list_fmap_ext. intros i id Hid%list_elem_of_lookup_2. by apply H.
Qed.

Lemma drain_clients_spec walk ids m s :
  known m s -> clients_sorted s -> NoDup ids -> (forall id, id ∈ ids -> id ∈ (n_clients s).*1) ->
  (List.length (waiting s ids) < walk)%nat -> (size m + entries (waiting s ids) < walk)%nat ->
  runs (drain_clients time shuffle indeterminate fuel P m_seed_mode m_network_id walk ids) s
    (fun _ s' => sv_incoming (n_server s') = sv_incoming (n_server s) /\ clients_sorted s' /\
       (n_clients s').*1 = (n_clients s).*1 /\
       (forall id, queue_of s' id = if decide (id ∈ ids) then [] else queue_of s id) /\
       polled walk (from_clients (waiting s ids)) s s' /\ exists m', known m' s')
    (fun _ => False).
Proof using Codec IPL CLaws Hdb shuffle_ok Empty Hgrowth Hfuel time_ok.
  revert m s. induction ids as [|id ids IH]; intros m s Hk Hs Hnd Hin Hlen Hw; cbn [drain_clients].
  - apply runs_ret. split; [done|]. split; [done|]. split; [done|].
    split; [|split; [constructor|by exists m]].
    intros id. rewrite decide_False; [done|]. apply not_elem_of_nil.
  - apply NoDup_cons in Hnd as [Hid Hnd]. apply runs_bind.
    change (waiting s (id :: ids)) with (queue_of s id ++ waiting s ids) in Hlen, Hw.
    rewrite entries_app in Hw. rewrite length_app in Hlen.
    eapply runs_conseq.
    { apply (drain_client_spec walk id walk (queue_of s id) m s Hk Hs); [apply Hin; by left|done|lia|lia]. }
    cbn beta. intros _ s1 ((Hi1 & Hs1 & Hc1 & Hq1) & Hp1 & m1 & Hk1 & Hm1).
    assert (Hwait : waiting s1 ids = waiting s ids).
    { apply waiting_ext. intros id' Hid'. rewrite Hq1, decide_False; [done|]. by intros ->. }
    eapply runs_conseq; [apply (IH m1 s1 Hk1 Hs1 Hnd)|].
    + intros id' Hid'. rewrite Hc1. apply Hin. by right.
    + rewrite Hwait. lia.
    + rewrite Hwait. lia.
    + cbn beta. intros _ s2 (Hi2 & Hs2 & Hc2 & Hq2 & Hp2 & Hk2). split; [by rewrite Hi2|]. split; [done|].
      split; [by rewrite Hc2|]. split; [|split; [|done]].
      2: { change (waiting s (id :: ids)) with (queue_of s id ++ waiting s ids). unfold from_clients.
           rewrite fmap_app. rewrite Hwait in Hp2. by eapply polled_app. }
      intros id'. rewrite Hq2.
      destruct (decide (id' ∈ ids)) as [E|E].
      * rewrite decide_True; [done|by right].
      * rewrite Hq1. destruct (decide (id' = id)) as [->|Hne]; [rewrite decide_True; [done|by left]|].
        rewrite decide_False; [done|]. intros [?|?]%elem_of_cons; done.
Qed.

Lemma poller_turn_spec walk m s :
  known m s -> clients_sorted s ->
  (let all := sv_incoming (n_server s) ++ waiting s ((n_clients s).*1) in
   List.length all < walk /\ size m + entries all < walk)%nat ->
  runs (poller_turn time shuffle indeterminate fuel P m_seed_mode m_network_id walk) s
    (fun _ s' => sv_incoming (n_server s') = [] /\ (n_clients s').*1 = (n_clients s).*1 /\
       (forall id, queue_of s' id = []) /\
       polled walk (from_server (sv_incoming (n_server s)) ++ from_clients (waiting s ((n_clients s).*1))) s s' /\
       exists m', known m' s')
    (fun _ => False).
Proof using Codec IPL CLaws Hdb shuffle_ok Empty Hgrowth Hfuel time_ok.
  intros Hk Hs [Hlen Hw]. rewrite length_app in Hlen. rewrite entries_app in Hw. unfold poller_turn. apply runs_bind.
  eapply runs_conseq; [apply (drain_server_spec walk walk _ m s Hk eq_refl); lia|]. cbn beta.
  intros _ s1 (Hi1 & Hc1 & Hp1 & m1 & Hk1 & Hm1). apply runs_bind, runs_get.
  assert (Hs1 : clients_sorted s1) by (unfold clients_sorted; by rewrite Hc1).
  assert (Hq1 : forall id, queue_of s1 id = queue_of s id) by (intros id; unfold queue_of; by rewrite Hc1).
  assert (Hwait : waiting s1 ((n_clients s1).*1) = waiting s ((n_clients s).*1)).
  { rewrite Hc1. by apply waiting_ext. }
  eapply runs_conseq; [apply (drain_clients_spec walk _ m1 s1 Hk1 Hs1)|].
  - by apply (strictly_sorted_NoDup key_ltb key_order).
  - done.
  - rewrite Hwait. lia.
  - rewrite Hwait. lia.
  - cbn beta. intros _ s2 (Hi2 & Hs2 & Hc2 & Hq2 & Hp2 & Hk2). split; [by rewrite Hi2|].
    split; [by rewrite Hc2, Hc1|]. split; [|split; [|done]].
    2: { rewrite Hwait in Hp2. by eapply polled_app. }
    intros id. rewrite Hq2. case_decide as Hid; [done|].
    unfold queue_of. destruct (map_of (n_clients s1) !! id) as [c|] eqn:E; [|done].
    destruct Hid. apply list_elem_of_fmap. exists (id, c). split; [done|].
    by apply (map_of_elem key_ltb key_order).
Qed.

(** ** Lemmas: connections *)

(** Only the clients, their number and the peer database differ, at most [n]
    clients being new. *)
Definition connected_more (n : nat) (m : peer_map) (s s' : Node) : Prop :=
  s' = mk_Node (n_running s) (n_peer_state s') (n_server s) (n_clients s') (n_completed s)
         (n_messages s) (n_made s') /\
  known m s' /\ (List.length (n_clients s') <= n + List.length (n_clients s))%nat.

Lemma connected_db n m s s' : db_only s s' -> known m s' -> connected_more n m s s'.
Proof using. clear Hfuel. intros Hd Hk. unfold connected_more. rewrite Hd. cbn. split; [done|]. split; [exact Hk|lia]. Qed.

Lemma connected_trans n1 n2 m s1 s2 s3 :
  connected_more n1 m s1 s2 -> connected_more n2 m s2 s3 -> connected_more (n1 + n2) m s1 s3.
Proof using.
  clear Hfuel. intros (E1 & _ & L1) (E2 & K & L2). rewrite E1 in E2. cbn in E2. split; [exact E2|].
  split; [done|lia].
Qed.

Lemma sorted_insert_length (e : crypto_hash_t * ZMQClient) l :
  (List.length (sorted_insert key_ltb fst e l) <= S (List.length l))%nat.
Proof using. clear Hfuel. induction l as [|x l IH]; cbn; [done|]. repeat case_match; cbn in *; lia. Qed.

Lemma runs_local {A} (f : prog ZMQClient A) c s (R : A * ZMQClient -> Node -> Prop) (X : Node -> Prop) :
  runs f c (fun a c' => R (a, c') s) (fun _ => X s) -> runs (on_local f c) s R X.
Proof using. unfold runs, on_local. by destruct (f c). Qed.

Lemma connect_spec walk host port m s :
  known m s -> (size m < walk)%nat ->
  runs (connect time shuffle P m_network_id random_hash keypairs walk host port) s
    (fun e s' => connected_more 1 m s s') (connected_more 1 m s).
Proof using Codec IPL CLaws Hdb shuffle_ok Empty.
  clear Hfuel. intros Hk Hw. unfold connect. apply runs_bind.
  assert (Hs : connected_more 1 m s s) by (apply connected_db; [apply db_only_refl|done]).
  destruct (normalize_host_with_port host port) as [[[host' port'] hash]|]; [apply runs_ret|by apply runs_throw].
  apply runs_bind, runs_zoom. unfold runs at 1, map_contains.
  set (s0 := mk_Node _ _ _ _ _ _ _). assert (E0 : s0 = s) by (by destruct s). clearbody s0. subst s0.
  destruct (match sorted_find _ _ _ _ with Some _ => true | None => false end); [by apply runs_ret|].
  apply runs_bind. unfold runs at 1, make_client.
  set (s1 := mk_Node _ _ _ _ _ _ _).
  assert (H1 : connected_more 0 m s s1) by (split; [done|]; split; [exact Hk|cbn; lia]).
  assert (H1' : connected_more 1 m s s1) by (split; [done|]; split; [exact Hk|cbn; lia]).
  destruct (new_client _ _ _) as [c|]; [|done].
  apply runs_bind, runs_local. eapply runs_weaken; [apply client_connect_total| |done]. cbn beta.
  intros e c' _. destruct (is_error e); [by apply runs_ret|].
  apply runs_bind. eapply runs_weaken; [apply (build_handshake_spec walk m s1 Hk Hw)| |]; cbn beta.
  - intros packet s2 (Hd2 & Hk2 & _). apply runs_bind, runs_local.
    pose proof (connected_trans 0 0 m s s1 s2 H1 (connected_db 0 m s1 s2 Hd2 Hk2)) as H2.
    eapply runs_weaken; [apply client_send_total| |done]. intros [] c'' _. apply runs_bind, runs_zoom.
    unfold runs at 1, map_insert. apply runs_ret. destruct H2 as (E & K & L).
    split; [by rewrite E|]. split; [exact K|]. cbn.
    pose proof (sorted_insert_length (hash, c'') (n_clients s2)). lia.
  - intros s2 [Hd2 Hk2]. by apply (connected_trans 0 1 m s s1 s2 H1), connected_db.
Qed.

Lemma connect_peers_spec walk ps m s :
  known m s -> (size m < walk)%nat ->
  runs (connect_peers time shuffle P m_network_id random_hash keypairs walk ps) s
    (fun _ s' => connected_more (List.length ps) m s s') (connected_more (List.length ps) m s).
Proof using Codec IPL CLaws Hdb shuffle_ok Empty.
  clear Hfuel. intros Hk Hw. revert s Hk. induction ps as [|p ps IH]; intros s Hk; cbn [connect_peers].
  - apply runs_ret. apply connected_db; [apply db_only_refl|done].
  - assert (Hmore : forall n s1 s', connected_more n m s1 s' -> connected_more (S n) m s1 s').
    { intros n s1 s' (A1 & A2 & A3). split; [done|]. split; [done|lia]. }
    case_bool_decide.
    { eapply runs_weaken; [by apply IH|intros []; apply Hmore|apply Hmore]. }
    apply runs_bind. eapply runs_weaken; [by apply (connect_spec walk _ _ m s)| |]; cbn beta.
    + intros _ s1 H1. eapply runs_weaken; [apply IH; apply H1| |]; cbn beta.
      * intros _ s2 H2. by apply (connected_trans 1 _ m s s1 s2).
      * intros s2 H2. by apply (connected_trans 1 _ m s s1 s2).
    + intros s1 (A1 & A2 & A3). split; [done|]. split; [done|]. cbn. lia.
Qed.

Lemma erase_clients_spec ids m s :
  known m s -> runs (erase_clients ids) s (fun _ s' => connected_more 0 m s s') (fun _ => False).
Proof using.
  clear Hfuel. revert s. induction ids as [|id ids IH]; intros s Hk; cbn [erase_clients].
  - apply runs_ret. apply connected_db; [apply db_only_refl|done].
  - apply runs_bind, runs_zoom. unfold runs at 1, map_erase.
    eapply runs_conseq; [apply IH; exact Hk|]. cbn beta. intros _ s' H.
    eapply (connected_trans 0 0); [|exact H]. split; [done|]. split; [exact Hk|]. cbn.
    apply filter_length_le.
Qed.

Notation manage walk := (connection_manager_turn time shuffle P m_seed_mode m_network_id random_hash
  keypairs walk).

(** The manager asks for as many peers as are missing, for far more than there
    are when there are too many connections. *)
Lemma connection_manager_spec walk m s :
  known m s -> (size m < walk)%nat ->
  let bounded s' := connected_more (size m) m s s' /\
    (vsize (n_clients s) <= P2P.DEFAULT_CONNECTION_COUNT -> vsize (n_clients s') <= P2P.DEFAULT_CONNECTION_COUNT) in
  runs (manage walk) s (fun _ => bounded) bounded.
Proof using Codec IPL CLaws Hdb shuffle_ok Empty.
  clear Hfuel. intros Hk Hw bounded. unfold connection_manager_turn. apply runs_bind, runs_get.
  apply runs_bind. eapply runs_weaken; [by eapply erase_clients_spec| |done]. cbn beta.
  intros _ s1 H1. apply runs_bind, runs_zoom. unfold runs at 1, map_size, queue_size.
  set (s0 := mk_Node _ _ _ _ _ _ _). assert (E0 : s0 = s1) by (by destruct s1). clearbody s0. subst s0.
  assert (Hdone : forall s', connected_more 0 m s s' -> bounded s').
  { intros s' (A1 & A2 & A3). split; [split; [done|]; split; [done|lia]|]. lia. }
  set (missing := wrap64 (P2P.DEFAULT_CONNECTION_COUNT - vsize (n_clients s1))).
  destruct (Z.ltb_spec 0 missing) as [Hpos|Hpos]; [|apply runs_ret; by apply Hdone].
  destruct H1 as (E1 & Hk1 & L1). cbn in L1. apply runs_bind, runs_peer_db.
  eapply runs_weaken; [apply (peers_spec time shuffle walk P l0 B shuffle_ok Hdb m missing
    (if m_seed_mode then key_default else m_network_id) _ Hk1 Hw); lia| |]; cbn beta.
  2: { intros p Hp s2 Hd2 E2. subst p. apply Hdone. eapply (connected_trans 0 0); [done|].
       by apply connected_db. }
  intros ps p (Hp & _ & Hsub & Hlen) s2 Hd2 E2. subst p.
  assert (Hps : (List.length ps <= size m)%nat).
  { apply submseteq_length in Hsub. etransitivity; [exact Hsub|]. etransitivity; [apply length_filter|].
    by rewrite length_fmap, length_map_to_list. }
  assert (H2 : forall s', connected_more (List.length ps) m s2 s' -> bounded s').
  { intros s' (A1 & A2 & A3). rewrite Hd2 in A1, A3. cbn in A1, A3. rewrite E1 in A1. cbn in A1. split.
    - split; [exact A1|]. split; [done|]. lia.
    - intros Hle. assert (missing = P2P.DEFAULT_CONNECTION_COUNT - vsize (n_clients s1)) as Hm.
      { apply wrap64_id. unfold P2P.DEFAULT_CONNECTION_COUNT in *. cbn in *. unfold uintw. lia. }
      destruct (missing =? 0) eqn:E; [lia|]. lia. }
  eapply runs_weaken; [by apply (connect_peers_spec walk ps m s2)| |]; cbn beta; [intros _|]; apply H2.
Qed.

(** ** Lemmas: every step keeps the node in order *)

Record node_ok (s : Node) : Prop := {
  ok_known : exists m, known m s;
  ok_completed : sv_identity (n_server s) ∉ n_completed s;
  ok_messages : Forall (acceptable s) (n_messages s)
}.

(** What the order depends on. *)
Definition node_view (s : Node) := (n_peer_state s, n_completed s, n_messages s, sv_identity (n_server s)).

Lemma node_ok_view s s' : node_view s' = node_view s -> node_ok s -> node_ok s'.
Proof using.
  intros E [Hk Hc Hm]. injection E as E1 E2 E3 E4. split.
  - destruct Hk as [m Hk]. exists m. unfold known. by rewrite E1.
  - by rewrite E2, E4.
  - rewrite E3. eapply Forall_impl; [exact Hm|]. unfold acceptable. by rewrite E2, E4.
Qed.

Lemma server_keeps {A} (f : prog ZMQServer A) : keeps sv_identity f -> keeps node_view (m_server f).
Proof using.
  intros H. apply (keeps_zoom_in _ sv_identity); [exact H|]. intros v s E. unfold node_view. cbn. by rewrite E.
Qed.

Lemma clients_keep {A} (f : prog (list (crypto_hash_t * ZMQClient)) A) : keeps node_view (m_clients f).
Proof using. apply keeps_zoom. by intros ? []. Qed.

Lemma with_client_keeps {A} id (f : prog ZMQClient A) : keeps node_view (with_client id f).
Proof using. intros s. unfold with_client. destruct (sorted_find _ _ _ _) as [[k c]|]; [|done]. apply clients_keep. Qed.

Lemma reply_keeps message : keeps node_view (reply message).
Proof using. apply server_keeps, server_send_keeps. Qed.

Lemma send_keeps message : keeps node_view (send message).
Proof using. apply clients_keep. Qed.

Lemma handled_ok message is_server s s' :
  handled message is_server s s' -> (exists m, known m s') -> node_ok s -> node_ok s'.
Proof using.
  intros [(ms & completed & new & E & _ & Hmore & Hless & Hnew)] Hk [_ Hc Hm]. split; [done| |].
  - rewrite E. cbn. intros Hin. destruct (Hless _ Hin) as [?|(_ & _ & ?)]; done.
  - assert (Hacc : forall msg, acceptable s msg -> acceptable s' msg).
    { intros msg (A1 & A2 & A3 & A4 & A5). rewrite E. unfold acceptable. cbn. auto. }
    rewrite E at 2. cbn. apply Forall_app. split; (eapply Forall_impl; [eassumption|]); [exact Hacc|].
    intros msg [_ H]. by apply Hacc.
Qed.

Lemma connected_ok n m s s' : connected_more n m s s' -> node_ok s -> node_ok s'.
Proof using.
  intros (E & Hk & _) [_ Hc Hm]. split; [by exists m|by rewrite E|]. rewrite E. cbn.
  eapply Forall_impl; [exact Hm|]. unfold acceptable. by rewrite E.
Qed.

Notation perform walk := (perform time shuffle indeterminate fuel P m_seed_mode m_network_id
  random_hash keypairs walk).

(** The result of an action is in order, if the fuel was enough. *)
Definition action_ok (a : node_action) : Prop := forall s, node_ok s ->
  exists enough, forall walk s', (enough <= walk)%nat -> perform walk a s = Returned () s' -> node_ok s'.

Lemma keeps_ok a : (forall walk, keeps node_view (perform walk a)) -> action_ok a.
Proof using.
  intros Hkeep s Hs. exists O. intros walk s' _ E. specialize (Hkeep walk s). rewrite E in Hkeep.
  by eapply node_ok_view.
Qed.

Lemma runs_returned {A} (f : node_prog A) s s' a (R : A -> Node -> Prop) X :
  f s = Returned a s' -> runs f s R X -> R a s'.
Proof using. unfold runs. by intros ->. Qed.

Lemma unless_empty_ok (empty : node_prog bool) (take : node_prog zmq_message_envelope_t)
    (f : nat -> zmq_message_envelope_t -> node_prog ()) (a : node_action) is_server :
  keeps node_view empty -> keeps node_view take ->
  (forall walk, perform walk a = unless_empty empty (message ← take; f walk message)) ->
  (forall walk message, f walk message = handle walk message is_server) ->
  action_ok a.
Proof using Codec IPL CLaws Hdb shuffle_ok Empty Hgrowth Hfuel time_ok.
  intros He Ht Ha Hf s Hs. specialize (He s). destruct (empty s) as [b s1|s1| |] eqn:E1.
  2-4: exists O; intros walk s' _; rewrite Ha; unfold unless_empty, mbind, prog_bind; by rewrite E1.
  pose proof (node_ok_view _ _ He Hs) as Hs1. destruct b.
  { exists O. intros walk s' _. rewrite Ha. unfold unless_empty, mbind, prog_bind. rewrite E1. by intros [= <-]. }
  specialize (Ht s1). destruct (take s1) as [message s2|s2| |] eqn:E2.
  2-4: exists O; intros walk s' _; rewrite Ha; unfold unless_empty, mbind, prog_bind; by rewrite E1, E2.
  pose proof (node_ok_view _ _ Ht Hs1) as Hs2. destruct (ok_known _ Hs2) as [m Hk].
  exists (S (size m + entries_in (env_payload message))). intros walk s' Hw.
  pose proof (handle_incoming_spec walk message is_server m s2 Hk ltac:(lia)) as H.
  rewrite Ha. unfold unless_empty, mbind, prog_bind. rewrite E1, E2, Hf. unfold runs in H.
  destruct (handle walk message is_server s2) as [u s3|s3| |]; try done. intros [= <-].
  destruct H as (Hh & m' & Hk' & _). eapply handled_ok; [exact Hh|by exists m'|done].
Qed.

Lemma perform_ok a : action_ok a.
Proof using Codec IPL CLaws Hdb shuffle_ok Empty Hgrowth Hfuel time_ok.
  destruct a as [|id| | |id|id|id e| | | |host port| |packet|to packet].
  - eapply (unless_empty_ok _ _ (fun walk message => handle walk message true)); [| |done|done];
      apply server_keeps; unfold server_messages; eauto with keeps.
  - eapply (unless_empty_ok _ _ (fun walk message => handle walk message false)); [| |done|done];
      apply with_client_keeps.
  - apply keeps_ok. intros walk. apply server_keeps, server_incoming_turn_keeps.
  - apply keeps_ok. intros walk. apply server_keeps, server_outgoing_turn_keeps.
  - apply keeps_ok. intros walk. apply with_client_keeps.
  - apply keeps_ok. intros walk. apply with_client_keeps.
  - apply keeps_ok. intros walk. apply with_client_keeps.
  - apply keeps_ok. intros walk. apply keeps_bind; [apply send_keeps|intros _; apply reply_keeps].
  - apply keeps_ok. intros walk. apply keeps_bind; [apply keeps_get|intros s; apply send_keeps].
  - intros s Hs. destruct (ok_known _ Hs) as [m Hk]. exists (S (size m)). intros walk s' Hw E.
    pose proof (connection_manager_spec walk m s Hk ltac:(lia)) as H.
    pose proof (runs_returned _ _ _ _ _ _ E H) as [Hc _]. by eapply connected_ok.
  - intros s Hs. destruct (ok_known _ Hs) as [m Hk]. exists (S (size m)). intros walk s' Hw E.
    assert (H : runs (perform walk (UserConnects host port)) s (fun _ => connected_more 1 m s) (connected_more 1 m s)).
    { apply runs_bind. eapply runs_conseq; [apply (connect_spec walk host port m s Hk); lia|]. done. }
    eapply connected_ok; [|exact Hs]. exact (runs_returned _ _ _ _ _ _ E H).
  - intros s [Hk Hc Hm]. exists O. intros walk s' _.
    destruct s as [r p v c d [|msg q] n]; cbn; intros [= <-]; [done|]. split; [done|done|].
    cbn in *. by apply Forall_cons in Hm as [_ Hm].
  - apply keeps_ok. intros walk. apply send_keeps.
  - apply keeps_ok. intros walk. apply reply_keeps.
Qed.
End NodeSpecs.

(** ** Properties *)

Section NodeProps.
Context {CL : CryptoLib} {IP : IPParser} {M : MDB} {Q : ZmqLib} {U : MiniUPnP}.
Context {Laws : MDBLaws M} {CLaws : MDBCursorLaws M} {Codec : CodecLaws CL} {IPL : IPParserLaws IP}.
Context {Empty : EmptyHashLaws CL}.

#[local] Existing Instance key_eq_dec.
#[local] Existing Instance key_countable.

Notation peer_map := (gmap crypto_hash_t network_peer_t).

Variables (time : nat -> Z) (shuffle : Z -> list network_peer_t -> list network_peer_t).
Variables (indeterminate : Z) (fuel : nat) (P : PeerDB) (l0 : LMDB) (B : Z).
Variables (m_seed_mode : bool) (m_network_id : crypto_hash_t).
Variables (random_hash : nat -> crypto_hash_t) (keypairs : nat -> option (string * string)).

(** What the node needs of its surroundings: a clock, a shuffle that only
    reorders, and a peer database that is set up. *)
Record surroundings_ok : Prop := {
  clock_ok : forall n, u64 (time n);
  shuffle_reorders : forall seed l, shuffle seed l ≡ₚ l;
  growth_ok : 1 <= m_growth_factor l0 <= 2 ^ 20;
  peers_registered : registered l0 (m_database P);
  retries_enough : mapsize_limit - B < Z.of_nat fuel
}.

(** A node as its constructor leaves it. *)
Record node_fresh (s : Node) : Prop := {
  fresh_completed : n_completed s = [];
  fresh_messages : n_messages s = [];
  fresh_known : exists m, known P l0 B m s
}.

(** The actions of the threads of a node and of its user, in any order, none of
    them cut off for lack of fuel. *)
Definition node_step (s s' : Node) : Prop :=
  exists a, settles (fun walk => perform time shuffle indeterminate fuel P m_seed_mode m_network_id
                                   random_hash keypairs walk a) s (Returned () s').

Inductive node_reachable : Node -> Prop :=
  | node_constructed s : node_fresh s -> node_reachable s
  | node_steps s s' : node_reachable s -> node_step s s' -> node_reachable s'.

(** The constructor prunes the peers and makes a fresh node. *)
Lemma new_Node_fresh m p port identity gateway :
  surroundings_ok -> holds P l0 B m p ->
  exists enough, forall walk, (enough <= walk)%nat ->
    match new_Node time shuffle indeterminate fuel P walk p port identity gateway with
    | Returned _ s | Thrown s => node_fresh s
    | Undefined | OutOfFuel => False
    end.
Proof.
  intros [Ht Hsh Hg Hdb Hf] Hh. exists (S (size m)). intros walk Hw.
  pose proof (prune_spec time shuffle indeterminate fuel walk P l0 B Hsh Hg Hdb Hf m p Hh ltac:(lia)) as Hp.
  unfold new_Node. unfold runs in Hp. destruct (prune _ _ _ _ _ _ p) as [failed p'|p'| |]; try done.
  - split; [done|done|by eexists].
  - destruct Hp as (m' & Hp & _). split; [done|done|by exists m'].
Qed.

Lemma reachable_node_ok s : surroundings_ok -> node_reachable s -> node_ok P l0 B m_seed_mode m_network_id s.
Proof.
  intros [Ht Hsh Hg Hdb Hf]. induction 1 as [s [Hc Hm Hk]|s s' Hr IH [a Ha]].
  - split; [done|rewrite Hc; apply not_elem_of_nil|rewrite Hm; constructor].
  - destruct Ha as [n1 Ha].
    destruct (perform_ok time shuffle indeterminate fuel P l0 B m_seed_mode m_network_id random_hash
                keypairs Ht Hsh Hg Hdb Hf a s IH) as [n2 Hok].
    apply (Hok (Nat.max n1 n2) s'); [lia|]. apply Ha. lia.
Qed.

(** C5: Whatever the threads of a node and its user do, in whatever order, a data
    packet waits for processing only when it came from a peer whose handshake
    the server completed, which is not the node itself, for the node's network,
    in a version the node speaks, and never at a seed node; and the node's own
    id is never among its peers. *)
Theorem data_only_after_handshake s :
  surroundings_ok -> node_reachable s ->
  (forall msg, msg ∈ n_messages s ->
     m_seed_mode = false /\ da_network_id (msg_packet msg) = m_network_id /\
     msg_from msg ∈ n_completed s /\ msg_from msg <> sv_identity (n_server s) /\
     P2P.MINIMUM_VERSION <= packet_version (msg_packet msg)) /\
  sv_identity (n_server s) ∉ n_completed s /\
  exists m, known P l0 B m s /\ m !! m_peer_id P = None.
Proof.
  intros Henv Hr. destruct (reachable_node_ok s Henv Hr) as [[m Hk] Hc Hm].
  split; [by rewrite Forall_forall in Hm|]. split; [done|]. exists m. split; [done|].
  destruct Hk as (C & _ & HC). destruct (m !! _) as [q|] eqn:E; [|done].
  by destruct (represents_ok _ _ _ HC _ _ E) as (_ & _ & ?).
Qed.

(** C10: Whatever bytes a message holds and whoever sent it, on either side, its
    handling ends without an exception; replies only go to its sender, only
    that sender's handshake is remembered, and only on the server's side, what
    was received is left alone, and only an acceptable packet of that sender is
    queued for processing. *)
Theorem any_message_dealt_with (m : peer_map) message is_server s :
  surroundings_ok -> known P l0 B m s ->
  exists enough, forall walk, (enough <= walk)%nat ->
    runs (handle_incoming_message time shuffle indeterminate fuel P m_seed_mode m_network_id walk
            message is_server) s
      (fun _ s' => handled m_seed_mode m_network_id message is_server s s' /\ exists m', known P l0 B m' s')
      (fun _ => False).
Proof.
  intros [Ht Hsh Hg Hdb Hf] Hk. exists (S (size m + entries_in (env_payload message))). intros walk Hw.
  eapply runs_conseq; [by apply (handle_incoming_spec time shuffle indeterminate fuel P l0 B
    m_seed_mode m_network_id Ht Hsh Hg Hdb Hf walk message is_server m s Hk)|].
  cbn beta. intros _ s' (Hh & m' & Hk' & _). split; [done|by exists m'].
Qed.

(** C16: A handshake is ignored when it was completed before, comes from the node
    itself, speaks too old a version or has too many peers. Otherwise the node
    hands the sender, at the address it was seen at, and then every other peer
    that the packet names to [add]: the runs and their answers [es] are those of
    [brought], an entry whose answer is no error is known afterwards, nothing else
    is new and nothing is lost. As a server it then queues one reply for
    the sender, its own handshake with at most the permitted number of peers,
    all of which it knows, and remembers the sender. An exception is that of the
    address, which is none, of a run of [add], or of building the reply; then the
    sender is not answered and not remembered. *)
Theorem handshake_answered (m : peer_map) from seen_at packet is_server s :
  surroundings_ok -> known P l0 B m s ->
  u16 (hs_peer_port packet) -> Forall peer_wf (hs_peers packet) ->
  let sender := hs_peer_id packet in
  let port := hs_peer_port packet in
  let network := hs_network_id packet in
  let ps := hs_peers packet in
  let refused := handshake_refused P s from packet is_server in
  exists enough, forall walk, (enough <= walk)%nat ->
    let answer := build_handshake time shuffle P m_network_id walk in
    runs (handle_handshake time shuffle indeterminate fuel P m_network_id walk from seen_at packet is_server) s
      (fun _ s' => if decide refused then s' = s else exists m' es p1, known P l0 B m' s' /\
         brought time indeterminate fuel P seen_at sender port network ps m (n_peer_state s) es m' p1 /\
         (forall address, ip_address_of_string seen_at = Some address ->
            taken_up (offered time address sender port network ps (n_peer_state s)) m es m') /\
         if is_server
         then exists h, own_handshake P m_network_id s m' h /\
           answer (with_peers s p1) = Returned h (with_peers s (n_peer_state s')) /\
           s' = after s (n_peer_state s') (if_running s [envelope_to from h])
                  (sorted_insert key_ltb id from (n_completed s)) []
         else s' = with_peers s p1)
      (fun s' => ~ refused /\ exists m', known P l0 B m' s' /\ db_only s s' /\
         interrupted time indeterminate fuel P seen_at sender port network ps is_server answer m s m' s').
Proof.
  intros [Ht Hsh Hg Hdb Hf] Hk Hport Hps sender port network ps refused.
  exists (S (size m + 1 + List.length ps)). intros walk Hw answer.
  eapply runs_conseq; [by apply (handle_handshake_spec time shuffle indeterminate fuel P l0 B m_network_id
    Ht Hsh Hg Hdb Hf walk from seen_at packet is_server m s Hk Hport Hps)|].
  cbn beta. intros _ s'. fold refused. destruct (decide refused); [done|].
  intros (m' & es & p1 & Hk' & Hb & H). exists m', es, p1. split; [done|]. split; [done|]. split; [|done].
  by eapply brought_taken_up.
Qed.

(** C28: A turn of the poller ends, without an exception, and leaves every queue
    empty: the messages that the server had received, in their order and then
    those of each client, were each taken from the head of their queue and given
    to [handle_incoming_message], as one of the server's or of a client's; these
    are all the runs that were made, and what each could do to the node is that
    of a message that is dealt with. *)
Theorem poller_drains (m : peer_map) s :
  surroundings_ok -> known P l0 B m s -> clients_sorted s ->
  exists enough, forall walk, (enough <= walk)%nat ->
    runs (poller_turn time shuffle indeterminate fuel P m_seed_mode m_network_id walk) s
      (fun _ s' =>
         polled time shuffle indeterminate fuel P m_seed_mode m_network_id walk
           (from_server (sv_incoming (n_server s)) ++ from_clients (waiting s ((n_clients s).*1))) s s' /\
         sv_incoming (n_server s') = [] /\ (n_clients s').*1 = (n_clients s).*1 /\
         (forall id c, map_of (n_clients s') !! id = Some c -> cl_incoming c = []) /\
         exists m', known P l0 B m' s')
      (fun _ => False).
Proof.
  intros [Ht Hsh Hg Hdb Hf] Hk Hs.
  set (all := sv_incoming (n_server s) ++ waiting s ((n_clients s).*1)).
  exists (S (List.length all + size m + entries all)). intros walk Hw.
  eapply runs_conseq; [apply (poller_turn_spec time shuffle indeterminate fuel P l0 B m_seed_mode
    m_network_id Ht Hsh Hg Hdb Hf walk m s Hk Hs); fold all; cbn zeta; lia|].
  cbn beta. intros _ s' (H1 & H2 & H3 & Hp & H4). split; [exact Hp|]. split; [done|]. split; [done|].
  split; [|done]. intros id c E. specialize (H3 id). unfold queue_of in H3. by rewrite E in H3.
Qed.

(** A turn of the connection manager ends, and a node that has at most the
    number of outgoing connections it aims for still has at most that many. *)
Theorem connection_bound (m : peer_map) s :
  surroundings_ok -> known P l0 B m s ->
  let bounded s' := known P l0 B m s' /\ n_server s' = n_server s /\
    (vsize (n_clients s) <= P2P.DEFAULT_CONNECTION_COUNT ->
     vsize (n_clients s') <= P2P.DEFAULT_CONNECTION_COUNT) in
  exists enough, forall walk, (enough <= walk)%nat ->
    runs (connection_manager_turn time shuffle P m_seed_mode m_network_id random_hash keypairs walk) s
      (fun _ => bounded) bounded.
Proof.
  intros [Ht Hsh Hg Hdb Hf] Hk bounded. exists (S (size m)). intros walk Hw.
  assert (H : forall s', connected_more P l0 B (size m) m s s' /\
    (vsize (n_clients s) <= P2P.DEFAULT_CONNECTION_COUNT ->
     vsize (n_clients s') <= P2P.DEFAULT_CONNECTION_COUNT) -> bounded s').
  { intros s' ((E & K & _) & Hb). split; [done|]. split; [by rewrite E|done]. }
  eapply runs_weaken; [by apply (connection_manager_spec time shuffle P l0 B m_seed_mode m_network_id
    random_hash keypairs Hsh Hdb walk m s Hk)| |]; [intros []|]; exact H.
Qed.

(** One connection too many, and the number that is missing wraps around. *)
Lemma too_many_connections_wrap (n : Z) :
  P2P.DEFAULT_CONNECTION_COUNT < n < 2 ^ 64 ->
  wrap64 (P2P.DEFAULT_CONNECTION_COUNT - n) = 2 ^ 64 + P2P.DEFAULT_CONNECTION_COUNT - n.
Proof.
  intros Hn. unfold wrap64. rewrite <- (Z.mod_add _ 1) by done.
  rewrite Z.mod_small; unfold P2P.DEFAULT_CONNECTION_COUNT in *; cbn in *; lia.
Qed.
End NodeProps.

(** ** Samples and witnesses *)

Module NodeSamples.
#[local] Existing Instance toy_crypto.
#[local] Existing Instance PacketSamples.toy_ip.
#[local] Existing Instance PacketSamples.toy_ip_laws.
#[local] Existing Instance ZmqSamples.toy_zmq.
#[local] Existing Instance UpnpSamples.toy_upnp.
#[local] Existing Instance key_eq_dec.
#[local] Existing Instance key_countable.

Definition base_object : LMDB (CL := toy_crypto) (M := memdb) :=
  PeerSamples.object PeerSamples.known_contents mem_limit.

(** A node that was just constructed, one whose server has a message waiting,
    and the entropy of the clients it could make. *)
Definition with_messages (ms : list (zmq_message_envelope_t (CL := toy_crypto)))
  : Node (CL := toy_crypto) (M := memdb) (Q := ZmqSamples.toy_zmq) (U := UpnpSamples.toy_upnp) :=
  mk_Node true PeerSamples.state (set_incoming ms (ZmqSamples.server [] [])) [] [] [] 0.
Definition fresh := with_messages [].
Definition identities (n : nat) : crypto_hash_t (CryptoLib := toy_crypto) := x0a.
Definition no_keys (n : nat) : option (string * string) := None.
Definition network : crypto_hash_t (CryptoLib := toy_crypto) := x20.

(** A handshake of the peer [x07], which names no other peers. *)
Definition hello : packet_handshake_t (CL := toy_crypto) (IP := PacketSamples.toy_ip) :=
  new_handshake (x07 : crypto_hash_t) 12897 network.
Definition hello_message : zmq_message_envelope_t (CL := toy_crypto) :=
  mk_envelope (x05 : crypto_hash_t) (x09 : crypto_hash_t) key_default "127.0.0.1" (handshake_serialize hello).

(** A handshake of a peer that the node does not know yet. *)
Definition newcomer : packet_handshake_t (CL := toy_crypto) (IP := PacketSamples.toy_ip) :=
  new_handshake (x0b : crypto_hash_t) 12897 network.

(** What the server then knows of that peer. *)
Definition port_of_newcomer (greeted : bool) :
    prog (Node (CL := toy_crypto) (M := memdb) (Q := ZmqSamples.toy_zmq) (U := UpnpSamples.toy_upnp)) (bool * Z) :=
  (if greeted
   then handle_handshake PeerSamples.clock PeerSamples.in_order 0 1 PeerSamples.node network 10 x09 "127.0.0.1"
          newcomer true
   else mret ());;
  '(e, q) ← m_peer_db (get PeerSamples.clock PeerSamples.node (x0b : crypto_hash_t));
  mret (is_error e, peer_port q).

(** The server learns a peer that greets it. *)
Example newcomer_learned :
  observe id (port_of_newcomer false fresh) = Some (true, 0) /\
  observe id (port_of_newcomer true fresh) = Some (false, 12897).
Proof. by vm_compute. Qed.

Lemma newcomer_welcome : ~ handshake_refused PeerSamples.node fresh x09 newcomer true.
Proof.
  intros [[_ H]|[H|[H|[H|H]]]]; [by apply elem_of_nil in H|done|done| |];
    cbn in H; unfold P2P.MINIMUM_VERSION, P2P.VERSION, P2P.MAXIMUM_PEERS_EXCHANGED in H; lia.
Qed.

Lemma sample_surroundings :
  surroundings_ok PeerSamples.clock PeerSamples.in_order 1 PeerSamples.node base_object mem_limit.
Proof.
  split.
  - intros n. unfold PeerSamples.clock, uintw. lia.
  - done.
  - cbn. lia.
  - apply PeerSamples.peerlist_registered.
  - exact PeerSamples.one_step.
Qed.

Lemma sample_known ms : known PeerSamples.node base_object mem_limit PeerSamples.known (with_messages ms).
Proof. exact PeerSamples.peers_held. Qed.
End NodeSamples.

#[local] Existing Instance toy_crypto.
#[local] Existing Instance PacketSamples.toy_ip.
#[local] Existing Instance PacketSamples.toy_ip_laws.
#[local] Existing Instance ZmqSamples.toy_zmq.
#[local] Existing Instance UpnpSamples.toy_upnp.

Lemma data_only_after_handshake_witness :
  sv_identity (n_server NodeSamples.fresh) ∉ n_completed NodeSamples.fresh.
Proof.
  refine (proj1 (proj2 (data_only_after_handshake PeerSamples.clock PeerSamples.in_order 0 1
    PeerSamples.node NodeSamples.base_object mem_limit false NodeSamples.network NodeSamples.identities
    NodeSamples.no_keys NodeSamples.fresh NodeSamples.sample_surroundings _))).
  apply node_constructed. split; [done|done|].
  exists PeerSamples.known. apply NodeSamples.sample_known.
Defined.

Lemma any_message_dealt_with_witness :
  exists enough, forall walk, (enough <= walk)%nat ->
    runs (handle_incoming_message PeerSamples.clock PeerSamples.in_order 0 1 PeerSamples.node false
            NodeSamples.network walk NodeSamples.hello_message true) NodeSamples.fresh
      (fun _ s' => n_clients s' = []) (fun _ => False).
Proof.
  destruct (any_message_dealt_with PeerSamples.clock PeerSamples.in_order 0 1 PeerSamples.node
    NodeSamples.base_object mem_limit false NodeSamples.network PeerSamples.known
    NodeSamples.hello_message true NodeSamples.fresh NodeSamples.sample_surroundings
    (NodeSamples.sample_known [])) as [enough H].
  exists enough. intros walk Hw. eapply runs_conseq; [by apply H|].
  intros _ s' [Hh _]. apply handled_queues in Hh as [_ Hc]. exact Hc.
Defined.

Lemma handshake_answered_witness :
  exists enough, forall walk, (enough <= walk)%nat ->
    runs (handle_handshake PeerSamples.clock PeerSamples.in_order 0 1 PeerSamples.node
            NodeSamples.network walk x09 "127.0.0.1" NodeSamples.newcomer true) NodeSamples.fresh
      (fun _ s' => (x09 : crypto_hash_t) ∈ n_completed s' /\
         exists e (m' : gmap (crypto_hash_t (CryptoLib := toy_crypto)) network_peer_t),
           known PeerSamples.node NodeSamples.base_object mem_limit m' s' /\
           (is_error e = false -> is_Some (m' !! (x0b : crypto_hash_t))))
      (fun s' => n_completed s' = []).
Proof.
  destruct (handshake_answered PeerSamples.clock PeerSamples.in_order 0 1 PeerSamples.node
    NodeSamples.base_object mem_limit NodeSamples.network PeerSamples.known x09 "127.0.0.1"
    NodeSamples.newcomer true NodeSamples.fresh NodeSamples.sample_surroundings
    (NodeSamples.sample_known []) ltac:(unfold uintw; cbn; lia) ltac:(constructor)) as [enough H].
  exists enough. intros walk Hw. eapply runs_weaken; [by apply H| |]; cbn beta.
  - intros _ s'. rewrite decide_False by exact NodeSamples.newcomer_welcome.
    intros (m' & es & p1 & Hk & _ & Ht & h & _ & _ & E). split; [rewrite E; by left|].
    destruct (Ht _ eq_refl) as (Hl & Hin & _). destruct es as [|e es]; [done|].
    exists e, m'. split; [exact Hk|]. intros He. exact (Hin 0%nat _ e eq_refl eq_refl He).
  - intros s' (_ & m' & _ & Hd & _). unfold db_only in Hd. rewrite Hd. reflexivity.
Defined.

Lemma poller_drains_witness :
  exists enough, forall walk, (enough <= walk)%nat ->
    runs (poller_turn PeerSamples.clock PeerSamples.in_order 0 1 PeerSamples.node false
            NodeSamples.network walk) (NodeSamples.with_messages [NodeSamples.hello_message])
      (fun _ s' => sv_incoming (n_server s') = [] /\
         exists s1, taken NodeSamples.hello_message true (NodeSamples.with_messages [NodeSamples.hello_message]) s1 /\
           handle_incoming_message PeerSamples.clock PeerSamples.in_order 0 1 PeerSamples.node false
             NodeSamples.network walk NodeSamples.hello_message true s1 = Returned () s') (fun _ => False).
Proof.
  destruct (poller_drains PeerSamples.clock PeerSamples.in_order 0 1 PeerSamples.node
    NodeSamples.base_object mem_limit false NodeSamples.network PeerSamples.known
    (NodeSamples.with_messages [NodeSamples.hello_message]) NodeSamples.sample_surroundings
    (NodeSamples.sample_known _) ltac:(constructor)) as [enough H].
  exists enough. intros walk Hw. eapply runs_conseq; [by apply H|]. intros _ s' (Hp & H' & _).
  split; [exact H'|]. inversion Hp as [|? ? ? ? s1 s2 ? Ht Hr _ Hp']; subst. inversion Hp'; subst.
  exists s1. by split.
Defined.

Lemma connection_bound_witness :
  exists enough, forall walk, (enough <= walk)%nat ->
    runs (connection_manager_turn PeerSamples.clock PeerSamples.in_order PeerSamples.node false
            NodeSamples.network NodeSamples.identities NodeSamples.no_keys walk) NodeSamples.fresh
      (fun _ s' => vsize (n_clients s') <= 11) (fun s' => vsize (n_clients s') <= 11).
Proof.
  destruct (connection_bound PeerSamples.clock PeerSamples.in_order 1 PeerSamples.node
    NodeSamples.base_object mem_limit false NodeSamples.network NodeSamples.identities
    NodeSamples.no_keys PeerSamples.known NodeSamples.fresh NodeSamples.sample_surroundings
    (NodeSamples.sample_known [])) as [enough H].
  exists enough. intros walk Hw. eapply runs_weaken; [by apply H| |].
  - intros _ s' (_ & _ & Hb). apply Hb. unfold P2P.DEFAULT_CONNECTION_COUNT. cbn. lia.
  - intros s' (_ & _ & Hb). apply Hb. unfold P2P.DEFAULT_CONNECTION_COUNT. cbn. lia.
Defined.
