(* ===== verification/Network.v ===== *)
(** * Two nodes

    What one node sends, another understands: the packets of [Packets.v], the
    dispatch and the handlers of [Node.v] on both ends of a connection.  A message
    that a socket delivers arrives as an envelope with the identity of its sender,
    the address it came from and the bytes that were sent. *)

From S2P Require Import Prelude Errors Config CryptoLib Concrete Codec Packets Text Mdb MemDb Program.
From S2P Require Import Containers Upnp Zmq Lmdb Peers Node NodeSpecs.
From Stdlib Require Import Strings.Byte.
Import Configuration.

Section Delivery.
Context {CL : CryptoLib}.

(** What the other end queues when [e] reaches it: the identity of the receiving
    socket, the sender, its address, and the bytes. *)
Definition delivered (to from : crypto_hash_t) (host : string) (e : zmq_message_envelope_t)
  : zmq_message_envelope_t :=
  mk_envelope to from key_default host (env_payload e).
End Delivery.

(** ** One end *)

Section OneEnd.
Context {CL : CryptoLib} {IP : IPParser} {M : MDB} {Q : ZmqLib} {U : MiniUPnP}.
Context {Laws : MDBLaws M} {CLaws : MDBCursorLaws M} {Codec : CodecLaws CL} {IPL : IPParserLaws IP}.
Context {Empty : EmptyHashLaws CL}.

#[local] Existing Instance key_eq_dec.
#[local] Existing Instance key_countable.

Notation peer_map := (gmap crypto_hash_t network_peer_t).

Variables (time : nat -> Z) (shuffle : Z -> list network_peer_t -> list network_peer_t).
Variables (indeterminate : Z) (fuel : nat) (P : PeerDB) (l0 : LMDB) (B : Z).
Variables (m_seed_mode : bool) (m_network_id : crypto_hash_t).
Hypothesis Henv : surroundings_ok time shuffle fuel P l0 B.

Notation handle walk := (handle_incoming_message time shuffle indeterminate fuel P m_seed_mode m_network_id walk).
Notation known := (known P l0 B).

(** The bytes of a packet reach the handler of its type with what was sent. *)
Lemma handshake_understood walk to from host is_server (h : packet_handshake_t) s :
  handshake_wf h -> packet_l_type h = packet_type_value NETWORK_HANDSHAKE ->
  handle walk (delivered to from host (envelope_of h)) is_server s =
  try_catch (handle_handshake time shuffle indeterminate fuel P m_network_id walk from host h is_server) s.
Proof using Codec IPL Empty.
  intros Hwf Ht. unfold handle_incoming_message, delivered. cbn [env_payload env_from env_peer_address envelope_of envelope_to].
  pose proof (handshake_roundtrip h [] Hwf) as Hr. rewrite app_nil_r in Hr. cbn in Hr. cbn.
  unfold try_catch, mbind, prog_bind. rewrite Hr. unfold handshake_serialize at 1.
  destruct Hwf as [[Hu _] _]. rewrite peek_put_varint by (unfold uintw in *; lia). cbn. rewrite Ht. done.
Qed.

Lemma data_understood walk to from host is_server (p : packet_data_t) s :
  data_wf p -> packet_l_type p = packet_type_value NETWORK_DATA ->
  handle walk (delivered to from host (envelope_of p)) is_server s =
  try_catch (handle_data m_seed_mode m_network_id from host p is_server) s.
Proof using Codec IPL Empty.
  intros Hwf Ht. unfold handle_incoming_message, delivered. cbn [env_payload env_from env_peer_address envelope_of envelope_to].
  pose proof (data_roundtrip p [] Hwf) as Hr. rewrite app_nil_r in Hr. cbn in Hr. cbn.
  unfold try_catch, mbind, prog_bind. rewrite Hr. unfold data_serialize at 1.
  destruct Hwf as [[Hu _] _]. rewrite peek_put_varint by (unfold uintw in *; lia). cbn. rewrite Ht. done.
Qed.

(** Our own handshake can be sent and read back. *)
Lemma own_handshake_wf s m h :
  own_handshake P m_network_id s m h -> known m s -> u16 (sv_port (n_server s)) -> handshake_wf h.
Proof using.
  intros (Hb & _ & Hp & _ & Hn & Hin) (C & _ & HC) Hport. split.
  - unfold packet_base_wf. rewrite Hb. unfold uintw. cbn. unfold P2P.VERSION. lia.
  - rewrite Hp. split; [done|]. split.
    + unfold size_ok, uintw, P2P.MAXIMUM_PEERS_EXCHANGED in *. lia.
    + apply Forall_forall. intros p Hp'. by destruct (represents_ok _ _ _ HC _ _ (Hin _ Hp')) as (_ & ? & _).
Qed.

(** What a node learns from a handshake [h] that is seen to come from [host]: [add]
    was run for the sender and the peers it names, with the answers [es]. *)
Definition learns_from (host : string) (h : packet_handshake_t) (m : peer_map) (s : Node)
  (es : list ErrorCode) (m' : peer_map) (p' : peer_state) : Prop :=
  brought time indeterminate fuel P host (hs_peer_id h) (hs_peer_port h) (hs_network_id h) (hs_peers h)
    m (n_peer_state s) es m' p' /\
  forall address, ip_address_of_string host = Some address ->
    taken_up (offered time address (hs_peer_id h) (hs_peer_port h) (hs_network_id h) (hs_peers h)
                (n_peer_state s)) m es m'.

(** The run of [add] or the building of the answer that threw. *)
Definition fails_on (walk : nat) (host : string) (h : packet_handshake_t) (is_server : bool) (m : peer_map)
  (s : Node) (m' : peer_map) (s' : Node) : Prop :=
  db_only s s' /\
  interrupted time indeterminate fuel P host (hs_peer_id h) (hs_peer_port h) (hs_network_id h) (hs_peers h)
    is_server (build_handshake time shuffle P m_network_id walk) m s m' s'.

(** The server's side of a handshake: it learns and answers, or it is interrupted. *)
Lemma server_side m to from host h s :
  known m s -> handshake_wf h -> packet_l_type h = packet_type_value NETWORK_HANDSHAKE ->
  sv_running (n_server s) = true -> ~ handshake_refused P s from h true ->
  exists enough, forall walk, (enough <= walk)%nat ->
    runs (handle walk (delivered to from host (envelope_of h)) true) s
      (fun _ s' => exists m', known m' s' /\
         ((exists es p1 r, learns_from host h m s es m' p1 /\ own_handshake P m_network_id s m' r /\
             s' = after s (n_peer_state s') [envelope_to from r]
                    (sorted_insert key_ltb id from (n_completed s)) []) \/
          fails_on walk host h true m s m' s'))
      (fun _ => False).
Proof using Codec IPL CLaws Empty Henv.
  destruct Henv as [Ht Hsh Hg Hdb Hf]. intros Hk Hwf Htype Hrun Hno.
  exists (S (size m + 1 + List.length (hs_peers h))). intros walk Hw. unfold runs.
  rewrite handshake_understood by done. fold (runs (try_catch (handle_handshake time shuffle indeterminate fuel P
    m_network_id walk from host h true)) s).
  pose proof (handle_handshake_spec time shuffle indeterminate fuel P l0 B m_network_id Ht Hsh Hg Hdb Hf walk
    from host h true m s Hk (proj1 (proj2 Hwf)) (proj2 (proj2 (proj2 Hwf))) Hw) as Hs.
  apply runs_try. eapply runs_weaken; [exact Hs| |]; cbn beta.
  - intros _ s' H. rewrite decide_False in H by done. destruct H as (m' & es & p1 & Hk' & Hb & r & Hown & _ & E).
    exists m'. split; [done|]. left. exists es, p1, r.
    split; [split; [exact Hb|by eapply brought_taken_up]|]. split; [done|].
    unfold if_running in E. by rewrite Hrun in E.
  - intros s' (_ & m' & Hk' & Hd & Hb). exists m'. split; [done|]. right. by split.
Qed.

(** The client's side. *)
Lemma client_side m to from host r s :
  known m s -> handshake_wf r -> packet_l_type r = packet_type_value NETWORK_HANDSHAKE ->
  ~ handshake_refused P s from r false ->
  exists enough, forall walk, (enough <= walk)%nat ->
    runs (handle walk (delivered to from host (envelope_of r)) false) s
      (fun _ s' => exists m', known m' s' /\
         ((exists es p1, learns_from host r m s es m' p1 /\ s' = with_peers s p1) \/
          fails_on walk host r false m s m' s'))
      (fun _ => False).
Proof using Codec IPL CLaws Empty Henv.
  destruct Henv as [Ht Hsh Hg Hdb Hf]. intros Hk Hwf Htype Hno.
  exists (S (size m + 1 + List.length (hs_peers r))). intros walk Hw. unfold runs.
  rewrite handshake_understood by done. fold (runs (try_catch (handle_handshake time shuffle indeterminate fuel P
    m_network_id walk from host r false)) s).
  pose proof (handle_handshake_spec time shuffle indeterminate fuel P l0 B m_network_id Ht Hsh Hg Hdb Hf walk
    from host r false m s Hk (proj1 (proj2 Hwf)) (proj2 (proj2 (proj2 Hwf))) Hw) as Hs.
  apply runs_try. eapply runs_weaken; [exact Hs| |]; cbn beta.
  - intros _ s' H. rewrite decide_False in H by done. destruct H as (m' & es & p1 & Hk' & Hb & E).
    exists m'. split; [done|]. left. exists es, p1. split; [|done]. split; [exact Hb|by eapply brought_taken_up].
  - intros s' (_ & m' & Hk' & Hd & Hb). exists m'. split; [done|]. right. by split.
Qed.

(** Data is queued exactly when it is acceptable. *)
Lemma data_side walk to from host p s :
  data_wf p -> packet_l_type p = packet_type_value NETWORK_DATA ->
  runs (handle walk (delivered to from host (envelope_of p)) true) s
    (fun _ s' => n_messages s' = n_messages s ++
       if decide (acceptable m_seed_mode m_network_id s (mk_network_msg from p true))
       then [mk_network_msg from p true] else [])
    (fun _ => False).
Proof using Codec IPL Empty.
  intros Hwf Htype. unfold runs. rewrite data_understood by done.
  fold (runs (try_catch (handle_data m_seed_mode m_network_id from host p true)) s). apply runs_try.
  eapply runs_weaken; [apply handle_data_spec| |done]. cbn beta. intros _ s' ->.
  by case_decide; cbn; [|rewrite app_nil_r].
Qed.
End OneEnd.

(** ** Both ends *)

Section TwoNodes.
Context {CL : CryptoLib} {IP : IPParser} {M : MDB} {Q : ZmqLib} {U : MiniUPnP}.
Context {Laws : MDBLaws M} {CLaws : MDBCursorLaws M} {Codec : CodecLaws CL} {IPL : IPParserLaws IP}.
Context {Empty : EmptyHashLaws CL}.

#[local] Existing Instance key_eq_dec.
#[local] Existing Instance key_countable.

Notation peer_map := (gmap crypto_hash_t network_peer_t).

(** What a node runs with. *)
Record setting : Type := mk_setting {
  st_time : nat -> Z;
  st_shuffle : Z -> list network_peer_t -> list network_peer_t;
  st_indeterminate : Z;
  st_fuel : nat;
  st_peers : PeerDB;
  st_object : LMDB;
  st_size : Z;
  st_seed : bool;
  st_network : crypto_hash_t
}.

Definition setting_ok (c : setting) : Prop :=
  surroundings_ok (st_time c) (st_shuffle c) (st_fuel c) (st_peers c) (st_object c) (st_size c).
Definition node_knows (c : setting) (m : peer_map) (s : Node) : Prop :=
  known (st_peers c) (st_object c) (st_size c) m s.
Definition receives (c : setting) (walk : nat) (e : zmq_message_envelope_t) (is_server : bool) : prog Node () :=
  handle_incoming_message (st_time c) (st_shuffle c) (st_indeterminate c) (st_fuel c) (st_peers c) (st_seed c)
    (st_network c) walk e is_server.
Definition greets (c : setting) (m : peer_map) (s : Node) (h : packet_handshake_t) : Prop :=
  own_handshake (st_peers c) (st_network c) s m h.

Definition learns (c : setting) (host : string) (h : packet_handshake_t) (m : peer_map) (s : Node)
  (es : list ErrorCode) (m' : peer_map) (p' : peer_state) : Prop :=
  learns_from (st_time c) (st_indeterminate c) (st_fuel c) (st_peers c) host h m s es m' p'.
Definition interrupts (c : setting) (walk : nat) (host : string) (h : packet_handshake_t) (is_server : bool)
  (m : peer_map) (s : Node) (m' : peer_map) (s' : Node) : Prop :=
  fails_on (st_time c) (st_shuffle c) (st_indeterminate c) (st_fuel c) (st_peers c) (st_network c)
    walk host h is_server m s m' s'.

(** Two nodes: a client [a] whose socket has the identity [ida] and is seen at
    [hosta], and the server [b] at [hostb]. *)
Variables (ca cb : setting) (ida idb : crypto_hash_t) (hosta hostb : string).

(** What the nodes and the connection must satisfy: they speak the same version,
    so what can be refused is a node that is talking to itself; and the sockets
    show addresses that can be read. *)
Record can_meet (a b : Node) : Prop := {
  meet_ids : m_peer_id (st_peers ca) <> m_peer_id (st_peers cb);
  meet_ports : u16 (sv_port (n_server a)) /\ u16 (sv_port (n_server b));
  meet_running : sv_running (n_server b) = true;
  meet_server : ida <> sv_identity (n_server b);
  meet_client : idb <> sv_identity (n_server a);
  meet_new : ida ∉ n_completed b;
  meet_addresses : is_Some (ip_address_of_string hosta) /\ is_Some (ip_address_of_string hostb)
}.

(** The answer [r] reaches the client, which learns the server and its peers
    unless a call of its database throws;
    and data of the client is queued by the server from now on. *)
Definition met (ma : peer_map) (a b' : Node) (r : packet_handshake_t) : Prop :=
  (exists enough, forall walk, (enough <= walk)%nat ->
     runs (receives ca walk (delivered ida idb hostb (envelope_to ida r)) false) a
       (fun _ a' => exists ma', node_knows ca ma' a' /\
          ((exists es p1, learns ca hostb r ma a es ma' p1 /\ a' = with_peers a p1) \/
           interrupts ca walk hostb r false ma a ma' a'))
       (fun _ => False)) /\
  (forall walk p, st_seed cb = false -> data_wf p ->
     da_base p = new_packet_base NETWORK_DATA -> da_network_id p = st_network cb ->
     runs (receives cb walk (delivered (sv_identity (n_server b')) ida hosta (envelope_of p)) true) b'
       (fun _ b'' => n_messages b'' = n_messages b' ++ [mk_network_msg ida p true]) (fun _ => False)).

End TwoNodes.

(** ** Samples and witnesses *)

Module NetworkSamples.
#[local] Existing Instance toy_crypto.
#[local] Existing Instance PacketSamples.toy_ip.
#[local] Existing Instance PacketSamples.toy_ip_laws.
#[local] Existing Instance ZmqSamples.toy_zmq.
#[local] Existing Instance UpnpSamples.toy_upnp.
#[local] Existing Instance key_eq_dec.
#[local] Existing Instance key_countable.

Definition server_setting : setting (CL := toy_crypto) (M := memdb) :=
  mk_setting PeerSamples.clock PeerSamples.in_order 0 1 PeerSamples.node NodeSamples.base_object mem_limit
    false NodeSamples.network.

(** A client that was started for the first time. *)
Definition client_setting : setting (CL := toy_crypto) (M := memdb) :=
  mk_setting PeerSamples.clock PeerSamples.in_order 0 1 (mk_PeerDB PeerSamples.peerlist x0b)
    (PeerSamples.object ∅ mem_limit) mem_limit false NodeSamples.network.
Definition client : Node (CL := toy_crypto) (M := memdb) (Q := ZmqSamples.toy_zmq) (U := UpnpSamples.toy_upnp) :=
  mk_Node true (mk_peer_state (PeerSamples.object ∅ mem_limit) 0) (ZmqSamples.server [] []) [] [] [] 0.

Definition hello : packet_handshake_t (CL := toy_crypto) (IP := PacketSamples.toy_ip) :=
  new_handshake (x0b : crypto_hash_t) 12897 NodeSamples.network.

Lemma client_setting_ok : setting_ok client_setting.
Proof.
  split.
  - intros n. cbn. unfold PeerSamples.clock, uintw. lia.
  - done.
  - cbn. lia.
  - apply PeerSamples.peerlist_registered.
  - exact PeerSamples.one_step.
Qed.

Lemma client_known : node_knows client_setting ∅ client.
Proof.
  exists ∅. split; [apply PeerSamples.object_at_rest|]. split; [done..|].
  intros h p Hp. by rewrite lookup_empty in Hp.
Qed.

Lemma client_greets : greets client_setting ∅ client hello.
Proof.
  do 4 (split; [done|]). split; [by vm_compute|]. intros p Hp. by apply elem_of_nil in Hp.
Qed.

(** What the server has after the greeting: the clients it remembers, the answers
    it queued, and the port it knows for the client. *)
Definition after_greeting :
    prog (Node (CL := toy_crypto) (M := memdb) (Q := ZmqSamples.toy_zmq) (U := UpnpSamples.toy_upnp))
      (nat * nat * (bool * Z)) :=
  receives server_setting 10 (delivered x05 x09 "127.0.0.1" (envelope_of hello)) true;;
  s ← get_state;
  '(e, q) ← m_peer_db (get PeerSamples.clock PeerSamples.node (x0b : crypto_hash_t));
  mret (List.length (n_completed s), List.length (sv_outgoing (n_server s)), (is_error e, peer_port q)).

(** Here nothing interrupts the server: it learns the client and answers. *)
Example greeting_answered : observe id (after_greeting NodeSamples.fresh) = Some (1%nat, 1%nat, (false, 12897)).
Proof. by vm_compute. Qed.

Lemma nodes_can_meet :
  can_meet client_setting server_setting x09 x0c "127.0.0.1" "127.0.0.1" client NodeSamples.fresh.
Proof.
  split; [done|split; cbn; unfold uintw; lia|done|done|done| |].
  - intros H. by apply elem_of_nil in H.
  - by split; eexists.
Qed.
End NetworkSamples.

#[local] Existing Instance toy_crypto.
#[local] Existing Instance PacketSamples.toy_ip.
#[local] Existing Instance PacketSamples.toy_ip_laws.
#[local] Existing Instance ZmqSamples.toy_zmq.
#[local] Existing Instance UpnpSamples.toy_upnp.

