(* ===== verification/PeerRestart.v ===== *)
(** * A node across a restart

    The peers that a node stored and its own identity are there for the node of
    a later process that opens the file: the constructors of [Process.v], the
    wrapper of [Lmdb.v], the peer database of [Peers.v] and the constructor of
    [Node.v] put together.  The same theorem with an empty file describes a first
    start and a start after [--reset]. *)

From S2P Require Import Prelude Errors Config CryptoLib Concrete Codec Packets Text Mdb MemDb Program Containers.
From S2P Require Import Upnp Zmq Lmdb Peers Process ProcessSpecs Node NodeSpecs.
From Stdlib Require Import Strings.Byte.

Section PeerRestart.
Context {CL : CryptoLib} {IP : IPParser} {M : MDB} {O : MDBOpen M}.
Context {Laws : MDBLaws M} {OLaws : MDBOpenLaws M O} {CLaws : MDBCursorLaws M} {HL : HashStringLaws CL}.
Context {Codec : CodecLaws CL} {IPL : IPParserLaws IP} {Empty : EmptyHashLaws CL}.
Context {Q : ZmqLib} {U : MiniUPnP}.
#[local] Existing Instance key_eq_dec.
#[local] Existing Instance key_countable.

#[local] Existing Instance opens_preorder.

Notation peer_map := (gmap crypto_hash_t network_peer_t).

(** The hashes of the names do not collide. *)
Hypothesis Hnames : NoDup (name_id <$> database_names).

Variables (indeterminate : Z) (fuel : nat).
Hypothesis Hfuel : mapsize_limit < Z.of_nat fuel.

(** ** What a file holds *)

(** The peers [m] and the identity [own], as the records under the two names;
    a file without an identity gives the node the one that is drawn. *)
Record file_holds (F : option string -> bytes -> option bytes) (drawn own : crypto_hash_t) (m : peer_map)
  : Prop := {
  file_entries : forall h, F (Some "peerlist"%string) (put_key h) = peer_serialize <$> m !! h;
  file_keys : forall k v, F (Some "peerlist"%string) k = Some v -> exists h : crypto_hash_t, k = put_key h;
  file_peers_ok : forall h p, m !! h = Some p -> peer_id p = h /\ peer_wf p /\ h <> own;
  file_identity : F (Some "local"%string) (put_key PEER_ID_IDENTIFIER) = Some (put_key own) \/
                  F (Some "local"%string) (put_key PEER_ID_IDENTIFIER) = None /\ drawn = own
}.

(** ** Opening *)

Lemma new_PeerDB_frame N peerlist local drawn l :
  env_frame N l ->
  may (new_PeerDB indeterminate fuel peerlist local drawn) l (fun _ => env_frame N) (env_frame N).
Proof using.
  intros H. unfold new_PeerDB. apply may_bind.
  eapply may_weaken; [by apply db_get_as_frame| |done]. cbn. intros [error value] l1 H1.
  apply may_bind. by eapply may_weaken; [apply db_put_frame| |].
Qed.

(** The constructor keeps the list of peers and has the identity of the file. *)
Lemma new_PeerDB_found peerlist local drawn own l e :
  env_ok l e -> registered l local -> m_dbi peerlist <> m_dbi local ->
  (env_contents e !! (m_dbi local, put_key PEER_ID_IDENTIFIER) = Some (put_key own) \/
   env_contents e !! (m_dbi local, put_key PEER_ID_IDENTIFIER) = None /\ drawn = own) ->
  runs (new_PeerDB indeterminate fuel peerlist local drawn) l
    (fun P l' => exists e', env_ok l' e' /\ older l l' /\ m_database P = peerlist /\ m_peer_id P = own /\
       (forall k, env_contents e' !! (m_dbi peerlist, k) = env_contents e !! (m_dbi peerlist, k)) /\
       (env_contents e !! (m_dbi local, put_key PEER_ID_IDENTIFIER) = Some (put_key own) ->
        env_contents e' !! (m_dbi local, put_key PEER_ID_IDENTIFIER) = Some (put_key own)))
    (fun l' => exists e', env_ok l' e' /\ older l l').
Proof using Codec Hfuel.
  intros Hok Hdb Hne Hid. pose proof (env_ok_rest _ _ Hok) as Hr. pose proof (mapsize_range e).
  assert (Hframe : env_frame (handles (env_side e)) l) by (exists e; destruct Hok; by split_and!).
  eapply runs_weaken.
  { eapply runs_may; [|by apply new_PeerDB_frame].
    apply (peer_identity_kept indeterminate fuel l (env_mapsize e) peerlist local drawn own
             (env_contents e) l (ok_growth _ _ Hok) Hdb Hr); [lia|].
    destruct Hid as [E|(E & _)]; rewrite E; [by right|by left]. }
  - cbn. intros P l' [(HP & Hown & C' & Hr' & HC) Hf']. destruct (rest_env_ok _ _ _ _ _ Hok Hr' Hf') as (e' & Hok' & Hold).
    exists e'. split; [done|]. split; [done|]. split; [done|]. split.
    { rewrite Hown. destruct Hid as [E|(E & Ed)]; rewrite E; done. }
    pose proof (rest_env _ _ _ _ _ Hr') as (e2 & He2 & HC2 & _).
    assert (e2 = e') as -> by (pose proof (ok_env _ _ Hok'); congruence).
    rewrite HC2. split.
    + intros k. destruct HC as [-> | ->]; [done|]. by rewrite lookup_insert_ne by congruence.
    + intros Hs. destruct HC as [-> | ->]; [done|]. rewrite lookup_insert_eq, Hown, Hs. done.
  - cbn. intros l' [Hr' Hf']. by eapply rest_env_ok.
Qed.

(** What a process that opened the database has at its environment. *)
Definition peers_there (p : process) (d : peerdb_object) (own : crypto_hash_t) (m : peer_map) : Prop :=
  m_peer_id (po_peerdb d) = own /\
  exists l e, environment p (po_env d) l e /\ is_named l ("peerlist"%string, m_database (po_peerdb d)) /\
    represents (po_peerdb d) (env_contents e) m.

(** The identity is stored in the environment that the peers are in. *)
Definition identity_stored (p : process) (d : peerdb_object) : Prop := exists l e local,
  environment p (po_env d) l e /\ is_named l ("local"%string, local) /\
  env_contents e !! (m_dbi local, put_key PEER_ID_IDENTIFIER) = Some (put_key (m_peer_id (po_peerdb d))).

Lemma make_PeerDB_found path drawn own m p :
  environments_ok p -> can_open path MDB_NOSUBDIR 8 p -> p_instances p !! name_id path = None ->
  file_holds (file_contents (p_world p) path) drawn own m ->
  runs (make_PeerDB indeterminate fuel path drawn) p
    (fun d p' => opens p p' /\ peers_there p' d own m /\
       (file_contents (p_world p) path (Some "local"%string) (put_key PEER_ID_IDENTIFIER) = Some (put_key own) ->
        identity_stored p' d)) (opens p).
Proof using Hnames HL OLaws Codec IPL Empty Hfuel.
  intros Hp Hopen Hnone [Fe Fk Fo Fi]. unfold make_PeerDB, LMDB_instance_default. apply runs_bind.
  eapply runs_weaken; [by apply LMDB_instance_spec| |done].
  cbn. intros a p1 (Ho1 & l0 & e0 & Hp1 & _ & Hfresh). destruct (Hfresh Hnone) as (_ & _ & Hdisk & _).
  assert (H0 : opened p1 a l0 e0 []) by (exists l0, e0; split_and!; try done; constructor).
  eapply (open_next Hnames); [exact H0|by apply (bool_decide_unpack _)| |intros; by etrans].
  intros peerlist p2 Ho2 H2.
  eapply (open_next Hnames); [exact H2|by apply (bool_decide_unpack _)| |intros; by do 2 etrans].
  intros local p3 Ho3 (l & e & Hl & Hold & Hsame & Hdbs). pose proof (proj2 (proj2 Hl)) as Hok. cbn [app] in Hdbs.
  assert (Hat : forall name db k, (name, db) ∈ [("peerlist"%string, peerlist); ("local"%string, local)] ->
    env_contents e !! (m_dbi db, k) = file_contents (p_world p) path (Some name) k).
  { intros name db k Hin. rewrite (opened_contents _ _ _ _ _ _ _ Hsame Hdbs Hin), Hdisk; [done|].
    intros ->. set_solver. }
  pose proof (opened_registered _ _ _ Hok Hdbs) as Hreg. cbn in Hreg.
  rewrite !Forall_cons in Hreg. destruct Hreg as (_ & Hlocal & _).
  pose proof (opened_distinct Hnames _ _ _ Hok Hdbs ltac:(by apply (bool_decide_unpack _))) as Hnd.
  cbn in Hnd. apply NoDup_cons in Hnd as [Hni _]. apply runs_bind.
  eapply runs_weaken.
  { eapply (runs_at_lmdb _ _ _ _ _ (fun P _ e' => m_database P = peerlist /\ m_peer_id P = own /\
      (forall k, env_contents e' !! (m_dbi peerlist, k) = env_contents e !! (m_dbi peerlist, k)) /\
      (env_contents e !! (m_dbi local, put_key PEER_ID_IDENTIFIER) = Some (put_key own) ->
       env_contents e' !! (m_dbi local, put_key PEER_ID_IDENTIFIER) = Some (put_key own)))); [exact Hl|].
    eapply new_PeerDB_found; [exact Hok|exact Hlocal|set_solver|]. rewrite (Hat "local"%string local) by set_solver. exact Fi. }
  2: cbn; intros p' Ho; by do 3 etrans.
  cbn. intros P p' (Ho & l' & e' & Hl' & Hold' & HP & Hown & Hsee & Hkept). apply runs_ret. split; [by do 3 etrans|].
  rewrite !Forall_cons in Hdbs. destruct Hdbs as (Hdp & Hdl & _). split; [split; [done|]|].
  2: { intros Hstored. exists l', e', local. split; [done|]. cbn. rewrite Hown. split.
       - eapply is_named_older; [exact Hold'|]. by eapply is_database_named.
       - apply Hkept. rewrite (Hat "local"%string local) by set_solver. exact Hstored. }
  exists l', e'. split; [done|]. cbn. rewrite HP. split.
  - eapply is_named_older; [exact Hold'|].
    by eapply is_database_named.
  - assert (Hpeers : forall k, env_contents e' !! (m_dbi peerlist, k) =
                               file_contents (p_world p) path (Some "peerlist"%string) k)
      by (intros k; rewrite Hsee; apply Hat; set_solver).
    split; rewrite ?HP.
    + intros h. by rewrite Hpeers.
    + intros k v. rewrite Hpeers. apply Fk.
    + rewrite Hown. exact Fo.
Qed.

Lemma is_named_registered l e name db : env_ok l e -> is_named l (name, db) -> registered l db.
Proof using. intros Hok [Hdb _]. by eapply named_registered. Qed.

(** The first opening of a path finds what its file holds. *)
Theorem peerdb_found path drawn own m p :
  process_ok p -> can_open path MDB_NOSUBDIR 8 p -> p_instances p !! name_id path = None ->
  p_peerdbs p !! name_id path = None ->
  file_holds (file_contents (p_world p) path) drawn own m ->
  runs (PeerDB_instance indeterminate fuel path drawn) p
    (fun d p' => process_ok p' /\ peers_there p' d own m /\
       (file_contents (p_world p) path (Some "local"%string) (put_key PEER_ID_IDENTIFIER) = Some (put_key own) ->
        identity_stored p' d))
    (fun p' => process_ok p' /\ p_peerdbs p' = p_peerdbs p).
Proof using Hnames HL OLaws Codec IPL Empty Hfuel.
  intros Hp Hopen Hnone Hnew HF. unfold PeerDB_instance. apply runs_bind, runs_get, runs_bind.
  rewrite Hnew, bool_decide_eq_false_2 by by apply eq_None_not_Some. apply runs_bind.
  eapply runs_weaken; [by apply make_PeerDB_found; [apply Hp|..]| |].
  2: intros p' Ho; split; [by eapply process_ok_opens|apply (opens_peerdbs _ _ Ho)].
  cbn. intros d p1 (Ho & Hthere & Hid). pose proof (process_ok_opens _ _ Hp Ho) as [He Hss HE Hd].
  apply runs_bind, runs_get, runs_put, runs_bind, runs_get. cbn. rewrite lookup_insert_eq. apply runs_ret.
  pose proof Hthere as (Hown & l & e & Hl & Hnamed & Hrep).
  assert (Hin : peerdb_in p1 d).
  { exists l, e. split; [exact Hl|]. eapply is_named_registered; [apply Hl|exact Hnamed]. }
  split; [split; [exact He|exact Hss|exact HE|]|by split].
  cbn. intros id d' [[_ <-]|[_ Hd']]%lookup_insert_Some; [exact Hin|exact (Hd _ _ Hd')].
Qed.

(** ** The next node *)

(** A process [q] that starts with the file of the environment at [a] of [p]
    as LMDB leaves it: with everything that was committed. *)
Definition follows (p : process) (a : nat) (path : string) (q : process) : Prop :=
  process_ok q /\ p_instances q !! name_id path = None /\ p_peerdbs q !! name_id path = None /\
  forall l e, environment p a l e -> file_contents (p_world q) path = disk (env_side e).

(** The file of such an environment holds its peers and its identity. *)
Lemma left_in_file p d own m path q drawn :
  peers_there p d own m -> identity_stored p d -> follows p (po_env d) path q ->
  file_holds (file_contents (p_world q) path) drawn own m.
Proof using Hnames.
  intros (Hown & l & e & He & Hpl & [Re Rk Ro]) (l2 & e2 & local & He2 & Hlo & Hid) (_ & _ & _ & Hfile).
  assert (l2 = l) as -> by (destruct He, He2; congruence).
  assert (e2 = e) as ->.
  { destruct He as (_ & _ & Hok), He2 as (_ & _ & Hok2). pose proof (ok_env _ _ Hok). pose proof (ok_env _ _ Hok2). congruence. }
  rewrite (Hfile _ _ He). pose proof (proj2 (proj2 He)) as Hok.
  assert (Hdisk : forall name db k, name ∈ database_names -> name <> EmptyString -> is_named l (name, db) ->
    disk (env_side e) (Some name) k = env_contents e !! (m_dbi db, k)).
  { intros name db k Hn Hne Hdb. destruct (named_is_database Hnames _ _ (name, db) Hok Hn Hdb) as (_ & _ & Hh).
    rewrite (handles_reach _ _ _ _ Hh). unfold handle_name. cbn. by rewrite bool_decide_eq_false_2. }
  assert (Hpeers : forall k, disk (env_side e) (Some "peerlist"%string) k =
    env_contents e !! (m_dbi (m_database (po_peerdb d)), k))
    by (intros k; apply Hdisk; [by apply (bool_decide_unpack _)|done|exact Hpl]).
  split.
  - intros h. by rewrite Hpeers.
  - intros k v. rewrite Hpeers. apply Rk.
  - rewrite <- Hown. exact Ro.
  - left. rewrite <- Hown, <- Hid. by apply Hdisk; [by apply (bool_decide_unpack _)|done|].
Qed.

Variables (time : nat -> Z) (shuffle : Z -> list network_peer_t -> list network_peer_t).
Hypothesis clock : forall n, u64 (time n).
Hypothesis reorders : forall seed l, shuffle seed l ≡ₚ l.

(** The constructor of a node over the peer database of a process. *)
Definition node_of (walk : nat) (d : peerdb_object) (port : Z) (identity : crypto_hash_t)
  (gateway : gateway_t) (p : process) : outcome Node () :=
  match p_lmdbs p !! po_env d with
  | None => Undefined
  | Some l => new_Node time shuffle indeterminate fuel (po_peerdb d) walk (mk_peer_state l 0) port identity gateway
  end.

(** What a new node knows of the peers [m] of its file: all that are not stale. *)
Definition starts_with (m : peer_map) (d : peerdb_object) l (B : Z) (n : Node) : Prop :=
  exists m', known (po_peerdb d) l B m' n /\ m' ⊆ m /\
    forall h p, m !! h = Some p -> ~ stale (time 1) p -> m' !! h = Some p.

Lemma pruned_between now failed m :
  pruned now failed m ⊆ m /\
  forall h p, m !! h = Some p -> ~ stale now p -> pruned now failed m !! h = Some p.
Proof using.
  split; [apply map_filter_subseteq|]. intros h p Hm Hns. apply map_lookup_filter_Some. split; [done|].
  by intros [Hs _].
Qed.

Lemma node_starts p d own m l e walk port identity gateway :
  peers_there p d own m -> environment p (po_env d) l e -> (size m < walk)%nat ->
  match node_of walk d port identity gateway p with
  | Returned _ n | Thrown n => starts_with m d l (env_mapsize e) n
  | Undefined | OutOfFuel => False
  end.
Proof using CLaws Codec IPL Empty clock reorders Hfuel.
  intros (_ & l2 & e2 & He2 & Hpl & Hrep) He Hw.
  assert (l2 = l) as -> by (destruct He, He2; congruence).
  pose proof (proj2 (proj2 He)) as Hok. pose proof (proj2 (proj2 He2)) as Hok2.
  assert (e2 = e) as -> by (pose proof (ok_env _ _ Hok); pose proof (ok_env _ _ Hok2); congruence).
  unfold node_of. rewrite (proj1 He). unfold new_Node.
  assert (mapsize_limit - env_mapsize e < Z.of_nat fuel) as Hf by (pose proof (mapsize_range e); lia).
  assert (Hh : holds (po_peerdb d) l (env_mapsize e) m (mk_peer_state l 0))
    by (exists (env_contents e); split; [by apply env_ok_rest|exact Hrep]).
  pose proof (prune_spec time shuffle indeterminate fuel walk (po_peerdb d) l (env_mapsize e) reorders
    (ok_growth _ _ Hok) (is_named_registered _ _ _ _ Hok Hpl) Hf m _ Hh Hw) as Hp.
  unfold runs in Hp. destruct (prune _ _ _ _ _ _ _) as [failed s|s| |]; try done.
  - exists (pruned (time 1) failed m). split; [exact Hp|apply pruned_between].
Qed.

(** C19: A node survives a restart: when a process had a peer database with the
    peers [m] and its identity stored, the peer database that a later process
    opens on the file has the same identity, and a node constructed over it knows
    all those peers that are not stale, whether the pruning in its constructor
    fails or not; opening ends with the database or with an exception that leaves
    the process in order, unless LMDB refuses to open the file ([can_open]). *)
Theorem restart_keeps_peers path drawn p d own m q :
  peers_there p d own m -> identity_stored p d -> follows p (po_env d) path q ->
  can_open path MDB_NOSUBDIR 8 q ->
  runs (PeerDB_instance indeterminate fuel path drawn) q
    (fun d' q' => process_ok q' /\ m_peer_id (po_peerdb d') = m_peer_id (po_peerdb d) /\
       exists l e, environment q' (po_env d') l e /\
         forall port identity gateway walk, (size m < walk)%nat ->
           match node_of walk d' port identity gateway q' with
           | Returned _ n | Thrown n => starts_with m d' l (env_mapsize e) n
           | Undefined | OutOfFuel => False
           end)
    process_ok.
Proof using Hnames HL OLaws CLaws Codec IPL Empty clock reorders Hfuel.
  intros Hthere Hstored Hq Hopen. pose proof (left_in_file _ _ _ _ _ _ drawn Hthere Hstored Hq) as HF.
  destruct Hq as (Hok & Hnone & Hnew & _).
  eapply runs_weaken; [by apply (peerdb_found path drawn own m)| |by intros q' []].
  cbn. intros d' q' (Hok' & Hthere' & _). split; [done|]. pose proof Hthere' as (Hown & l & e & He & _).
  split; [by rewrite Hown, (proj1 Hthere)|]. exists l, e. split; [done|].
  intros port identity gateway walk Hw. by eapply node_starts.
Qed.
End PeerRestart.

(** ** Samples and witnesses *)

Module PeerRestartSamples.
#[local] Existing Instance toy_crypto.
#[local] Existing Instance PacketSamples.toy_ip.
#[local] Existing Instance PacketSamples.toy_ip_laws.
#[local] Existing Instance key_eq_dec.
#[local] Existing Instance key_countable.

Definition peerlist : LMDBDatabase (CL := toy_crypto) :=
  mk_LMDBDatabase (name_id "peerlist") (mem_handle (Some "peerlist"%string)).
Definition local_info : LMDBDatabase (CL := toy_crypto) :=
  mk_LMDBDatabase (name_id "local") (mem_handle (Some "local"%string)).
Definition database : peerdb_object (CL := toy_crypto) :=
  mk_peerdb_object (name_id "net") 0 (mk_PeerDB peerlist x06).

(** The two peers of [PeerSamples.known], and the identity. *)
Definition peer_records : contents :=
  <[ (m_dbi peerlist, put_key (x08 : crypto_hash_t)) := peer_serialize PeerSamples.old_peer ]>
    (<[ (m_dbi peerlist, put_key (x07 : crypto_hash_t)) := peer_serialize PeerSamples.fresh_peer ]> ∅).
Definition records : contents :=
  <[ (mem_handle (Some "local"%string), put_key PEER_ID_IDENTIFIER) := put_key (x06 : crypto_hash_t) ]> peer_records.

Definition environment_object : LMDB (CL := toy_crypto) (M := memdb) :=
  mk_LMDB (name_id "net") 8 (Some (mk_mem_env records (8 * LMDB_SPACE_MULTIPLIER)))
    (<[ (name_id "peerlist" : crypto_hash_t) := peerlist ]>
       (<[ (name_id "local" : crypto_hash_t) := local_info ]> ∅)) 0.

Definition first_process : process (CL := toy_crypto) (M := memdb) :=
  mk_process (∅ : world) [environment_object] {[ (name_id "net" : crypto_hash_t) := 0%nat ]} ∅ ∅ ∅.

Definition next_process : process (CL := toy_crypto) (M := memdb) :=
  mk_process ({[ "net"%string := records ]} : world) [] ∅ ∅ ∅ ∅.

Lemma first_environment : exists e, environment first_process 0 environment_object e /\ env_contents e = records.
Proof.
  exists (mk_mem_env records (8 * LMDB_SPACE_MULTIPLIER)). split; [|exact eq_refl].
  split; [exact eq_refl|]. split; [apply lookup_singleton_eq|]. split; try exact eq_refl.
  - cbn. lia.
  - intros id db. cbn [environment_object m_databases].
    intros [[<- <-]|[_ [[<- <-]|[_ H]]%lookup_insert_Some]]%lookup_insert_Some.
    + exists "peerlist"%string. split; [by apply (bool_decide_unpack _)|]. by split_and!.
    + exists "local"%string. split; [by apply (bool_decide_unpack _)|]. by split_and!.
    + by rewrite lookup_empty in H.
Qed.

Lemma records_represented : represents (mk_PeerDB peerlist x06) records PeerSamples.known.
Proof.
  assert (peer_wf PeerSamples.fresh_peer) as Hfresh by (apply PacketSamples.peer_sample_wf; unfold uintw; lia).
  assert (peer_wf PeerSamples.old_peer) as Hold by (apply PacketSamples.peer_sample_wf; unfold uintw; lia).
  set (P := mk_PeerDB peerlist x06).
  assert (H0 : represents (CL := toy_crypto) P ∅ ∅).
  { split; [done..|]. intros h p Hp. by rewrite lookup_empty in Hp. }
  pose proof (represents_insert (CL := toy_crypto) P _ _ (x07 : crypto_hash_t) PeerSamples.fresh_peer H0
    eq_refl Hfresh ltac:(done)) as H1.
  pose proof (represents_insert (CL := toy_crypto) P _ _ (x08 : crypto_hash_t) PeerSamples.old_peer H1
    eq_refl Hold ltac:(done)) as [He Hk Hok].
  assert (mem_handle (Some "local"%string) <> m_dbi peerlist) as Hne by (intros [=]%mem_handle_inj).
  assert (Hsee : forall k, records !! (m_dbi peerlist, k) = peer_records !! (m_dbi peerlist, k))
    by (intros k; unfold records; by rewrite lookup_insert_ne by congruence).
  split; [| |exact Hok]; cbn [m_database]; intros k.
  - rewrite Hsee. apply He.
  - intros v. rewrite Hsee. apply Hk.
Qed.

Lemma peers_in_first : peers_there first_process database x06 PeerSamples.known.
Proof.
  destruct first_environment as (e & He & HC). split; [exact eq_refl|]. exists environment_object, e.
  split; [exact He|]. split; [split; [apply lookup_insert_eq|exact eq_refl]|]. rewrite HC. exact records_represented.
Qed.

Lemma identity_in_first : identity_stored first_process database.
Proof.
  destruct first_environment as (e & He & HC). exists environment_object, e, local_info.
  split; [exact He|]. split; [split; [|exact eq_refl]|].
  - cbn [environment_object m_databases]. rewrite lookup_insert_ne; [apply lookup_insert_eq|].
    by apply (bool_decide_unpack _).
  - rewrite HC. apply lookup_insert_eq.
Qed.

Lemma next_follows : follows first_process 0 "net" next_process.
Proof.
  split; [split; intros ? ? H; cbn in H; by rewrite lookup_empty in H|]. split; [apply lookup_empty|].
  split; [apply lookup_empty|]. intros l e (Ha & _ & Hok). cbn in Ha. injection Ha as <-.
  pose proof (ok_env _ _ Hok) as E. cbn in E. injection E as <-.
  change (disk (mem_side (({[ "net"%string := records ]} : gmap string contents) !!! "net"%string)) =
          disk (mem_side records)).
  by rewrite lookup_total_singleton.
Qed.

(** As many retries as the map can grow by bytes. *)
Definition enough_retries : nat := Z.to_nat (mem_limit + 1).

Lemma retries_suffice : mapsize_limit (M := memdb) < Z.of_nat enough_retries.
Proof. unfold enough_retries. change (mapsize_limit (M := memdb)) with mem_limit. rewrite Z2Nat.id; unfold mem_limit; lia. Qed.
End PeerRestartSamples.

#[local] Existing Instance toy_crypto.
#[local] Existing Instance PacketSamples.toy_ip.
#[local] Existing Instance PacketSamples.toy_ip_laws.
#[local] Existing Instance ZmqSamples.toy_zmq.
#[local] Existing Instance UpnpSamples.toy_upnp.

(** The next node has the identity of the first and knows the peer that was seen
    two hours before. *)
Lemma restart_keeps_peers_witness :
  runs (PeerDB_instance 0 PeerRestartSamples.enough_retries "net" x09) PeerRestartSamples.next_process
    (fun d' q' => process_ok q' /\ m_peer_id (po_peerdb d') = x06 /\
       exists l e, environment q' (po_env d') l e /\
         forall port identity gateway walk, (size PeerSamples.known < walk)%nat ->
           match node_of 0 PeerRestartSamples.enough_retries PeerSamples.clock PeerSamples.in_order walk d' port
                   identity gateway q' with
           | Returned _ n | Thrown n => starts_with PeerSamples.clock PeerSamples.known d' l (env_mapsize e) n
           | Undefined | OutOfFuel => False
           end)
    process_ok.
Proof.
  refine (restart_keeps_peers (CL := toy_crypto) (M := memdb) ProcessSamples.names_apart 0
    PeerRestartSamples.enough_retries PeerRestartSamples.retries_suffice PeerSamples.clock PeerSamples.in_order
    _ _ "net" x09 PeerRestartSamples.first_process PeerRestartSamples.database x06 PeerSamples.known
    PeerRestartSamples.next_process PeerRestartSamples.peers_in_first PeerRestartSamples.identity_in_first
    PeerRestartSamples.next_follows (ProcessSamples.any_file_opens "net" MDB_NOSUBDIR 8 _)).
  - intros n. unfold PeerSamples.clock, uintw. lia.
  - done.
Defined.
