(* ===== verification/SeedNode.v ===== *)
(** * The seed node

    [src/src/seed_node/node.cpp]: the program that runs a node in seed mode
    behind a console.  What the command line gives (the seed nodes, the port, the
    path of the peer database) is an argument here, and comes from [SeedMain.v];
    log lines are dropped. *)

From S2P Require Import Prelude Errors Config CryptoLib Packets Mdb Text Program Containers Upnp Lmdb.
From S2P Require Import Console Peers Zmq Node.
From Stdlib Require Import Strings.Ascii.
Import Configuration.

(** ** Numbers *)

(** The digits of [std::to_string], from the last one. *)
Fixpoint last_digits (fuel : nat) (n : Z) (digits : chars) : chars :=
  match fuel with
  | O => digits
  | S fuel' =>
      let digits' := ascii_of_N (Z.to_N (48 + n mod 10)) :: digits in
      if n / 10 =? 0 then digits' else last_digits fuel' (n / 10) digits'
  end.

(** Twenty digits are enough for 64 bits. *)
Definition std_to_string (n : Z) : chars := last_digits 20 n [].

(** [CLIHelper::get_version]. *)
Definition get_version : chars :=
  to_chars "v" ++ std_to_string Version.MAJOR ++ to_chars "." ++ std_to_string Version.MINOR ++
  to_chars "." ++ std_to_string Version.PATCH ++ to_chars " (" ++ std_to_string Version.BUILD ++
  to_chars ")".

(** ** Lemmas: numbers *)

Lemma decimal_cons c l : decimal (c :: l) = digit_value c * 10 ^ vsize l + decimal l.
Proof.
  assert (H : forall l n, fold_left (fun n c => 10 * n + digit_value c) l n = n * 10 ^ vsize l + decimal l).
  { clear. unfold decimal. induction l as [|c l IH]; intros n; [cbn; lia|]. cbn [fold_left].
    rewrite IH, (IH (10 * 0 + _)). change (List.length (c :: l)) with (S (List.length l)).
    rewrite Nat2Z.inj_succ, Z.pow_succ_r by lia. ring. }
  unfold decimal at 1. cbn [fold_left]. rewrite H. ring.
Qed.

Lemma digit_read_back n : 0 <= n < 10 ->
  digit_value (ascii_of_N (Z.to_N (48 + n))) = n /\ is_digit (ascii_of_N (Z.to_N (48 + n))) = true.
Proof.
  intros H.
  assert (Forall (fun k => digit_value (ascii_of_N (Z.to_N (48 + k))) = k /\
                           is_digit (ascii_of_N (Z.to_N (48 + k))) = true) (seqZ 0 10)) as Hall
    by (apply (bool_decide_unpack _); vm_compute; exact I).
  rewrite Forall_forall in Hall. apply Hall, elem_of_seqZ. lia.
Qed.

Lemma last_digits_S fuel n ds :
  last_digits (S fuel) n ds =
    let ds' := ascii_of_N (Z.to_N (48 + n mod 10)) :: ds in
    if n / 10 =? 0 then ds' else last_digits fuel (n / 10) ds'.
Proof. reflexivity. Qed.

Lemma last_digits_spec fuel n ds :
  0 <= n < 10 ^ Z.of_nat (S fuel) -> Forall (fun c => is_digit c = true) ds ->
  let l := last_digits (S fuel) n ds in
  decimal l = n * 10 ^ vsize ds + decimal ds /\ Forall (fun c => is_digit c = true) l /\ l <> [].
Proof.
  revert n ds. induction fuel as [|fuel IH]; intros n ds Hn Hds;
    pose proof (Z.mod_pos_bound n 10 ltac:(lia)) as Hm; pose proof (Z.div_mod n 10 ltac:(lia)) as Hdm;
    destruct (digit_read_back (n mod 10) Hm) as [Hv Hd];
    set (c := ascii_of_N (Z.to_N (48 + n mod 10))) in *.
  - assert (n / 10 = 0) as Hz by (apply Z.div_small; cbn in Hn; lia).
    rewrite last_digits_S, Hz, Z.eqb_refl. fold c. cbn zeta. rewrite decimal_cons, Hv. split; [|split; [by constructor|done]].
    f_equal. f_equal. lia.
  - rewrite last_digits_S. fold c. cbn zeta. destruct (Z.eqb_spec (n / 10) 0) as [Hz|Hz].
    + rewrite decimal_cons, Hv. split; [|split; [by constructor|done]]. f_equal. f_equal. lia.
    + destruct (IH (n / 10) (c :: ds)) as (H1 & H2 & H3); [|by constructor|].
      { rewrite (Nat2Z.inj_succ (S fuel)), Z.pow_succ_r in Hn by lia. split; [apply Z.div_pos; lia|].
        apply Z.div_lt_upper_bound; lia. }
      split; [|done]. rewrite H1, decimal_cons, Hv.
      change (List.length (c :: ds)) with (S (List.length ds)). rewrite Nat2Z.inj_succ, Z.pow_succ_r by lia. nia.
Qed.

(** A number of 64 bits is what its digits say. *)
Lemma numbers_read_back n : 0 <= n < 2 ^ 64 ->
  decimal (std_to_string n) = n /\ Forall (fun c => is_digit c = true) (std_to_string n) /\ std_to_string n <> [].
Proof.
  intros Hn. destruct (last_digits_spec 19 n []) as (H1 & H2 & H3); [lia|constructor|].
  split; [|done]. unfold std_to_string. rewrite H1. cbn. lia.
Qed.

Section SeedNode.
Context {CL : CryptoLib} {IP : IPParser} {M : MDB} {Q : ZmqLib} {U : MiniUPnP}.

#[local] Existing Instance key_eq_dec.
#[local] Existing Instance key_countable.

(** The variables that the commands refer to: the node and the logger's level. *)
Record seed_app : Type := mk_seed_app { sa_node : Node; sa_level : logging_level }.

Variables (time : nat -> Z) (shuffle : Z -> list network_peer_t -> list network_peer_t).
Variables (indeterminate : Z) (fuel : nat) (P : PeerDB) (m_network_id : crypto_hash_t).
Variables (random_hash : nat -> crypto_hash_t) (keypairs : nat -> option (string * string)).
Variable walk : nat.

Definition on_node {A} : prog Node A -> app_prog (A := seed_app) A :=
  zoom (fun s => sa_node s.1) (fun n s => (mk_seed_app n (sa_level s.1), s.2)).

(** [Utilities::print_table(rows, true)]. *)
Definition print_rows (table : option (list token)) : app_prog (A := seed_app) () :=
  ts ← deref table;
  s ← get_state;
  put_state (s.1, s.2 ++ ts).

(** ** The commands *)

Definition status : app_prog (A := seed_app) () :=
  s ← get_state;
  let server := sa_node s.1 in
  incoming ← on_node incoming_connections;
  outgoing ← on_node outgoing_connections;
  known ← on_node (m_peer_db (count walk P));
  let rows :=
    [(to_chars "Item", to_chars "Value");
     (to_chars "Version", get_version);
     (to_chars "P2P Version", std_to_string P2P.VERSION);
     (to_chars "Minimum P2P Version", std_to_string P2P.MINIMUM_VERSION);
     (to_chars "Peer ID", to_chars (hash_to_string (node_peer_id P)));
     (to_chars "Port", std_to_string (node_port server));
     (to_chars "Incoming Connections", std_to_string incoming);
     (to_chars "Outgoing Connections", std_to_string outgoing);
     (to_chars "Known Peers", std_to_string known)] ++
    (if bool_decide (node_external_address server = EmptyString) then []
     else [(to_chars "External IP", to_chars (node_external_address server))]) in
  print_rows (print_table2 rows true).

Definition incoming_connections_command : app_prog (A := seed_app) () :=
  s ← get_state;
  print_rows (print_table1 (to_chars "Address" :: (to_chars <$> incoming_connected (sa_node s.1))) true).

Definition outgoing_connections_command : app_prog (A := seed_app) () :=
  s ← get_state;
  print_rows (print_table1 (to_chars "Address" :: (to_chars <$> outgoing_connected (sa_node s.1))) true).

Definition peer_row (peer : network_peer_t) : chars * chars * chars :=
  (to_chars (hash_to_string (peer_id peer)),
   to_chars (ip_to_string (peer_address peer)) ++ to_chars ":" ++ std_to_string (peer_port peer),
   std_to_string (last_seen peer)).

Definition peers_command : app_prog (A := seed_app) () :=
  ps ← on_node (m_peer_db (peers time shuffle walk P 0 key_default));
  match ps with
  | [] => mret ()
  | _ => print_rows (print_table3
           ((to_chars "Peer ID", to_chars "IP:Port", to_chars "Last Seen") :: (peer_row <$> ps)) true)
  end.

Definition prune_peers : app_prog (A := seed_app) () :=
  on_node (m_peer_db (prune time shuffle indeterminate fuel walk P));; mret ().

Definition set_log (args : list chars) : app_prog (A := seed_app) () := fun s =>
  match args with
  | [] => Returned () s
  | arg :: _ =>
      match get_log_level_of_string arg with
      | Some new_level => Returned () (mk_seed_app (sa_node s.1) new_level, s.2)
      | None => Returned () s
      end
  end.

Definition seed_commands : list (chars * chars * callback_t (A := seed_app)) :=
  [(to_chars "status", to_chars "Displays the current node status", Plain status);
   (to_chars "incoming_connections", to_chars "Displays the current incoming connections",
    Plain incoming_connections_command);
   (to_chars "outgoing_connections", to_chars "Displays the current outgoing connections",
    Plain outgoing_connections_command);
   (to_chars "peers", to_chars "Prints the full list of known peers", Plain peers_command);
   (to_chars "prune_peers", to_chars "Performs a pruning of our peer list", Plain prune_peers);
   (to_chars "set_log", to_chars "Sets the log level to <#>", WithArguments set_log)].

(** ** The program *)

(** The console of a program whose node was just made. *)
Definition seed_console (a : seed_app) : console :=
  mk_console (registrations (to_chars (Version.PROJECT_NAME ++ " Seed Node")) seed_commands) a [] [].

(** [main] from the call of [start]: the exit code, or nothing while the
    console waits for another line. *)
Definition main (seed_nodes : list string) (readings : list reading)
  : prog (console (A := seed_app)) (option Z) :=
  error ← on_app (on_node (start time shuffle P true m_network_id random_hash keypairs walk
                             seed_nodes));
  if is_error error then mret (Some 1)
  else
    waits ← run readings;
    if waits : bool then mret None
    else on_app (on_node stop);; mret (Some 0).
(** ** Theorems *)

(** The part of a node that is not the peer database. *)
Definition network_of (a : seed_app) :
  bool * ZMQServer * list (crypto_hash_t * ZMQClient) * list crypto_hash_t * list network_msg_t * nat :=
  let n := sa_node a in
  (n_running n, n_server n, n_clients n, n_completed n, n_messages n, n_made n).

Notation shown := (fun s : seed_app * list token => network_of s.1).

Lemma keeps_node_reading {A} (m : prog Node A) :
  keeps (fun n => network_of (mk_seed_app n level_off)) m -> keeps shown (on_node m).
Proof using.
  intros H. apply (keeps_zoom_in _ (fun n => network_of (mk_seed_app n level_off))); [exact H|].
  by intros n [a out].
Qed.

Lemma keeps_peer_db {A} (m : peer_prog A) : keeps shown (on_node (m_peer_db m)).
Proof using. apply keeps_node_reading. apply keeps_zoom. intros t n. reflexivity. Qed.

Lemma keeps_print table : keeps shown (print_rows table).
Proof using. by destruct table; intros s. Qed.

(** Counting connections changes nothing. *)
Lemma keeps_counts :
  keeps shown (on_node incoming_connections) /\ keeps shown (on_node outgoing_connections).
Proof using.
  split; apply keeps_node_reading; intros [? ? [] ? ? ? ?]; reflexivity.
Qed.

(** Whatever is typed into the console of a seed node, its sockets, its queues
    and its set of handshakes stay as they are: the commands reach the peer
    database and the log level alone. *)
Theorem console_keeps_network readings a :
  may (run readings) (seed_console a)
    (fun _ s => network_of (c_app s) = network_of a) (fun s => network_of (c_app s) = network_of a).
Proof using.
  eapply run_keeps; [|reflexivity]. apply registrations_from with (R := callback_keeps network_of).
  destruct keeps_counts as [Hin Hout].
  unfold seed_commands. rewrite !Forall_cons. cbn [callback_keeps snd].
  split; [|split; [|split; [|split; [|split; [|split; [|by apply Forall_nil]]]]]].
  - apply keeps_bind; [apply keeps_get|]. intros s. apply keeps_bind; [exact Hin|]. intros incoming.
    apply keeps_bind; [exact Hout|]. intros outgoing. apply keeps_bind; [apply keeps_peer_db|].
    intros known. apply keeps_print.
  - apply keeps_bind; [apply keeps_get|]. intros s. apply keeps_print.
  - apply keeps_bind; [apply keeps_get|]. intros s. apply keeps_print.
  - apply keeps_bind; [apply keeps_peer_db|]. intros [|p ps]; [apply keeps_ret|apply keeps_print].
  - apply keeps_bind; [apply keeps_peer_db|]. intros ps. apply keeps_ret.
  - intros [|arg args] [[n level] out]; cbn; [done|]. by destruct (get_log_level_of_string arg).
Qed.
(** [set_log] with a number sets the level of that number, if there is one. *)
Theorem set_log_number level args a out :
  0 <= level < 2 ^ 31 ->
  set_log (std_to_string level :: args) (a, out) =
    Returned () (match get_log_level level with
                 | Some new_level => mk_seed_app (sa_node a) new_level
                 | None => a
                 end, out).
Proof using.
  intros Hl. destruct (numbers_read_back level) as (Hd & Hdigits & Hne); [lia|].
  unfold set_log, get_log_level_of_string. rewrite stoi_digits by (done || lia). rewrite Hd. cbn [mbind option_bind].
  rewrite wrap64_id by (unfold uintw; lia). by destruct (get_log_level level).
Qed.
End SeedNode.
