(* ===== verification/Printers.v ===== *)
(** * Printing

    The stream operators of [src/include] and of [src/src/errors/errors.h], and
    [to_string] of an envelope: the text each writes.  The operators of the keys,
    signatures and proofs are the cryptography library's, the class [PrintLib].
    The theorems say what can be told from a text. *)

From S2P Require Import Prelude Errors Config CryptoLib Codec Concrete Packets Text TxBase TxUser TxSystem Block.
From S2P Require Import Mdb MemDb Program Lmdb Staking Forms SeedNode.
From Stdlib Require Import Strings.Ascii Strings.Byte.

Class PrintLib {CL : CryptoLib} : Type := {
  print_key : forall {K} `{Key K}, K -> chars;
  print_clsag : crypto_clsag_signature_t -> chars;
  print_bulletproof : crypto_bulletproof_plus_t -> chars
}.

Definition newline : ascii := ascii_of_nat 10.
Definition tab : ascii := ascii_of_nat 9.

(** A label and a value behind some tabs, to the end of the line. *)
Definition labelled (tabs : nat) (label : string) (value : chars) : chars :=
  repeat tab tabs ++ to_chars label ++ value ++ [newline].

(** The first line: a title and a number of bytes. *)
Definition titled (tabs : nat) (title : string) (size : Z) : chars :=
  labelled tabs title (std_to_string size ++ to_chars " bytes]").

(** [std::to_string] of an [int]. *)
Definition int_to_string (n : Z) : chars :=
  if n <? 0 then to_chars "-" ++ std_to_string (- n) else std_to_string n.

Section Printers.
Context {CL : CryptoLib} {IP : IPParser} {HL : HexLib} {PL : PrintLib}.

Notation number := std_to_string.
Definition hex (bs : bytes) : chars := to_chars (to_hex bs).

(** ** Outputs *)

Definition print_output (o : TransactionOutput) : chars :=
  labelled 1 "Transaction Output" [] ++
  labelled 2 "Hash: " (print_key (TransactionOutput_hash o)) ++
  labelled 2 "Public Ephemeral: " (print_key (public_ephemeral o)) ++
  labelled 2 "Amount: " (number (amount o)) ++
  labelled 2 "Commitment: " (print_key (commitment o)).

Definition print_staker_output (o : StakerOutput) : chars :=
  labelled 1 "Staker Output" [] ++
  labelled 2 "Staker ID: " (print_key (staker_output_id o)) ++
  labelled 2 "Amount: " (number (staker_output_amount o)).

(** Each output is followed by an empty line, each key is on a line. *)
Definition print_outputs (os : list TransactionOutput) : chars :=
  flat_map (fun o => print_output o ++ [newline]) os.
Definition print_staker_outputs (os : list StakerOutput) : chars :=
  flat_map (fun o => print_staker_output o ++ [newline]) os.
Definition print_key_rows {K} `{Key K} (ks : list K) : chars := flat_map (fun k => labelled 2 "" (print_key k)) ks.

(** ** System transactions *)

Definition print_genesis (tx : genesis_transaction_t) : chars :=
  titled 0 "Genesis Transaction [" (genesis_size tx) ++
  labelled 1 "Hash: " (print_key (genesis_hash tx)) ++
  labelled 1 "Version: " (number (version tx)) ++
  labelled 1 "Unlock Block: " (number (unlock_block tx)) ++
  labelled 1 "Public Key: " (print_key (public_key tx)) ++
  labelled 1 "Secret Key: " (print_key (genesis_secret_key tx)) ++
  labelled 1 "Outputs:" [] ++
  print_outputs (genesis_outputs tx).

Definition print_staker (tx : staker_transaction_t) : chars :=
  titled 0 "Staker Transaction [" (staker_size tx) ++
  labelled 1 "Hash: " (print_key (staker_hash tx)) ++
  labelled 1 "Version: " (number (version tx)) ++
  labelled 1 "Outputs:" [] ++
  print_staker_outputs (staker_outputs tx) ++
  labelled 1 "Penalties:" [] ++
  print_staker_outputs (staker_penalties tx).

Definition print_refund (tx : stake_refund_transaction_t) : chars :=
  titled 0 "Stake Refund Transaction [" (refund_size tx) ++
  labelled 1 "Hash: " (print_key (refund_hash tx)) ++
  labelled 1 "Version: " (number (version tx)) ++
  labelled 1 "Unlock Block: " (number (unlock_block tx)) ++
  labelled 1 "Public Key: " (print_key (public_key tx)) ++
  labelled 1 "Secret key: " (print_key (refund_secret_key tx)) ++
  labelled 1 "Recall Stake Tx: " (print_key (refund_recall_stake_tx tx)) ++
  [newline] ++ labelled 1 "Outputs:" [] ++
  print_outputs (refund_outputs tx).

(** ** User transactions

    What the six operators have in common: the five hashes with the zeros of the
    last one, the members of the prefix and the body, the lists of the body, and
    the end of the uncommitted forms. *)

Definition print_hashes (hash digest signature_hash range_proof_hash pow_hash : crypto_hash_t) : chars :=
  labelled 1 "Hash: " (print_key hash) ++
  labelled 1 "Digest: " (print_key digest) ++
  labelled 1 "Signature Hash: " (print_key signature_hash) ++
  labelled 1 "Range Proof Hash: " (print_key range_proof_hash) ++
  labelled 1 "PoW Hash: " (print_key pow_hash) ++
  labelled 1 "PoW Zeros: " (number (leading_zeros pow_hash)).

Definition print_members (p : TransactionPrefix) (b : TransactionUserBody) : chars :=
  labelled 1 "Version: " (number (version p)) ++
  labelled 1 "Unlock Block: " (number (unlock_block p)) ++
  labelled 1 "Public Key: " (print_key (public_key p)) ++
  labelled 1 "Nonce: " (number (nonce b)) ++
  labelled 1 "Fee: " (number (fee b)).

Definition print_lists (b : TransactionUserBody) : chars :=
  labelled 1 "Input Key Images:" [] ++ print_key_rows (key_images b) ++
  [newline] ++ labelled 1 "Outputs:" [] ++ print_outputs (outputs b).

Definition print_suffix (s : UncommittedTransactionSuffix) : chars :=
  labelled 1 "Ring Participants:" [] ++ print_key_rows (ring_participants s) ++
  flat_map (fun signature => print_clsag signature ++ [newline]) (signatures s) ++
  print_bulletproof (range_proof s) ++ [newline].

Definition print_stake_data (d : StakeTransactionData) : chars :=
  labelled 1 "Stake Amount: " (number (stake_amount d)) ++
  labelled 1 "Candidate Public Key: " (print_key (candidate_public_key d)) ++
  labelled 1 "Staker Public View Key: " (print_key (staker_public_view_key d)) ++
  labelled 1 "Staker Public Spend Key: " (print_key (staker_public_spend_key d)).

Definition print_recall_data (d : RecallStakeTransactionData) : chars :=
  labelled 1 "Staker Recall Amount: " (number (recall_stake_amount d)) ++
  labelled 1 "Candidate Public Key: " (print_key (recall_candidate_public_key d)) ++
  labelled 1 "Staker ID: " (print_key (staker_id d)) ++
  labelled 1 "Staker View Signature: " (print_key (view_signature d)) ++
  labelled 1 "Staker Spend Signature: " (print_key (spend_signature d)) ++ [newline].

Definition print_committed_normal (tx : committed_normal_transaction_t) : chars :=
  titled 0 "Committed Normal Transaction [" (committed_normal_size tx) ++
  print_hashes (committed_normal_hash tx) (committed_normal_digest tx) (signature_hash tx) (range_proof_hash tx)
    (committed_normal_pow_hash tx) ++
  print_members tx tx ++ print_lists tx ++
  labelled 1 "Extra: " (hex (extra tx)).

Definition print_committed_stake (tx : committed_stake_transaction_t) : chars :=
  titled 0 "Committed Stake Transaction [" (committed_stake_size tx) ++
  print_hashes (committed_stake_hash tx) (committed_stake_digest tx) (signature_hash tx) (range_proof_hash tx)
    (committed_stake_pow_hash tx) ++
  print_members tx tx ++ print_lists tx ++ print_stake_data tx.

(** Only here there is a label for offsets, with nothing below it. *)
Definition print_committed_recall (tx : committed_recall_stake_transaction_t) : chars :=
  titled 0 "Committed Recall Stake Transaction [" (committed_recall_size tx) ++
  print_hashes (committed_recall_hash tx) (committed_recall_digest tx) (signature_hash tx) (range_proof_hash tx)
    (committed_recall_pow_hash tx) ++
  print_members tx tx ++ labelled 1 "Input Offsets:" [] ++ print_lists tx ++ print_recall_data tx.

Definition print_uncommitted_normal (tx : uncommited_normal_transaction_t) : chars :=
  titled 0 "Uncommitted Normal Transaction [" (uncommitted_normal_size tx) ++
  labelled 1 "Committed Size: " (number (uncommitted_normal_committed_size tx) ++ to_chars " bytes") ++
  print_hashes (uncommitted_normal_hash tx) (uncommitted_normal_digest tx) (uncommitted_signature_hash tx)
    (uncommitted_range_proof_hash tx) (uncommitted_normal_pow_hash tx) ++
  print_members tx tx ++ print_lists tx ++
  labelled 1 "Extra: " (hex (extra tx)) ++ [newline] ++ print_suffix tx.

Definition print_uncommitted_stake (tx : uncommitted_stake_transaction_t) : chars :=
  titled 0 "Uncommitted Stake Transaction [" (uncommitted_stake_size tx) ++
  labelled 1 "Committed Size: " (number (uncommitted_stake_committed_size tx) ++ to_chars " bytes") ++
  print_hashes (uncommitted_stake_hash tx) (uncommitted_stake_digest tx) (uncommitted_signature_hash tx)
    (uncommitted_range_proof_hash tx) (uncommitted_stake_pow_hash tx) ++
  print_members tx tx ++ print_lists tx ++ print_stake_data tx ++ [newline] ++ print_suffix tx.

Definition print_uncommitted_recall (tx : uncommitted_recall_stake_transaction_t) : chars :=
  titled 0 "Uncommitted Recall Stake Transaction [" (uncommitted_recall_size tx) ++
  labelled 1 "Committed Size: " (number (uncommitted_recall_committed_size tx) ++ to_chars " bytes") ++
  print_hashes (uncommitted_recall_hash tx) (uncommitted_recall_digest tx) (uncommitted_signature_hash tx)
    (uncommitted_range_proof_hash tx) (uncommitted_recall_pow_hash tx) ++
  print_members tx tx ++ print_lists tx ++ print_recall_data tx ++ print_suffix tx.

(** ** Blocks *)

Definition print_reward (r : block_transaction_t) : chars :=
  match r with Reward_genesis tx => print_genesis tx | Reward_staker tx => print_staker tx end.

Definition print_block (b : block_t) : chars :=
  titled 0 "Block [" (block_size b) ++
  labelled 1 "Hash: " (print_key (block_hash b)) ++
  labelled 1 "Version: " (number (block_version b)) ++
  labelled 1 "Previous Block Hash: " (print_key (previous_blockhash b)) ++
  labelled 1 "Timestamp: " (number (block_timestamp b)) ++
  labelled 1 "Block Index: " (number (block_index b)) ++
  [newline] ++ print_reward (reward_tx b) ++
  [newline; newline] ++ labelled 1 "Block Transactions:" [] ++ print_key_rows (block_transactions b) ++
  labelled 1 "Producer Public Key: " (print_key (producer_public_key b)) ++
  labelled 1 "Producer Signature: " (print_key (producer_signature b)) ++
  labelled 1 "Validators:" [] ++
  flat_map (fun '(public_key, signature) =>
    labelled 2 "Public Key: " (print_key public_key) ++ labelled 2 "Signature: " (print_key signature) ++ [newline])
    (validator_signatures b).

(** ** Staking records *)

(** The line of the assigned validations shows the assigned productions. *)
Definition print_candidate (c : candidate_node_t) : chars :=
  labelled 0 "Candidate Node [v" (number (candidate_record_version c) ++ to_chars "]") ++
  labelled 1 "Public Signing Key: " (print_key (candidate_signing_key c)) ++
  labelled 1 "Public View Key: " (print_key (candidate_view_key c)) ++
  labelled 1 "Public Spend Key: " (print_key (candidate_spend_key c)) ++
  labelled 1 "Initial Stake: " (number (initial_stake c)) ++
  labelled 1 "Block Productions Assigned: " (number (block_production_assigned c)) ++
  labelled 1 "Blocks Produced: " (number (blocks_produced c)) ++
  labelled 1 "Block Validations Assigned: " (number (block_production_assigned c)) ++
  labelled 1 "Blocks Validated: " (number (blocks_validated c)).

Definition print_stake (s : stake_t) : chars :=
  labelled 0 "Stake [v" (number (stake_record_version s) ++ to_chars "]") ++
  labelled 0 "Staker ID: " (print_key (stake_id s)) ++
  labelled 0 "Candidate Public Key: " (print_key (stake_candidate_key s)) ++
  labelled 0 "Staker Public View Key: " (print_key (stake_view_key s)) ++
  labelled 0 "Staker Public Spend Key: " (print_key (stake_spend_key s)) ++
  labelled 0 "Stake Amount: " (number (stake s)).

(** ** Network structures *)

Definition print_ip (a : ip_address_t) : chars := to_chars (ip_to_string a).

Definition print_peer (p : network_peer_t) : chars :=
  titled 1 "Peer Entry: [" (peer_size p) ++
  labelled 2 "Peer ID: " (print_key (peer_id p)) ++
  labelled 2 "IP Address: " (print_ip (peer_address p)) ++
  labelled 2 "Port: " (number (peer_port p)) ++
  labelled 1 "Network ID: " (print_key (peer_network_id p)) ++
  labelled 2 "Last Seen: " (number (last_seen p)).

Definition print_base (b : NetworkPacketBase) : chars :=
  labelled 1 "Type: " (number (packet_l_type b)) ++ labelled 1 "Version: " (number (packet_version b)).

Definition print_peers (ps : list network_peer_t) : chars :=
  labelled 1 "Peers: " [] ++ flat_map (fun p => print_peer p ++ [newline]) ps.

Definition print_data (p : packet_data_t) : chars :=
  titled 0 "Data Packet [" (data_size p) ++ print_base p ++
  labelled 1 "Network ID: " (print_key (da_network_id p)) ++
  labelled 1 "Payload: " (hex (da_payload p)).

Definition print_keepalive (p : packet_keepalive_t) : chars :=
  titled 0 "Keepalive Packet [" (keepalive_size p) ++ print_base p ++
  labelled 1 "Peer ID: " (print_key (ka_peer_id p)).

Definition print_handshake (p : packet_handshake_t) : chars :=
  titled 0 "Handshake Packet [" (handshake_size p) ++ print_base p ++
  labelled 1 "Peer ID: " (print_key (hs_peer_id p)) ++
  labelled 1 "Peer Port: " (number (hs_peer_port p)) ++
  labelled 1 "Peer Network ID: " (print_key (hs_network_id p)) ++
  print_peers (hs_peers p).

Definition print_exchange (p : packet_peer_exchange_t) : chars :=
  titled 0 "Peer Exchange Packet [" (exchange_size p) ++ print_base p ++
  labelled 1 "Peer ID: " (print_key (ex_peer_id p)) ++
  labelled 1 "Peer Port: " (number (ex_peer_port p)) ++
  labelled 1 "Peer Network ID: " (print_key (ex_network_id p)) ++
  print_peers (ex_peers p).

(** [to_string] of an envelope, which its operator writes. *)
Definition envelope_to_string (e : zmq_message_envelope_t) : chars :=
  titled 0 "ZMQ Message Envelope [" (envelope_size e) ++
  labelled 0 "To: " (print_key (env_to e)) ++
  labelled 0 "From: " (print_key (env_from e)) ++
  labelled 0 "Subject: " (print_key (env_subject e)) ++
  labelled 0 "Peer Address: " (to_chars (env_peer_address e)) ++
  labelled 0 "Payload [" (number (vsize (env_payload e)) ++ to_chars " bytes]: " ++ hex (env_payload e)).

(** ** Errors *)

Definition print_error (e : Error) : chars :=
  (if negb (String.eqb (m_file_name e) EmptyString)
   then to_chars (m_file_name e) ++ to_chars " L#" ++ number (m_line_number e) ++ to_chars " "
   else []) ++
  to_chars "Error #" ++ int_to_string (int_of_code (m_error_code e)) ++ to_chars ": " ++
  to_chars (Error_to_string e).
End Printers.

(** The text of a key has no line break and tells the key; digits have no line
    break either. *)
Class PrintLaws {CL : CryptoLib} (HL : HexLib) (PL : PrintLib) : Prop := {
  print_key_line : forall K `{Key K} (k : K), newline ∉ print_key k;
  print_key_inj : forall K `{Key K} `{!KeyLaws K} (k k' : K), print_key k = print_key k' -> k = k';
  hex_line : forall bs, newline ∉ to_chars (to_hex bs)
}.

(** ** Lemmas *)

#[local] Arguments labelled : simpl never.
#[local] Arguments titled : simpl never.
#[local] Arguments std_to_string : simpl never.

Section PrintFacts.
Context {CL : CryptoLib} {IP : IPParser} {HL : HexLib} {PL : PrintLib}.
Context {Codec : CodecLaws CL} {Hex : HexLaws HL} {Laws : PrintLaws HL PL}.

Lemma until_newline (v v' r r' : chars) :
  newline ∉ v -> newline ∉ v' -> v ++ newline :: r = v' ++ newline :: r' -> v = v' /\ r = r'.
Proof using.
  revert v'. induction v as [|c v IH]; intros [|c' v'] Hv Hv' E; cbn in E; rewrite ?not_elem_of_cons in *.
  - by injection E.
  - injection E as Ec E. naive_solver.
  - injection E as Ec E. naive_solver.
  - injection E as -> E. destruct (IH v') as [-> ->]; tauto.
Qed.

(** A line tells the value on it, whatever follows. *)
Lemma labelled_tells tabs label v v' r r' :
  newline ∉ v -> newline ∉ v' -> labelled tabs label v ++ r = labelled tabs label v' ++ r' -> v = v' /\ r = r'.
Proof using.
  intros Hv Hv' E. unfold labelled in E. rewrite <- !app_assoc in E.
  do 2 apply (inj (_ ++.)) in E. by apply until_newline in E.
Qed.

Lemma digit_not_newline n : ascii_of_N (Z.to_N (48 + n mod 10)) <> newline.
Proof using.
  pose proof (Z.mod_pos_bound n 10 ltac:(lia)) as Hb.
  destruct (digit_read_back (n mod 10) Hb) as [_ Hd]. intros E. rewrite E in Hd. done.
Qed.

Lemma last_digits_line fuel n ds : newline ∉ ds -> newline ∉ last_digits fuel n ds.
Proof using.
  revert n ds. induction fuel as [|fuel IH]; intros n ds Hds; [done|]. rewrite last_digits_S. cbv zeta.
  assert (newline ∉ ascii_of_N (Z.to_N (48 + n mod 10)) :: ds).
  { apply not_elem_of_cons. split; [|done]. intros E. by apply (digit_not_newline n). }
  case_match; [done|by apply IH].
Qed.

Lemma number_line n : newline ∉ std_to_string n.
Proof using. apply last_digits_line, not_elem_of_nil. Qed.

Lemma number_inj n m : u64 n -> u64 m -> std_to_string n = std_to_string m -> n = m.
Proof using.
  intros Hn Hm E. destruct (numbers_read_back n Hn) as [H1 _], (numbers_read_back m Hm) as [H2 _]. congruence.
Qed.

Lemma literal_line (s : string) : existsb (Ascii.eqb newline) (to_chars s) = false -> newline ∉ to_chars s.
Proof using.
  intros H Hin%list_elem_of_In. assert (existsb (Ascii.eqb newline) (to_chars s) = true); [|congruence].
  apply existsb_exists. exists newline. split; [done|]. apply Ascii.eqb_refl.
Qed.

Lemma app_line (v w : chars) : newline ∉ v -> newline ∉ w -> newline ∉ v ++ w.
Proof using. intros. by apply not_elem_of_app. Qed.

Lemma titled_tells tabs title n m r r' : titled tabs title n ++ r = titled tabs title m ++ r' -> r = r'.
Proof using.
  intros E. apply labelled_tells in E as [_ E]; [done|..]; (apply app_line; [apply number_line|by apply literal_line]).
Qed.

Lemma number_tells tabs label n m r r' : u64 n -> u64 m ->
  labelled tabs label (std_to_string n) ++ r = labelled tabs label (std_to_string m) ++ r' -> n = m /\ r = r'.
Proof using.
  intros Hn Hm E. apply labelled_tells in E as [E ->]; [|apply number_line..]. split; [|done]. by apply number_inj.
Qed.

Lemma key_tells {K} `{KeyLaws K} tabs label (k k' : K) r r' :
  labelled tabs label (print_key k) ++ r = labelled tabs label (print_key k') ++ r' -> k = k' /\ r = r'.
Proof using Laws.
  intros E. apply labelled_tells in E as [E ->]; [|apply print_key_line..]. split; [|done]. by apply (print_key_inj K).
Qed.

Lemma hex_tells tabs label bs bs' r r' :
  labelled tabs label (hex bs) ++ r = labelled tabs label (hex bs') ++ r' -> bs = bs' /\ r = r'.
Proof using Hex Laws.
  intros E. apply labelled_tells in E as [E ->]; [|apply hex_line..]. split; [|done].
  unfold hex, to_chars in E. apply (f_equal string_of_list_ascii) in E.
  rewrite !string_of_list_ascii_of_string in E. apply (f_equal reader_of_hex) in E.
  rewrite !reader_of_to_hex in E. by injection E.
Qed.

(** A sequence of items that begin with [hd], before something that does not. *)
Lemma items_tell {A} (item : A -> chars) (wf : A -> Prop) (hd : chars) xs ys r r' :
  hd <> [] -> (forall x, hd `prefix_of` item x) ->
  (forall x y s s', wf x -> wf y -> item x ++ s = item y ++ s' -> x = y /\ s = s') ->
  ~ hd `prefix_of` r -> ~ hd `prefix_of` r' -> Forall wf xs -> Forall wf ys ->
  flat_map item xs ++ r = flat_map item ys ++ r' -> xs = ys /\ r = r'.
Proof using.
  intros Hne Hhd Htell Hr Hr' Hx. revert ys. induction Hx as [|x xs Hwx _ IH]; intros [|y ys] Hy E; cbn in E; [done|..].
  - destruct Hr. rewrite E, <- app_assoc. by apply prefix_app_r.
  - destruct Hr'. rewrite <- E, <- app_assoc. by apply prefix_app_r.
  - apply Forall_cons in Hy as [Hwy Hy]. rewrite <- !app_assoc in E. apply Htell in E as [-> E]; [|done..].
    by destruct (IH ys Hy E) as [-> ->].
Qed.

(** Reads one line off both sides of an equation of two texts. *)
#[local] Ltac read_line H :=
  first [ apply titled_tells in H
        | apply number_tells in H as [? H]; [|solve [eauto]..]
        | apply key_tells in H as [? H]
        | apply hex_tells in H as [? H]
        | apply (inj (_ ++.)) in H ].
#[local] Ltac read_lines H := rewrite <- ?app_assoc in H; repeat read_line H.

(** What [p] writes, with more text behind it, tells what was printed. *)
Definition tells {T} (wf : T -> Prop) (p : T -> chars) : Prop :=
  forall x y r r', wf x -> wf y -> p x ++ r = p y ++ r' -> x = y /\ r = r'.

Lemma output_tells : tells TransactionOutput_wf print_output.
Proof using Codec Laws.
  intros [] [] r r' H1 H2 E. unfold TransactionOutput_wf in *. cbn in H1, H2. unfold print_output in E. cbn in E.
  read_lines E. by subst.
Qed.

Lemma staker_output_tells : tells StakerOutput_wf print_staker_output.
Proof using Codec Laws.
  intros [] [] r r' H1 H2 E. unfold StakerOutput_wf in *. cbn in H1, H2. unfold print_staker_output in E.
  read_lines E. cbn in *. by subst.
Qed.

#[local] Ltac other_start := intros [? E']; cbn in E'; discriminate E'.

Lemma item_tells {T} (wf : T -> Prop) p : tells wf p -> tells wf (fun x => p x ++ [newline]).
Proof using.
  intros Hp x y r r' Hx Hy E. rewrite <- !app_assoc in E. apply Hp in E as [-> E]; [|done..].
  split; [done|]. by injection E.
Qed.

Lemma outputs_tell os os' r r' :
  Forall TransactionOutput_wf os -> Forall TransactionOutput_wf os' ->
  ~ to_chars "	T" `prefix_of` r -> ~ to_chars "	T" `prefix_of` r' ->
  print_outputs os ++ r = print_outputs os' ++ r' -> os = os' /\ r = r'.
Proof using Codec Laws.
  intros Ho Ho' Hr Hr'. apply (items_tell _ TransactionOutput_wf (to_chars "	T")); try done.
  - intros o. unfold print_output, labelled. cbn. by eexists.
  - exact (item_tells _ _ output_tells).
Qed.

Lemma staker_outputs_tell os os' r r' :
  Forall StakerOutput_wf os -> Forall StakerOutput_wf os' ->
  ~ to_chars "	S" `prefix_of` r -> ~ to_chars "	S" `prefix_of` r' ->
  print_staker_outputs os ++ r = print_staker_outputs os' ++ r' -> os = os' /\ r = r'.
Proof using Codec Laws.
  intros Ho Ho' Hr Hr'. apply (items_tell _ StakerOutput_wf (to_chars "	S")); try done.
  - intros o. unfold print_staker_output, labelled. cbn. by eexists.
  - exact (item_tells _ _ staker_output_tells).
Qed.

Lemma rows_tell {K} `{KeyLaws K} (ks ks' : list K) r r' :
  ~ [tab; tab] `prefix_of` r -> ~ [tab; tab] `prefix_of` r' ->
  print_key_rows ks ++ r = print_key_rows ks' ++ r' -> ks = ks' /\ r = r'.
Proof using Laws.
  intros Hr Hr'. apply (items_tell _ (fun _ => True) [tab; tab]); try done; try by apply Forall_true.
  - intros k. unfold labelled. cbn. by eexists.
  - intros k k' s s' _ _ E. by apply key_tells in E.
Qed.

(** The common parts of the user transactions. *)
Lemma hashes_tell h d s p w h' d' s' p' w' r r' :
  print_hashes h d s p w ++ r = print_hashes h' d' s' p' w' ++ r' -> (h = h' /\ s = s' /\ p = p') /\ r = r'.
Proof using Codec Laws.
  unfold print_hashes. intros E. rewrite <- !app_assoc in E.
  do 5 apply key_tells in E as [? E]. subst. by apply (inj (_ ++.)) in E.
Qed.

Lemma members_tell (p p' : TransactionPrefix) (b b' : TransactionUserBody) r r' :
  TransactionPrefix_wf p -> TransactionPrefix_wf p' -> TransactionUserBody_wf b -> TransactionUserBody_wf b' ->
  l_type p = l_type p' ->
  print_members p b ++ r = print_members p' b' ++ r' -> p = p' /\ nonce b = nonce b' /\ fee b = fee b' /\ r = r'.
Proof using Codec Laws.
  destruct p as [[ty v] u k], p' as [[ty' v'] u' k']. unfold TransactionPrefix_wf, TransactionHeader_wf, TransactionUserBody_wf.
  cbn. intros [[? ?] ?] [[? ?] ?] (? & ? & _) (? & ? & _) -> E. unfold print_members in E. cbn in E.
  read_lines E. by subst.
Qed.

Lemma lists_tell (b b' : TransactionUserBody) r r' :
  TransactionUserBody_wf b -> TransactionUserBody_wf b' ->
  ~ to_chars "	T" `prefix_of` r -> ~ to_chars "	T" `prefix_of` r' ->
  print_lists b ++ r = print_lists b' ++ r' -> key_images b = key_images b' /\ outputs b = outputs b' /\ r = r'.
Proof using Codec Laws.
  intros (_ & _ & _ & _ & Ho) (_ & _ & _ & _ & Ho') Hr Hr' E. unfold print_lists in E. rewrite <- !app_assoc in E.
  apply (inj (_ ++.)) in E. apply rows_tell in E as [-> E]; [|other_start..].
  do 2 apply (inj (_ ++.)) in E. by apply outputs_tell in E as [-> ->].
Qed.

(** Reads the common parts of two committed transactions, up to what follows the
    lists. *)
#[local] Ltac read_user E :=
  rewrite <- ?app_assoc in E; apply titled_tells in E; apply hashes_tell in E as [(_ & ? & ?) E];
  apply members_tell in E as (? & ? & ? & E); [|assumption..].
#[local] Ltac read_lists E :=
  apply lists_tell in E as (? & ? & E); [|assumption|assumption|other_start|other_start].

Lemma body_eq (b b' : TransactionUserBody) :
  nonce b = nonce b' -> fee b = fee b' -> key_images b = key_images b' -> outputs b = outputs b' -> b = b'.
Proof using. destruct b, b'; cbn. by intros -> -> -> ->. Qed.

Lemma suffix_eq (s s' : CommittedTransactionSuffix) :
  signature_hash s = signature_hash s' -> range_proof_hash s = range_proof_hash s' -> s = s'.
Proof using. destruct s, s'; cbn. by intros -> ->. Qed.

(** The same text and the same type: the same transaction. *)
Definition distinct_texts {T} (wf : T -> Prop) (type : T -> Z) (p : T -> chars) : Prop :=
  forall x y, wf x -> wf y -> type x = type y -> p x = p y -> x = y.

Lemma committed_normal_texts :
  distinct_texts committed_normal_wf (fun tx => l_type tx) print_committed_normal.
Proof using Codec Hex Laws.
  intros [p b d s] [p' b' d' s'] (Hp & Hb & Hd) (Hp' & Hb' & Hd') Ht E. unfold print_committed_normal in E. cbn in *.
  read_user E. read_lists E. rewrite <- (app_nil_r (labelled _ _ _)), <- (app_nil_r (labelled _ _ (hex (extra d')))) in E.
  apply hex_tells in E as [He _]. destruct d, d'. cbn in He. subst. f_equal; [by apply body_eq|by apply suffix_eq].
Qed.

Lemma committed_stake_texts :
  distinct_texts committed_stake_wf (fun tx => l_type tx) print_committed_stake.
Proof using Codec Laws.
  intros [p b d s] [p' b' d' s'] (Hp & Hb & Hd) (Hp' & Hb' & Hd') Ht E. unfold print_committed_stake in E. cbn in *.
  read_user E. read_lists E. apply (f_equal (.++ [])) in E. unfold print_stake_data in E.
  destruct d, d'. unfold StakeTransactionData_wf in *. cbn in *. read_lines E.
  subst. f_equal; [by apply body_eq|by apply suffix_eq].
Qed.

Lemma committed_recall_texts :
  distinct_texts committed_recall_wf (fun tx => l_type tx) print_committed_recall.
Proof using Codec Laws.
  intros [p b d s] [p' b' d' s'] (Hp & Hb & Hd) (Hp' & Hb' & Hd') Ht E. unfold print_committed_recall in E. cbn in *.
  read_user E. apply (inj (_ ++.)) in E. read_lists E. apply (f_equal (.++ [])) in E. unfold print_recall_data in E.
  destruct d, d'. unfold RecallStakeTransactionData_wf in *. cbn in *. read_lines E.
  subst. f_equal; [by apply body_eq|by apply suffix_eq].
Qed.

(** System transactions, before text that does not begin like an output. *)
Lemma genesis_tells tx tx' r r' :
  genesis_wf tx -> genesis_wf tx' -> l_type tx = l_type tx' ->
  ~ to_chars "	T" `prefix_of` r -> ~ to_chars "	T" `prefix_of` r' ->
  print_genesis tx ++ r = print_genesis tx' ++ r' -> tx = tx' /\ r = r'.
Proof using Codec Laws.
  destruct tx as [[[ty v] u k] sk os], tx' as [[[ty' v'] u' k'] sk' os'].
  unfold genesis_wf, TransactionPrefix_wf, TransactionHeader_wf. cbn.
  intros ([[? ?] ?] & _ & Ho) ([[? ?] ?] & _ & Ho') -> Hr Hr' E. unfold print_genesis in E. cbn in E.
  read_lines E. apply outputs_tell in E as [? ?]; [|done..]. by subst.
Qed.

Lemma refund_tells tx tx' r r' :
  refund_wf tx -> refund_wf tx' -> l_type tx = l_type tx' ->
  ~ to_chars "	T" `prefix_of` r -> ~ to_chars "	T" `prefix_of` r' ->
  print_refund tx ++ r = print_refund tx' ++ r' -> tx = tx' /\ r = r'.
Proof using Codec Laws.
  destruct tx as [[[ty v] u k] sk h os], tx' as [[[ty' v'] u' k'] sk' h' os'].
  unfold refund_wf, TransactionPrefix_wf, TransactionHeader_wf. cbn.
  intros ([[? ?] ?] & _ & Ho) ([[? ?] ?] & _ & Ho') -> Hr Hr' E. unfold print_refund in E. cbn [refund_prefix
    prefix_header version unlock_block public_key refund_secret_key refund_recall_stake_tx refund_outputs] in E.
  read_lines E. apply outputs_tell in E as [? ?]; [|done..]. by subst.
Qed.

Lemma staker_tells tx tx' r r' :
  staker_wf tx -> staker_wf tx' -> l_type tx = l_type tx' ->
  ~ to_chars "	S" `prefix_of` r -> ~ to_chars "	S" `prefix_of` r' ->
  print_staker tx ++ r = print_staker tx' ++ r' -> tx = tx' /\ r = r'.
Proof using Codec Laws.
  destruct tx as [[ty v] os ps], tx' as [[ty' v'] os' ps'].
  unfold staker_wf, TransactionHeader_wf. cbn.
  intros ([? ?] & _ & Ho & _ & Hp) ([? ?] & _ & Ho' & _ & Hp') -> Hr Hr' E. unfold print_staker in E. cbn in E.
  read_lines E. apply staker_outputs_tell in E as [? E]; [|done|done|other_start|other_start].
  read_lines E. apply staker_outputs_tell in E as [? ?]; [|done..]. by subst.
Qed.

Lemma reward_tells x x' r r' :
  reward_wf x -> reward_wf x' ->
  print_reward x ++ newline :: r = print_reward x' ++ newline :: r' -> x = x' /\ r = r'.
Proof using Codec Laws.
  destruct x as [tx|tx], x' as [tx'|tx']; intros [H1 T1] [H2 T2] E; cbn [print_reward] in E.
  - apply genesis_tells in E as [-> E]; [by injection E|done|done|by rewrite T1, T2|other_start|other_start].
  - unfold print_genesis, print_staker, titled, labelled in E. cbn in E. discriminate E.
  - unfold print_genesis, print_staker, titled, labelled in E. cbn in E. discriminate E.
  - apply staker_tells in E as [-> E]; [by injection E|done|done|by rewrite T1, T2|other_start|other_start].
Qed.

Lemma validators_tell (vs vs' : list (crypto_public_key_t * crypto_signature_t)) :
  let print := flat_map (fun '(public_key, signature) =>
    labelled 2 "Public Key: " (print_key public_key) ++ labelled 2 "Signature: " (print_key signature) ++ [newline]) in
  print vs = print vs' -> vs = vs'.
Proof using Codec Laws.
  cbv zeta. intros E. apply (f_equal (.++ [])) in E.
  apply (items_tell _ (fun _ => True) [tab; tab]) in E as [? _]; try done; try by apply Forall_true.
  3-4: intros [? E']; discriminate E'.
  - intros [k sig]. unfold labelled. cbn. by eexists.
  - intros [k sig] [k' sig'] s s' _ _ E'. read_lines E'. by subst.
Qed.

Lemma block_texts : distinct_texts block_wf (fun _ => 0) print_block.
Proof using Codec Laws.
  intros b b' Hb Hb' _ E. unfold print_block in E.
  pose proof (wf_block_version _ Hb). pose proof (wf_block_version _ Hb').
  pose proof (wf_block_timestamp _ Hb). pose proof (wf_block_timestamp _ Hb').
  pose proof (wf_block_index _ Hb). pose proof (wf_block_index _ Hb').
  read_lines E. apply reward_tells in E as [? E]; [|apply Hb|apply Hb'].
  apply (inj (cons newline)), (inj (_ ++.)) in E. apply rows_tell in E as [? E]; [|other_start..].
  read_lines E. apply validators_tell in E. destruct b, b'. cbn in *. by subst.
Qed.

Lemma stake_tells : tells stake_wf print_stake.
Proof using Codec Laws.
  intros [v c k1 k2 s] [v' c' k1' k2' s'] r r' [Hv Hs] [Hv' Hs'] E. cbn in *. unfold print_stake in E. cbn -[to_chars] in E.
  rewrite <- !app_assoc in E. apply labelled_tells in E as [Ev E];
    [|apply app_line; [apply number_line|by apply literal_line]..].
  apply (inj (.++ _)), number_inj in Ev; [|done..]. read_lines E. by subst.
Qed.

Lemma base_tells b b' r r' : packet_base_wf b -> packet_base_wf b' ->
  print_base b ++ r = print_base b' ++ r' -> b = b' /\ r = r'.
Proof using Codec.
  destruct b as [t v], b' as [t' v']. unfold packet_base_wf, u16. cbn. intros [Ht Hv] [Ht' Hv'] E.
  assert (u64 t /\ u64 v /\ u64 t' /\ u64 v') as (? & ? & ? & ?) by (unfold uintw in *; lia).
  unfold print_base in E. cbn in E. read_lines E. by subst.
Qed.

Lemma data_tells : tells data_wf print_data.
Proof using Codec Hex Laws.
  intros [b n p] [b' n' p'] r r' [Hb _] [Hb' _] E. unfold print_data in E. cbn in *.
  rewrite <- !app_assoc in E. apply titled_tells in E. apply base_tells in E as [-> E]; [|done..].
  read_lines E. by subst.
Qed.

Lemma keepalive_tells : tells keepalive_wf print_keepalive.
Proof using Codec Laws.
  intros [b n] [b' n'] r r' Hb Hb' E. unfold print_keepalive, keepalive_wf in *. cbn in *.
  rewrite <- !app_assoc in E. apply titled_tells in E. apply base_tells in E as [-> E]; [|done..].
  read_lines E. by subst.
Qed.

Lemma tells_texts {T} (wf : T -> Prop) type p : tells wf p -> distinct_texts wf type p.
Proof using. intros Hp x y Hx Hy _ E. by apply (Hp x y [] []); [| |rewrite E]. Qed.
End PrintFacts.

(** ** What a text tells *)

(** What is printed of an output, a system transaction, a committed
    transaction, a block, a stake or a packet tells every member of it, but for
    the type that the titles stand for: two that print the same are the same. *)
Theorem printed_forms_distinct {CL : CryptoLib} {IP : IPParser} {HL : HexLib} {PL : PrintLib}
    {Codec : CodecLaws CL} {Hex : HexLaws HL} {Laws : PrintLaws HL PL} :
  tells TransactionOutput_wf print_output /\ tells StakerOutput_wf print_staker_output /\
  distinct_texts genesis_wf (fun tx => l_type tx) print_genesis /\
  distinct_texts staker_wf (fun tx => l_type tx) print_staker /\
  distinct_texts refund_wf (fun tx => l_type tx) print_refund /\
  distinct_texts committed_normal_wf (fun tx => l_type tx) print_committed_normal /\
  distinct_texts committed_stake_wf (fun tx => l_type tx) print_committed_stake /\
  distinct_texts committed_recall_wf (fun tx => l_type tx) print_committed_recall /\
  distinct_texts block_wf (fun _ => 0) print_block /\
  tells stake_wf print_stake /\ tells data_wf print_data /\ tells keepalive_wf print_keepalive.
Proof.
  assert (Hnil : forall c, ~ [tab; c] `prefix_of` []) by (intros c [? E]; discriminate E).
  split; [exact output_tells|]. split; [exact staker_output_tells|].
  split; [|split; [|split]]; [intros x y Hx Hy Ht E; apply (f_equal (.++ [])) in E..|].
  - apply genesis_tells in E as [-> _]; done || apply Hnil.
  - apply staker_tells in E as [-> _]; done || apply Hnil.
  - apply refund_tells in E as [-> _]; done || apply Hnil.
  - split; [exact committed_normal_texts|]. split; [exact committed_stake_texts|].
    split; [exact committed_recall_texts|]. split; [exact block_texts|]. split; [exact stake_tells|].
    split; [exact data_tells|exact keepalive_tells].
Qed.

(** A candidate's assigned validations are not printed. *)
Theorem candidate_print_loses {CL : CryptoLib} {PL : PrintLib} v k1 k2 k3 s produce validate validate' p c :
  print_candidate (mk_candidate v k1 k2 k3 s produce validate p c) =
  print_candidate (mk_candidate v k1 k2 k3 s produce validate' p c).
Proof. reflexivity. Qed.

(** ** Samples *)

Module PrintSamples.
#[local] Existing Instance toy_crypto.

(** Keys and bytes printed in two letters. *)
Definition hex_lib : HexLib := {|
  to_hex bs := toy_string_of_pos (encode bs);
  reader_of_hex s := decode (toy_pos_of_string s)
|}.
Definition print_lib : PrintLib (CL := toy_crypto) := {|
  print_key _ _ k := to_chars (toy_string_of_pos (encode k));
  print_clsag _ := to_chars "clsag";
  print_bulletproof _ := to_chars "proof"
|}.

Lemma hex_laws : HexLaws hex_lib.
Proof. split. intros bs. cbn. by rewrite toy_pos_of_string_of_pos, decode_encode. Qed.

Lemma letters_line p : newline ∉ to_chars (toy_string_of_pos p).
Proof.
  unfold to_chars. induction p as [p IH|p IH|]; cbn; rewrite ?not_elem_of_cons; try done; apply not_elem_of_nil.
Qed.

Lemma print_laws : PrintLaws hex_lib print_lib.
Proof.
  split; [intros; apply letters_line| |intros; apply letters_line].
  intros K HK HL k k' E. apply (f_equal string_of_list_ascii) in E. unfold print_lib, print_key, to_chars in E.
  rewrite !string_of_list_ascii_of_string in E. apply (f_equal toy_pos_of_string) in E.
  rewrite !toy_pos_of_string_of_pos in E. by apply (inj encode).
Qed.
End PrintSamples.

#[local] Existing Instance toy_crypto.
#[local] Existing Instance PrintSamples.hex_lib.
#[local] Existing Instance PrintSamples.hex_laws.
#[local] Existing Instance PrintSamples.print_lib.
#[local] Existing Instance PrintSamples.print_laws.

(** A text as its lines. *)
Fixpoint text_lines (l : chars) : list string :=
  match l with
  | [] => [EmptyString]
  | c :: rest =>
      if Ascii.eqb c newline then EmptyString :: text_lines rest
      else match text_lines rest with
           | line :: lines => String c line :: lines
           | [] => []
           end
  end.

Lemma reward_printed :
  text_lines (print_staker SystemSamples.reward) =
    ["Staker Transaction [70 bytes]"; "	Hash: 00010100"; "	Version: 1"; "	Outputs:";
     "	Staker Output"; "		Staker ID: 0100010"; "		Amount: 25"; EmptyString;
     "	Penalties:";
     "	Staker Output"; "		Staker ID: 0010010"; "		Amount: 3"; EmptyString; EmptyString]%string.
Proof. vm_compute. reflexivity. Qed.

(** The laws hold of the samples' printers: two refunds that differ print
    different texts. *)
Lemma refunds_printed refund' :
  refund_wf refund' -> l_type refund' = l_type SystemSamples.refund ->
  print_refund refund' = print_refund SystemSamples.refund -> refund' = SystemSamples.refund.
Proof.
  intros Hwf Ht E. destruct (printed_forms_distinct (CL := toy_crypto) (IP := PacketSamples.toy_ip))
    as (_ & _ & _ & _ & H & _). by apply H; [|apply SystemSamples.refund_sample_wf|..].
Qed.
