(* ===== verification/Cli.v ===== *)
(** * The command line

    [src/src/utilities/cli_helper.cpp] and the banner of [src/include/ascii.h].
    The parser of the options (cxxopts), the paths (cppfs, platform folders) and
    the file of the log (spdlog) are libraries: the class [CliLib].  A call of
    [exit] is the exit code that a program returns; what is printed is a list of
    the console's tokens. *)

From S2P Require Import Prelude Errors Config CryptoLib Packets Mdb Text Program Lmdb Console Process.
From S2P Require Import Zmq Node SeedNode.
Import Configuration.

(** ** The libraries *)

Inductive option_type : Set := Bool_value | String_value | Size_value | Uint16_value | Strings_value.

(** An option as it is added: its names, the type of its value, the default and
    the implicit value, and the name of its argument in the help. *)
Record option_spec : Type := mk_option_spec {
  opt_names : string;
  opt_description : string;
  opt_type : option_type;
  opt_default : option string;
  opt_implicit : option string;
  opt_argument : string
}.

(** [cxxopts::Options]: the name of the program and its options by group. *)
Record Options : Type := mk_Options {
  o_program : string;
  o_options : list (string * option_spec)
}.

Class CliLib (M : MDB) {O : MDBOpen M} : Type := {
  (* cxxopts: the text of an [OptionException], or the result *)
  parse_result_t : Type;
  no_result : parse_result_t;
  options_parse : Options -> list string -> string + parse_result_t;
  options_help : Options -> string;
  result_count : parse_result_t -> string -> Z;
  (* [result[option].as<T>()], which throws *)
  as_size : parse_result_t -> string -> option Z;
  as_string : parse_result_t -> string -> option string;
  (* what was stored to the variable of an option, if something was *)
  stored_bool : parse_result_t -> string -> option bool;
  stored_string : parse_result_t -> string -> option string;
  stored_uint16 : parse_result_t -> string -> option Z;
  stored_strings : parse_result_t -> string -> option (list string);
  (* cppfs and the folders of the platform *)
  getUserAppData : string;
  resolved : string -> string;
  toNative : string -> string;
  fs_remove : world -> string -> option world;
  (* the file of the log, which is created *)
  basic_file_sink : world -> string -> option world;
  (* the list of credits that the build generates *)
  program_credits : string
}.

(** ** The banner *)

Definition asciiArt : chars := render
  [Endl; Str (to_chars "                                                                            ");
   Endl; Str (to_chars " ████████╗██╗  ██╗██████╗ ████████╗██╗    ██████╗ █████╗ █████╗ ██╗███╗   ██╗");
   Endl; Str (to_chars " ╚══██╔══╝██║  ██║██╔══██╗╚══██╔══╝██║    ██╔═══╝██╔═══╝██╔══██╗██║████╗  ██║");
   Endl; Str (to_chars "    ██║   ██║  ██║██████╔╝   ██║   ██║    ████╗  ██║    ██║  ██║██║██╔██╗ ██║");
   Endl; Str (to_chars "    ██║   ██║  ██║██╔══██╗   ██║   ██║    ██╔═╝  ██║    ██║  ██║██║██║╚██╗██║");
   Endl; Str (to_chars "    ██║   ╚█████╔╝██║  ██║   ██║   ██████╗██████╗╚█████╗╚█████╔╝██║██║ ╚████║");
   Endl; Str (to_chars "    ╚═╝    ╚════╝ ╚═╝  ╚═╝   ╚═╝   ╚═════╝╚═════╝ ╚════╝ ╚════╝ ╚═╝╚═╝  ╚═══╝"); Endl].

Definition get_cli_header : chars := render
  [Endl; Str asciiArt; Endl;
   Str (to_chars (" " ++ Version.PROJECT_NAME ++ " ")); Str get_version; Endl; Endl;
   Str (to_chars " This software is distributed under the TRTL-OSLv1 License"); Endl; Endl;
   Str (to_chars (" " ++ Version.COPYRIGHT)); Endl; Endl;
   Str (to_chars " Additional Copyright(s) may apply, please see the included LICENSE "); Endl;
   Str (to_chars " file for more information."); Endl; Endl;
   Str (to_chars " If you did not receive a copy of the LICENSE, please visit: "); Endl;
   Str (to_chars (" " ++ Version.LICENSE_URL)); Endl; Endl;
   Str (to_chars "----------------------------------------------------------------------"); Endl; Endl].

Section Cli.
Context {M : MDB} {O : MDBOpen M} {C : CliLib M}.

(** ** [CLIHelper] *)

(** The members, and what went to the terminal. *)
Record CLIHelper : Type := mk_CLIHelper {
  m_options : Options;
  m_log_level : logging_level;
  m_parse_result : parse_result_t;
  cli_out : list token
}.

Notation cli_prog := (prog CLIHelper).

Definition default_options : list (string * option_spec) :=
  [("", mk_option_spec "credits" "Display a full listing of the program credits"
          Bool_value None (Some "true") "");
   ("", mk_option_spec "h,help" "Display this help message" Bool_value None (Some "true") "");
   ("", mk_option_spec "log-file" "Specify the <path> to the log file" String_value None None "<path>");
   ("", mk_option_spec "log-level" "Sets the default logging level (0-6)" Size_value
          (Some (of_chars (std_to_string DEFAULT_LOG_LEVEL))) None "#");
   ("", mk_option_spec "v,version" "Display the software version information"
          Bool_value None (Some "true") "")]%string.

Definition new_CLIHelper (path : string) : CLIHelper :=
  mk_CLIHelper (mk_Options path default_options) level_off no_result [].

(** The constructor from [argv]. *)
Definition new_CLIHelper_argv (argv : list string) : option CLIHelper := new_CLIHelper <$> head argv.

Definition add_options (group : string) (specs : list option_spec) : cli_prog () := fun s =>
  Returned () (mk_CLIHelper (mk_Options (o_program (m_options s))
                               (o_options (m_options s) ++ ((fun spec => (group, spec)) <$> specs)))
                 (m_log_level s) (m_parse_result s) (cli_out s)).

Definition argument_exists (option : string) : cli_prog bool :=
  s ← get_state; mret (0 <? result_count (m_parse_result s) option).

(** [argument_load] of a string. *)
Definition argument_load (option target : string) : cli_prog string :=
  b ← argument_exists option;
  if b : bool then s ← get_state; or_throw (as_string (m_parse_result s) option) else mret target.

Definition argument_value (option : string) : cli_prog string :=
  s ← get_state; or_throw (as_string (m_parse_result s) option).

Definition log_level : cli_prog logging_level := s ← get_state; mret (m_log_level s).

Definition cli_print (ts : list token) : cli_prog () := fun s =>
  Returned () (mk_CLIHelper (m_options s) (m_log_level s) (m_parse_result s) (cli_out s ++ ts)).

Definition print_cli_header : cli_prog () := cli_print [Color green; Str get_cli_header; Color reset].

(** The help and a complaint, before the exit with 1. *)
Definition refuse_arguments (complaint : list token) : cli_prog (option Z) :=
  print_cli_header;;
  s ← get_state;
  cli_print ([Str (to_chars (options_help (m_options s))); Endl; Color red] ++ complaint ++
             [Color reset; Endl; Endl]);;
  mret (Some 1).

(** [parse]: the exit code, or nothing when the program goes on. *)
Definition parse (argv : list string) : cli_prog (option Z) :=
  s ← get_state;
  match options_parse (m_options s) argv with
  | inl what =>
      refuse_arguments [Str (to_chars "Unable to parse command line argument options: ");
                        Str (to_chars what)]
  | inr result =>
      put_state (mk_CLIHelper (m_options s) (m_log_level s) result (cli_out s));;
      if 0 <? result_count result "help" then
        print_cli_header;;
        cli_print [Str (to_chars (options_help (m_options s))); Endl];;
        mret (Some 0)
      else if 0 <? result_count result "credits" then
        print_cli_header;;
        cli_print [Str (to_chars program_credits); Endl; Endl];;
        mret (Some 0)
      else if 0 <? result_count result "version" then
        print_cli_header;;
        mret (Some 0)
      else
        match level ← as_size result "log-level"; get_log_level level with
        | None => refuse_arguments [Str (to_chars "Invalid log level specified")]
        | Some level =>
            s' ← get_state;
            put_state (mk_CLIHelper (m_options s') level (m_parse_result s') (cli_out s'));;
            print_cli_header;;
            mret None
        end
  end.

(** ** Paths *)

Definition get_home_directory : string := getUserAppData.

Definition get_default_db_directory : string :=
  resolved (get_home_directory ++ "/" ++ DEFAULT_DATA_DIR).

Definition get_db_path (directory name : string) : prog world string :=
  w ← get_state;
  (if negb (fs_exists w directory) || negb (fs_isDirectory w directory)
   then put_state (fs_createDirectory w directory) else mret ());;
  mret (resolved (directory ++ "/" ++ name)).

(** ** [Logger::create_logger]

    The sinks and the level of the logger that is registered. *)

Inductive log_sink : Set := Console_sink | File_sink (path : string).

Record logger_t : Set := mk_logger { log_sinks : list log_sink; logger_level : logging_level }.

Definition create_logger (path : string) (level : logging_level) : prog world logger_t :=
  if bool_decide (path = EmptyString) then mret (mk_logger [Console_sink] level)
  else
    w ← get_state;
    w' ← or_throw (basic_file_sink w path);
    put_state w';;
    mret (mk_logger [Console_sink; File_sink path] level).
End Cli.

(** ** Theorems *)

Section CliFacts.
Context {M : MDB} {O : MDBOpen M} {C : CliLib M}.

(** The level that a parse result asks for. *)
Definition asked_level (result : parse_result_t) : option logging_level :=
  level ← as_size result "log-level"; get_log_level level.

(** Whether it asks for one of the three texts. *)
Definition asks_for_text (result : parse_result_t) : bool :=
  (0 <? result_count result "help") || (0 <? result_count result "credits") ||
  (0 <? result_count result "version").

Lemma get_log_level_known level : is_Some (get_log_level level) <-> 0 <= level <= 6.
Proof.
  unfold get_log_level. split; [intros [l Hl]|intros H]; repeat case_match; try lia; try done; lia.
Qed.

(** What was printed after the banner. *)
Definition printed (s : CLIHelper) (rest : list token) : list token :=
  cli_out s ++ [Color green; Str get_cli_header; Color reset] ++ rest.

Lemma header_spec s :
  print_cli_header s = Returned () (mk_CLIHelper (m_options s) (m_log_level s) (m_parse_result s) (printed s [])).
Proof. reflexivity. Qed.

Lemma text_spec text (code : Z) s :
  (print_cli_header;; cli_print text;; mret (Some code)) s =
    Returned (Some code) (mk_CLIHelper (m_options s) (m_log_level s) (m_parse_result s) (printed s text)).
Proof.
  unfold mbind, prog_bind. rewrite header_spec. unfold cli_print, mret, prog_ret, printed. cbn [m_options m_log_level m_parse_result cli_out].
  by rewrite <- !app_assoc.
Qed.

Lemma refuse_spec complaint s : exists rest,
  refuse_arguments complaint s =
    Returned (Some 1) (mk_CLIHelper (m_options s) (m_log_level s) (m_parse_result s) (printed s rest)).
Proof.
  unfold refuse_arguments. eexists. rewrite <- text_spec. unfold mbind, prog_bind, get_state.
  rewrite header_spec. reflexivity.
Qed.

(** [parse] prints the banner once, before everything else.  A command line that
    cannot be parsed ends the program with 1, one of the three texts with 0, a
    level that is not a number from 0 to 6 with 1; otherwise the program goes on
    with the level that was asked for. *)
Theorem parse_outcomes argv s :
  exists rest,
    let out := printed s rest in
    parse argv s =
      match options_parse (m_options s) argv with
      | inl _ => Returned (Some 1) (mk_CLIHelper (m_options s) (m_log_level s) (m_parse_result s) out)
      | inr result =>
          if asks_for_text result
          then Returned (Some 0) (mk_CLIHelper (m_options s) (m_log_level s) result out)
          else match asked_level result with
               | Some level => Returned None (mk_CLIHelper (m_options s) level result out)
               | None => Returned (Some 1) (mk_CLIHelper (m_options s) (m_log_level s) result out)
               end
      end.
Proof.
  unfold parse, asks_for_text, asked_level. unfold mbind at 1, prog_bind, get_state.
  destruct (options_parse (m_options s) argv) as [what|result]; [apply refuse_spec|].
  unfold mbind at 1, prog_bind, put_state. cbn [m_options m_log_level m_parse_result].
  destruct (0 <? result_count result "help"); [eexists; rewrite text_spec; reflexivity|].
  destruct (0 <? result_count result "credits"); [eexists; rewrite text_spec; reflexivity|].
  destruct (0 <? result_count result "version"); [by exists []|]. cbn [orb].
  destruct (as_size result "log-level" ≫= get_log_level) as [level|]; [by exists []|apply refuse_spec].
Qed.
End CliFacts.
