(* ===== verification/SeedMain.v ===== *)
(** * The seed node from its command line

    [main] of [src/src/seed_node/node.cpp]: the options, the paths, the log, the
    deletion of the peer database for [--reset], and the node with its console of
    [SeedNode.v] over the peer database that [Process.v] opens.  The state is the
    command line with the terminal's output, and the process. *)

From S2P Require Import Prelude Errors Config CryptoLib Packets Mdb Text Program Upnp Lmdb.
From S2P Require Import Concrete MemDb Console Peers Process ProcessSpecs Zmq Node NodeSpecs PeerRestart SeedNode Cli.
From Stdlib Require Import Strings.Byte.
Import Configuration.

Section SeedMain.
Context {CL : CryptoLib} {IP : IPParser} {M : MDB} {O : MDBOpen M} {Q : ZmqLib} {U : MiniUPnP}.
Context {C : CliLib M}.

#[local] Existing Instance key_eq_dec.
#[local] Existing Instance key_countable.

Record seed_state : Type := mk_seed_state { ss_cli : CLIHelper; ss_process : process }.

Notation seed_prog := (prog seed_state).

Definition in_cli {A} : prog CLIHelper A -> seed_prog A :=
  zoom ss_cli (fun c s => mk_seed_state c (ss_process s)).
Definition in_process {A} : proc A -> seed_prog A :=
  zoom ss_process (fun p s => mk_seed_state (ss_cli s) p).
Definition in_world {A} (m : prog world A) : seed_prog A := in_process (zoom p_world set_world m).

Variables (time : nat -> Z) (shuffle : Z -> list network_peer_t -> list network_peer_t).
Variables (indeterminate : Z) (fuel : nat) (m_network_id : crypto_hash_t).
Variables (random_hash : nat -> crypto_hash_t) (keypairs : nat -> option (string * string)).
Variable walk : nat.
(** The identity of the peer database when it has none, and of the server. *)
Variables (database_identity server_identity : crypto_hash_t).
Variable gateway : gateway_t.

(** ** The options *)

Definition seed_options (db_path : string) (server_port : Z) : list option_spec :=
  [mk_option_spec "d,db-path" "Specify the <path> to the database directory" String_value
     (Some db_path) None "<path>";
   mk_option_spec "p,port" "The local port to bind the server to" Uint16_value
     (Some (of_chars (std_to_string server_port))) None "#";
   mk_option_spec "reset" "Reset the peer database" Bool_value None (Some "true") "";
   mk_option_spec "seed-node" "Additional seed nodes to attempt when bootstrapping" Strings_value
     None None "<ip:port>"]%string.

(** ** The node and its console *)

(** The node over the environment of its peer database, until the program ends
    or the console waits for another line. *)
Definition serve_peers (d : peerdb_object) (server_port : Z) (level : logging_level)
  (seed_nodes : list string) (readings : list reading) : seed_prog (option Z) := fun s =>
  let after (a : seed_app) (out : list token) :=
    mk_seed_state (mk_CLIHelper (m_options (ss_cli s)) (m_log_level (ss_cli s))
                     (m_parse_result (ss_cli s)) (cli_out (ss_cli s) ++ out))
      (set_lmdbs (<[po_env d := ps_env (n_peer_state (sa_node a))]> (p_lmdbs (ss_process s)))
         (ss_process s)) in
  match p_lmdbs (ss_process s) !! po_env d with
  | None => Undefined
  | Some l =>
      match new_Node time shuffle indeterminate fuel (po_peerdb d) walk (mk_peer_state l 0)
              server_port server_identity gateway with
      | Returned _ node =>
          match main time shuffle (po_peerdb d) m_network_id random_hash keypairs walk seed_nodes readings
                  (seed_console time shuffle indeterminate fuel (po_peerdb d) walk (mk_seed_app node level)) with
          | Returned code c => Returned code (after (c_app c) (c_out c))
          | Thrown c => Thrown (after (c_app c) (c_out c))
          | Undefined => Undefined
          | OutOfFuel => OutOfFuel
          end
      | Thrown node => Thrown (after (mk_seed_app node level) [])
      | Undefined => Undefined
      | OutOfFuel => OutOfFuel
      end
  end.

Definition serve (database_path : string) (server_port : Z) (level : logging_level)
  (seed_nodes : list string) (readings : list reading) : seed_prog (option Z) :=
  d ← in_process (PeerDB_instance indeterminate fuel database_path database_identity);
  serve_peers d server_port level seed_nodes readings.

(** [--reset]: whether the file is gone; an exception ends the program. *)
Definition reset_database (path : string) : seed_prog bool := fun s =>
  match fs_remove (p_world (ss_process s)) (toNative path) with
  | Some w => Returned true (mk_seed_state (ss_cli s) (set_world w (ss_process s)))
  | None => Returned false s
  end.

(** ** [main]

    The command line has its program's name in front. *)
Definition seed_main (argv : list string) (readings : list reading) : seed_prog (option Z) :=
  let default_db_path := toNative get_default_db_directory in
  in_cli (add_options "Seed Node" (seed_options default_db_path P2P.P2P_DEFAULT_BIND_PORT));;
  exit ← in_cli (parse argv);
  match exit with
  | Some code => mret (Some code)
  | None =>
      s ← get_state;
      let result := m_parse_result (ss_cli s) in
      let db_path := default default_db_path (stored_string result "db-path") in
      let server_port := default P2P.P2P_DEFAULT_BIND_PORT (stored_uint16 result "port") in
      let reset_db := default false (stored_bool result "reset") in
      let seed_nodes := default [] (stored_strings result "seed-node") in
      log_path ← in_cli (argument_load "log-file" EmptyString);
      database_path ← in_world (get_db_path db_path "peerlist");
      level ← in_cli log_level;
      logger ← in_world (create_logger log_path level);
      removed ← (if reset_db : bool then reset_database database_path else mret true);
      if removed : bool then serve database_path server_port (logger_level logger) seed_nodes readings
      else mret (Some 1)
  end.
End SeedMain.

(** ** Theorems *)

Section SeedFacts.
Context {CL : CryptoLib} {IP : IPParser} {M : MDB} {O : MDBOpen M} {Q : ZmqLib} {U : MiniUPnP}.
Context {C : CliLib M}.

#[local] Existing Instance key_eq_dec.
#[local] Existing Instance key_countable.

Variables (time : nat -> Z) (shuffle : Z -> list network_peer_t -> list network_peer_t).
Variables (indeterminate : Z) (fuel : nat) (m_network_id : crypto_hash_t).
Variables (random_hash : nat -> crypto_hash_t) (keypairs : nat -> option (string * string)).
Variable walk : nat.
Variables (database_identity server_identity : crypto_hash_t).
Variable gateway : gateway_t.

Notation seed_main := (seed_main time shuffle indeterminate fuel m_network_id random_hash keypairs walk
  database_identity server_identity gateway).

(** The options of the program with those of the seed node. *)
Definition all_options (s : seed_state) : Options :=
  mk_Options (o_program (m_options (ss_cli s)))
    (o_options (m_options (ss_cli s)) ++
     ((fun spec => ("Seed Node"%string, spec)) <$>
        seed_options (toNative get_default_db_directory) P2P.P2P_DEFAULT_BIND_PORT)).

(** What the command line makes of the program, before anything is opened: its
    exit code, if it ends there. *)
Definition early_exit (argv : list string) (s : seed_state) : option Z :=
  match options_parse (all_options s) argv with
  | inl _ => Some 1
  | inr result =>
      if asks_for_text result then Some 0
      else match asked_level result with Some _ => None | None => Some 1 end
  end.

Lemma in_cli_bind {A B} (m : prog CLIHelper A) (k : A -> prog seed_state B) s a c :
  m (ss_cli s) = Returned a c -> (in_cli m ≫= k) s = k a (mk_seed_state c (ss_process s)).
Proof. intros E. unfold in_cli, zoom, mbind, prog_bind. by rewrite E. Qed.

(** A program that is asked for a text, or is given options that make no sense,
    ends with its exit code and touches neither a file nor a database. *)
Theorem early_exit_harmless argv readings code s :
  early_exit argv s = Some code ->
  exists cli', seed_main argv readings s = Returned (Some code) (mk_seed_state cli' (ss_process s)).
Proof.
  intros Hexit. unfold SeedMain.seed_main. erewrite in_cli_bind by reflexivity.
  set (c := mk_CLIHelper _ _ _ _). destruct (parse_outcomes argv c) as [rest Hp].
  change (m_options c) with (all_options s) in Hp. unfold early_exit in Hexit.
  destruct (options_parse (all_options s) argv) as [what|result].
  - injection Hexit as <-. erewrite in_cli_bind by exact Hp. by eexists.
  - destruct (asks_for_text result).
    + injection Hexit as <-. erewrite in_cli_bind by exact Hp. by eexists.
    + destruct (asked_level result); [discriminate Hexit|]. injection Hexit as <-.
      erewrite in_cli_bind by exact Hp. by eexists.
Qed.

(** ** A start after [--reset] *)

Context {Laws : MDBLaws M} {OLaws : MDBOpenLaws M O} {CLaws : MDBCursorLaws M} {HL : HashStringLaws CL}.
Context {Codec : CodecLaws CL} {IPL : IPParserLaws IP} {Empty : EmptyHashLaws CL}.
Hypothesis Hnames : NoDup (name_id <$> database_names).
Hypothesis Hfuel : mapsize_limit < Z.of_nat fuel.
Hypothesis clock : forall n, u64 (time n).
Hypothesis reorders : forall seed l, shuffle seed l ≡ₚ l.

(** A file that was removed holds nothing. *)
Hypothesis removed : forall w path w' name k,
  fs_remove w (toNative path) = Some w' -> file_contents w' path name k = None.

(** After a reset the node starts without peers and with the identity that was
    drawn, whatever the old file held. *)
Theorem reset_forgets path drawn s s' :
  process_ok (ss_process s) -> can_open path MDB_NOSUBDIR 8 (ss_process s') ->
  p_instances (ss_process s) !! name_id path = None -> p_peerdbs (ss_process s) !! name_id path = None ->
  reset_database path s = Returned true s' ->
  runs (PeerDB_instance indeterminate fuel path drawn) (ss_process s')
    (fun d p' => m_peer_id (po_peerdb d) = drawn /\
       exists l e, environment p' (po_env d) l e /\
         forall port identity gateway walk, (0 < walk)%nat ->
           match node_of indeterminate fuel time shuffle walk d port identity gateway p' with
           | Returned _ n | Thrown n => known (po_peerdb d) l (env_mapsize e) ∅ n
           | Undefined | OutOfFuel => False
           end)
    process_ok.
Proof using Hnames HL OLaws CLaws Codec IPL Empty clock reorders Hfuel removed.
  intros Hp Hopen Hnone Hnew. unfold reset_database. destruct (fs_remove _ _) as [w|] eqn:Hw; intros [= <-].
  cbn [ss_process]. pose proof (process_ok_opens _ _ Hp (opens_world w (ss_process s))) as Hp'.
  assert (file_holds (file_contents w path) drawn drawn ∅) as HF.
  { split.
    - intros h. by rewrite (removed _ _ _ _ _ Hw), lookup_empty.
    - intros k v. by rewrite (removed _ _ _ _ _ Hw).
    - intros h p Hh. by rewrite lookup_empty in Hh.
    - right. by rewrite (removed _ _ _ _ _ Hw). }
  eapply runs_weaken; [by apply (peerdb_found Hnames _ _ Hfuel path drawn drawn ∅)| |by intros p' []].
  cbn. intros d p' (_ & Hthere & _). pose proof Hthere as (Hown & l & e & He & _). split; [done|].
  exists l, e. split; [done|]. intros port identity gateway0 walk0 Hw0.
  pose proof (node_starts indeterminate fuel Hfuel time shuffle clock reorders p' d drawn ∅ l e walk0 port identity
    gateway0 Hthere He ltac:(by rewrite map_size_empty)) as Hn.
  assert (forall n, starts_with time ∅ d l (env_mapsize e) n -> known (po_peerdb d) l (env_mapsize e) ∅ n) as Hno.
  { intros n (m' & Hk & Hm & _). replace m' with (∅ : gmap crypto_hash_t network_peer_t) in Hk; [done|].
    apply (anti_symm (⊆)); [apply map_empty_subseteq|done]. }
  destruct (node_of _ _ _ _ _ _ _ _ _ _); auto.
Qed.
End SeedFacts.

(** ** A sample run

    The whole program on the in-memory engine: a parser that knows three options,
    a file system whose files can be removed. *)

Module SeedSamples.
#[local] Existing Instance toy_crypto.
#[local] Existing Instance ZmqSamples.toy_zmq.
#[local] Existing Instance UpnpSamples.toy_upnp.

(** A parser of addresses that takes every host for the loopback address. *)
#[local] Instance any_ip : IPParser := {|
  ip_rest_t := Z; ip_rest_default := 0; ip_rest_port p := p;
  IPV6_NUM_COMPONENTS := 8; IPV4_NUM_COMPONENTS := 2; IPV4_EMBED_INDEX := 6;
  IPV6_FLAG_IPV4_COMPAT := 8; IPV6_FLAG_IPV4_EMBED := 4;
  str_to_ip _ := Some (mk_ipv6 [0x7f00; 1; 0; 0; 0; 0; 0; 0] 8 0);
  ip_to_str _ := Some "127.0.0.1"%string
|}.

Fixpoint toy_parse (args : list string) : string + list (string * string) :=
  match args with
  | [] => inr []
  | flag :: rest =>
      match toy_parse rest with
      | inl what => inl what
      | inr l =>
          if bool_decide (flag = "--help") then inr (("help", "true") :: l)
          else if bool_decide (flag = "--reset") then inr (("reset", "true") :: l)
          else if bool_decide (flag = "--loud") then inr (("log-level", "9") :: l)
          else inl "unknown option"
      end
  end%string.

Definition toy_value (l : list (string * string)) (name : string) : option string :=
  snd <$> head (filter (fun p => p.1 = name) l).

Definition toy_cli : CliLib memdb := {|
  parse_result_t := list (string * string);
  no_result := [];
  options_parse _ argv := toy_parse (tail argv);
  options_help _ := "usage"%string;
  result_count l name := if toy_value l name then 1 else 0;
  as_size l name := stoi (to_chars (default "4"%string (toy_value l name)));
  as_string := toy_value;
  stored_bool l name := (fun _ => true) <$> toy_value l name;
  stored_string := toy_value;
  stored_uint16 _ _ := None;
  stored_strings _ _ := None;
  getUserAppData := "/home/user"%string;
  resolved path := path;
  toNative path := path;
  fs_remove w path := Some (delete path (w : gmap string contents) : world (MDBOpen := memdb_open));
  basic_file_sink w _ := Some w;
  program_credits := "credits"%string
|}.

Definition seed_files : world (MDBOpen := memdb_open) := (∅ : gmap string contents).

Definition seed_start : seed_state (CL := toy_crypto) (M := memdb) (C := toy_cli) :=
  mk_seed_state (C := toy_cli) (new_CLIHelper (C := toy_cli) "seed")
    (mk_process (CL := toy_crypto) (M := memdb) seed_files [] ∅ ∅ ∅ ∅).

(** The exit code after a command line and the lines typed into the console. *)
Definition exit_code (args lines : list string) : option (option Z) :=
  observe id (seed_main (C := toy_cli) PeerSamples.clock (fun _ l => l) 0 1 NodeSamples.network
    NodeSamples.identities (fun _ => Some ("public", "secret")%string) 5 x06 x07 ([] : gateway_t)
    ("seed"%string :: args) (typed <$> lines) seed_start).

(** The help ends with 0; an unknown option and a log level of 9 with 1. *)
Example help_exits : exit_code ["--help"%string] [] = Some (Some 0).
Proof. vm_compute. reflexivity. Qed.
Example unknown_option_exits : exit_code ["--what"%string] [] = Some (Some 1).
Proof. vm_compute. reflexivity. Qed.
Example unknown_level_exits : exit_code ["--loud"%string] [] = Some (Some 1).
Proof. vm_compute. reflexivity. Qed.
(** A node that is asked for its status, and told to quit. *)
Example status_and_quit : exit_code [] ["status"; "quit"]%string = Some (Some 0).
Proof. vm_compute. reflexivity. Qed.
(** A node after a reset whose console waits for a line. *)
Example reset_and_wait : exit_code ["--reset"%string] ["peers"%string] = Some None.
Proof. vm_compute. reflexivity. Qed.
End SeedSamples.
