(* ===== verification/SelfTests.v ===== *)
(** * The test programs

    [src/src/tests/structures.cpp], [address.cpp] and [aes.cpp]: what they check
    is what the round trips of the library promise.  What a failed check prints
    of its values is left out; the exceptions of the readers are taken for
    [std::invalid_argument]. *)

From S2P Require Import Prelude Errors Config Mdb MemDb Text Program Console Process Cli SeedMain Concrete Aes.
From S2P Require Import CryptoLib Codec Packets TxBase TxUser TxSystem Block Address Staking Forms Json JsonTypes JsonNet.
From Stdlib Require Import Strings.Byte.

(** ** Default structures

    The constructors without arguments; [none] is the default range proof, which
    is the library's. *)

Section Defaults.
Context {CL : CryptoLib}.

Definition default_prefix (type : TransactionType) : TransactionPrefix :=
  mkTransactionPrefix (mkTransactionHeader (TransactionType_value type) (version default_header)) 0 key_default.
Definition default_body : TransactionUserBody := mkTransactionUserBody 0 0 [] [].
Definition default_committed_suffix : CommittedTransactionSuffix :=
  mkCommittedTransactionSuffix key_default key_default.
Definition default_uncommitted_suffix (none : crypto_bulletproof_plus_t) : UncommittedTransactionSuffix :=
  mkUncommittedTransactionSuffix [] [] [] none.
Definition default_normal_data : NormalTransactionData := mkNormalTransactionData [].
Definition default_stake_data : StakeTransactionData :=
  mkStakeTransactionData 0 key_default key_default key_default.
Definition default_recall_data : RecallStakeTransactionData :=
  mkRecallStakeTransactionData 0 key_default key_default key_default key_default.
Definition default_transaction_output : TransactionOutput := mkTransactionOutput key_default 0 key_default.
Definition default_staker_output : StakerOutput := mkStakerOutput key_default 0.

Definition default_genesis : genesis_transaction_t := mk_genesis (default_prefix GENESIS) key_default [].
Definition default_refund : stake_refund_transaction_t :=
  mk_stake_refund (default_prefix STAKE_REFUND) key_default key_default [].
Definition default_committed_normal : committed_normal_transaction_t :=
  mk_committed_normal (default_prefix NORMAL) default_body default_normal_data default_committed_suffix.
Definition default_uncommitted_normal none : uncommited_normal_transaction_t :=
  mk_uncommitted_normal (default_prefix NORMAL) default_body default_normal_data (default_uncommitted_suffix none).
Definition default_committed_stake : committed_stake_transaction_t :=
  mk_committed_stake (default_prefix STAKE) default_body default_stake_data default_committed_suffix.
Definition default_uncommitted_stake none : uncommitted_stake_transaction_t :=
  mk_uncommitted_stake (default_prefix STAKE) default_body default_stake_data (default_uncommitted_suffix none).
Definition default_committed_recall : committed_recall_stake_transaction_t :=
  mk_committed_recall (default_prefix RECALL_STAKE) default_body default_recall_data default_committed_suffix.
Definition default_uncommitted_recall none : uncommitted_recall_stake_transaction_t :=
  mk_uncommitted_recall (default_prefix RECALL_STAKE) default_body default_recall_data
    (default_uncommitted_suffix none).

Definition default_candidate : candidate_node_t := new_candidate key_default key_default key_default 0.
Definition default_stake : stake_t :=
  mk_stake Configuration.Staking.STAKE_RECORD_VERSION key_default key_default key_default 0.
Definition default_handshake `{IPParser} : packet_handshake_t := new_handshake key_default 0 key_default.
Definition default_exchange `{IPParser} : packet_peer_exchange_t := new_exchange key_default 0 key_default.
Definition default_keepalive : packet_keepalive_t := new_keepalive key_default.

(** None of them passes its check. *)
Lemma defaults_refused :
  genesis_check_construction default_genesis <> SUCCESS /\
  refund_check_construction default_refund <> SUCCESS /\
  committed_normal_check_construction default_committed_normal <> SUCCESS /\
  committed_stake_check_construction default_committed_stake <> SUCCESS /\
  committed_recall_check_construction default_committed_recall <> SUCCESS.
Proof.
  repeat split; cbn; repeat (case_match; [done|]); done.
Qed.
End Defaults.

(** ** [structures.cpp] *)

Section Checks.
Context {CL : CryptoLib} {JL : JsonLib} {M : MDB} {O : MDBOpen M} {C : CliLib M}.

Notation cli_prog := (prog CLIHelper).

(** A check gives the exit code of a program that ends there. *)
Definition checking (name kind : string) : list token :=
  [Str (to_chars "Checking ["); Str (to_chars name); Str (to_chars ("] " ++ kind ++ " serialization: "))].

Definition verdict (passed : bool) : cli_prog (option Z) :=
  if passed then cli_print [Str (to_chars "Passed"); Endl];; mret None
  else cli_print [Str (to_chars "Failed"); Endl];; mret (Some 1).

Definition check_json_serialization {T} `{IJson T} (hash : T -> crypto_hash_t) (value : T) (name : string)
  : cli_prog (option Z) :=
  cli_print (checking name "JSON");;
  match document (toJSON value) ≫= fromJSON with
  | Some check_value => verdict (bool_decide (hash value = hash check_value))
  | None => cli_print [Endl; Endl; Str (to_chars "Failed"); Endl];; mret (Some 1)
  end.

(** The constructor from bytes is not in the [try]. *)
Definition check_binary_json_serialization {T} `{IJson T} (serialize : T -> bytes) (of_bytes : bytes -> option T)
  (hash : T -> crypto_hash_t) (value : T) (name : string) : cli_prog (option Z) :=
  cli_print (checking name "binary");;
  check_value ← or_throw (of_bytes (serialize value));
  failed ← verdict (bool_decide (hash value = hash check_value));
  match failed with
  | Some code => mret (Some code)
  | None => check_json_serialization hash value name
  end.

(** One check after the other, until one ends the program. *)
Fixpoint run_checks (checks : list (cli_prog (option Z))) : cli_prog (option Z) :=
  match checks with
  | [] => mret None
  | check :: rest =>
      exit ← check;
      match exit with Some code => mret (Some code) | None => run_checks rest end
  end.

(** The structures in the order of the program.  The key and the signature are
    random; [now] is what a peer takes for the time it was seen; the two
    addresses are constructed from their text, which throws when it is not one. *)
Section Structures.
Context {IP : IPParser}.
Variables (random_point : crypto_public_key_t) (random_signature : crypto_signature_t).
Variables (none : crypto_bulletproof_plus_t) (now : Z).

Definition first_block : block_t :=
  append_validator_signature random_point random_signature
    (set_producer random_point random_signature default_block).

Definition address_check (text name : string) : cli_prog (option Z) :=
  structure ← or_throw (ip_address_of_string text);
  check_binary_json_serialization ip_serialize ip_of_bytes ip_hash structure name.

Definition structure_checks : list (cli_prog (option Z)) :=
  [check_binary_json_serialization block_bytes block_of_bytes block_hash first_block "block_t[genesis]";
   check_binary_json_serialization block_bytes block_of_bytes block_hash default_block "block_t[staker_reward]";
   check_binary_json_serialization genesis_serialize genesis_of_bytes genesis_hash default_genesis
     "genesis_transaction_t";
   check_binary_json_serialization staker_serialize staker_of_bytes staker_hash default_staker_transaction
     "staker_transaction_t";
   check_binary_json_serialization uncommitted_normal_serialize uncommitted_normal_of_bytes uncommitted_normal_hash
     (default_uncommitted_normal none) "uncommited_normal_transaction_t";
   check_binary_json_serialization committed_normal_serialize committed_normal_of_bytes committed_normal_hash
     default_committed_normal "committed_normal_transaction_t";
   check_binary_json_serialization uncommitted_stake_serialize uncommitted_stake_of_bytes uncommitted_stake_hash
     (default_uncommitted_stake none) "uncommitted_stake_transaction_t";
   check_binary_json_serialization committed_stake_serialize committed_stake_of_bytes committed_stake_hash
     default_committed_stake "committed_stake_transaction_t";
   check_binary_json_serialization uncommitted_recall_serialize uncommitted_recall_of_bytes uncommitted_recall_hash
     (default_uncommitted_recall none) "uncommitted_recall_stake_transaction_t";
   check_binary_json_serialization committed_recall_serialize committed_recall_of_bytes committed_recall_hash
     default_committed_recall "committed_recall_stake_transaction_t";
   check_binary_json_serialization refund_serialize refund_of_bytes refund_hash default_refund
     "stake_refund_transaction_t";
   check_binary_json_serialization TransactionOutput_serialize TransactionOutput_of_bytes TransactionOutput_hash
     default_transaction_output "transaction_output_t";
   check_binary_json_serialization StakerOutput_serialize StakerOutput_of_bytes StakerOutput_hash
     default_staker_output "staker_output_t";
   check_binary_json_serialization candidate_serialize candidate_of_bytes candidate_hash default_candidate
     "candidate_node_t";
   check_binary_json_serialization stake_serialize stake_of_bytes stake_hash default_stake "stake_t";
   check_binary_json_serialization data_serialize data_of_bytes data_hash new_data "packet_data_t";
   check_binary_json_serialization handshake_serialize handshake_of_bytes handshake_hash default_handshake
     "packet_handshake_t";
   check_binary_json_serialization keepalive_serialize keepalive_of_bytes keepalive_hash default_keepalive
     "packet_keepalive_t";
   check_binary_json_serialization exchange_serialize exchange_of_bytes exchange_hash default_exchange
     "packet_peer_exchange_t";
   check_binary_json_serialization peer_serialize peer_of_bytes peer_hash (default_peer now) "network_peer_t";
   address_check "255.255.255.255" "ip_address_t[v4]";
   address_check "1234:1234:1234:1234:1234:1234:1234:1234" "ip_address_t[v6]"].

Definition structures_main (argv : list string) : cli_prog Z :=
  exit ← parse argv;
  match exit with
  | Some code => mret code
  | None =>
      cli_print [Str (to_chars "Data Structures Tests"); Endl; Endl];;
      exit ← run_checks structure_checks;
      match exit with
      | Some code => mret code
      | None => cli_print [Endl];; mret 0
      end
  end.
End Structures.
End Checks.

(** ** [address.cpp] and [aes.cpp]

    What they write to the log is left out. *)

Section KeyTests.
Context {CL : CryptoLib} {M : MDB} {O : MDBOpen M} {C : CliLib M}.

Notation cli_prog := (prog CLIHelper).

Definition v1_address : string :=
  "TRTLv1QeF7jjfjnbs4nY1WMYifTnJyVpX9fosdPiP6hEJY7Mz1Z9Bfk424C6DXbebyVD5wD9prpwJQhAMMgtAzFEPVvVd9ijAk2".

(** The two keys of the wallet come from the cryptography library. *)
Definition address_main (public_spend public_view : crypto_public_key_t) (argv : list string) : cli_prog Z :=
  exit ← parse argv;
  match exit with
  | Some code => mret code
  | None =>
      let address := encode public_spend public_view in
      let '(error, spend, view) := decode address in
      if is_error error || negb (bool_decide (spend = public_spend)) || negb (bool_decide (view = public_view))
      then mret 1
      else
        let '(error, _, _) := decode v1_address in
        if negb (is_error error) then mret 1 else mret 0
  end.

(** The clear text and the passwords are random hashes. *)
Definition aes_main `{AesLib} (hash password wrong_password : string) (argv : list string) : cli_prog Z :=
  exit ← parse argv;
  match exit with
  | Some code => mret code
  | None =>
      encrypted ← or_throw (encrypt_default hash password);
      let '(error, decrypted) := decrypt_default encrypted password in
      if is_error (m_error_code error) then mret 1
      else if negb (bool_decide (decrypted = hash)) then mret 1
      else
        let '(error, _) := decrypt_default encrypted wrong_password in
        if negb (is_error (m_error_code error)) then mret 1 else mret 0
  end.
End KeyTests.

(** ** Theorems *)

Section SelfTestFacts.
Context {CL : CryptoLib} {JL : JsonLib} {IP : IPParser} {M : MDB} {O : MDBOpen M} {C : CliLib M}.
Context {Codec : CodecLaws CL} {Laws : JsonLaws JL} {IPL : IPParserLaws IP}.

Notation cli_prog := (prog CLIHelper).

Definition more_printed (out : list token) (s : CLIHelper) : CLIHelper :=
  mk_CLIHelper (m_options s) (m_log_level s) (m_parse_result s) (cli_out s ++ out).

(** A check that passes goes on, whatever was printed before. *)
Definition goes_on (m : cli_prog (option Z)) : Prop :=
  forall s, exists out, m s = Returned None (more_printed out s).

Lemma passed_spec s :
  verdict true s = Returned None (more_printed [Str (to_chars "Passed"); Endl] s).
Proof using. done. Qed.

Lemma more_printed_app out1 out2 s : more_printed out2 (more_printed out1 s) = more_printed (out1 ++ out2) s.
Proof using. unfold more_printed. cbn. by rewrite app_assoc. Qed.

Lemma json_check_goes_on {T} `{IJson T} (hash : T -> crypto_hash_t) x name :
  document (toJSON x) ≫= fromJSON = Some x -> goes_on (check_json_serialization hash x name).
Proof using.
  intros Hj s. eexists. unfold check_json_serialization, mbind at 1, prog_bind. cbn [cli_print].
  rewrite Hj, bool_decide_eq_true_2 by done.
  change (mk_CLIHelper _ _ _ _) with (more_printed (checking name "JSON") s).
  by rewrite passed_spec, more_printed_app.
Qed.

Lemma check_goes_on {T} `{IJson T} w of_bytes (hash : T -> crypto_hash_t) x name :
  of_bytes (w x) = Some x -> document (toJSON x) ≫= fromJSON = Some x ->
  goes_on (check_binary_json_serialization w of_bytes hash x name).
Proof using.
  intros Hb Hj s. pose proof (json_check_goes_on hash x name Hj) as Hgo.
  unfold check_binary_json_serialization, mbind, prog_bind. unfold cli_print at 1. cbv beta iota.
  change (mk_CLIHelper _ _ _ _) with (more_printed (checking name "binary") s).
  rewrite Hb. cbn [or_throw]. unfold mret, prog_ret at 1. cbv beta iota.
  rewrite bool_decide_eq_true_2 by done. rewrite passed_spec, more_printed_app.
  destruct (Hgo (more_printed (checking name "binary" ++ [Str (to_chars "Passed"); Endl]) s)) as [out E].
  rewrite E. eexists. by rewrite more_printed_app.
Qed.

Lemma run_checks_go_on checks : Forall goes_on checks -> goes_on (run_checks checks).
Proof using.
  induction 1 as [|m rest Hm _ IH]; intros s; cbn.
  - exists []. unfold more_printed. rewrite app_nil_r. by destruct s.
  - destruct (Hm s) as [out1 E1]. destruct (IH (more_printed out1 s)) as [out2 E2].
    exists (out1 ++ out2). unfold mbind, prog_bind. by rewrite E1, E2, more_printed_app.
Qed.

(** From the round trips of a type. *)
Lemma structure_goes_on {T} `{IJson T} (wf jwf : T -> Prop) w (rd : reader T) (hash : T -> crypto_hash_t) x name :
  (forall x r, wf x -> rd (w x ++ r) = Some (x, r)) -> JsonRoundTrip T jwf -> wf x -> jwf x ->
  goes_on (check_binary_json_serialization w (from_bytes rd) hash x name).
Proof using.
  intros Hrt Hj Hx Hjx. apply check_goes_on.
  - pose proof (from_bytes_back wf w rd Hrt x [] Hx) as Hb. by rewrite app_nil_r in Hb.
  - by apply (reads_back (wf := jwf)), Hjx.
Qed.

(** What the program relies on: keys that are not the neutral ones, a time that
    fits, and a parser that reads the two addresses, and the printed forms of
    them and of the empty one, as they are. *)
Record good_values (random_point : crypto_public_key_t) (random_signature : crypto_signature_t) (now : Z) : Prop := {
  good_point : random_point <> crypto_Z;
  good_signature : key_empty random_signature = false;
  good_time : u64 now;
  good_default : ip_json_wf ip_default;
  good_addresses : forall text, text ∈ ["255.255.255.255"; "1234:1234:1234:1234:1234:1234:1234:1234"]%string ->
    exists a, ip_address_of_string text = Some a /\ ip_wf a /\ ip_json_wf a
}.

(** The default structures are well formed. *)
#[local] Ltac well_formed :=
  repeat split; try (first [done | by repeat constructor | unfold uintw, size_ok, uintw; cbn; lia]).

Lemma default_block_wf : block_wf default_block.
Proof using. constructor; well_formed. Qed.

Lemma first_block_members p sig :
  first_block p sig = set_validators [(p, sig)] (set_producer p sig default_block).
Proof using. done. Qed.

Lemma first_block_wf p sig now : good_values p sig now -> block_wf (first_block p sig).
Proof using.
  intros [Hp Hs _ _ _]. rewrite first_block_members.
  assert (Hh : has_producer (set_validators [(p, sig)] (set_producer p sig default_block)) = true).
  { unfold has_producer. cbn [set_validators set_producer producer_public_key producer_signature].
    by rewrite bool_decide_eq_false_2, Hs by done. }
  constructor; [..|by rewrite Hh| |]; well_formed.
Qed.

Lemma block_goes_on b name : block_wf b ->
  validator_signatures b = [] \/ validator_signatures b = [(producer_public_key b, producer_signature b)] ->
  goes_on (check_binary_json_serialization block_bytes block_of_bytes block_hash b name).
Proof using Codec Laws.
  intros Hwf Hv. apply check_goes_on.
  - pose proof (from_bytes_back _ _ _ block_roundtrip b [] Hwf) as Hb. by rewrite app_nil_r in Hb.
  - destruct (block_written b Hwf) as (v & Hw & Hf). change (toJSON b) with (block_toJSON b).
    rewrite (document_written _ _ Hw). cbn. rewrite Hf. f_equal. unfold json_validators.
    destruct b. cbn in *. by destruct Hv as [-> | ->].
Qed.

Lemma address_goes_on text name a : ip_address_of_string text = Some a -> ip_wf a -> ip_json_wf a ->
  goes_on (address_check text name).
Proof using Codec Laws IPL.
  intros E Hwf Hj s. unfold address_check, mbind, prog_bind. rewrite E. cbn [or_throw]. unfold mret, prog_ret.
  apply check_goes_on.
  - unfold ip_of_bytes, from_bytes. rewrite <- (app_nil_r (ip_serialize a)), ip_get_put by done. cbn.
    by rewrite (normalize_keeps_normalized a (proj1 Hwf)).
  - by apply (reads_back (H0 := ip_json)).
Qed.
Lemma ip_default_wf : ip_wf ip_default.
Proof using.
  split; [|done]. split; [apply repeat_length|]. split; [|split; [cbn; unfold uintw; lia|apply Z.land_0_l]].
  apply Forall_forall. intros z Hz. cbn in Hz. apply list_elem_of_In, repeat_spec in Hz. subst z. unfold uintw. lia.
Qed.

#[local] Ltac by_roundtrip rt js :=
  constructor; [eapply structure_goes_on; [exact rt|exact js|well_formed|well_formed]|].

Lemma structure_checks_go_on p sig none now :
  good_values p sig now -> Forall goes_on (structure_checks p sig none now).
Proof using Codec Laws IPL.
  intros Hgood. pose proof (first_block_wf _ _ _ Hgood) as Hfirst. destruct Hgood as [_ _ Hnow Hdefault Haddr].
  constructor; [by apply block_goes_on; [|right]|].
  constructor; [apply block_goes_on; [apply default_block_wf|by left]|].
  by_roundtrip genesis_roundtrip genesis_json. by_roundtrip staker_roundtrip staker_json.
  by_roundtrip uncommitted_normal_roundtrip uncommitted_normal_json.
  by_roundtrip committed_normal_roundtrip committed_normal_json.
  by_roundtrip uncommitted_stake_roundtrip uncommitted_stake_json.
  by_roundtrip committed_stake_roundtrip committed_stake_json.
  by_roundtrip uncommitted_recall_roundtrip uncommitted_recall_json.
  by_roundtrip committed_recall_roundtrip committed_recall_json.
  by_roundtrip refund_roundtrip refund_json.
  by_roundtrip TransactionOutput_roundtrip TransactionOutput_json.
  by_roundtrip StakerOutput_roundtrip StakerOutput_json.
  by_roundtrip candidate_roundtrip candidate_json. by_roundtrip stake_roundtrip stake_json.
  by_roundtrip data_roundtrip data_json. by_roundtrip handshake_roundtrip handshake_json.
  by_roundtrip keepalive_roundtrip keepalive_json. by_roundtrip exchange_roundtrip exchange_json.
  constructor.
  { eapply structure_goes_on; [exact peer_roundtrip|exact peer_json| |]; (split; [|split; [well_formed|done]]);
      [apply ip_default_wf|exact Hdefault]. }
  repeat (constructor; [match goal with |- goes_on (address_check ?t _) =>
    destruct (Haddr t ltac:(set_solver)) as (a & E & Hw & Hj); by eapply address_goes_on end|]).
  constructor.
Qed.

(** The structures test passes: when the command line lets it go on, every
    structure is read back from its bytes and its JSON with the hash it had, and
    the program ends with 0; otherwise with the code of the command line.  The
    only block with a validator has the key of its producer there, so that what
    [block_json_loses_validators] says of other blocks does not show. *)
Theorem structures_test_passes p sig none now argv s :
  good_values p sig now ->
  match parse argv s with
  | Returned (Some code) s1 => structures_main p sig none now argv s = Returned code s1
  | Returned None s1 => exists out, structures_main p sig none now argv s = Returned 0 (more_printed out s1)
  | _ => False
  end.
Proof using Codec Laws IPL.
  intros Hgood. pose proof (run_checks_go_on _ (structure_checks_go_on p sig none now Hgood)) as Hgo.
  destruct (parse_outcomes argv s) as [rest E]. cbv zeta in E.
  assert (Hp : exists code s1, parse argv s = Returned code s1)
    by (rewrite E; repeat case_match; by do 2 eexists).
  destruct Hp as (code & s1 & Hp). clear E. unfold structures_main, mbind, prog_bind. rewrite Hp.
  destruct code as [code|]; [done|]. unfold cli_print at 1. cbv beta iota.
  change (mk_CLIHelper _ _ _ _) with (more_printed [Str (to_chars "Data Structures Tests"); Endl; Endl] s1).
  destruct (Hgo (more_printed [Str (to_chars "Data Structures Tests"); Endl; Endl] s1)) as [out ->].
  rewrite more_printed_app. eexists. apply f_equal, more_printed_app.
Qed.

(** Decoding is checked against encoding, and an address of the first version of
    the currency must be refused: the test passes exactly when it is. *)
Theorem address_test_outcome `{!Base58Laws CL} public_spend public_view argv s s1 :
  parse argv s = Returned None s1 ->
  address_main public_spend public_view argv s =
    Returned (if is_error (decode v1_address).1.1 then 0 else 1) s1.
Proof using Codec.
  intros Hp. unfold address_main, mbind, prog_bind. rewrite Hp.
  rewrite address_decoded. cbn [is_error orb]. rewrite !bool_decide_eq_true_2 by done. cbn [negb orb].
  destruct (decode v1_address) as [[e ?] ?]. cbn. by destruct (is_error e).
Qed.

(** The other password must not decrypt; an exception of the encryption ends the
    program. *)
Theorem aes_test_outcome {A : AesLib} {AL : AesLaws A} hash password wrong_password argv s s1 :
  parse argv s = Returned None s1 ->
  aes_main hash password wrong_password argv s =
    match encrypt_default hash password with
    | None => Thrown s1
    | Some encrypted =>
        Returned (if is_error (m_error_code (decrypt_default encrypted wrong_password).1) then 0 else 1) s1
    end.
Proof using.
  intros Hp. unfold aes_main, mbind, prog_bind. rewrite Hp.
  destruct (encrypt_default hash password) as [encrypted|] eqn:He; [|done]. cbn [or_throw].
  unfold mret, prog_ret. destruct (aes_decrypts hash password) as [Hd _]. destruct (Hd _ He) as [H1 H2].
  destruct (decrypt_default encrypted password) as [error decrypted]. cbn in H1, H2. rewrite H1, H2.
  rewrite bool_decide_eq_true_2 by done. cbn [negb].
  destruct (decrypt_default encrypted wrong_password) as [error' ?]. cbn [fst]. by destruct (is_error (m_error_code error')).
Qed.
End SelfTestFacts.

(** ** Samples and witnesses *)

Module SelfTestSamples.
#[local] Existing Instance toy_crypto.

(** A parser that knows the addresses of the test and their printed forms. *)
Definition v4 : ipv6_address_full_t Z := mk_ipv6 [0xffff; 0xffff; 0; 0; 0; 0; 0; 0] 8 0.
Definition v4_embedded : ipv6_address_full_t Z := mk_ipv6 [0; 0; 0; 0; 0; 0xffff; 0xffff; 0xffff] 4 0.
Definition v6 : ipv6_address_full_t Z := mk_ipv6 (repeat 0x1234 8) 0 0.
Definition unspecified : ipv6_address_full_t Z := mk_ipv6 (repeat 0 8) 0 0.

Definition known_texts : list (string * ipv6_address_full_t Z) :=
  [("255.255.255.255", v4); ("[::ffff:255.255.255.255]", v4_embedded);
   ("1234:1234:1234:1234:1234:1234:1234:1234", v6); ("[1234:1234:1234:1234:1234:1234:1234:1234]", v6);
   ("[::]", unspecified)]%string.

Definition known_ip : IPParser := {|
  ip_rest_t := Z; ip_rest_default := 0; ip_rest_port p := p;
  IPV6_NUM_COMPONENTS := 8; IPV4_NUM_COMPONENTS := 2; IPV4_EMBED_INDEX := 6;
  IPV6_FLAG_IPV4_COMPAT := 8; IPV6_FLAG_IPV4_EMBED := 4;
  str_to_ip s := snd <$> find (fun p => bool_decide (p.1 = s)) known_texts;
  ip_to_str a :=
    if ip_flags a =? 4 then Some "::ffff:255.255.255.255"%string
    else if bool_decide (components a = repeat 0 8) then Some "::"%string
    else Some "1234:1234:1234:1234:1234:1234:1234:1234"%string
|}.

Lemma known_ip_laws : IPParserLaws known_ip.
Proof.
  split; try done. intros s a Ha. cbn [str_to_ip known_ip] in Ha.
  destruct (find _ known_texts) as [[text a']|] eqn:E; [|done]. injection Ha as <-.
  apply find_some in E as [Hin _].
  assert (H : forallb (fun p => bool_decide (List.length (components p.2) = 8%nat) &&
    forallb (fun c => (0 <=? c) && (c <? 2 ^ 16)) (components p.2) &&
    (0 <=? ip_flags p.2) && (ip_flags p.2 <? 2 ^ 32)) known_texts = true) by (vm_compute; reflexivity).
  rewrite forallb_forall in H. specialize (H _ Hin). cbn in H.
  rewrite !andb_true_iff, bool_decide_eq_true, forallb_forall, Z.leb_le, Z.ltb_lt in H.
  destruct H as [[[Hl Hc] H0] H1]. split; [exact Hl|]. split; [|by split].
  apply Forall_forall. intros c Hc'. apply list_elem_of_In, Hc in Hc'.
  rewrite andb_true_iff, Z.leb_le, Z.ltb_lt in Hc'. exact Hc'.
Qed.
#[local] Existing Instance known_ip.

Lemma sample_values : good_values (CL := toy_crypto) x0a xf5 1633500000.
Proof.
  split.
  - done.
  - done.
  - unfold uintw. lia.
  - vm_compute. reflexivity.
  - intros text Ht. apply elem_of_cons in Ht as [-> | Ht]; [|apply list_elem_of_singleton in Ht as ->];
      (eexists; split; [vm_compute; reflexivity|]; split; [|vm_compute; reflexivity]).
    all: split; [|done]; split; [done|]; split; [|split; [unfold uintw; cbn; lia|done]].
    all: repeat (constructor; [unfold uintw; lia|]); constructor.
Qed.

Definition start : CLIHelper (C := SeedSamples.toy_cli) := new_CLIHelper (C := SeedSamples.toy_cli) "tests".

(** The exit codes of the structures test, evaluated. *)
Definition structures_exit (args : list string) : option Z :=
  observe id (structures_main (C := SeedSamples.toy_cli) x0a xf5 x00 1633500000 ("tests"%string :: args) start).

Example structures_test_runs : structures_exit [] = Some 0.
Proof. vm_compute. reflexivity. Qed.
Example structures_test_helps : structures_exit ["--help"%string] = Some 0.
Proof. vm_compute. reflexivity. Qed.
Example structures_test_refuses : structures_exit ["--loud"%string] = Some 1.
Proof. vm_compute. reflexivity. Qed.
End SelfTestSamples.

#[local] Existing Instance toy_crypto.
#[local] Existing Instance SelfTestSamples.known_ip.
#[local] Existing Instance SelfTestSamples.known_ip_laws.

Lemma structures_test_passes_witness :
  exists out s1, structures_main (C := SeedSamples.toy_cli) x0a xf5 x00 1633500000 ["tests"%string]
    SelfTestSamples.start = Returned 0 (more_printed out s1).
Proof.
  pose proof (structures_test_passes (CL := toy_crypto) (C := SeedSamples.toy_cli) x0a xf5 x00 1633500000
    ["tests"%string] SelfTestSamples.start SelfTestSamples.sample_values) as H.
  destruct (parse _ _) as [[code|] s1| | |] eqn:E; [|destruct H as [out H]; by exists out, s1|done..].
  discriminate E.
Defined.
