(* ===== verification/Services.v ===== *)
(** * The test services

    The threads of the programs in [src/src/tests] that are driven by hand:
    [zmq_server.cpp], which sends every message back to its sender,
    [zmq_client.cpp], which does the same, [zmq_publisher.cpp] and
    [zmq_subscriber.cpp].  A turn is the body of a thread's loop up to
    [thread_sleep]; what it writes to the log is left out.  Put together with the
    threads of the server of [Zmq.v] they show what an echo over the library's
    sockets does. *)

From S2P Require Import Prelude Errors Config CryptoLib Concrete Codec Packets Text Program Mdb.
From S2P Require Import Containers Upnp Zmq SelfTests.
From Stdlib Require Import Strings.Byte.

Section Services.
Context {CL : CryptoLib} {IP : IPParser} {Q : ZmqLib} {U : MiniUPnP}.

(** [msg.to = msg.from]. *)
Definition turned_around (msg : zmq_message_envelope_t) : zmq_message_envelope_t :=
  mk_envelope (env_from msg) (env_from msg) (env_subject msg) (env_peer_address msg) (env_payload msg).

Definition server_handler_turn (fuel : nat) : prog ZMQServer () :=
  while_loop fuel (empty ← server_messages queue_empty; mret (negb empty))
    (msg ← server_messages queue_pop; server_send (turned_around msg)).

Definition client_handler_turn (fuel : nat) : prog ZMQClient () :=
  while_loop fuel (empty ← client_messages queue_empty; mret (negb empty))
    (msg ← client_messages queue_pop; client_send (turned_around msg)).

(** The handshake that the client sends first, with ten empty peers seen
    [now]. *)
Definition client_greeting (now : Z) : packet_handshake_t :=
  mk_handshake (hs_base default_handshake) (hs_peer_id default_handshake) (hs_peer_port default_handshake)
    (hs_network_id default_handshake) (repeat (default_peer now) 10).

Definition client_sends_first (now : Z) : prog ZMQClient () :=
  client_send (envelope_payload (handshake_serialize (client_greeting now))).

Definition test_subject : string := "bf15572be229a849020316b597609fcaa30a5d0ad07048ba301d13e1ccdca90b".

(** The random hash is given. *)
Definition auto_sender_turn (hash : crypto_hash_t) : prog ZMQPublisher () :=
  let msg := envelope_payload (hash_data hash) in
  publisher_send (mk_envelope (env_to msg) (env_from msg) (hash_of_hex test_subject) (env_peer_address msg)
    (env_payload msg)).

Definition subscriber_handler_turn (fuel : nat) : prog ZMQSubscriber () :=
  while_loop fuel (empty ← subscriber_messages queue_empty; mret (negb empty))
    (msg ← subscriber_messages queue_pop; mret ()).

(** A turn of the server's handler and one of the sending thread. *)
Definition echo (fuel : nat) : prog ZMQServer () := server_handler_turn fuel;; server_outgoing_turn fuel.
End Services.

(** ** Lemmas *)

Section ServiceFacts.
Context {CL : CryptoLib} {IP : IPParser} {Q : ZmqLib} {U : MiniUPnP}.

#[local] Existing Instance key_eq_dec.

(** The messages that [send] takes, turned around. *)
Definition replies (ms : list zmq_message_envelope_t) : list zmq_message_envelope_t :=
  turned_around <$> filter (fun m => env_payload m <> []) ms.

#[local] Arguments replies : simpl never.

(** What of [ms] came from [to]. *)
Definition came_from (to : crypto_hash_t) (ms : list zmq_message_envelope_t) : list bytes :=
  env_payload <$> filter (fun m => env_payload m <> [] /\ env_from m = to) ms.

Lemma replies_cons m ms : replies (m :: ms) = (if nonempty_payload m then [turned_around m] else []) ++ replies ms.
Proof.
  unfold replies, nonempty_payload. rewrite filter_cons. by case_decide as H; case_bool_decide.
Qed.

Lemma replies_for to ms : Forall (fun m => key_empty (env_from m) = false) ms ->
  queued_for to (replies ms) = came_from to ms.
Proof.
  induction 1 as [|m ms Hm _ IH]; [done|]. rewrite replies_cons, queued_for_app, IH. unfold came_from.
  rewrite filter_cons. unfold nonempty_payload. case_bool_decide as Hp; cbn [negb app].
  - rewrite decide_False by tauto. done.
  - rewrite queued_for_one.
    assert (Hiff : is_for to (turned_around m) <-> env_payload m <> [] /\ env_from m = to).
    { unfold is_for. cbn [turned_around env_to env_payload]. rewrite Hm.
      split; [by intros [? [?|?]]|intros [? ?]; split; [done|by right]]. }
    destruct (decide (env_payload m <> [] /\ env_from m = to)) as [H|H].
    + by rewrite (decide_True (P := is_for _ _)) by tauto.
    + by rewrite (decide_False (P := is_for _ _)) by tauto.
Qed.

(** A loop that takes one message after the other over ends with each of them
    taken. *)
Lemma handles {S} (inbox : S -> list zmq_message_envelope_t) (step : zmq_message_envelope_t -> S -> S)
    (ok : S -> Prop) (condition : prog S bool) (body : prog S ()) fuel s :
  (forall s (P : bool -> S -> Prop) X, P (negb (bool_decide (inbox s = []))) s -> runs condition s P X) ->
  (forall m ms s (P : () -> S -> Prop) X, inbox s = m :: ms -> ok s -> P () (step m s) -> runs body s P X) ->
  (forall m s, inbox (step m s) = tail (inbox s)) -> (forall m s, ok s -> ok (step m s)) ->
  ok s -> (List.length (inbox s) < fuel)%nat ->
  runs (while_loop fuel condition body) s (fun _ s' => s' = fold_left (flip step) (inbox s) s) (fun _ => False).
Proof.
  intros Hc Hb Hin Hk. revert s. induction fuel as [|fuel IH]; intros s Hok Hf; [lia|].
  cbn [while_loop]. apply runs_bind, Hc. destruct (inbox s) as [|m ms] eqn:E; cbn [bool_decide negb].
  - by apply runs_ret.
  - apply runs_bind. eapply Hb; [done|done|]. eapply runs_conseq; [apply IH|].
    + by apply Hk.
    + rewrite Hin, E. cbn in *. lia.
    + cbn beta. intros _ s' ->. by rewrite Hin, E.
Qed.

(** The server with one more message turned around, and the client. *)
Definition server_turned (m : zmq_message_envelope_t) (s : ZMQServer) : ZMQServer :=
  mk_server (sv_port s) (sv_identity s) (sv_running s) (sv_socket s) (sv_connections s) (tail (sv_incoming s))
    (sv_outgoing s ++ replies [m]) (sv_upnp s) (sv_gateway s) (sv_monitor s).
Definition client_turned (m : zmq_message_envelope_t) (c : ZMQClient) : ZMQClient :=
  mk_client (cl_identity c) (cl_running c) (cl_socket c) (tail (cl_incoming c)) (cl_outgoing c ++ replies [m])
    (cl_monitor c).

Lemma replies_one m : replies [m] = if nonempty_payload m then [turned_around m] else [].
Proof. rewrite replies_cons. apply app_nil_r. Qed.

#[local] Ltac send_reply m HP :=
  cbn; unfold nonempty_payload in *; cbn [turned_around env_payload] in *;
  destruct (bool_decide (env_payload m = [])); cbn in *; rewrite ?app_nil_r in HP; exact HP.

Lemma server_handler_spec fuel s :
  sv_running s = true -> (List.length (sv_incoming s) < fuel)%nat ->
  runs (server_handler_turn fuel) s
    (fun _ s' => s' = fold_left (flip server_turned) (sv_incoming s) s) (fun _ => False).
Proof.
  apply (handles sv_incoming server_turned (fun s => sv_running s = true)); try done.
  - by intros [].
  - intros m ms [port id running socket conns incoming out upnp gw mon] P X Hin Hrun HP. cbn in Hin, Hrun. subst.
    unfold server_turned in HP. rewrite replies_one in HP. apply runs_bind, runs_zoom.
    unfold runs, server_send, mbind, prog_bind, get_state. cbn [env_payload sv_running]. send_reply m HP.
Qed.

Lemma client_handler_spec fuel c :
  cl_running c = true -> (List.length (cl_incoming c) < fuel)%nat ->
  runs (client_handler_turn fuel) c
    (fun _ c' => c' = fold_left (flip client_turned) (cl_incoming c) c) (fun _ => False).
Proof.
  apply (handles cl_incoming client_turned (fun c => cl_running c = true)); try done.
  - by intros [].
  - intros m ms [id running socket incoming out mon] P X Hin Hrun HP. cbn in Hin, Hrun. subst.
    unfold client_turned in HP. rewrite replies_one in HP. apply runs_bind, runs_zoom.
    unfold runs, client_send, mbind, prog_bind, get_state. cbn [env_payload cl_running]. send_reply m HP.
Qed.

Lemma server_turned_all ms s :
  sv_incoming s = ms ->
  fold_left (flip server_turned) ms s =
    mk_server (sv_port s) (sv_identity s) (sv_running s) (sv_socket s) (sv_connections s) []
      (sv_outgoing s ++ replies ms) (sv_upnp s) (sv_gateway s) (sv_monitor s).
Proof.
  revert s. induction ms as [|m ms IH]; intros [port id running socket conns incoming out upnp gw mon] Hin;
    cbn in Hin; subst; [unfold replies; cbn; by rewrite app_nil_r|].
  cbn [fold_left flip]. rewrite IH by done. cbn. by rewrite replies_one, (replies_cons m ms), <- app_assoc.
Qed.

Lemma client_turned_all ms c :
  cl_incoming c = ms ->
  fold_left (flip client_turned) ms c =
    mk_client (cl_identity c) (cl_running c) (cl_socket c) [] (cl_outgoing c ++ replies ms) (cl_monitor c).
Proof.
  revert c. induction ms as [|m ms IH]; intros [id running socket incoming out mon] Hin;
    cbn in Hin; subst; [unfold replies; cbn; by rewrite app_nil_r|].
  cbn [fold_left flip]. rewrite IH by done. cbn. by rewrite replies_one, (replies_cons m ms), <- app_assoc.
Qed.

(** ** Theorems *)

(** An echo server sends back everything that was received, in order, to nobody
    but the client it came from: a client that is registered is still registered
    afterwards exactly when it got all of its own messages back. *)
Theorem echo_sends_back `{!CodecLaws CL, !HashDataLaws CL} {R : ZmqRouting Q} fuel s :
  clients_ok s -> sv_running s = true -> sv_outgoing s = [] ->
  Forall (fun m => key_empty (env_from m) = false) (sv_incoming s) -> (List.length (sv_incoming s) < fuel)%nat ->
  runs (echo fuel) s
    (fun _ s' => sv_incoming s' = [] /\ sv_outgoing s' = [] /\ clients_ok s' /\
       exists log, routed (sv_socket s') = routed (sv_socket s) ++ log /\
         (forall to, sent_to to log `sublist_of` came_from to (sv_incoming s)) /\
         forall to, to ∈ (sv_connections s).*1 -> to ∈ (sv_connections s').*1 <-> sent_to to log = came_from to (sv_incoming s))
    (fun _ => False).
Proof.
  intros Hok Hrun Hout Hfrom Hf. unfold echo. apply runs_bind.
  eapply runs_conseq; [by eapply server_handler_spec|]. cbn beta. intros _ s1 ->.
  rewrite server_turned_all, Hout by done.
  eapply runs_conseq; [apply (server_outgoing_turn_spec fuel (replies (sv_incoming s))); try done|].
  - unfold replies. rewrite length_fmap.
    pose proof (length_filter (fun m => env_payload m <> []) (sv_incoming s)). lia.
  - cbn beta. intros _ s2 [Hout2 [Hok2 [Hin2 _] _ (log & Hlog & Hsub & Hkept)]].
    split; [done|]. split; [done|]. split; [done|]. exists log. split; [done|].
    split; intros to; rewrite <- (replies_for to _ Hfrom); [apply Hsub|apply Hkept].
Qed.

(** The test client turns around everything it received too. *)
Theorem client_sends_back fuel c :
  cl_running c = true -> (List.length (cl_incoming c) < fuel)%nat ->
  runs (client_handler_turn fuel) c
    (fun _ c' => cl_incoming c' = [] /\ cl_outgoing c' = cl_outgoing c ++ replies (cl_incoming c)) (fun _ => False).
Proof.
  intros Hrun Hf. eapply runs_conseq; [by apply client_handler_spec|]. cbn beta. intros _ c' ->.
  by rewrite client_turned_all.
Qed.

(** The subscriber's thread empties its queue. *)
Theorem subscriber_drains fuel b :
  (List.length (sb_incoming b) < fuel)%nat ->
  runs (subscriber_handler_turn fuel) b (fun _ b' => sb_incoming b' = []) (fun _ => False).
Proof.
  intros Hf. eapply runs_conseq.
  - apply (handles sb_incoming (fun _ b => mk_subscriber (sb_identity b) (sb_running b) (sb_socket b)
      (tail (sb_incoming b)) (sb_monitor b)) (fun _ => True)); try done; [by intros []|].
    intros m ms [id running socket incoming mon] P X Hin _ HP. cbn in Hin. by subst.
  - cbn beta. intros _ b' ->. clear Hf. remember (sb_incoming b) as ms eqn:E. symmetry in E. revert b E.
    induction ms as [|m ms IH]; intros b E; [done|]. cbn. apply IH. cbn. by rewrite E.
Qed.

(** What the publisher's thread makes is published under the subject of the
    test. *)
Theorem auto_sender_publishes {R : ZmqRouting Q} hash p :
  pb_running p = true -> pb_outgoing p = [] -> hash_data hash <> [] ->
  runs (auto_sender_turn hash;; publisher_outgoing_turn 2) p
    (fun _ p' => pb_outgoing p' = [] /\
       (routed (pb_socket p') = routed (pb_socket p) ++ [(hash_data (hash_of_hex test_subject), hash_data hash)] \/
        routed (pb_socket p') = routed (pb_socket p)))
    (fun _ => False).
Proof.
  destruct p as [port running socket out upnp gw mon]. cbn. intros -> -> Hne.
  pose proof (routed_parts (hash_data (hash_of_hex test_subject)) (hash_data hash) socket) as H.
  unfold runs, auto_sender_turn, publisher_send, nonempty_payload, mbind, prog_bind, get_state. cbn.
  rewrite bool_decide_eq_false_2 by done. cbn. unfold publisher_outgoing_message, nonempty_payload, mbind, prog_bind.
  cbn. rewrite bool_decide_eq_false_2 by done. cbn. unfold publisher_socket, zoom, send_parts. cbn.
  destruct (socket_send _ true socket) as [[] k]; cbn.
  - destruct (socket_send _ false k) as [[] k']; cbn; split; [done|by left|done|]. right. by rewrite H, app_nil_r.
  - split; [done|]. by right.
Qed.
End ServiceFacts.

(** ** A sample

    What the first client of the samples sent is back with it, in order; the
    second client, which cannot be reached, is not registered any more. *)

#[local] Existing Instance toy_crypto.
#[local] Existing Instance PacketSamples.toy_ip.
#[local] Existing Instance ZmqSamples.toy_zmq.
#[local] Existing Instance UpnpSamples.toy_upnp.

Definition from_client (client : crypto_hash_t (CryptoLib := toy_crypto)) (payload : bytes) : zmq_message_envelope_t :=
  mk_envelope key_default client key_default EmptyString payload.

Example echo_sample :
  observe (fun p => p)
    ((echo 4;; s ← get_state; mret (ZmqSamples.toy_sent (sv_socket s), (sv_connections s).*1))
       (mk_server 12897 (x05 : crypto_hash_t) true (sv_socket (ZmqSamples.server [] []))
          (sv_connections (ZmqSamples.server [] []))
          [from_client ZmqSamples.first_client [1]; from_client ZmqSamples.second_client [2];
           from_client ZmqSamples.first_client [3]]
          [] None ([] : list string) new_monitor)) =
  Some ([(hash_data ZmqSamples.first_client, [1]); (hash_data ZmqSamples.first_client, [3])],
        [ZmqSamples.first_client]).
Proof. vm_compute. reflexivity. Qed.
